(** * Course packaging: the archive packer and unpacker of the course editor

    A shallow embedding of [zipManager.zipCourse], [zipManager.unzipCourse],
    [resizeImageToSquare] (lib) and of the mascot editor's [handleFileChange] /
    [removePose] (EditorPage.tsx), over the data model of types.ts; and, around
    them, of [db.saveCourse] / [db.getCourse] (lib), of the handlers of the
    module list and of the quiz and cards editors (EditorPage.tsx), of the
    export dialogue (ExportSelectionModal.tsx, [handleConfirmExport] of the
    App) and of the score, the answers and the navigation of the student page
    (StudentPage.tsx).

    Conventions of the embedding.
    - A JavaScript string is its sequence of UTF-16 code units ([list N]);
      [str] turns an ASCII literal into such a sequence.
    - The TypeScript interfaces are records; the [Module] union is a record
      with a payload variant.  A value as the running program sees it (an
      object with its own properties in insertion order) is a [Value];
      [JSON.stringify] and [JSON.parse] connect [Value] with [JSON].
    - Browser objects that the code only passes around are kept abstract:
      the bytes of a blob are identified by what a decoder makes of them
      ([ImageBytes], [JsonText], [RawBytes]), a JSZip instance is the finite
      map from its file entry names to their bytes, and an archive file is
      the finite map from the names of the file entries it holds to their
      bytes, with the order of its entries left to the browser.
    - Effects ([URL.createObjectURL], [fetch], [console]) are threaded through
      an explicit [World]; awaited promises run to completion in program
      order, a rejected promise is a [Throw].  The reads of archive entries
      that unzipCourse starts together are the exception: they complete in
      an order that is left to the browser.
    - [Date.now()] reads a [Clock], the sequence of its readings; IndexedDB is
      the finite map from the names of the origin's databases to their
      object stores; React state is the argument and the result of a handler,
      which gives the value handed to the state setter. *)

From Stdlib Require Import NArith List String Ascii Bool Lia.
From stdpp Require Import base option list gmap strings pretty sorting.

Set Warnings "-register-all".
Local Open Scope N_scope.
Local Open Scope list_scope.

(** ** Strings *)

Abbreviation jsstring := (list N).

Definition str (s : string) : jsstring :=
  map N_of_ascii (list_ascii_of_string s).
Arguments str : simpl never.

Definition jsstring_eqb (a b : jsstring) : bool := bool_decide (a = b).

(** ** JSON documents *)

Inductive JSON : Type :=
| JNull
| JBool (b : bool)
| JNum (repr : jsstring)       (* a number, by its Number::toString rendering *)
| JStr (s : jsstring)
| JArr (elems : list JSON)
| JObj (members : list (jsstring * JSON)).

(** ** Binary content *)

Record Raster := {
  raster_width : N;
  raster_height : N;
  raster_pixels : list N;
}.

Inductive Bytes : Type :=
| ImageBytes (mime : jsstring) (img : Raster)  (* an encoding of [img] in format [mime] *)
| JsonText (doc : JSON)                        (* UTF-8 text that JSON.parse reads as [doc] *)
| RawBytes (raw : list N).                     (* neither an image nor JSON text *)

(* Blob and File: a MIME type and the content. *)
Record Blob := {
  blob_type : jsstring;
  blob_bytes : Bytes;
}.

(** ** Runtime values *)

Inductive Value : Type :=
| VUndefined
| VNull
| VBool (b : bool)
| VNum (repr : jsstring)
| VStr (s : jsstring)
| VBlob (b : Blob)
| VArr (elems : list Value) (own : list (jsstring * Value))
| VObj (own : list (jsstring * Value)).

(** ** types.ts *)

Record QuizOption := {
  option_id : jsstring;
  option_text : jsstring;
}.

Record QuizQuestion := {
  question_id : jsstring;
  question_question : jsstring;
  question_options : list QuizOption;
  question_correctOptionId : jsstring;
  question_explanation : jsstring;
}.

Record Card := {
  card_id : jsstring;
  card_front : jsstring;
  card_back : jsstring;
}.

Record TimelineEvent := {
  event_id : jsstring;
  event_title : jsstring;
  event_date : jsstring;
  event_description : jsstring;
  event_imagePath : option jsstring;
}.

Record ExperimentStep := {
  step_id : jsstring;
  step_title : jsstring;
  step_description : jsstring;
  step_imagePath : option jsstring;
}.

Inductive VideoSource := SourceUrl | SourceUpload.

Inductive ModulePayload : Type :=
| TextModule (content : jsstring)
| VideoModule (source : VideoSource) (url filePath : option jsstring)
| QuizModule (questions : list QuizQuestion)
| CardsModule (cards : list Card)
| TimelineModule (events : list TimelineEvent)
| ExperimentModule (steps : list ExperimentStep).

(* BaseModule's [type] is the tag of the payload. *)
Record Module := {
  module_id : jsstring;
  module_title : jsstring;
  module_payload : ModulePayload;
}.

Record Theme := {
  primaryColor : jsstring;
  font : jsstring;
}.

Record CourseSettings := {
  courseName : jsstring;
  mascotName : option jsstring;
  school : jsstring;
  authors : jsstring;
  date : jsstring;
  description : jsstring;
  theme : Theme;
  language : jsstring;
  mascotEnabled : bool;
  showScore : bool;
}.

Inductive MediaType := MediaImage | MediaVideo | MediaAudio.

Record MediaFile := {
  media_id : jsstring;
  media_name : jsstring;
  media_path : jsstring;
  media_type : MediaType;
  media_blobUrl : jsstring;
  media_file : option Blob;
}.

Record MascotPose := {
  pose_type : jsstring;
  pose_path : jsstring;
  pose_blobUrl : jsstring;
  pose_file : option Blob;
}.

Record Course := {
  course_id : jsstring;
  settings : CourseSettings;
  modules : list Module;
  media : list MediaFile;
  mascot : list MascotPose;
}.

(** ** Objects and their properties *)

Abbreviation Props := (list (jsstring * Value)).

Fixpoint lookup_prop (key : jsstring) (ps : Props) : option Value :=
  match ps with
  | [] => None
  | (k, v) :: rest => if jsstring_eqb k key then Some v else lookup_prop key rest
  end.

(* [o[key] = v] on the own properties: an existing key keeps its position. *)
Fixpoint assign_prop (key : jsstring) (v : Value) (ps : Props) : Props :=
  match ps with
  | [] => [(key, v)]
  | (k, x) :: rest =>
      if jsstring_eqb k key then (k, v) :: rest
      else (k, x) :: assign_prop key v rest
  end.

(* The part of an object left by a rest pattern [{k1, k2, ...rest}]. *)
Definition rest_props (excluded : list jsstring) (ps : Props) : Props :=
  List.filter (fun kv => negb (existsb (jsstring_eqb (fst kv)) excluded)) ps.

(* A property that is absent when the optional field is. *)
Definition optional_prop (key : jsstring) (o : option Value) : Props :=
  match o with
  | Some v => [(key, v)]
  | None => []
  end.

(** ** JSON.stringify and JSON.parse *)

(* SerializeJSONProperty: [None] is the [undefined] that makes the caller
   omit a member (or write null inside an array).  A Blob has no enumerable
   own property and serializes as an empty object; the non-index properties
   of an array are not serialized. *)
Fixpoint SerializeJSONProperty (v : Value) : option JSON :=
  match v with
  | VUndefined => None
  | VNull => Some JNull
  | VBool b => Some (JBool b)
  | VNum n => Some (JNum n)
  | VStr s => Some (JStr s)
  | VBlob _ => Some (JObj [])
  | VArr elems _ =>
      Some (JArr (map (fun x => default JNull (SerializeJSONProperty x)) elems))
  | VObj own =>
      Some (JObj
        ((fix members (ps : Props) : list (jsstring * JSON) :=
            match ps with
            | [] => []
            | (k, x) :: rest =>
                match SerializeJSONProperty x with
                | Some j => (k, j) :: members rest
                | None => members rest
                end
            end) own))
  end.

Definition JSON_stringify (v : Value) : option JSON := SerializeJSONProperty v.

(* The value JSON.parse builds for a document. *)
Fixpoint of_json (j : JSON) : Value :=
  match j with
  | JNull => VNull
  | JBool b => VBool b
  | JNum n => VNum n
  | JStr s => VStr s
  | JArr elems => VArr (map of_json elems) []
  | JObj members =>
      VObj ((fix props (ms : list (jsstring * JSON)) : Props :=
               match ms with
               | [] => []
               | (k, x) :: rest => (k, of_json x) :: props rest
               end) members)
  end.

(* JSON.parse on the text of an archive entry; [None] is a SyntaxError. *)
Definition JSON_parse (text : Bytes) : option Value :=
  match text with
  | JsonText doc => Some (of_json doc)
  | _ => None
  end.

(* Values that JSON.stringify writes in full: no [undefined], no Blob, no
   array with properties besides its elements. *)
Fixpoint plain (v : Value) : bool :=
  match v with
  | VUndefined | VBlob _ => false
  | VNull | VBool _ | VNum _ | VStr _ => true
  | VArr elems own =>
      forallb plain elems && match own with [] => true | _ => false end
  | VObj own => forallb (fun kv => plain (snd kv)) own
  end.

(** ** The interfaces of types.ts as runtime objects

    Keys are in the order the interface declares them; an optional field that
    is absent contributes no property. *)

Definition QuizOption_object (o : QuizOption) : Value :=
  VObj [(str "id", VStr (option_id o)); (str "text", VStr (option_text o))].

Definition QuizQuestion_object (q : QuizQuestion) : Value :=
  VObj [(str "id", VStr (question_id q));
        (str "question", VStr (question_question q));
        (str "options", VArr (map QuizOption_object (question_options q)) []);
        (str "correctOptionId", VStr (question_correctOptionId q));
        (str "explanation", VStr (question_explanation q))].

Definition Card_object (c : Card) : Value :=
  VObj [(str "id", VStr (card_id c));
        (str "front", VStr (card_front c));
        (str "back", VStr (card_back c))].

Definition TimelineEvent_object (e : TimelineEvent) : Value :=
  VObj ([(str "id", VStr (event_id e));
         (str "title", VStr (event_title e));
         (str "date", VStr (event_date e));
         (str "description", VStr (event_description e))]
        ++ optional_prop (str "imagePath") (VStr <$> event_imagePath e)).

Definition ExperimentStep_object (s : ExperimentStep) : Value :=
  VObj ([(str "id", VStr (step_id s));
         (str "title", VStr (step_title s));
         (str "description", VStr (step_description s))]
        ++ optional_prop (str "imagePath") (VStr <$> step_imagePath s)).

Definition VideoSource_tag (s : VideoSource) : jsstring :=
  match s with
  | SourceUrl => str "url"
  | SourceUpload => str "upload"
  end.

Definition ModuleType_tag (p : ModulePayload) : jsstring :=
  match p with
  | TextModule _ => str "text"
  | VideoModule _ _ _ => str "video"
  | QuizModule _ => str "quiz"
  | CardsModule _ => str "cards"
  | TimelineModule _ => str "timeline"
  | ExperimentModule _ => str "experiment"
  end.

Definition ModulePayload_props (p : ModulePayload) : Props :=
  match p with
  | TextModule content => [(str "content", VStr content)]
  | VideoModule source url filePath =>
      [(str "source", VStr (VideoSource_tag source))]
      ++ optional_prop (str "url") (VStr <$> url)
      ++ optional_prop (str "filePath") (VStr <$> filePath)
  | QuizModule questions =>
      [(str "questions", VArr (map QuizQuestion_object questions) [])]
  | CardsModule cards => [(str "cards", VArr (map Card_object cards) [])]
  | TimelineModule events =>
      [(str "events", VArr (map TimelineEvent_object events) [])]
  | ExperimentModule steps =>
      [(str "steps", VArr (map ExperimentStep_object steps) [])]
  end.

Definition Module_object (m : Module) : Value :=
  VObj ([(str "id", VStr (module_id m));
         (str "title", VStr (module_title m));
         (str "type", VStr (ModuleType_tag (module_payload m)))]
        ++ ModulePayload_props (module_payload m)).

Definition Theme_object (t : Theme) : Value :=
  VObj [(str "primaryColor", VStr (primaryColor t)); (str "font", VStr (font t))].

Definition CourseSettings_object (s : CourseSettings) : Value :=
  VObj ([(str "courseName", VStr (courseName s))]
        ++ optional_prop (str "mascotName") (VStr <$> mascotName s)
        ++ [(str "school", VStr (school s));
            (str "authors", VStr (authors s));
            (str "date", VStr (date s));
            (str "description", VStr (description s));
            (str "theme", Theme_object (theme s));
            (str "language", VStr (language s));
            (str "mascotEnabled", VBool (mascotEnabled s));
            (str "showScore", VBool (showScore s))]).

Definition MediaType_tag (t : MediaType) : jsstring :=
  match t with
  | MediaImage => str "image"
  | MediaVideo => str "video"
  | MediaAudio => str "audio"
  end.

Definition MediaFile_props (m : MediaFile) : Props :=
  [(str "id", VStr (media_id m));
   (str "name", VStr (media_name m));
   (str "path", VStr (media_path m));
   (str "type", VStr (MediaType_tag (media_type m)));
   (str "blobUrl", VStr (media_blobUrl m))]
  ++ optional_prop (str "file") (VBlob <$> media_file m).

Definition MascotPose_props (p : MascotPose) : Props :=
  [(str "type", VStr (pose_type p));
   (str "path", VStr (pose_path p));
   (str "blobUrl", VStr (pose_blobUrl p))]
  ++ optional_prop (str "file") (VBlob <$> pose_file p).

Definition Course_props (c : Course) : Props :=
  [(str "id", VStr (course_id c));
   (str "settings", CourseSettings_object (settings c));
   (str "modules", VArr (map Module_object (modules c)) []);
   (str "media", VArr (map (fun m => VObj (MediaFile_props m)) (media c)) []);
   (str "mascot", VArr (map (fun p => VObj (MascotPose_props p)) (mascot c)) [])].

(** ** String operations used for the export name of the mascot *)

(* ECMAScript WhiteSpace and LineTerminator code units: what [trim] strips. *)
Definition isWhiteSpace (c : N) : bool :=
  existsb (N.eqb c)
    [0x9; 0xA; 0xB; 0xC; 0xD; 0x20; 0xA0; 0x1680; 0x2028; 0x2029; 0x202F;
     0x205F; 0x3000; 0xFEFF]
  || ((0x2000 <=? c) && (c <=? 0x200A)).

Fixpoint trimStart (s : jsstring) : jsstring :=
  match s with
  | [] => []
  | c :: rest => if isWhiteSpace c then trimStart rest else s
  end.

Definition trimEnd (s : jsstring) : jsstring := reverse (trimStart (reverse s)).

Definition trim (s : jsstring) : jsstring := trimEnd (trimStart s).

(* The class [a-zA-Z0-9]. *)
Definition isAlnum (c : N) : bool :=
  ((0x61 <=? c) && (c <=? 0x7A))
  || ((0x41 <=? c) && (c <=? 0x5A))
  || ((0x30 <=? c) && (c <=? 0x39)).

Definition underscore : N := 0x5F.

(* [s.replace(/[^a-zA-Z0-9]/g, '_')] *)
Definition replace_non_alnum (s : jsstring) : jsstring :=
  map (fun c => if isAlnum c then c else underscore) s.

(* [x || fallback] on strings: the empty string is falsy. *)
Definition or_default (x fallback : jsstring) : jsstring :=
  match x with
  | [] => fallback
  | _ => x
  end.

(* [course.settings.mascotName?.trim().replace(/[^a-zA-Z0-9]/g, '_') || 'mascot'] *)
Definition export_mascotName (course : Course) : jsstring :=
  match mascotName (settings course) with
  | Some name => or_default (replace_non_alnum (trim name)) (str "mascot")
  | None => str "mascot"
  end.

(* [`mascot/${mascotName}_${pose.type}.png`] *)
Definition export_mascot_path (mascotName : jsstring) (pose : MascotPose) : jsstring :=
  str "mascot/" ++ mascotName ++ str "_" ++ pose_type pose ++ str ".png".

(** ** The browser and the effects *)

Inductive Exn : Type :=
| Error (message : jsstring)
| TypeError
| SyntaxError.

Inductive Result (A : Type) : Type :=
| Ok (a : A)
| Throw (e : Exn).
Arguments Ok {A} a.
Arguments Throw {A} e.

Inductive LogLevel := LogWarn | LogError.

Record World := {
  object_urls : gmap jsstring Blob;     (* the blob URL store *)
  next_url : N;                         (* serial number of the next object URL *)
  console : list (LogLevel * jsstring); (* messages, oldest first *)
}.

(* What the embedding leaves to the browser. *)
Record Browser := {
  network : jsstring -> option Blob;     (* fetch of a URL outside the blob URL store *)
  image_format_supported : jsstring -> bool;
  context2d_available : bool;            (* whether getContext('2d') returns a context *)
  resample : Raster -> N -> N -> list N; (* the pixels drawImage writes for a target size *)
  encoder_succeeds : N -> N -> list N -> bool; (* whether toBlob hands over a blob *)
  entry_position : jsstring -> N;        (* where an archive file holds the entry of a
                                            name: loadAsync reads the entries by
                                            increasing position *)
  read_completes : nat -> N;             (* when the read of an archive entry completes,
                                            for the read that the callback at a place
                                            among those of unzipCourse starts: reads
                                            complete by increasing time *)
}.

Definition M (A : Type) : Type := World -> A * World.

Definition ret {A} (a : A) : M A := fun w => (a, w).

Definition bind {A B} (c : M A) (k : A -> M B) : M B :=
  fun w => let (a, w') := c w in k a w'.

Notation "'let*' x ':=' c 'in' k" := (bind c (fun x => k))
  (at level 10, x pattern, c at level 100, k at level 200).

(* [for (const x of l) { s = body(x, s) }] *)
Fixpoint for_of {A S} (body : A -> S -> M S) (l : list A) (s : S) : M S :=
  match l with
  | [] => ret s
  | x :: rest => let* s' := body x s in for_of body rest s'
  end.

Definition blob_url (n : N) : jsstring := str ("blob:" +:+ pretty n).

Definition createObjectURL (b : Blob) : M jsstring := fun w =>
  let url := blob_url (next_url w) in
  (url, {| object_urls := <[url := b]> (object_urls w);
           next_url := N.succ (next_url w);
           console := console w |}).

Definition revokeObjectURL (url : jsstring) : M unit := fun w =>
  (tt, {| object_urls := delete url (object_urls w);
          next_url := next_url w;
          console := console w |}).

Definition console_log (level : LogLevel) (message : jsstring) : M unit := fun w =>
  (tt, {| object_urls := object_urls w;
          next_url := next_url w;
          console := console w ++ [(level, message)] |}).

(** ** JSZip

    The file entries of an instance, by name.  The folder entries JSZip adds
    for the parents of a name are left out: [zip.file(name)] never returns a
    folder.  An instance keeps the name of a file as it is given.  An archive
    file is the map from the names of the file entries it holds to their
    bytes; [loadAsync] (below, with unzipCourse) reads them in the order of
    the file, renames each one and takes an entry whose name ends in a slash
    for a folder.  A name is stored in the file and read back from it code
    unit by code unit, as JSZip's own UTF-8 coder does in a browser. *)

Abbreviation Zip := (gmap jsstring Bytes).

(* [zip.file(name, data)] *)
Definition zip_file_add (name : jsstring) (data : Bytes) (zip : Zip) : Zip :=
  <[name := data]> zip.

(* [zip.file(name)] *)
Definition zip_file_get (name : jsstring) (zip : Zip) : option Bytes :=
  zip !! name.

(* What unzipCourse is handed: an archive file, or a file that JSZip cannot
   read, given by the message of the error loadAsync rejects with. *)
Inductive ArchiveFile : Type :=
| ZipFile (entries : Zip)
| OtherFile (message : jsstring).

(* [zip.generateAsync({ type: 'blob' })] *)
Definition generateAsync (zip : Zip) : ArchiveFile := ZipFile zip.

(* [file.async('blob')]: the entry's bytes in a blob without a MIME type. *)
Definition entry_blob (data : Bytes) : Blob :=
  {| blob_type := []; blob_bytes := data |}.

(* A promise of an async callback that has run to its first [await]: settled,
   or waiting for the bytes of an archive entry, with the rest of the
   callback. *)
Inductive Promise (A : Type) : Type :=
| Settled (a : A)
| Reading (file : Bytes) (resume : Blob -> M A).
Arguments Settled {A} a.
Arguments Reading {A} file resume.

Section Packaging.

Variable browser : Browser.

(* [fetch(url)] followed by [response.blob()]. *)
Definition fetch_blob (url : jsstring) : M (Result Blob) := fun w =>
  (match object_urls w !! url with
   | Some b => Ok b
   | None =>
       match network browser url with
       | Some b => Ok b
       | None => Throw TypeError
       end
   end, w).

(** ** resizeImageToSquare *)

Record Canvas := {
  canvas_width : N;
  canvas_height : N;
  canvas_bitmap : list N;
}.

(* The image an <img> element shows once [src] is set to [url]. *)
Definition load_image (url : jsstring) (w : World) : option Raster :=
  match object_urls w !! url with
  | Some {| blob_bytes := ImageBytes mime img |} =>
      if image_format_supported browser mime then Some img else None
  | _ => None
  end.

(* [ctx.clearRect(0, 0, w, h)] on the whole canvas. *)
Definition clearRect (c : Canvas) : Canvas :=
  {| canvas_width := canvas_width c;
     canvas_height := canvas_height c;
     canvas_bitmap := [] |}.

(* [ctx.drawImage(img, 0, 0, w, h)] with the size of the canvas. *)
Definition drawImage (img : Raster) (c : Canvas) : Canvas :=
  {| canvas_width := canvas_width c;
     canvas_height := canvas_height c;
     canvas_bitmap := resample browser img (canvas_width c) (canvas_height c) |}.

(* [canvas.toBlob(callback, mime)]: the blob passed to the callback, or null. *)
Definition toBlob (c : Canvas) (mime : jsstring) : option Blob :=
  if encoder_succeeds browser (canvas_width c) (canvas_height c) (canvas_bitmap c)
  then Some {| blob_type := mime;
               blob_bytes := ImageBytes mime
                 {| raster_width := canvas_width c;
                    raster_height := canvas_height c;
                    raster_pixels := canvas_bitmap c |} |}
  else None.

Definition resizeImageToSquare (blobOrFile : Blob) : M (Result Blob) :=
  let* url := createObjectURL blobOrFile in
  fun w =>
  match load_image url w with
  | Some img =>
      (* img.onload *)
      let canvas := {| canvas_width := 1500; canvas_height := 1500; canvas_bitmap := [] |} in
      if negb (context2d_available browser) then
        (let* _ := revokeObjectURL url in
         ret (Throw (Error (str "Could not get canvas context")))) w
      else
        let canvas := clearRect canvas in
        let canvas := drawImage img canvas in
        match toBlob canvas (str "image/png") with
        | Some blob =>
            (let* _ := revokeObjectURL url in ret (Ok blob)) w
        | None =>
            (let* _ := revokeObjectURL url in
             ret (Throw (Error (str "Canvas conversion failed")))) w
        end
  | None =>
      (* img.onerror *)
      (let* _ := revokeObjectURL url in
       ret (Throw (Error (str "Image load failed")))) w
  end.

(** ** zipManager.zipCourse *)

Definition with_modules (c : Course) (ms : list Module) : Course :=
  {| course_id := course_id c; settings := settings c; modules := ms;
     media := media c; mascot := mascot c |}.

Definition with_mascot (c : Course) (ps : list MascotPose) : Course :=
  {| course_id := course_id c; settings := settings c; modules := modules c;
     media := media c; mascot := ps |}.

Definition with_path (p : MascotPose) (path : jsstring) : MascotPose :=
  {| pose_type := pose_type p; pose_path := path;
     pose_blobUrl := pose_blobUrl p; pose_file := pose_file p |}.

(* [ids.includes(id)] *)
Definition includes (ids : list jsstring) (id : jsstring) : bool :=
  existsb (jsstring_eqb id) ids.

(* The course value written to the document: modules filtered, mascot paths
   renamed (lines 452-467 of zipCourse). *)
Definition courseToSave (course : Course) (moduleIdsToInclude : option (list jsstring)) : Course :=
  let courseToSave := course in
  let courseToSave :=
    with_modules courseToSave
      match moduleIdsToInclude with
      | Some ids => List.filter (fun m => includes ids (module_id m)) (modules courseToSave)
      | None => modules courseToSave
      end in
  let mascotName := export_mascotName course in
  with_mascot courseToSave
    (map (fun pose =>
            let newPath := export_mascot_path mascotName pose in
            with_path pose newPath)
         (mascot courseToSave)).

Definition transient_keys : list jsstring := [str "file"; str "blobUrl"].

(* [({file, blobUrl, ...rest}) => rest] *)
Definition strip_transient (ps : Props) : Value := VObj (rest_props transient_keys ps).

(* [{ ...courseToSave, media: cleanMedia, mascot: cleanMascot }] *)
Definition cleanCourse (courseToSave : Course) : Value :=
  let cleanMedia := map (fun item => strip_transient (MediaFile_props item)) (media courseToSave) in
  let cleanMascot := map (fun item => strip_transient (MascotPose_props item)) (mascot courseToSave) in
  VObj (assign_prop (str "mascot") (VArr cleanMascot [])
         (assign_prop (str "media") (VArr cleanMedia [])
           (Course_props courseToSave))).

(* The text handed to [zip.file('curso.json', ...)]. *)
Definition document (course : Course) (moduleIdsToInclude : option (list jsstring)) : option JSON :=
  JSON_stringify (cleanCourse (courseToSave course moduleIdsToInclude)).

(* [zip.file(name, text)] with the result of JSON.stringify; JSZip stores an
   empty file when handed [undefined]. *)
Definition zip_file_add_json (name : jsstring) (text : option JSON) (zip : Zip) : Zip :=
  match text with
  | Some doc => zip_file_add name (JsonText doc) zip
  | None => zip_file_add name (RawBytes []) zip
  end.

(* Body of the loop over [courseToSave.media]. *)
Definition add_media_file (item : MediaFile) (zip : Zip) : M Zip :=
  match media_file item with
  | Some file => ret (zip_file_add (media_path item) (blob_bytes file) zip)
  | None =>
      let* response := fetch_blob (media_blobUrl item) in
      match response with
      | Ok blob => ret (zip_file_add (media_path item) (blob_bytes blob) zip)
      | Throw e =>
          let* _ := console_log LogWarn (str "Could not fetch blob for " ++ media_path item) in
          ret zip
      end
  end.

(* The content of a mascot pose: its file, or else what its blob URL yields. *)
Definition mascot_content (item : MascotPose) : M (option Blob) :=
  match pose_file item with
  | Some file => ret (Some file)
  | None =>
      let* response := fetch_blob (pose_blobUrl item) in
      match response with
      | Ok blob => ret (Some blob)
      | Throw e =>
          let* _ := console_log LogWarn (str "Could not fetch blob for mascot " ++ pose_path item) in
          ret None
      end
  end.

(* Body of the loop over [courseToSave.mascot]. *)
Definition add_mascot_file (item : MascotPose) (zip : Zip) : M Zip :=
  let* content := mascot_content item in
  match content with
  | Some content =>
      let* resized := resizeImageToSquare content in
      match resized with
      | Ok resizedBlob => ret (zip_file_add (pose_path item) (blob_bytes resizedBlob) zip)
      | Throw e =>
          let* _ := console_log LogError (str "Failed to resize mascot " ++ pose_type item) in
          ret (zip_file_add (pose_path item) (blob_bytes content) zip)
      end
  | None => ret zip
  end.

Definition zipCourse_entries (course : Course) (moduleIdsToInclude : option (list jsstring)) : M Zip :=
  let zip : Zip := ∅ in
  let courseToSave := courseToSave course moduleIdsToInclude in
  let zip := zip_file_add_json (str "curso.json") (document course moduleIdsToInclude) zip in
  let* zip := for_of add_media_file (media courseToSave) zip in
  let* zip := for_of add_mascot_file (mascot courseToSave) zip in
  ret zip.

Definition zipCourse (course : Course) (moduleIdsToInclude : option (list jsstring)) : M ArchiveFile :=
  let* zip := zipCourse_entries course moduleIdsToInclude in
  ret (generateAsync zip).

(** ** Property access on parsed documents

    [JSON.parse] returns [any]: unzipCourse reads and writes properties of
    whatever the document holds.  The keys it reads ([media], [mascot],
    [path]) are defined by no built-in prototype and are no array index, so a
    read finds an own property or [undefined]. *)

Definition get_prop (v : Value) (key : jsstring) : Result Value :=
  match v with
  | VUndefined | VNull => Throw TypeError
  | VObj own | VArr _ own => Ok (default VUndefined (lookup_prop key own))
  | VBool _ | VNum _ | VStr _ | VBlob _ => Ok VUndefined
  end.

(* [v[key] = x] in module (strict) code: a primitive base throws.  A Blob
   would take the property; no Blob occurs in a parsed document. *)
Definition set_prop (v : Value) (key : jsstring) (x : Value) : Result Value :=
  match v with
  | VObj own => Ok (VObj (assign_prop key x own))
  | VArr elems own => Ok (VArr elems (assign_prop key x own))
  | VBlob b => Ok (VBlob b)
  | VUndefined | VNull | VBool _ | VNum _ | VStr _ => Throw TypeError
  end.

(* The elements [v.map(...)] iterates over; calling [map] on anything but an
   array (or on an array whose own [map] shadows the method) throws. *)
Definition array_elems (v : Value) : Result (list Value) :=
  match v with
  | VArr elems own =>
      match lookup_prop (str "map") own with
      | None => Ok elems
      | Some _ => Throw TypeError
      end
  | _ => Throw TypeError
  end.

Definition rbind {A B} (r : Result A) (k : A -> Result B) : Result B :=
  match r with
  | Ok a => k a
  | Throw e => Throw e
  end.

Fixpoint join (sep : jsstring) (parts : list jsstring) : jsstring :=
  match parts with
  | [] => []
  | [p] => p
  | p :: rest => p ++ sep ++ join sep rest
  end.

Fixpoint sequence_results {A} (rs : list (Result A)) : Result (list A) :=
  match rs with
  | [] => Ok []
  | Ok a :: rest => rbind (sequence_results rest) (fun l => Ok (a :: l))
  | Throw e :: _ => Throw e
  end.

(* The string JSZip concatenates to its root when handed [v] as a name. *)
Fixpoint ToString (v : Value) : Result jsstring :=
  match v with
  | VUndefined => Ok (str "undefined")
  | VNull => Ok (str "null")
  | VBool true => Ok (str "true")
  | VBool false => Ok (str "false")
  | VNum repr => Ok repr
  | VStr s => Ok s
  | VBlob _ => Ok (str "[object Blob]")
  | VArr elems own =>
      match lookup_prop (str "toString") own, lookup_prop (str "join") own with
      | Some _, _ => Throw TypeError
      | None, Some _ => Ok (str "[object Array]")
      | None, None =>
          rbind
            (sequence_results
               (map (fun x => match x with
                              | VUndefined | VNull => Ok []
                              | _ => ToString x
                              end) elems))
            (fun parts => Ok (join (str ",") parts))
      end
  | VObj own =>
      match lookup_prop (str "toString") own with
      | Some _ => Throw TypeError
      | None => Ok (str "[object Object]")
      end
  end.

(* [Promise.all]: the values in the order of the promises, or a rejection. *)
Definition Promise_all {A} (settled : list (Result A)) : Result (list A) :=
  sequence_results settled.

(** ** JSZip.loadAsync *)

(* [s.split("/")], with the part read so far; 47 is the slash. *)
Fixpoint split_from (part s : jsstring) : list jsstring :=
  match s with
  | [] => [part]
  | c :: rest =>
      if c =? 47 then part :: split_from [] rest else split_from (part ++ [c]) rest
  end.

Definition split_slash (s : jsstring) : list jsstring := split_from [] s.

(* The loop of JSZip's [utils.resolve] from [index] on, where [last] is
   [parts.length - 1]: a [.] and an empty part that is neither the first nor
   the last are skipped, a [..] pops the result, any other part is pushed. *)
Fixpoint resolve_parts (parts : list jsstring) (index last : nat) (result : list jsstring)
    : list jsstring :=
  match parts with
  | [] => result
  | part :: rest =>
      resolve_parts rest (S index) last
        (if jsstring_eqb part (str ".")
            || (jsstring_eqb part [] && negb (index =? 0)%nat && negb (index =? last)%nat)
         then result
         else if jsstring_eqb part (str "..") then removelast result
         else result ++ [part])
  end.

(* JSZip's [utils.resolve(path)], the name loadAsync gives to an entry. *)
Definition resolve_name (path : jsstring) : jsstring :=
  let parts := split_slash path in
  join (str "/") (resolve_parts parts 0 (length parts - 1) []).

(* [fileNameStr.slice(-1) === "/"]: loadAsync takes the entry for a folder. *)
Definition is_folder_name (name : jsstring) : bool :=
  match last name with
  | Some c => c =? 47
  | None => false
  end.

(* A name that loadAsync keeps: it is no folder name and [utils.resolve]
   returns it as it is. *)
Definition plain_name (name : jsstring) : bool :=
  jsstring_eqb (resolve_name name) name && negb (is_folder_name name).

(* loadAsync reads one entry of the archive file. *)
Definition load_entry (zip : Zip) (entry : jsstring * Bytes) : Zip :=
  if is_folder_name (fst entry) then zip
  else zip_file_add (resolve_name (fst entry)) (snd entry) zip.

(* An entry that the archive file holds no later than another. *)
Definition entry_before (a b : jsstring * Bytes) : Prop :=
  entry_position browser (fst a) <= entry_position browser (fst b).

#[global] Instance entry_before_dec : RelDecision entry_before :=
  fun a b => decide (entry_position browser (fst a) <= entry_position browser (fst b)).

(* The file entries of an archive file in the order of the file. *)
Definition archive_order (entries : Zip) : list (jsstring * Bytes) :=
  merge_sort entry_before (map_to_list entries).

(* The instance loadAsync builds from the entries: of two entries that get
   the same name the later one is kept. *)
Definition load_entries (entries : Zip) : Zip :=
  fold_left load_entry (archive_order entries) ∅.

(* [JSZip.loadAsync(file)] *)
Definition JSZip_loadAsync (f : ArchiveFile) : Result Zip :=
  match f with
  | ZipFile entries => Ok (load_entries entries)
  | OtherFile message => Throw (Error message)
  end.

(** ** Promises that wait for a read *)

(* [items.map(async item => ...)]: every callback runs to its first await. *)
Definition map_async {A B} (callback : A -> Promise B) (items : list A) : list (Promise B) :=
  map callback items.

(* The places, from [i] on, of the promises that wait for a read. *)
Fixpoint pending_reads {A} (i : nat) (promises : list (Promise A)) : list nat :=
  match promises with
  | [] => []
  | Settled _ :: rest => pending_reads (S i) rest
  | Reading _ _ :: rest => i :: pending_reads (S i) rest
  end.

(* The read started at place [i] completes no later than the one started at
   place [j]. *)
Definition completes_before (i j : nat) : Prop :=
  read_completes browser i <= read_completes browser j.

#[global] Instance completes_before_dec : RelDecision completes_before :=
  fun i j => decide (read_completes browser i <= read_completes browser j).

(* The order in which the reads complete. *)
Definition completion_order {A} (promises : list (Promise A)) : list nat :=
  merge_sort completes_before (pending_reads 0 promises).

(* The read of the promise at place [i] completes: the rest of its callback
   runs and settles the promise. *)
Definition complete_read {A} (i : nat) (promises : list (Promise A)) : M (list (Promise A)) :=
  match promises !! i with
  | Some (Reading file resume) =>
      let* a := resume (entry_blob file) in
      ret (<[i := Settled a]> promises)
  | _ => ret promises
  end.

(* What the promises have settled with; a promise found waiting has its read
   completed on the spot. *)
Fixpoint await_each {A} (promises : list (Promise A)) : M (list A) :=
  match promises with
  | [] => ret []
  | Settled a :: rest =>
      let* l := await_each rest in
      ret (a :: l)
  | Reading file resume :: rest =>
      let* a := resume (entry_blob file) in
      let* l := await_each rest in
      ret (a :: l)
  end.

(* The promises run to completion: the reads complete in their order, after
   which every promise has settled. *)
Definition settle_all {A} (promises : list (Promise A)) : M (list A) :=
  let* promises := for_of complete_read (completion_order promises) promises in
  await_each promises.

(** ** zipManager.unzipCourse *)

(* The callback of [course.media.map] and of [course.mascot.map]. *)
Definition attach_blobUrl (zip : Zip) (item : Value) : Promise (Result Value) :=
  match rbind (get_prop item (str "path")) ToString with
  | Throw e => Settled (Throw e)
  | Ok name =>
      match zip_file_get name zip with
      | Some file =>
          Reading file (fun blob =>
            let* url := createObjectURL blob in
            ret (set_prop item (str "blobUrl") (VStr url)))
      | None => Settled (Ok item)
      end
  end.

(* Both lists of callbacks are started before the first [await]; the reads
   they wait for then complete in the browser's order, whatever list they
   belong to.  When [course.mascot.map] throws, the reads of the media
   callbacks are under way and complete all the same. *)
Definition unzipCourse (zipFile : ArchiveFile) : M (Result Value) :=
  match JSZip_loadAsync zipFile with
  | Throw e => ret (Throw e)
  | Ok zip =>
  match zip_file_get (str "curso.json") zip with
  | None => ret (Throw (Error (str "curso.json not found in zip")))
  | Some courseFile =>
  match JSON_parse courseFile with
  | None => ret (Throw SyntaxError)
  | Some course =>
  match rbind (get_prop course (str "media")) array_elems with
  | Throw e => ret (Throw e)
  | Ok mediaItems =>
  let mediaPromises := map_async (attach_blobUrl zip) mediaItems in
  match rbind (get_prop course (str "mascot")) array_elems with
  | Throw e =>
      let* _ := settle_all mediaPromises in
      ret (Throw e)
  | Ok mascotItems =>
  let mascotPromises := map_async (attach_blobUrl zip) mascotItems in
  let* settled := settle_all (mediaPromises ++ mascotPromises) in
  ret (rbind (Promise_all (take (length mediaPromises) settled)) (fun media =>
       rbind (set_prop course (str "media") (VArr media [])) (fun course =>
       rbind (Promise_all (drop (length mediaPromises) settled)) (fun mascot =>
       set_prop course (str "mascot") (VArr mascot [])))))
  end end end end end.

(** ** The mascot editor (EditorPage.tsx) *)

(* The updater passed to [setCourse] by handleNameChange. *)
Definition handleNameChange (value : jsstring) (prev : option Course) : option Course :=
  match prev with
  | None => None
  | Some prev =>
      Some {| course_id := course_id prev;
              settings :=
                {| courseName := courseName (settings prev);
                   mascotName := Some value;
                   school := school (settings prev);
                   authors := authors (settings prev);
                   date := date (settings prev);
                   description := description (settings prev);
                   theme := theme (settings prev);
                   language := language (settings prev);
                   mascotEnabled := mascotEnabled (settings prev);
                   showScore := showScore (settings prev) |};
              modules := modules prev;
              media := media prev;
              mascot := mascot prev |}
  end.

(* The updater passed to [setCourse] by handleFileChange. *)
Definition add_pose_update (poseType : jsstring) (newMascotPose : MascotPose)
    (prev : option Course) : option Course :=
  match prev with
  | None => None
  | Some prev =>
      let existingMascot :=
        List.filter (fun m => negb (jsstring_eqb (pose_type m) poseType)) (mascot prev) in
      Some (with_mascot prev (existingMascot ++ [newMascotPose]))
  end.

(* The updater passed to [setCourse] by removePose. *)
Definition remove_pose_update (poseType : jsstring) (prev : option Course) : option Course :=
  match prev with
  | None => None
  | Some prev =>
      Some (with_mascot prev
              (List.filter (fun m => negb (jsstring_eqb (pose_type m) poseType)) (mascot prev)))
  end.

(* [handleFileChange(e, poseType)] on the editor's course state; [file] is
   [e.target.files?.[0]].  The alert shown for a rejected file is not kept. *)
Definition handleFileChange (file : option Blob) (poseType : jsstring)
    (state : option Course) : M (option Course) :=
  match file with
  | None => ret state
  | Some file =>
      if negb (jsstring_eqb (blob_type file) (str "image/png")) then ret state
      else
        let* blobUrl := createObjectURL file in
        let newMascotPose :=
          {| pose_type := poseType;
             pose_path := str "mascot/" ++ poseType ++ str ".png";
             pose_blobUrl := blobUrl;
             pose_file := Some file |} in
        ret (add_pose_update poseType newMascotPose state)
  end.

Definition removePose (poseType : jsstring) (state : option Course) : option Course :=
  remove_pose_update poseType state.

End Packaging.

(** ** The canonical mascot path as the specification words it

    [slug] replaces each character outside [A-Za-z0-9] with an underscore and
    substitutes [mascot] when the resulting name is empty. *)

Definition spec_slug (name : jsstring) : jsstring :=
  or_default (replace_non_alnum name) (str "mascot").

Definition spec_mascot_path (name poseTag : jsstring) : jsstring :=
  str "mascot/" ++ spec_slug name ++ str "_" ++ poseTag ++ str ".png".

(** ** Outcomes of resolving and normalizing content

    What the loops of zipCourse obtain for an asset, as functions of the blob
    URL store they run against. *)

Section Outcomes.

Variable browser : Browser.

(* The content of an asset: its file, or else what fetching its blob URL yields. *)
Definition resolve (w : World) (file : option Blob) (blobUrl : jsstring) : option Blob :=
  match file with
  | Some f => Some f
  | None =>
      match object_urls w !! blobUrl with
      | Some b => Some b
      | None => network browser blobUrl
      end
  end.

(* The image an <img> element decodes from a blob. *)
Definition decode (content : Blob) : option Raster :=
  match blob_bytes content with
  | ImageBytes mime img => if image_format_supported browser mime then Some img else None
  | _ => None
  end.

(* The promise resizeImageToSquare settles with. *)
Definition normalize (content : Blob) : Result Blob :=
  match decode content with
  | Some img =>
      if negb (context2d_available browser) then
        Throw (Error (str "Could not get canvas context"))
      else
        match toBlob browser
                (drawImage browser img
                   (clearRect {| canvas_width := 1500; canvas_height := 1500;
                                 canvas_bitmap := [] |}))
                (str "image/png") with
        | Some blob => Ok blob
        | None => Throw (Error (str "Canvas conversion failed"))
        end
  | None => Throw (Error (str "Image load failed"))
  end.

(* The entry the media loop writes for an item, if any. *)
Definition media_entry (w : World) (item : MediaFile) : option Bytes :=
  blob_bytes <$> resolve w (media_file item) (media_blobUrl item).

(* The entry the mascot loop writes for an item, if any. *)
Definition mascot_entry (w : World) (item : MascotPose) : option Bytes :=
  match resolve w (pose_file item) (pose_blobUrl item) with
  | Some content =>
      match normalize content with
      | Ok resizedBlob => Some (blob_bytes resizedBlob)
      | Throw _ => Some (blob_bytes content)
      end
  | None => None
  end.

End Outcomes.

(* [zip.file(key item, entry)] for the items that have an entry, in order. *)
Definition put_entries {A} (key : A -> jsstring) (entry : A -> option Bytes)
    (items : list A) (zip : Zip) : Zip :=
  fold_left (fun zip item =>
               match entry item with
               | Some e => zip_file_add (key item) e zip
               | None => zip
               end) items zip.

(* A sequence of [zip.file(name, data)] calls. *)
Definition apply_writes (writes : list (jsstring * Bytes)) (zip : Zip) : Zip :=
  fold_left (fun zip kv => zip_file_add (fst kv) (snd kv) zip) writes zip.

(* Member [key] of a JSON object. *)
Fixpoint lookup_member (key : jsstring) (ms : list (jsstring * JSON)) : option JSON :=
  match ms with
  | [] => None
  | (k, j) :: rest => if jsstring_eqb k key then Some j else lookup_member key rest
  end.

Definition json_member (key : jsstring) (j : JSON) : option JSON :=
  match j with
  | JObj ms => lookup_member key ms
  | _ => None
  end.

(* The JSON text of a value inside an array. *)
Definition json_of (v : Value) : JSON := default JNull (SerializeJSONProperty v).

(* The records of the document. *)
Definition media_json (item : MediaFile) : JSON :=
  JObj [(str "id", JStr (media_id item));
        (str "name", JStr (media_name item));
        (str "path", JStr (media_path item));
        (str "type", JStr (MediaType_tag (media_type item)))].

Definition mascot_json (item : MascotPose) : JSON :=
  JObj [(str "type", JStr (pose_type item));
        (str "path", JStr (pose_path item))].

(* Whether a pose carries the tag. *)
Definition has_tag (poseType : jsstring) (m : MascotPose) : bool :=
  jsstring_eqb (pose_type m) poseType.

(** ** Outcomes of rehydrating a record *)

(* The archive entry [zip.file(item.path)] finds for a record. *)
Definition entry_for (zip : Zip) (item : Value) : Result (option Bytes) :=
  rbind (rbind (get_prop item (str "path")) ToString)
        (fun name => Ok (zip_file_get name zip)).

(* The order in which the reads of unzipCourse complete, for the records
   [items] of the document (those of [media], then those of [mascot]): the
   places of the records that have an entry, each once, a read that the
   browser completes earlier than another coming before it. *)
Definition is_completion_order (browser : Browser) (zip : Zip) (items : list Value)
    (order : list nat) : Prop :=
  NoDup order
  /\ (forall i, i ∈ order
        <-> exists item e, items !! i = Some item /\ entry_for zip item = Ok (Some e))
  /\ (forall k1 k2 i1 i2,
        order !! k1 = Some i1 -> order !! k2 = Some i2 ->
        read_completes browser i1 < read_completes browser i2 -> (k1 < k2)%nat).

(* The record found after unpacking in the place of [item], which is the
   record at place [i] among the records of the document (those of [media],
   then those of [mascot]), when the reads complete in the order [order], in
   a run from the world [w] to the world [w']: [item] itself when the loaded
   archive has no entry for it; otherwise [item] with [blobUrl] set to the
   object URL whose serial number is the next one of [w] plus the rank of
   the record's read in [order], under which the store of [w'] holds a blob
   without a type of the entry's bytes. *)
Definition attached (zip : Zip) (w w' : World) (order : list nat) (i : nat)
    (item : Value) (found : option Value) : Prop :=
  match entry_for zip item with
  | Ok None => found = Some item
  | Ok (Some e) =>
      exists item' k,
        found = Some item'
        /\ order !! k = Some i
        /\ set_prop item (str "blobUrl") (VStr (blob_url (next_url w + N.of_nat k))) = Ok item'
        /\ get_prop item' (str "blobUrl") = Ok (VStr (blob_url (next_url w + N.of_nat k)))
        /\ (forall key, key <> str "blobUrl" -> get_prop item' key = get_prop item key)
        /\ object_urls w' !! blob_url (next_url w + N.of_nat k)
           = Some {| blob_type := []; blob_bytes := e |}
  | Throw _ => False
  end.

(* A record of a document as unzipCourse expects it: an object whose [path],
   if it has one, is a string. *)
Definition is_record (j : JSON) : bool :=
  match j with
  | JObj fields =>
      match lookup_member (str "path") fields with
      | Some (JStr _) | None => true
      | Some _ => false
      end
  | _ => false
  end.

Definition is_record_list (j : option JSON) : bool :=
  match j with
  | Some (JArr records) => forallb is_record records
  | _ => false
  end.

(* A document whose [media] and [mascot] members are arrays of records. *)
Definition is_course_document (doc : JSON) : bool :=
  match doc with
  | JObj _ =>
      is_record_list (json_member (str "media") doc)
      && is_record_list (json_member (str "mascot") doc)
  | _ => false
  end.

(** ** Comparing courses without their content handles *)

(* A record with its [file] and [blobUrl] left out. *)
Definition without_handles (v : Value) : Value :=
  match v with
  | VObj ps => strip_transient ps
  | _ => v
  end.

(* Record [i] of the list [key] of an unpacked course. *)
Definition record_at (c : Value) (key : jsstring) (i : nat) : option Value :=
  match get_prop c key with
  | Ok (VArr items _) => items !! i
  | _ => None
  end.

(* The paths of the records of an array. *)
Definition record_paths (v : Result Value) : list jsstring :=
  match v with
  | Ok (VArr items _) =>
      omap (fun item =>
              match get_prop item (str "path") with
              | Ok (VStr p) => Some p
              | _ => None
              end) items
  | _ => []
  end.

(* The asset paths of an unpacked course and of a course of the editor. *)
Definition asset_paths (c : Value) : list jsstring :=
  record_paths (get_prop c (str "media")) ++ record_paths (get_prop c (str "mascot")).

Definition Course_asset_paths (c : Course) : list jsstring :=
  map media_path (media c) ++ map pose_path (mascot c).

(* Every registered object URL was issued by createObjectURL earlier. *)
Definition urls_wf (w : World) : Prop :=
  forall n, is_Some (object_urls w !! blob_url n) -> n < next_url w.

(* A PNG image of exactly 1500 by 1500. *)
Definition is_png_1500 (b : Bytes) : Prop :=
  exists pixels,
    b = ImageBytes (str "image/png")
          {| raster_width := 1500; raster_height := 1500; raster_pixels := pixels |}.

(** ** Objects with identity

    The definitions above treat a course as a value.  To state what zipCourse
    does to the objects it is handed, this section runs its statements that
    build [courseToSave] and [cleanCourse] (lines 449-475) on a heap of
    objects: a property holds a primitive, a Blob or a reference; spreading
    and mapping allocate new objects, an assignment overwrites a property of
    the object it names.  A run that meets a value outside the declared type
    of [course] (a property read on [undefined], a number where a string is
    declared, ...) ends with [None]. *)

Inductive HVal : Type :=
| HUndefined
| HNull
| HBool (b : bool)
| HNum (repr : jsstring)
| HStr (s : jsstring)
| HBlob (b : Blob)
| HRef (l : nat).

Inductive HObj : Type :=
| HRecord (props : list (jsstring * HVal))
| HArray (elems : list HVal).

Abbreviation Heap := (list HObj).

Definition HM (A : Type) : Type := Heap -> option A * Heap.

Definition hret {A} (a : A) : HM A := fun h => (Some a, h).

Definition hfail {A} : HM A := fun h => (None, h).

Definition hbind {A B} (c : HM A) (k : A -> HM B) : HM B :=
  fun h => match c h with
           | (Some a, h') => k a h'
           | (None, h') => (None, h')
           end.

Notation "'let+' x ':=' c 'in' k" := (hbind c (fun x => k))
  (at level 10, x pattern, c at level 100, k at level 200).

Fixpoint h_mapM {A B} (f : A -> HM B) (l : list A) : HM (list B) :=
  match l with
  | [] => hret []
  | x :: rest =>
      let+ y := f x in
      let+ ys := h_mapM f rest in
      hret (y :: ys)
  end.

Fixpoint h_filterM {A} (f : A -> HM bool) (l : list A) : HM (list A) :=
  match l with
  | [] => hret []
  | x :: rest =>
      let+ keep := f x in
      let+ kept := h_filterM f rest in
      hret (if keep then x :: kept else kept)
  end.

Fixpoint h_lookup (key : jsstring) (ps : list (jsstring * HVal)) : option HVal :=
  match ps with
  | [] => None
  | (k, v) :: rest => if jsstring_eqb k key then Some v else h_lookup key rest
  end.

Fixpoint h_assign (key : jsstring) (v : HVal) (ps : list (jsstring * HVal))
  : list (jsstring * HVal) :=
  match ps with
  | [] => [(key, v)]
  | (k, x) :: rest =>
      if jsstring_eqb k key then (k, v) :: rest
      else (k, x) :: h_assign key v rest
  end.

Definition h_rest (excluded : list jsstring) (ps : list (jsstring * HVal))
  : list (jsstring * HVal) :=
  List.filter (fun kv => negb (existsb (jsstring_eqb (fst kv)) excluded)) ps.

(* A new object. *)
Definition h_alloc (o : HObj) : HM HVal :=
  fun h => (Some (HRef (length h)), h ++ [o]).

(* [v.key] for a key that only records define. *)
Definition h_get (v : HVal) (key : jsstring) : HM HVal :=
  fun h =>
    (match v with
     | HRef l =>
         match h !! l with
         | Some (HRecord props) => Some (default HUndefined (h_lookup key props))
         | Some (HArray _) => Some HUndefined
         | None => None
         end
     | HUndefined | HNull => None
     | HBool _ | HNum _ | HStr _ | HBlob _ => Some HUndefined
     end, h).

(* [v.key = x] on a record. *)
Definition h_set (v : HVal) (key : jsstring) (x : HVal) : HM unit :=
  fun h =>
    match v with
    | HRef l =>
        match h !! l with
        | Some (HRecord props) => (Some tt, <[l := HRecord (h_assign key x props)]> h)
        | _ => (None, h)
        end
    | _ => (None, h)
    end.

(* The own properties [{ ...v }] copies, for a record. *)
Definition h_props (v : HVal) : HM (list (jsstring * HVal)) :=
  fun h =>
    (match v with
     | HRef l =>
         match h !! l with
         | Some (HRecord props) => Some props
         | _ => None
         end
     | _ => None
     end, h).

(* The elements of an array. *)
Definition h_elems (v : HVal) : HM (list HVal) :=
  fun h =>
    (match v with
     | HRef l =>
         match h !! l with
         | Some (HArray elems) => Some elems
         | _ => None
         end
     | _ => None
     end, h).

Definition h_string (v : HVal) : HM jsstring :=
  match v with
  | HStr s => hret s
  | _ => hfail
  end.

(* [course.settings.mascotName?.trim().replace(/[^a-zA-Z0-9]/g, '_') || 'mascot'] *)
Definition h_export_mascotName (course : HVal) : HM jsstring :=
  let+ settings := h_get course (str "settings") in
  let+ mascotName := h_get settings (str "mascotName") in
  match mascotName with
  | HUndefined | HNull => hret (str "mascot")
  | HStr name => hret (or_default (replace_non_alnum (trim name)) (str "mascot"))
  | _ => hfail
  end.

(* Lines 449-473: builds [courseToSave] and [cleanCourse]. *)
Definition h_prepare (course : HVal) (moduleIdsToInclude : option (list jsstring))
  : HM (HVal * HVal) :=
  (* const courseToSave = { ...course }; *)
  let+ props := h_props course in
  let+ courseToSave := h_alloc (HRecord props) in
  (* courseToSave.modules = moduleIdsToInclude ? courseToSave.modules.filter(...) : ... *)
  let+ modules := h_get courseToSave (str "modules") in
  let+ modules :=
    match moduleIdsToInclude with
    | Some ids =>
        let+ elems := h_elems modules in
        let+ kept :=
          h_filterM (fun m =>
                       let+ id := h_get m (str "id") in
                       let+ id := h_string id in
                       hret (includes ids id)) elems in
        h_alloc (HArray kept)
    | None => hret modules
    end in
  let+ _ := h_set courseToSave (str "modules") modules in
  (* const mascotName = ...; *)
  let+ mascotName := h_export_mascotName course in
  (* courseToSave.mascot = courseToSave.mascot.map(pose => ({ ...pose, path: newPath })); *)
  let+ mascot := h_get courseToSave (str "mascot") in
  let+ poses := h_elems mascot in
  let+ renamed :=
    h_mapM (fun pose =>
              let+ type := h_get pose (str "type") in
              let+ type := h_string type in
              let newPath := str "mascot/" ++ mascotName ++ str "_" ++ type ++ str ".png" in
              let+ props := h_props pose in
              h_alloc (HRecord (h_assign (str "path") (HStr newPath) props))) poses in
  let+ mascot := h_alloc (HArray renamed) in
  let+ _ := h_set courseToSave (str "mascot") mascot in
  (* const cleanMedia = courseToSave.media.map(({file, blobUrl, ...rest}) => rest); *)
  let+ media := h_get courseToSave (str "media") in
  let+ items := h_elems media in
  let+ cleanMedia :=
    h_mapM (fun item =>
              let+ props := h_props item in
              h_alloc (HRecord (h_rest transient_keys props))) items in
  let+ cleanMedia := h_alloc (HArray cleanMedia) in
  (* const cleanMascot = courseToSave.mascot.map(({file, blobUrl, ...rest}) => rest); *)
  let+ mascot := h_get courseToSave (str "mascot") in
  let+ poses := h_elems mascot in
  let+ cleanMascot :=
    h_mapM (fun item =>
              let+ props := h_props item in
              h_alloc (HRecord (h_rest transient_keys props))) poses in
  let+ cleanMascot := h_alloc (HArray cleanMascot) in
  (* const cleanCourse = { ...courseToSave, media: cleanMedia, mascot: cleanMascot }; *)
  let+ props := h_props courseToSave in
  let+ cleanCourse :=
    h_alloc (HRecord (h_assign (str "mascot") cleanMascot
                        (h_assign (str "media") cleanMedia props))) in
  hret (courseToSave, cleanCourse).

(* The value a reference stands for, following references through [objects];
   [None] when the value is not exhausted [fuel] references deep (as on a
   cyclic structure). *)
Fixpoint read_in (objects : nat -> option HObj) (fuel : nat) (v : HVal) : option Value :=
  match v with
  | HUndefined => Some VUndefined
  | HNull => Some VNull
  | HBool b => Some (VBool b)
  | HNum n => Some (VNum n)
  | HStr s => Some (VStr s)
  | HBlob b => Some (VBlob b)
  | HRef l =>
      match fuel with
      | O => None
      | S fuel' =>
          match objects l with
          | Some (HRecord props) =>
              VObj <$> mapM (fun kv => pair (fst kv) <$> read_in objects fuel' (snd kv)) props
          | Some (HArray elems) =>
              (fun xs => VArr xs []) <$> mapM (read_in objects fuel') elems
          | None => None
          end
      end
  end.

Definition read_value (fuel : nat) (h : Heap) (v : HVal) : option Value :=
  read_in (fun l => h !! l) fuel v.

(* The objects of a heap other than the one at [l]. *)
Definition except (l : nat) (h : Heap) : nat -> option HObj :=
  fun l' => if decide (l' = l) then None else h !! l'.

(* The records the loops iterate over, read through their declared types. *)
Definition as_string (v : option Value) : option jsstring :=
  match v with
  | Some (VStr s) => Some s
  | _ => None
  end.

Definition as_file (v : option Value) : option (option Blob) :=
  match v with
  | Some (VBlob b) => Some (Some b)
  | Some VUndefined | None => Some None
  | _ => None
  end.

Definition as_MediaType (v : option Value) : option MediaType :=
  match as_string v with
  | Some t =>
      if jsstring_eqb t (str "image") then Some MediaImage
      else if jsstring_eqb t (str "video") then Some MediaVideo
      else if jsstring_eqb t (str "audio") then Some MediaAudio
      else None
  | None => None
  end.

Definition as_MediaFile (v : Value) : option MediaFile :=
  match v with
  | VObj ps =>
      id ← as_string (lookup_prop (str "id") ps);
      name ← as_string (lookup_prop (str "name") ps);
      path ← as_string (lookup_prop (str "path") ps);
      type ← as_MediaType (lookup_prop (str "type") ps);
      blobUrl ← as_string (lookup_prop (str "blobUrl") ps);
      file ← as_file (lookup_prop (str "file") ps);
      Some {| media_id := id; media_name := name; media_path := path;
              media_type := type; media_blobUrl := blobUrl; media_file := file |}
  | _ => None
  end.

Definition as_MascotPose (v : Value) : option MascotPose :=
  match v with
  | VObj ps =>
      type ← as_string (lookup_prop (str "type") ps);
      path ← as_string (lookup_prop (str "path") ps);
      blobUrl ← as_string (lookup_prop (str "blobUrl") ps);
      file ← as_file (lookup_prop (str "file") ps);
      Some {| pose_type := type; pose_path := path;
              pose_blobUrl := blobUrl; pose_file := file |}
  | _ => None
  end.

Definition as_list {A} (as_item : Value -> option A) (v : option Value) : option (list A) :=
  match v with
  | Some (VArr items _) => mapM as_item items
  | _ => None
  end.

Section HeapPackaging.

Variable browser : Browser.

(* zipCourse on the heap: the objects are prepared, the document is the JSON
   text of [cleanCourse], and the loops run over the records of
   [courseToSave.media] and [courseToSave.mascot]. *)
Definition zipCourse_heap (fuel : nat) (course : HVal)
    (moduleIdsToInclude : option (list jsstring))
  : Heap -> World -> option ArchiveFile * Heap * World :=
  fun h w =>
    match h_prepare course moduleIdsToInclude h with
    | (Some (courseToSave, cleanCourse), h') =>
        match read_value fuel h' cleanCourse,
              read_value fuel h' courseToSave with
        | Some clean, Some (VObj saved) =>
            match as_list as_MediaFile (lookup_prop (str "media") saved),
                  as_list as_MascotPose (lookup_prop (str "mascot") saved) with
            | Some media, Some mascot =>
                let zip := zip_file_add_json (str "curso.json") (JSON_stringify clean) ∅ in
                let (zip, w1) := for_of (add_media_file browser) media zip w in
                let (zip, w2) := for_of (add_mascot_file browser) mascot zip w1 in
                (Some (generateAsync zip), h', w2)
            | _, _ => (None, h', w)
            end
        | _, _ => (None, h', w)
        end
    | (None, h') => (None, h', w)
    end.

End HeapPackaging.

(* Every object of [h0] is found unchanged in [h]. *)
Definition heap_kept (h0 h : Heap) : Prop :=
  forall l o, h0 !! l = Some o -> h !! l = Some o.

(* A value laid out as objects of its own. *)
Fixpoint alloc_value (v : Value) (h : Heap) : HVal * Heap :=
  match v with
  | VUndefined => (HUndefined, h)
  | VNull => (HNull, h)
  | VBool b => (HBool b, h)
  | VNum n => (HNum n, h)
  | VStr s => (HStr s, h)
  | VBlob b => (HBlob b, h)
  | VArr elems _ =>
      let (xs, h1) :=
        (fix go (l : list Value) (h : Heap) : list HVal * Heap :=
           match l with
           | [] => ([], h)
           | x :: rest =>
               let (y, h1) := alloc_value x h in
               let (ys, h2) := go rest h1 in
               (y :: ys, h2)
           end) elems h in
      (HRef (length h1), h1 ++ [HArray xs])
  | VObj props =>
      let (ps, h1) :=
        (fix go (l : Props) (h : Heap) : list (jsstring * HVal) * Heap :=
           match l with
           | [] => ([], h)
           | (k, x) :: rest =>
               let (y, h1) := alloc_value x h in
               let (ys, h2) := go rest h1 in
               ((k, y) :: ys, h2)
           end) props h in
      (HRef (length h1), h1 ++ [HRecord ps])
  end.

(** ** What the loops of zipCourse write to the console *)

Section Messages.

Variable browser : Browser.

(* The warning of the media loop for an asset, if any. *)
Definition media_messages (w : World) (item : MediaFile) : list (LogLevel * jsstring) :=
  match resolve browser w (media_file item) (media_blobUrl item) with
  | Some _ => []
  | None => [(LogWarn, str "Could not fetch blob for " ++ media_path item)]
  end.

(* The warning or error of the mascot loop for a pose, if any. *)
Definition mascot_messages (w : World) (item : MascotPose) : list (LogLevel * jsstring) :=
  match resolve browser w (pose_file item) (pose_blobUrl item) with
  | Some content =>
      match normalize browser content with
      | Ok _ => []
      | Throw _ => [(LogError, str "Failed to resize mascot " ++ pose_type item)]
      end
  | None => [(LogWarn, str "Could not fetch blob for mascot " ++ pose_path item)]
  end.

(* How many poses have content, that is, how often resizeImageToSquare runs. *)
Definition resized (w : World) (items : list MascotPose) : N :=
  N.of_nat (length (List.filter
    (fun item => bool_decide (is_Some (resolve browser w (pose_file item) (pose_blobUrl item))))
    items)).

End Messages.

(** ** The clock and the numbers in template strings *)

(* [`${n}`] for a non-negative integer below 10^21: its decimal digits. *)
Definition decimal (n : N) : jsstring := str (pretty n).

(* [Date.now()]: the readings of the clock, in the order they are taken. *)
Record Clock := {
  readings : nat -> N;
  taken : nat;
}.

Definition Clocked (A : Type) : Type := Clock -> A * Clock.

Definition cret {A} (a : A) : Clocked A := fun c => (a, c).

Definition cbind {A B} (m : Clocked A) (k : A -> Clocked B) : Clocked B :=
  fun c => let (a, c') := m c in k a c'.

Notation "'let^' x ':=' c 'in' k" := (cbind c (fun x => k))
  (at level 10, x pattern, c at level 100, k at level 200).

Definition Date_now : Clocked N := fun c =>
  (readings c (taken c), {| readings := readings c; taken := S (taken c) |}).

(* [l.map(f)] for a callback that reads the clock. *)
Fixpoint map_clocked {A B} (f : A -> Clocked B) (l : list A) : Clocked (list B) :=
  match l with
  | [] => cret []
  | x :: rest =>
      let^ y := f x in
      let^ ys := map_clocked f rest in
      cret (y :: ys)
  end.

(** ** Array methods *)

(* [l.findIndex(p)]; [None] is -1. *)
Fixpoint findIndex {A} (p : A -> bool) (l : list A) : option nat :=
  match l with
  | [] => None
  | x :: rest => if p x then Some 0%nat else S <$> findIndex p rest
  end.

(* [l.splice(start, 1)] and [l.splice(start, 0, item)], on a copy. *)
Definition splice_delete {A} (start : nat) (l : list A) : list A :=
  take start l ++ drop (S start) l.

Definition splice_insert {A} (start : nat) (item : A) (l : list A) : list A :=
  take start l ++ item :: drop start l.

(** ** The module list of the editor (EditorPage.tsx)

    The handlers of the Sidebar work on the course the page was rendered
    with; each definition gives the course handed to [setCourse], if any. *)

Inductive ModuleType :=
| type_text | type_video | type_quiz | type_cards | type_timeline | type_experiment.

Inductive Direction := up | down.

Definition has_id (moduleId : jsstring) (m : Module) : bool :=
  jsstring_eqb (module_id m) moduleId.

(* [addModule(type)]; the new module is also selected. *)
Definition addModule (type : ModuleType) (course : Course) : Clocked (option Course) :=
  let^ now := Date_now in
  let id := str "mod_" ++ decimal now in
  let updatedCourse newModule := with_modules course (modules course ++ [newModule]) in
  cret
    match type with
    | type_text =>
        Some (updatedCourse
                {| module_id := id; module_title := str "Novo Texto";
                   module_payload := TextModule (str "<p>Comece a escrever...</p>") |})
    | type_video =>
        Some (updatedCourse
                {| module_id := id; module_title := str "Novo V" ++ [0xED] ++ str "deo";
                   module_payload := VideoModule SourceUrl (Some []) None |})
    | type_quiz =>
        Some (updatedCourse
                {| module_id := id; module_title := str "Novo Quiz";
                   module_payload := QuizModule [] |})
    | type_cards =>
        Some (updatedCourse
                {| module_id := id; module_title := str "Novos Cards";
                   module_payload := CardsModule [] |})
    | _ => None
    end.

Definition duplicateModule (moduleId : jsstring) (course : Course) : Clocked (option Course) :=
  match List.find (has_id moduleId) (modules course) with
  | None => cret None
  | Some moduleToDuplicate =>
      let^ now := Date_now in
      let newModule :=
        {| module_id := str "mod_" ++ decimal now;
           module_title := module_title moduleToDuplicate ++ str " (C" ++ [0xF3] ++ str "pia)";
           module_payload := module_payload moduleToDuplicate |} in
      let index := findIndex (has_id moduleId) (modules course) in
      let newModules := modules course in
      let newModules :=
        match index with
        | Some index => splice_insert (index + 1) newModule newModules
        | None => splice_insert 0 newModule newModules
        end in
      cret (Some (with_modules course newModules))
  end.

Definition moveModule (moduleId : jsstring) (direction : Direction) (course : Course)
  : option Course :=
  match findIndex (has_id moduleId) (modules course) with
  | None => None
  | Some index =>
      match direction with
      | up => if Nat.eqb index 0 then None else
          let newModules := modules course in
          match newModules !! index with
          | Some item =>
              let newModules := splice_delete index newModules in
              Some (with_modules course (splice_insert (index - 1) item newModules))
          | None => None
          end
      | down => if Nat.eqb index (length (modules course) - 1) then None else
          let newModules := modules course in
          match newModules !! index with
          | Some item =>
              let newModules := splice_delete index newModules in
              Some (with_modules course (splice_insert (index + 1) item newModules))
          | None => None
          end
      end
  end.

(* The updater passed to [setCourse] by updateModule. *)
Definition updateModule (updatedModule : Module) (prev : option Course) : option Course :=
  match prev with
  | None => None
  | Some prev =>
      Some (with_modules prev
              (map (fun m => if jsstring_eqb (module_id m) (module_id updatedModule)
                             then updatedModule else m)
                   (modules prev)))
  end.

Definition opposite (d : Direction) : Direction :=
  match d with up => down | down => up end.

(** ** The quiz and cards editors (EditorPage.tsx)

    Each handler passes [{ ...module, questions: qs }] (or [cards: cs]) to
    onUpdate, that is to updateModule; the definitions give [qs] and [cs]. *)

Definition with_options (q : QuizQuestion) (options : list QuizOption) : QuizQuestion :=
  {| question_id := question_id q;
     question_question := question_question q;
     question_options := options;
     question_correctOptionId := question_correctOptionId q;
     question_explanation := question_explanation q |}.

(* The word of the default option texts, with its cedilla and tilde. *)
Definition Opcao : jsstring := str "Op" ++ [0xE7; 0xE3] ++ str "o".

Definition addQuestion (questions : list QuizQuestion) : Clocked (list QuizQuestion) :=
  let^ now_id := Date_now in
  let^ now_option1 := Date_now in
  let^ now_option2 := Date_now in
  let^ now_correct := Date_now in
  let newQuestion :=
    {| question_id := str "q_" ++ decimal now_id;
       question_question := str "Nova Pergunta";
       question_options :=
         [{| option_id := str "opt_" ++ decimal now_option1 ++ str "_1";
             option_text := Opcao ++ str " 1" |};
          {| option_id := str "opt_" ++ decimal now_option2 ++ str "_2";
             option_text := Opcao ++ str " 2" |}];
       question_correctOptionId := str "opt_" ++ decimal now_correct ++ str "_1";
       question_explanation := [] |} in
  cret (questions ++ [newQuestion]).

(* The fields the editor passes to updateQuestion, each with a string. *)
Inductive QuestionField := field_question | field_correctOptionId | field_explanation.

Definition updateQuestion (qId : jsstring) (field : QuestionField) (value : jsstring)
    (questions : list QuizQuestion) : list QuizQuestion :=
  map (fun q =>
         if jsstring_eqb (question_id q) qId then
           {| question_id := question_id q;
              question_question :=
                match field with field_question => value | _ => question_question q end;
              question_options := question_options q;
              question_correctOptionId :=
                match field with
                | field_correctOptionId => value
                | _ => question_correctOptionId q
                end;
              question_explanation :=
                match field with field_explanation => value | _ => question_explanation q end |}
         else q)
      questions.

Definition addOption (qId : jsstring) (questions : list QuizQuestion)
  : Clocked (list QuizQuestion) :=
  map_clocked
    (fun q =>
       if jsstring_eqb (question_id q) qId then
         let^ now := Date_now in
         let newOptId := str "opt_" ++ decimal now in
         cret (with_options q
                 (question_options q
                  ++ [{| option_id := newOptId;
                         option_text :=
                           Opcao ++ str " "
                           ++ decimal (N.of_nat (length (question_options q) + 1)) |}]))
       else cret q)
    questions.

Definition updateOption (qId optId text : jsstring) (questions : list QuizQuestion)
  : list QuizQuestion :=
  map (fun q =>
         if jsstring_eqb (question_id q) qId then
           let newOptions :=
             map (fun o => if jsstring_eqb (option_id o) optId
                           then {| option_id := option_id o; option_text := text |}
                           else o)
                 (question_options q) in
           with_options q newOptions
         else q)
      questions.

Definition removeQuestion (qId : jsstring) (questions : list QuizQuestion) : list QuizQuestion :=
  List.filter (fun q => negb (jsstring_eqb (question_id q) qId)) questions.

Definition removeOption (qId optId : jsstring) (questions : list QuizQuestion)
  : list QuizQuestion :=
  map (fun q =>
         if jsstring_eqb (question_id q) qId then
           if (length (question_options q) <=? 2)%nat then q
           else with_options q
                  (List.filter (fun o => negb (jsstring_eqb (option_id o) optId))
                     (question_options q))
         else q)
      questions.

Definition addCard (cards : list Card) : Clocked (list Card) :=
  let^ now := Date_now in
  let newCard := {| card_id := str "c_" ++ decimal now; card_front := []; card_back := [] |} in
  cret (cards ++ [newCard]).

Inductive CardField := field_front | field_back.

Definition updateCard (id : jsstring) (field : CardField) (value : jsstring) (cards : list Card)
  : list Card :=
  map (fun c =>
         if jsstring_eqb (card_id c) id then
           {| card_id := card_id c;
              card_front := match field with field_front => value | _ => card_front c end;
              card_back := match field with field_back => value | _ => card_back c end |}
         else c)
      cards.

Definition removeCard (id : jsstring) (cards : list Card) : list Card :=
  List.filter (fun c => negb (jsstring_eqb (card_id c) id)) cards.

(** ** Set<string> *)

(* A Set of strings: its elements in insertion order. *)
Abbreviation StringSet := (list jsstring).

Definition Set_has (s : StringSet) (x : jsstring) : bool := existsb (jsstring_eqb x) s.

Definition Set_add (x : jsstring) (s : StringSet) : StringSet :=
  if Set_has s x then s else s ++ [x].

Definition Set_delete (x : jsstring) (s : StringSet) : StringSet :=
  List.filter (fun y => negb (jsstring_eqb y x)) s.

(* [new Set(iterable)] *)
Definition new_Set (iterable : list jsstring) : StringSet :=
  fold_left (fun s x => Set_add x s) iterable [].

Definition Set_size (s : StringSet) : nat := length s.

Definition Array_from (s : StringSet) : list jsstring := s.

(** ** ExportSelectionModal.tsx *)

(* The effect that runs when the modal opens. *)
Definition opened_with (initialSelectedIds : StringSet) : StringSet :=
  new_Set initialSelectedIds.

Definition toggleSelection (id : jsstring) (selectedIds : StringSet) : StringSet :=
  let newSet := new_Set selectedIds in
  if Set_has newSet id then Set_delete id newSet else Set_add id newSet.

Definition allSelected (selectedIds : StringSet) (courseModules : list Module) : bool :=
  Nat.eqb (Set_size selectedIds) (length courseModules).

Definition someSelected (selectedIds : StringSet) (courseModules : list Module) : bool :=
  Nat.ltb 0 (Set_size selectedIds) && Nat.ltb (Set_size selectedIds) (length courseModules).

Definition toggleAll (selectedIds : StringSet) (courseModules : list Module) : StringSet :=
  if allSelected selectedIds courseModules then new_Set []
  else new_Set (map module_id courseModules).

(* The argument of onConfirmExport. *)
Definition handleConfirm (selectedIds : StringSet) : list jsstring := Array_from selectedIds.

(** ** Exporting from the App *)

(* The selection the modal is opened with. *)
Definition openExportSelectionModal (course : option Course) : option StringSet :=
  match course with
  | Some course => Some (new_Set (map module_id (modules course)))
  | None => None
  end.

(* [s.replace(/\s/g, '_')]; the class \s is the white space [trim] strips. *)
Definition replace_whitespace (s : jsstring) : jsstring :=
  map (fun c => if isWhiteSpace c then underscore else c) s.

(* What the click on the anchor hands to the browser. *)
Record Download := {
  download : jsstring;
  href : ArchiveFile;
}.

(* [URL.createObjectURL(blob)] for the archive, the click on the anchor and
   [URL.revokeObjectURL(url)]: the URL takes the next serial number and is
   revoked before the handler returns. *)
Definition with_revoked_url : M unit := fun w =>
  (tt, {| object_urls := delete (blob_url (next_url w)) (object_urls w);
          next_url := N.succ (next_url w);
          console := console w |}).

Section App.

Variable browser : Browser.

Definition handleConfirmExport (selectedIds : list jsstring) (course : option Course)
  : M (option Download) :=
  match course with
  | None => ret None
  | Some course =>
      let* blob := zipCourse browser course (Some selectedIds) in
      let* _ := with_revoked_url in
      ret (Some {| download :=
                     or_default (replace_whitespace (courseName (settings course)))
                       (str "curso") ++ str ".zip";
                   href := blob |})
  end.

End App.

(** ** db: the courses kept in IndexedDB

    The database is the state that [indexedDB.open] finds; a request either
    succeeds or fails with the exception IndexedDB names.  Quota and blocked
    upgrades are not part of the embedding. *)

Definition DB_NAME : jsstring := str "CourseMakerDB".
Definition DB_VERSION : N := 1.
Definition STORE_NAME : jsstring := str "courses".

(* An object store with the key path [id]: its records by key.  The keys of
   the program are strings (a Course's id, the argument of getCourse). *)
Abbreviation ObjectStore := (gmap jsstring Value).

Record IDBDatabase := {
  db_version : N;
  objectStores : gmap jsstring ObjectStore;
}.

(* The databases of the origin, by name. *)
Abbreviation IndexedDB := (gmap jsstring IDBDatabase).

(* [request.onupgradeneeded] *)
Definition onupgradeneeded (stores : gmap jsstring ObjectStore) : gmap jsstring ObjectStore :=
  match stores !! STORE_NAME with
  | None => <[STORE_NAME := ∅]> stores
  | Some _ => stores
  end.

(* [openDB()]: [indexedDB.open(DB_NAME, DB_VERSION)] creates or upgrades the
   database when its version is lower, and fails when it is higher. *)
Definition openDB (idb : IndexedDB) : Result IDBDatabase * IndexedDB :=
  let existing := default {| db_version := 0; objectStores := ∅ |} (idb !! DB_NAME) in
  if db_version existing <? DB_VERSION then
    let db := {| db_version := DB_VERSION;
                 objectStores := onupgradeneeded (objectStores existing) |} in
    (Ok db, <[DB_NAME := db]> idb)
  else if DB_VERSION <? db_version existing then
    (Throw (Error (str "VersionError")), idb)
  else (Ok existing, idb).

(* SerializeJSONProperty under the replacer of saveCourse,
   [(key, value) => key === 'file' ? undefined : value]: what the replacer
   returns for the property is serialized, the properties of an object under
   their names, the elements of an array under their indices. *)
Fixpoint SerializeJSONProperty_replaced (key : jsstring) (value : Value) : option JSON :=
  if jsstring_eqb key (str "file") then None
  else
    match value with
    | VUndefined => None
    | VNull => Some JNull
    | VBool b => Some (JBool b)
    | VNum n => Some (JNum n)
    | VStr s => Some (JStr s)
    | VBlob _ => Some (JObj [])
    | VArr elems _ =>
        Some (JArr
          ((fix elements (index : N) (l : list Value) : list JSON :=
              match l with
              | [] => []
              | x :: rest =>
                  default JNull (SerializeJSONProperty_replaced (decimal index) x)
                  :: elements (N.succ index) rest
              end) 0 elems))
    | VObj own =>
        Some (JObj
          ((fix members (ps : Props) : list (jsstring * JSON) :=
              match ps with
              | [] => []
              | (k, x) :: rest =>
                  match SerializeJSONProperty_replaced k x with
                  | Some j => (k, j) :: members rest
                  | None => members rest
                  end
              end) own))
    end.

(* [JSON.stringify(value, replacer)]: the value is the property with the
   empty name of a wrapper object. *)
Definition JSON_stringify_replaced (value : Value) : option JSON :=
  SerializeJSONProperty_replaced [] value.

(* [db.transaction(STORE_NAME, mode).objectStore(STORE_NAME)] *)
Definition objectStore (db : IDBDatabase) : Result ObjectStore :=
  match objectStores db !! STORE_NAME with
  | Some store => Ok store
  | None => Throw (Error (str "NotFoundError"))
  end.

(* [store.put(value)] and the completion of the transaction: the key is the
   record's [id]. *)
Definition put (db : IDBDatabase) (store : ObjectStore) (value : Value) (idb : IndexedDB)
  : Result unit * IndexedDB :=
  match get_prop value (str "id") with
  | Ok (VStr key) =>
      (Ok tt,
       <[DB_NAME := {| db_version := db_version db;
                       objectStores :=
                         <[STORE_NAME := <[key := value]> store]> (objectStores db) |}]> idb)
  | _ => (Throw (Error (str "DataError")), idb)
  end.

Definition saveCourse (course : Course) (idb : IndexedDB) : Result unit * IndexedDB :=
  match openDB idb with
  | (Throw e, idb) => (Throw e, idb)
  | (Ok db, idb) =>
      match objectStore db with
      | Throw e => (Throw e, idb)
      | Ok store =>
          match JSON_stringify_replaced (VObj (Course_props course)) with
          | None => (Throw SyntaxError, idb)
          | Some text =>
              match JSON_parse (JsonText text) with
              | None => (Throw SyntaxError, idb)
              | Some courseToStore => put db store courseToStore idb
              end
          end
      end
  end.

Definition getCourse (id : jsstring) (idb : IndexedDB) : Result Value * IndexedDB :=
  match openDB idb with
  | (Throw e, idb) => (Throw e, idb)
  | (Ok db, idb) =>
      match objectStore db with
      | Throw e => (Throw e, idb)
      | Ok store => (Ok (default VUndefined (store !! id)), idb)
      end
  end.

(* A course without the files of its assets. *)
Definition without_file_media (m : MediaFile) : MediaFile :=
  {| media_id := media_id m; media_name := media_name m; media_path := media_path m;
     media_type := media_type m; media_blobUrl := media_blobUrl m; media_file := None |}.

Definition without_file_pose (p : MascotPose) : MascotPose :=
  {| pose_type := pose_type p; pose_path := pose_path p;
     pose_blobUrl := pose_blobUrl p; pose_file := None |}.

Definition without_files (c : Course) : Course :=
  {| course_id := course_id c; settings := settings c; modules := modules c;
     media := map without_file_media (media c);
     mascot := map without_file_pose (mascot c) |}.

(* No property is named [file], at any depth. *)
Fixpoint file_free (v : Value) : bool :=
  match v with
  | VArr elems _ => forallb file_free elems
  | VObj own =>
      forallb (fun kv => negb (jsstring_eqb (fst kv) (str "file")) && file_free (snd kv)) own
  | _ => true
  end.

(* The database is absent, or is one that openDB has set up. *)
Definition db_ready (idb : IndexedDB) : Prop :=
  match idb !! DB_NAME with
  | None => True
  | Some db => db_version db = DB_VERSION /\ is_Some (objectStores db !! STORE_NAME)
  end.

(** ** Saving while editing (App)

    [debouncedSave] is the only code of the App that sets a timer.  A timer
    set by [window.setTimeout] has an id, which is a positive integer, and
    runs its callback once, no earlier than its delay after it was set, unless
    [clearTimeout] removes it first. *)

(* A timer of the debounced save: when it is due and the course its callback
   saves. *)
Record Timer := {
  due : N;
  timer_course : Course;
}.

Record App := {
  app_course : option Course;        (* the state [course] *)
  debounceTimeoutRef : option N;     (* [debounceTimeoutRef.current], or null *)
  timers : gmap N Timer;             (* the timers set that have not run *)
  next_timer : N;                    (* the id the next setTimeout returns *)
  app_idb : IndexedDB;
  app_console : list (LogLevel * jsstring);
}.

(* [clearTimeout(id)]; it does nothing for an id that is not set. *)
Definition clearTimeout (id : N) (ts : gmap N Timer) : gmap N Timer := delete id ts.

(* [debouncedSave(courseToSave)], called at the time [now] (in milliseconds). *)
Definition debouncedSave (courseToSave : Course) (now : N) (app : App) : App :=
  let cleared :=
    match debounceTimeoutRef app with
    | Some id => if id =? 0 then timers app else clearTimeout id (timers app)
    | None => timers app
    end in
  {| app_course := app_course app;
     debounceTimeoutRef := Some (next_timer app);
     timers := <[next_timer app := {| due := now + 1000; timer_course := courseToSave |}]>
                 cleared;
     next_timer := N.succ (next_timer app);
     app_idb := app_idb app;
     app_console := app_console app |}.

(* The callback of the timer [id] runs at the time [now]:
   [db.saveCourse(courseToSave).catch(err => console.error(...))].  [None]
   when the timer is not set or not due. *)
Definition timeout (id : N) (now : N) (app : App) : option App :=
  match timers app !! id with
  | Some timer =>
      if due timer <=? now then
        let (saved, idb) := saveCourse (timer_course timer) (app_idb app) in
        Some {| app_course := app_course app;
                debounceTimeoutRef := debounceTimeoutRef app;
                timers := delete id (timers app);
                next_timer := next_timer app;
                app_idb := idb;
                app_console :=
                  match saved with
                  | Ok _ => app_console app
                  | Throw _ =>
                      app_console app ++ [(LogError, str "Failed to save course to DB")]
                  end |}
      else None
  | None => None
  end.

(* [React.SetStateAction<Course | null>] *)
Inductive SetStateAction :=
| NewState (newCourse : option Course)
| Updater (update : option Course -> option Course).

(* [typeof newCourseState === 'function' ? newCourseState(course) : newCourseState] *)
Definition resolved (newCourseState : SetStateAction) (course : option Course)
  : option Course :=
  match newCourseState with
  | Updater update => update course
  | NewState newCourse => newCourse
  end.

Definition handleSetCourse (newCourseState : SetStateAction) (now : N) (app : App) : App :=
  let resolvedCourse := resolved newCourseState (app_course app) in
  let app :=
    {| app_course := resolvedCourse;
       debounceTimeoutRef := debounceTimeoutRef app;
       timers := timers app;
       next_timer := next_timer app;
       app_idb := app_idb app;
       app_console := app_console app |} in
  match resolvedCourse with
  | Some resolvedCourse => debouncedSave resolvedCourse now app
  | None => app
  end.

(* The timers are those of a page whose only timer is the debounced save:
   ids are positive and below the next id, and a timer that is set is the one
   the ref holds. *)
Definition debounce_inv (app : App) : Prop :=
  0 < next_timer app
  /\ (forall id, debounceTimeoutRef app = Some id -> 0 < id < next_timer app)
  /\ (forall id, is_Some (timers app !! id) -> debounceTimeoutRef app = Some id).

(** ** The student page (StudentPage.tsx) *)

(* [answers]: an object used as a map from question ids to option ids.  A
   property read finds an own property, else a member of Object.prototype,
   else [undefined]. *)
Abbreviation Answers := (gmap jsstring jsstring).

Definition Object_prototype_keys : list jsstring :=
  [str "constructor"; str "hasOwnProperty"; str "isPrototypeOf";
   str "propertyIsEnumerable"; str "toLocaleString"; str "toString"; str "valueOf";
   str "__proto__"; str "__defineGetter__"; str "__defineSetter__";
   str "__lookupGetter__"; str "__lookupSetter__"].

Inductive Property : Type :=
| OwnProperty (value : jsstring)
| Inherited
| Undefined.

Definition read_answer (answers : Answers) (key : jsstring) : Property :=
  match answers !! key with
  | Some value => OwnProperty value
  | None => if includes Object_prototype_keys key then Inherited else Undefined
  end.

(* [answers[q.id] === q.correctOptionId] *)
Definition answered_correctly (answers : Answers) (q : QuizQuestion) : bool :=
  match read_answer answers (question_id q) with
  | OwnProperty value => jsstring_eqb value (question_correctOptionId q)
  | _ => false
  end.

(* The effect that computes the score. *)
Definition score (course : Course) (answers : Answers) : N :=
  fold_left
    (fun newScore mod_ =>
       match module_payload mod_ with
       | QuizModule questions =>
           fold_left
             (fun newScore q =>
                if answered_correctly answers q then newScore + 1 else newScore)
             questions newScore
       | _ => newScore
       end)
    (modules course) 0.

(* [!!answers[q.id]] *)
Definition isAnswered (answers : Answers) (q : QuizQuestion) : bool :=
  match read_answer answers (question_id q) with
  | OwnProperty [] => false
  | OwnProperty _ => true
  | Inherited => true
  | Undefined => false
  end.

(* The click on an option of a question:
   [!isAnswered && setAnswers(prev => ({ ...prev, [q.id]: opt.id }))]. *)
Definition selectOption (q : QuizQuestion) (opt : QuizOption) (answers : Answers) : Answers :=
  if isAnswered answers q then answers
  else <[question_id q := option_id opt]> answers.

(* The page's place in the course. *)
Record Position := {
  currentModuleIndex : nat;
  showResults : bool;
}.

Definition isFirst (p : Position) : bool := Nat.eqb (currentModuleIndex p) 0.

(* [currentModuleIndex === course.modules.length - 1] *)
Definition isLast (course : Course) (p : Position) : bool :=
  (Z.of_nat (currentModuleIndex p) =? Z.of_nat (length (modules course)) - 1)%Z.

Definition handleNext (course : Course) (p : Position) : Position :=
  if isLast course p then
    {| currentModuleIndex := currentModuleIndex p; showResults := true |}
  else
    {| currentModuleIndex := currentModuleIndex p + 1; showResults := showResults p |}.

Definition handlePrev (p : Position) : Position :=
  if negb (isFirst p) then
    {| currentModuleIndex := currentModuleIndex p - 1; showResults := showResults p |}
  else p.

Inductive Pose := pose_happy | pose_explaining | pose_sad | pose_thinking.

Definition Pose_tag (pose : Pose) : jsstring :=
  match pose with
  | pose_happy => str "happy"
  | pose_explaining => str "explaining"
  | pose_sad => str "sad"
  | pose_thinking => str "thinking"
  end.

Definition FALLBACK_MASCOTS (pose : Pose) : jsstring :=
  match pose with
  | pose_happy => str "https://i.imgur.com/oaZ8vKr.png"
  | pose_explaining => str "https://i.imgur.com/6FPSrbo.png"
  | pose_sad => str "https://i.imgur.com/QrjBlYr.png"
  | pose_thinking => str "https://i.imgur.com/rsV4LAc.png"
  end.

(* The [src] of the image MascotDisplay renders. *)
Definition MascotDisplay (course : Course) (pose : Pose) : jsstring :=
  let customMascot :=
    List.find (fun m => jsstring_eqb (pose_type m) (Pose_tag pose)) (mascot course) in
  match customMascot with
  | Some customMascot => pose_blobUrl customMascot
  | None => FALLBACK_MASCOTS pose
  end.

(* The questions of the quiz modules of a course, in order. *)
Definition quiz_questions (course : Course) : list QuizQuestion :=
  concat (map (fun mod_ => match module_payload mod_ with
                           | QuizModule questions => questions
                           | _ => []
                           end) (modules course)).

(* [s.startsWith(p)] *)
Fixpoint startsWith (p s : jsstring) : bool :=
  match p, s with
  | [], _ => true
  | a :: p', b :: s' => N.eqb a b && startsWith p' s'
  | _ :: _, [] => false
  end.

(* [s.replace(pattern, replacement)] for a pattern that is a string and a
   replacement without [$]: the first occurrence of the pattern, if any, is
   replaced. *)
Fixpoint String_replace (pattern replacement s : jsstring) : jsstring :=
  if startsWith pattern s then replacement ++ drop (length pattern) s
  else
    match s with
    | [] => []
    | c :: rest => c :: String_replace pattern replacement rest
    end.

(* The [src] of the iframe that ModuleRenderer renders for a module, if it
   renders one: [vidMod.source === 'url' && vidMod.url && <iframe ... />]. *)
Definition video_src (mod_ : Module) : option jsstring :=
  match module_payload mod_ with
  | VideoModule SourceUrl (Some (c :: url)) _ =>
      Some (String_replace (str "watch?v=") (str "embed/") (c :: url))
  | _ => None
  end.

(** ** Auxiliary notions for the proofs *)

(* A loop body that writes at most one entry, under the key of its item, and
   whose entry and effects do not depend on the archive written to. *)
Definition uniform_body {A} (key : A -> jsstring) (body : A -> Zip -> M Zip) : Prop :=
  forall item w, exists (entry : option Bytes) (w' : World),
    forall zip,
      body item zip w
      = (match entry with
         | Some e => zip_file_add (key item) e zip
         | None => zip
         end, w').

(* [c] keeps the objects of [h0], and its result satisfies [Q]. *)
Definition keeps {A} (h0 : Heap) (c : HM A) (Q : A -> Prop) : Prop :=
  forall h, heap_kept h0 h ->
    heap_kept h0 (snd (c h)) /\ (forall a, fst (c h) = Some a -> Q a).

(* The properties (elements) of an object read as the given values. *)
Definition fields_read (lk : nat -> option HObj) (fuel : nat)
    (props : list (jsstring * HVal)) (vps : Props) : Prop :=
  Forall2 (fun kv kt => fst kv = fst kt /\ read_in lk fuel (snd kv) = Some (snd kt))
          props vps.

Definition elems_read (lk : nat -> option HObj) (fuel : nat)
    (elems : list HVal) (ts : list Value) : Prop :=
  Forall2 (fun x t => read_in lk fuel x = Some t) elems ts.

(* The objects other than the one at [L] are kept from [h] to [h']. *)
Definition grows (L : nat) (h h' : Heap) : Prop :=
  forall l o, except L h l = Some o -> except L h' l = Some o.

(* One step of a computation on the heap whose outcome [H] states. *)
Ltac hstep H := unfold hbind at 1; rewrite H; cbv beta iota.

(* A decimal digit. *)
Definition is_digit (c : ascii) : Prop := (48 <= N_of_ascii c <= 57)%N.

(* Decides the comparisons of property names written out in the goal. *)
Ltac keys :=
  repeat match goal with
  | |- context [jsstring_eqb (str ?a) (str ?b)] =>
      let r := eval vm_compute in (jsstring_eqb (str a) (str b)) in
      change (jsstring_eqb (str a) (str b)) with r
  | |- context [jsstring_eqb [] (str ?b)] =>
      let r := eval vm_compute in (jsstring_eqb [] (str b)) in
      change (jsstring_eqb [] (str b)) with r
  end.

(** ** Sample data *)

Module Sample.

Definition browser : Browser :=
  {| network := fun _ => None;
     image_format_supported := fun _ => true;
     context2d_available := true;
     resample := fun img w h => raster_pixels img;
     encoder_succeeds := fun _ _ _ => true;
     entry_position := fun name => N.of_nat (length name);
     read_completes := fun i => N.of_nat i |}.

Definition fresh_world : World :=
  {| object_urls := ∅; next_url := 0; console := [] |}.

(* The settings createNewCourse starts from, on a fixed day; 0xED is the
   code unit of the accented i of the course name. *)
Definition defaultSettings : CourseSettings :=
  {| courseName := str "Novo Curso Sem T" ++ [0xED] ++ str "tulo";
     mascotName := Some (str "Mascote");
     school := [];
     authors := [];
     date := str "2024-01-01";
     description := [];
     theme := {| primaryColor := str "#F58248"; font := str "Poppins" |};
     language := str "pt-BR";
     mascotEnabled := false;
     showScore := true |}.

Definition empty_course : Course :=
  {| course_id := str "course_1";
     settings := defaultSettings;
     modules := [];
     media := [];
     mascot := [] |}.

Definition png_upload : Blob :=
  {| blob_type := str "image/png";
     blob_bytes := ImageBytes (str "image/png")
       {| raster_width := 2; raster_height := 3; raster_pixels := [1; 2; 3; 4; 5; 6] |} |}.

(* A file with a .png name and type whose content is no image. *)
Definition broken_upload : Blob :=
  {| blob_type := str "image/png"; blob_bytes := RawBytes [0; 1; 2] |}.

Definition happy_pose (file : Blob) : MascotPose :=
  {| pose_type := str "happy";
     pose_path := str "mascot/happy.png";
     pose_blobUrl := blob_url 0;
     pose_file := Some file |}.

Definition named_course (name : jsstring) (poses : list MascotPose) : Course :=
  match handleNameChange name (Some (with_mascot empty_course poses)) with
  | Some c => c
  | None => empty_course
  end.

Definition m1 : Module :=
  {| module_id := str "m1"; module_title := str "Intro";
     module_payload := TextModule (str "<p>Hello</p>") |}.
Definition m2 : Module :=
  {| module_id := str "m2"; module_title := str "Video";
     module_payload := VideoModule SourceUrl (Some (str "https://example.org/v")) None |}.
Definition m3 : Module :=
  {| module_id := str "m3"; module_title := str "Quiz";
     module_payload := QuizModule
       [{| question_id := str "q1"; question_question := str "1+1?";
           question_options := [{| option_id := str "a"; option_text := str "2" |}];
           question_correctOptionId := str "a";
           question_explanation := str "sum" |}] |}.

(* An archive with a document of one media record and the record's entry. *)
Definition small_document : JSON :=
  JObj [(str "id", JStr (str "course_1"));
        (str "media",
         JArr [JObj [(str "id", JStr (str "a")); (str "path", JStr (str "media/a.png"))];
               JObj [(str "id", JStr (str "b")); (str "path", JStr (str "media/b.png"))]]);
        (str "mascot", JArr [])].

Definition small_archive : Zip :=
  zip_file_add (str "media/a.png") (RawBytes [7])
    (zip_file_add (str "curso.json") (JsonText small_document) ∅).

(* An archive file whose document declares the media paths ./a.png and
   media/ and whose binary entries have these names. *)
Definition renamed_document : JSON :=
  JObj [(str "id", JStr (str "course_1"));
        (str "media",
         JArr [JObj [(str "id", JStr (str "a")); (str "path", JStr (str "./a.png"))];
               JObj [(str "id", JStr (str "b")); (str "path", JStr (str "media/"))]]);
        (str "mascot", JArr [])].

Definition renamed_archive : Zip :=
  zip_file_add (str "media/") (RawBytes [8])
    (zip_file_add (str "./a.png") (RawBytes [7])
       (zip_file_add (str "curso.json") (JsonText renamed_document) ∅)).

(* An archive file with two entries that loadAsync gives the same name. *)
Definition clashing_archive : Zip :=
  zip_file_add (str "./a.png") (RawBytes [8])
    (zip_file_add (str "a.png") (RawBytes [7]) ∅).

(* An archive file with the entries of both media records of its document,
   and a browser in which a read started later completes earlier. *)
Definition two_reads_archive : Zip :=
  zip_file_add (str "media/b.png") (RawBytes [8]) small_archive.

Definition late_browser : Browser :=
  {| network := fun _ => None;
     image_format_supported := fun _ => true;
     context2d_available := true;
     resample := fun img w h => raster_pixels img;
     encoder_succeeds := fun _ _ _ => true;
     entry_position := fun name => N.of_nat (length name);
     read_completes := fun i => 100 - N.of_nat i |}.

(* An archive whose curso.json is the JSON text of an empty object. *)
Definition shapeless_archive : Zip :=
  zip_file_add (str "curso.json") (JsonText (JObj [])) ∅.

(* A media asset with an upload, stored under the document's name. *)
Definition usurping_media : MediaFile :=
  {| media_id := str "a"; media_name := str "a";
     media_path := str "curso.json";
     media_type := MediaImage;
     media_blobUrl := blob_url 0;
     media_file := Some png_upload |}.

(* Two media assets under one path: the first has lost its content (no file,
   a blob URL the store does not know), the second has an upload. *)
Definition lost_media : MediaFile :=
  {| media_id := str "a"; media_name := str "a";
     media_path := str "media/a.png";
     media_type := MediaImage;
     media_blobUrl := str "blob:gone";
     media_file := None |}.

Definition twin_media : MediaFile :=
  {| media_id := str "b"; media_name := str "b";
     media_path := str "media/a.png";
     media_type := MediaImage;
     media_blobUrl := blob_url 0;
     media_file := Some png_upload |}.

Definition with_media (c : Course) (ms : list MediaFile) : Course :=
  {| course_id := course_id c; settings := settings c; modules := modules c;
     media := ms; mascot := mascot c |}.

(* A course with modules, media and a pose, and its objects on a heap. *)
Definition full_course : Course :=
  with_media
    (with_mascot (with_modules empty_course [m1; m2; m3]) [happy_pose png_upload])
    [lost_media; twin_media].

Definition full_course_heap : HVal * Heap :=
  alloc_value (VObj (Course_props full_course)) [].

(* A question with three options, the first of them the correct one. *)
Definition three_options : QuizQuestion :=
  {| question_id := str "q2"; question_question := str "2+2?";
     question_options :=
       [{| option_id := str "a"; option_text := str "4" |};
        {| option_id := str "b"; option_text := str "5" |};
        {| option_id := str "c"; option_text := str "6" |}];
     question_correctOptionId := str "a";
     question_explanation := [] |}.

(* A course with one media asset and one pose, both with an upload. *)
Definition illustrated_course : Course :=
  with_media (with_mascot empty_course [happy_pose png_upload]) [twin_media].

(* The student at the first module of a course. *)
Definition first_position : Position :=
  {| currentModuleIndex := 0; showResults := false |}.

(* The App when it starts, over an origin without databases. *)
Definition starting_app : App :=
  {| app_course := None; debounceTimeoutRef := None; timers := ∅; next_timer := 1;
     app_idb := ∅; app_console := [] |}.

(* A clock that advances by a millisecond between two readings. *)
Definition clock : Clock :=
  {| readings := fun n => 1700000000000 + N.of_nat n; taken := 0 |}.

End Sample.

(** * Properties *)

(** ** Strings and properties *)

Lemma jsstring_eqb_eq (a b : jsstring) : jsstring_eqb a b = true <-> a = b.
Proof. unfold jsstring_eqb. apply bool_decide_eq_true. Qed.

Lemma jsstring_eqb_neq (a b : jsstring) : jsstring_eqb a b = false <-> a <> b.
Proof. unfold jsstring_eqb. apply bool_decide_eq_false. Qed.

Lemma jsstring_eqb_refl (a : jsstring) : jsstring_eqb a a = true.
Proof. by apply jsstring_eqb_eq. Qed.

Lemma str_inj (s t : string) : str s = str t -> s = t.
Proof.
  unfold str. revert t.
  induction s as [|a s IH]; intros [|b t]; simpl; try discriminate; auto.
  intros H. injection H as Hab Hst.
  f_equal; [|by apply IH].
  rewrite <- (ascii_N_embedding a), <- (ascii_N_embedding b). by rewrite Hab.
Qed.

Lemma blob_url_inj (n m : N) : blob_url n = blob_url m -> n = m.
Proof.
  unfold blob_url. intros H. apply str_inj in H.
  apply (inj (String.append "blob:")) in H.
  by apply (inj pretty) in H.
Qed.

(** ** trim *)

Lemma trimStart_split (s : jsstring) :
  exists lead, s = lead ++ trimStart s
    /\ forallb isWhiteSpace lead = true
    /\ (forall c, head (trimStart s) = Some c -> isWhiteSpace c = false).
Proof.
  induction s as [|c s (lead & Hs & Hlead & Hhead)]; simpl.
  - exists []. repeat split; auto. discriminate.
  - destruct (isWhiteSpace c) eqn:Hc.
    + exists (c :: lead). simpl. rewrite Hc, Hlead. repeat split; auto.
      by rewrite <- Hs.
    + exists []. repeat split; auto. simpl. intros c' [= <-]. exact Hc.
Qed.

Lemma trimEnd_split (s : jsstring) :
  exists trail, s = trimEnd s ++ trail
    /\ forallb isWhiteSpace trail = true
    /\ (forall c, last (trimEnd s) = Some c -> isWhiteSpace c = false).
Proof.
  unfold trimEnd.
  destruct (trimStart_split (reverse s)) as (lead & Hs & Hlead & Hhead).
  exists (reverse lead). repeat split.
  - rewrite <- reverse_app, <- Hs. by rewrite reverse_involutive.
  - rewrite forallb_forall in *. intros x Hx. apply Hlead.
    apply list_elem_of_In, elem_of_reverse, list_elem_of_In. exact Hx.
  - intros c Hc. apply Hhead. by rewrite last_reverse in Hc.
Qed.

Lemma trim_split (s : jsstring) :
  exists lead trail, s = lead ++ trim s ++ trail
    /\ forallb isWhiteSpace lead = true
    /\ forallb isWhiteSpace trail = true
    /\ (forall c, head (trim s) = Some c -> isWhiteSpace c = false)
    /\ (forall c, last (trim s) = Some c -> isWhiteSpace c = false).
Proof.
  unfold trim.
  destruct (trimStart_split s) as (lead & Hs & Hlead & Hhead).
  destruct (trimEnd_split (trimStart s)) as (trail & Ht & Htrail & Hlast).
  exists lead, trail. repeat split; auto.
  - by rewrite <- Ht.
  - intros c Hc. apply Hhead. rewrite Ht.
    destruct (trimEnd (trimStart s)); [discriminate | exact Hc].
Qed.

(** ** The export name of the mascot *)

Lemma replace_non_alnum_chars (s : jsstring) :
  length (replace_non_alnum s) = length s
  /\ forall i c, s !! i = Some c ->
       replace_non_alnum s !! i = Some (if isAlnum c then c else underscore).
Proof.
  unfold replace_non_alnum. split; [apply length_map|].
  intros i c H. by rewrite list_lookup_fmap, H.
Qed.

Lemma courseToSave_mascot (course : Course) (ids : option (list jsstring)) :
  mascot (courseToSave course ids)
  = map (fun pose => with_path pose (export_mascot_path (export_mascotName course) pose))
        (mascot course).
Proof. reflexivity. Qed.

(** C2 (as the specification words it) fails: for the mascot name
    "Dino 2000!" and the pose happy the packer does not produce
    mascot/Dino_2000_happy.png (the "!" becomes a second underscore), and for
    a name with surrounding blanks it does not produce the path the worded
    slug gives, because the name is trimmed first. *)
Lemma C2_counterexample_dino_and_blanks :
  map pose_path
      (mascot (courseToSave (Sample.named_course (str "Dino 2000!")
                               [Sample.happy_pose Sample.png_upload]) None))
    <> [str "mascot/Dino_2000_happy.png"]
  /\ map pose_path
      (mascot (courseToSave (Sample.named_course (str " Dino ")
                               [Sample.happy_pose Sample.png_upload]) None))
    <> [spec_mascot_path (str " Dino ") (str "happy")].
Proof. split; vm_compute; discriminate. Qed.

(** C2 (amended): every mascot pose is exported, in list order and with its
    other fields unchanged, under mascot/<name>_<poseTag>.png, where <name> is
    the mascot name with its leading and trailing white space removed and each
    remaining character outside [A-Za-z0-9] replaced by an underscore, or
    "mascot" when the setting is absent or nothing remains.  For "Dino 2000!"
    and pose happy the path is mascot/Dino_2000__happy.png; for the empty name
    it is mascot/mascot_happy.png. *)
Theorem C2_mascot_export_path (course : Course) (ids : option (list jsstring)) :
  (forall i pose, mascot course !! i = Some pose ->
     mascot (courseToSave course ids) !! i
     = Some (with_path pose
               (str "mascot/" ++ export_mascotName course ++ str "_"
                  ++ pose_type pose ++ str ".png")))
  /\ length (mascot (courseToSave course ids)) = length (mascot course)
  /\ match mascotName (settings course) with
     | None => export_mascotName course = str "mascot"
     | Some name =>
         exists lead core trail,
           name = lead ++ core ++ trail
           /\ forallb isWhiteSpace lead = true
           /\ forallb isWhiteSpace trail = true
           /\ (forall c, head core = Some c -> isWhiteSpace c = false)
           /\ (forall c, last core = Some c -> isWhiteSpace c = false)
           /\ export_mascotName course
              = match core with
                | [] => str "mascot"
                | _ => map (fun c => if isAlnum c then c else underscore) core
                end
     end
  /\ map pose_path
       (mascot (courseToSave (Sample.named_course (str "Dino 2000!")
                                [Sample.happy_pose Sample.png_upload]) ids))
     = [str "mascot/Dino_2000__happy.png"]
  /\ map pose_path
       (mascot (courseToSave (Sample.named_course []
                                [Sample.happy_pose Sample.png_upload]) ids))
     = [str "mascot/mascot_happy.png"].
Proof.
  split; [|split; [|split; [|split]]].
  - intros i pose H. rewrite courseToSave_mascot.
    change (map ?f ?l) with (f <$> l). by rewrite list_lookup_fmap, H.
  - rewrite courseToSave_mascot. apply length_map.
  - unfold export_mascotName. destruct (mascotName (settings course)) as [name|]; [|done].
    destruct (trim_split name) as (lead & trail & Hname & Hlead & Htrail & Hhead & Hlast).
    exists lead, (trim name), trail. repeat split; auto.
    unfold replace_non_alnum. by destruct (trim name).
  - rewrite courseToSave_mascot. by vm_compute.
  - rewrite courseToSave_mascot. by vm_compute.
Qed.

(** ** The mascot editor *)

Lemma filter_other_tags_app (poseType : jsstring) (l : list MascotPose) (p : MascotPose) :
  pose_type p = poseType ->
  List.filter (has_tag poseType)
    (List.filter (fun m => negb (has_tag poseType m)) l ++ [p]) = [p].
Proof.
  intros Hp.
  assert (Htag : has_tag poseType p = true)
    by (unfold has_tag; rewrite Hp; apply jsstring_eqb_refl).
  rewrite List.filter_app. simpl. rewrite Htag.
  replace (List.filter (has_tag poseType)
             (List.filter (fun m => negb (has_tag poseType m)) l)) with (@nil MascotPose); [done|].
  induction l as [|m l IH]; simpl; [done|].
  destruct (has_tag poseType m) eqn:Hm; simpl; [done|]. by rewrite Hm.
Qed.

Lemma filter_idem {A} (f : A -> bool) (l : list A) :
  List.filter f (List.filter f l) = List.filter f l.
Proof.
  induction l as [|x l IH]; simpl; [done|].
  destruct (f x) eqn:Hx; simpl; [by rewrite Hx, IH | done].
Qed.

Lemma NoDup_filter_tags (f : MascotPose -> bool) (l : list MascotPose) :
  NoDup (map pose_type l) -> NoDup (map pose_type (List.filter f l)).
Proof.
  induction l as [|m l IH]; simpl; [done|].
  intros Hnd. apply NoDup_cons in Hnd as [Hm Hl].
  destruct (f m); simpl; [|by apply IH].
  apply NoDup_cons. split; [|by apply IH].
  intros Hin. apply Hm.
  apply list_elem_of_In, in_map_iff in Hin as (x & Hx & Hin).
  apply list_elem_of_In, in_map_iff. exists x. split; [done|].
  apply filter_In in Hin. tauto.
Qed.

Lemma filter_other_tags_none (poseType : jsstring) (l : list MascotPose) :
  List.filter (has_tag poseType) (List.filter (fun m => negb (has_tag poseType m)) l) = [].
Proof.
  induction l as [|m l IH]; simpl; [done|].
  destruct (has_tag poseType m) eqn:Hm; simpl; [done|]. by rewrite Hm.
Qed.

(* Removing the pose of a tag leaves no pose with the tag and keeps the others. *)
Lemma removePose_clears_tag (poseType : jsstring) (prev : Course) :
  exists next,
    removePose poseType (Some prev) = Some next
    /\ List.filter (has_tag poseType) (mascot next) = []
    /\ List.filter (fun m => negb (has_tag poseType m)) (mascot next)
       = List.filter (fun m => negb (has_tag poseType m)) (mascot prev)
    /\ (NoDup (map pose_type (mascot prev)) -> NoDup (map pose_type (mascot next))).
Proof.
  eexists. split; [reflexivity|]. cbn [mascot with_mascot].
  split; [apply filter_other_tags_none|].
  split; [apply filter_idem|]. apply NoDup_filter_tags.
Qed.

(** C8: when the mascot editor accepts a PNG for a tag, the new course state
    holds exactly one pose with that tag (the new one, replacing any pose the
    tag had), the poses of the other tags are the same as before and in the
    same order, and a state with at most one pose per tag stays so. *)
Theorem C8_one_pose_per_tag (file : Blob) (poseType : jsstring) (prev : Course) (w : World) :
  blob_type file = str "image/png" ->
  exists (next : Course) (w' : World),
    handleFileChange (Some file) poseType (Some prev) w = (Some next, w')
    /\ List.filter (has_tag poseType) (mascot next)
       = [{| pose_type := poseType;
             pose_path := str "mascot/" ++ poseType ++ str ".png";
             pose_blobUrl := blob_url (next_url w);
             pose_file := Some file |}]
    /\ List.filter (fun m => negb (has_tag poseType m)) (mascot next)
       = List.filter (fun m => negb (has_tag poseType m)) (mascot prev)
    /\ (NoDup (map pose_type (mascot prev)) -> NoDup (map pose_type (mascot next)))
    /\ course_id next = course_id prev
    /\ settings next = settings prev
    /\ modules next = modules prev
    /\ media next = media prev
    /\ object_urls w' !! blob_url (next_url w) = Some file.
Proof.
  intros Htype. unfold handleFileChange.
  rewrite Htype, jsstring_eqb_refl. simpl.
  eexists _, _. split; [reflexivity|]. simpl.
  split; [by apply filter_other_tags_app|].
  split.
  { rewrite List.filter_app. simpl.
    replace (has_tag poseType _) with true
      by (unfold has_tag; simpl; by rewrite jsstring_eqb_refl).
    simpl. rewrite app_nil_r. apply filter_idem. }
  split.
  { intros Hnd. rewrite map_app. simpl. apply NoDup_app.
    split; [by apply NoDup_filter_tags|].
    split; [|apply NoDup_singleton].
    intros t Ht Hin. apply list_elem_of_singleton in Hin. subst t.
    apply list_elem_of_In, in_map_iff in Ht as (m & Hm & Hin).
    apply filter_In in Hin as [_ Hneg].
    unfold has_tag in Hneg. by rewrite Hm, jsstring_eqb_refl in Hneg. }
  repeat split. apply lookup_insert_eq.
Qed.

Lemma C8_one_pose_per_tag_witness :
  blob_type Sample.png_upload = str "image/png"
  /\ exists (next : Course) (w' : World),
       handleFileChange (Some Sample.png_upload) (str "happy")
         (Some (with_mascot Sample.empty_course [Sample.happy_pose Sample.broken_upload]))
         Sample.fresh_world = (Some next, w')
       /\ length (mascot next) = 1%nat.
Proof.
  split; [reflexivity|].
  destruct (C8_one_pose_per_tag Sample.png_upload (str "happy")
              (with_mascot Sample.empty_course [Sample.happy_pose Sample.broken_upload])
              Sample.fresh_world eq_refl)
    as (next & w' & Hrun & _).
  exists next, w'. split; [exact Hrun|].
  vm_compute in Hrun. by injection Hrun as <- _.
Defined.

(** ** JSON.parse after JSON.stringify *)

Lemma Value_nested_ind (P : Value -> Prop) :
  P VUndefined -> P VNull -> (forall b, P (VBool b)) -> (forall n, P (VNum n)) ->
  (forall s, P (VStr s)) -> (forall b, P (VBlob b)) ->
  (forall elems own,
      Forall P elems -> Forall (fun kv => P (snd kv)) own -> P (VArr elems own)) ->
  (forall own, Forall (fun kv => P (snd kv)) own -> P (VObj own)) ->
  forall v, P v.
Proof.
  intros Hu Hn Hb Hnum Hs Hblob Harr Hobj.
  refine (fix IH (v : Value) : P v :=
    match v with
    | VUndefined => Hu
    | VNull => Hn
    | VBool b => Hb b
    | VNum n => Hnum n
    | VStr s => Hs s
    | VBlob b => Hblob b
    | VArr elems own =>
        Harr elems own
          ((fix go (l : list Value) : Forall P l :=
              match l with
              | [] => List.Forall_nil _
              | x :: l' => List.Forall_cons _ _ _ (IH x) (go l')
              end) elems)
          ((fix go (l : Props) : Forall (fun kv => P (snd kv)) l :=
              match l with
              | [] => List.Forall_nil _
              | kv :: l' => List.Forall_cons _ _ _ (IH (snd kv)) (go l')
              end) own)
    | VObj own =>
        Hobj own
          ((fix go (l : Props) : Forall (fun kv => P (snd kv)) l :=
              match l with
              | [] => List.Forall_nil _
              | kv :: l' => List.Forall_cons _ _ _ (IH (snd kv)) (go l')
              end) own)
    end).
Qed.

Lemma plain_roundtrip (v : Value) :
  plain v = true -> of_json <$> SerializeJSONProperty v = Some v.
Proof.
  induction v as [| | | | | |elems own IHe IHo|own IHo] using Value_nested_ind;
    simpl; try done.
  - intros H. apply andb_true_iff in H as [He Ho].
    destruct own; [|done]. do 3 f_equal.
    induction IHe as [|x l Hx _ IHl]; simpl in *; [done|].
    apply andb_true_iff in He as [Hpx Hl].
    specialize (Hx Hpx). destruct (SerializeJSONProperty x); [|done].
    simpl in *. injection Hx as ->. by rewrite IHl.
  - intros H. do 3 f_equal.
    induction IHo as [|[k x] l Hx _ IHl]; simpl in *; [done|].
    apply andb_true_iff in H as [Hpx Hl].
    specialize (Hx Hpx). destruct (SerializeJSONProperty x); [|done].
    simpl in *. injection Hx as ->. by rewrite IHl.
Qed.

Lemma plain_serializes (v : Value) :
  plain v = true -> exists j, SerializeJSONProperty v = Some j /\ of_json j = v.
Proof.
  intros H. apply plain_roundtrip in H.
  destruct (SerializeJSONProperty v) as [j|]; [|done].
  exists j. split; [done|]. by injection H.
Qed.

Lemma forallb_plain_map {A} (f : A -> Value) (l : list A) :
  (forall x, plain (f x) = true) -> forallb plain (map f l) = true.
Proof. intros H. induction l; simpl; [done|]. by rewrite H, IHl. Qed.

Lemma optional_prop_plain (key : jsstring) (o : option jsstring) :
  forallb (fun kv : jsstring * Value => plain (snd kv)) (optional_prop key (VStr <$> o)) = true.
Proof. by destruct o. Qed.

Lemma Module_object_plain (m : Module) : plain (Module_object m) = true.
Proof.
  destruct m as [id title payload]. unfold Module_object. simpl.
  destruct payload as [c|s u f|qs|cs|es|ss]; simpl.
  - done.
  - by destruct u, f.
  - rewrite andb_true_r. apply andb_true_iff. split; [|done].
    apply forallb_plain_map. intros q. simpl.
    rewrite forallb_plain_map; [done|]. by intros o.
  - rewrite andb_true_r. apply andb_true_iff. split; [|done].
    apply forallb_plain_map. by intros c.
  - rewrite andb_true_r. apply andb_true_iff. split; [|done].
    apply forallb_plain_map. intros e. simpl. by destruct (event_imagePath e).
  - rewrite andb_true_r. apply andb_true_iff. split; [|done].
    apply forallb_plain_map. intros e. simpl. by destruct (step_imagePath e).
Qed.

Lemma CourseSettings_object_plain (s : CourseSettings) :
  plain (CourseSettings_object s) = true.
Proof. unfold CourseSettings_object. simpl. by destruct (mascotName s). Qed.

(** ** The document written by zipCourse *)

Lemma strip_transient_media (item : MediaFile) :
  strip_transient (MediaFile_props item)
  = VObj [(str "id", VStr (media_id item));
          (str "name", VStr (media_name item));
          (str "path", VStr (media_path item));
          (str "type", VStr (MediaType_tag (media_type item)))].
Proof. unfold MediaFile_props. by destruct (media_file item). Qed.

Lemma strip_transient_mascot (item : MascotPose) :
  strip_transient (MascotPose_props item)
  = VObj [(str "type", VStr (pose_type item));
          (str "path", VStr (pose_path item))].
Proof. unfold MascotPose_props. by destruct (pose_file item). Qed.

Lemma cleanCourse_props (cs : Course) :
  cleanCourse cs
  = VObj [(str "id", VStr (course_id cs));
          (str "settings", CourseSettings_object (settings cs));
          (str "modules", VArr (map Module_object (modules cs)) []);
          (str "media",
           VArr (map (fun item => strip_transient (MediaFile_props item)) (media cs)) []);
          (str "mascot",
           VArr (map (fun item => strip_transient (MascotPose_props item)) (mascot cs)) [])].
Proof. reflexivity. Qed.

Lemma cleanCourse_plain (cs : Course) : plain (cleanCourse cs) = true.
Proof.
  rewrite cleanCourse_props. cbn [plain forallb snd].
  rewrite CourseSettings_object_plain.
  rewrite !forallb_plain_map; first done.
  - intros item. by rewrite strip_transient_mascot.
  - intros item. by rewrite strip_transient_media.
  - apply Module_object_plain.
Qed.

Lemma document_parses (course : Course) (ids : option (list jsstring)) :
  exists doc, document course ids = Some doc
    /\ of_json doc = cleanCourse (courseToSave course ids).
Proof. apply plain_serializes, cleanCourse_plain. Qed.

(** ** Entries written by a loop of [zip.file] calls *)

Section PutEntries.

Context {A : Type} (key : A -> jsstring) (entry : A -> option Bytes).

Lemma put_entries_snoc (items : list A) (item : A) (zip : Zip) :
  put_entries key entry (items ++ [item]) zip
  = match entry item with
    | Some e => zip_file_add (key item) e (put_entries key entry items zip)
    | None => put_entries key entry items zip
    end.
Proof. unfold put_entries. by rewrite fold_left_app. Qed.


Lemma put_entries_origin (items : list A) (zip : Zip) (name : jsstring) (e : Bytes) :
  put_entries key entry items zip !! name = Some e ->
  zip !! name = Some e
  \/ exists item, In item items /\ key item = name /\ entry item = Some e.
Proof.
  induction items as [|item items IH] using rev_ind; [by left|].
  rewrite put_entries_snoc.
  destruct (entry item) as [e'|] eqn:He.
  - unfold zip_file_add. rewrite lookup_insert. case_decide as Hk.
    + intros [= <-]. right. exists item. split; [|done].
      apply in_app_iff. right. by left.
    + intros H. destruct (IH H) as [|(x & Hx & Hkx & Hex)]; [by left|].
      right. exists x. split; [|done]. apply in_app_iff. by left.
  - intros H. destruct (IH H) as [|(x & Hx & Hkx & Hex)]; [by left|].
    right. exists x. split; [|done]. apply in_app_iff. by left.
Qed.

Lemma put_entries_written (items : list A) (zip : Zip) (item : A) (e : Bytes) :
  In item items -> entry item = Some e ->
  exists item' e', In item' items /\ key item' = key item
    /\ entry item' = Some e' /\ put_entries key entry items zip !! key item = Some e'.
Proof.
  induction items as [|x items IH] using rev_ind; [done|].
  intros Hin He. rewrite put_entries_snoc.
  destruct (entry x) as [ex|] eqn:Hex.
  - unfold zip_file_add. rewrite lookup_insert. case_decide as Hk.
    + exists x, ex. repeat split; try done. apply in_app_iff. right. by left.
    + apply in_app_iff in Hin as [Hin|[->|[]]]; [|done].
      destruct (IH Hin He) as (i' & e' & Hi' & Hk' & He' & Hl).
      exists i', e'. repeat split; try done. apply in_app_iff. by left.
  - apply in_app_iff in Hin as [Hin|[->|[]]]; [|congruence].
    destruct (IH Hin He) as (i' & e' & Hi' & Hk' & He' & Hl).
    exists i', e'. repeat split; try done. apply in_app_iff. by left.
Qed.

End PutEntries.

(** ** The loops of zipCourse *)

Section PackagingProperties.

Variable browser : Browser.

Lemma add_media_file_spec (item : MediaFile) (zip : Zip) (w : World) :
  exists w',
    add_media_file browser item zip w
    = (match media_entry browser w item with
       | Some e => zip_file_add (media_path item) e zip
       | None => zip
       end, w')
    /\ object_urls w' = object_urls w /\ next_url w' = next_url w.
Proof.
  unfold add_media_file, media_entry, resolve, fetch_blob, bind, ret.
  destruct (media_file item) as [f|]; simpl; [by eexists|].
  destruct (object_urls w !! media_blobUrl item); simpl; [by eexists|].
  destruct (network browser (media_blobUrl item)); simpl; by eexists.
Qed.

Lemma media_loop (items : list MediaFile) (zip : Zip) (w : World) :
  exists w',
    for_of (add_media_file browser) items zip w
    = (put_entries media_path (media_entry browser w) items zip, w')
    /\ object_urls w' = object_urls w /\ next_url w' = next_url w.
Proof.
  revert zip w. induction items as [|item items IH]; intros zip w; simpl.
  - by exists w.
  - unfold bind.
    destruct (add_media_file_spec item zip w) as (w1 & -> & Hu & Hn).
    destruct (IH (match media_entry browser w item with
                  | Some e => zip_file_add (media_path item) e zip
                  | None => zip
                  end) w1) as (w2 & -> & Hu2 & Hn2).
    exists w2. split; [|split; congruence].
    f_equal. unfold put_entries. simpl.
    replace (media_entry browser w1) with (media_entry browser w); [done|].
    unfold media_entry, resolve. by rewrite Hu.
Qed.

Lemma resizeImageToSquare_spec (content : Blob) (w : World) :
  urls_wf w ->
  resizeImageToSquare browser content w
  = (normalize browser content,
     {| object_urls := object_urls w;
        next_url := N.succ (next_url w);
        console := console w |}).
Proof.
  intros Hwf.
  assert (Hfresh : object_urls w !! blob_url (next_url w) = None).
  { destruct (object_urls w !! blob_url (next_url w)) eqn:E; [|done].
    assert (next_url w < next_url w) by (apply Hwf; by rewrite E). lia. }
  unfold resizeImageToSquare, bind, createObjectURL, load_image, normalize, decode.
  cbn [object_urls next_url console fst snd].
  rewrite lookup_insert_eq.
  destruct content as [ty [mime img| |]]; cbn [blob_bytes];
    try (unfold revokeObjectURL, ret; cbn; by rewrite delete_insert_id).
  destruct (image_format_supported browser mime);
    [|unfold revokeObjectURL, ret; cbn; by rewrite delete_insert_id].
  destruct (negb (context2d_available browser));
    [unfold revokeObjectURL, ret; cbn; by rewrite delete_insert_id|].
  destruct (toBlob browser _ _);
    unfold revokeObjectURL, ret; cbn; by rewrite delete_insert_id.
Qed.

Lemma urls_wf_succ (w : World) (log : list (LogLevel * jsstring)) (n : N) :
  urls_wf w -> next_url w <= n ->
  urls_wf {| object_urls := object_urls w; next_url := n; console := log |}.
Proof. intros Hwf Hn k Hk. specialize (Hwf k Hk). simpl. lia. Qed.

Lemma add_resized_spec (item : MascotPose) (zip : Zip) (content : Blob) (w : World) :
  urls_wf w ->
  exists w',
    (let* resized := resizeImageToSquare browser content in
     match resized with
     | Ok resizedBlob => ret (zip_file_add (pose_path item) (blob_bytes resizedBlob) zip)
     | Throw _ =>
         let* _ := console_log LogError (str "Failed to resize mascot " ++ pose_type item) in
         ret (zip_file_add (pose_path item) (blob_bytes content) zip)
     end) w
    = (match normalize browser content with
       | Ok resizedBlob => zip_file_add (pose_path item) (blob_bytes resizedBlob) zip
       | Throw _ => zip_file_add (pose_path item) (blob_bytes content) zip
       end, w')
    /\ object_urls w' = object_urls w /\ next_url w <= next_url w' /\ urls_wf w'.
Proof.
  intros Hwf. unfold bind at 1.
  rewrite resizeImageToSquare_spec by done.
  destruct (normalize browser content); cbn.
  - eexists. split; [reflexivity|]. cbn. repeat split; [lia|].
    apply urls_wf_succ; [done|lia].
  - eexists. split; [reflexivity|]. cbn. repeat split; [lia|].
    apply urls_wf_succ; [done|lia].
Qed.

Lemma add_mascot_file_spec (item : MascotPose) (zip : Zip) (w : World) :
  urls_wf w ->
  exists w',
    add_mascot_file browser item zip w
    = (match mascot_entry browser w item with
       | Some e => zip_file_add (pose_path item) e zip
       | None => zip
       end, w')
    /\ object_urls w' = object_urls w /\ next_url w <= next_url w' /\ urls_wf w'.
Proof.
  intros Hwf.
  unfold add_mascot_file, mascot_content, mascot_entry, resolve, fetch_blob.
  destruct (pose_file item) as [f|].
  - destruct (add_resized_spec item zip f w Hwf) as (w' & Heq & ?).
    exists w'. split; [|done].
    etransitivity; [exact Heq|]. by destruct (normalize browser f).
  - destruct (object_urls w !! pose_blobUrl item) as [b|] eqn:Hurl.
    + destruct (add_resized_spec item zip b w Hwf) as (w' & Heq & ?).
      exists w'. split; [|done].
      etransitivity; [|etransitivity; [exact Heq|]].
      * unfold bind at 1. unfold bind at 1. by rewrite Hurl.
      * by destruct (normalize browser b).
    + destruct (network browser (pose_blobUrl item)) as [b|] eqn:Hnet.
      * destruct (add_resized_spec item zip b w Hwf) as (w' & Heq & ?).
        exists w'. split; [|done].
        etransitivity; [|etransitivity; [exact Heq|]].
        -- unfold bind at 1. unfold bind at 1. by rewrite Hurl.
        -- by destruct (normalize browser b).
      * eexists. split.
        -- unfold bind at 1. unfold bind at 1. rewrite Hurl. reflexivity.
        -- cbn. repeat split; [lia|]. by apply urls_wf_succ.
Qed.

Lemma mascot_loop (items : list MascotPose) (zip : Zip) (w : World) :
  urls_wf w ->
  exists w',
    for_of (add_mascot_file browser) items zip w
    = (put_entries pose_path (mascot_entry browser w) items zip, w')
    /\ object_urls w' = object_urls w /\ next_url w <= next_url w' /\ urls_wf w'.
Proof.
  revert zip w. induction items as [|item items IH]; intros zip w Hwf; simpl.
  - exists w. repeat split; [lia|done].
  - unfold bind.
    destruct (add_mascot_file_spec item zip w Hwf) as (w1 & -> & Hu & Hn & Hwf1).
    destruct (IH (match mascot_entry browser w item with
                  | Some e => zip_file_add (pose_path item) e zip
                  | None => zip
                  end) w1 Hwf1) as (w2 & -> & Hu2 & Hn2 & Hwf2).
    exists w2. split; [|repeat split; [congruence|lia|done]].
    f_equal. unfold put_entries. simpl.
    replace (mascot_entry browser w1) with (mascot_entry browser w); [done|].
    unfold mascot_entry, resolve. by rewrite Hu.
Qed.

End PackagingProperties.

(** ** Shape of the document *)

Lemma plain_json_of (v : Value) :
  plain v = true -> SerializeJSONProperty v = Some (json_of v).
Proof.
  intros H. destruct (plain_serializes v H) as (j & Hj & _).
  unfold json_of. by rewrite Hj.
Qed.

Lemma document_shape (course : Course) (ids : option (list jsstring)) :
  let cs := courseToSave course ids in
  document course ids
  = Some (JObj [(str "id", JStr (course_id course));
                (str "settings", json_of (CourseSettings_object (settings course)));
                (str "modules", JArr (map (fun m => json_of (Module_object m)) (modules cs)));
                (str "media", JArr (map media_json (media course)));
                (str "mascot", JArr (map mascot_json (mascot cs)))]).
Proof.
  intros cs. unfold document, JSON_stringify. rewrite cleanCourse_props.
  cbn [SerializeJSONProperty].
  rewrite (plain_json_of _ (CourseSettings_object_plain _)).
  rewrite !map_map. subst cs.
  assert (Hmedia : forall item,
    default JNull (SerializeJSONProperty (strip_transient (MediaFile_props item)))
    = media_json item) by (intros item; by rewrite strip_transient_media).
  assert (Hmascot : forall item,
    default JNull (SerializeJSONProperty (strip_transient (MascotPose_props item)))
    = mascot_json item) by (intros item; by rewrite strip_transient_mascot).
  by rewrite (map_ext _ _ Hmedia), (map_ext _ _ Hmascot).
Qed.

(** ** Writes of a loop do not depend on the archive they go to *)

Lemma for_of_writes {A} (key : A -> jsstring) (body : A -> Zip -> M Zip) :
  uniform_body key body ->
  forall items w, exists (writes : list (jsstring * Bytes)) (w' : World),
    (forall zip, for_of body items zip w = (apply_writes writes zip, w'))
    /\ Forall (fun kv => exists item, In item items /\ key item = fst kv) writes.
Proof.
  intros Hbody items. induction items as [|item items IH]; intros w.
  - exists [], w. split; [done|constructor].
  - destruct (Hbody item w) as (entry & w1 & Hstep).
    destruct (IH w1) as (writes & w2 & Hrest & Hkeys).
    assert (Hkeys' : Forall (fun kv => exists x, In x (item :: items) /\ key x = fst kv) writes).
    { eapply Forall_impl; [exact Hkeys|]. intros kv (x & Hx & Hk). exists x. split; [by right|done]. }
    destruct entry as [e|].
    + exists ((key item, e) :: writes), w2. split.
      * intros zip. simpl. unfold bind. by rewrite Hstep, Hrest.
      * constructor; [|done]. exists item. split; [by left|done].
    + exists writes, w2. split; [|done].
      intros zip. simpl. unfold bind. by rewrite Hstep, Hrest.
Qed.

Lemma apply_writes_app (ws1 ws2 : list (jsstring * Bytes)) (zip : Zip) :
  apply_writes (ws1 ++ ws2) zip = apply_writes ws2 (apply_writes ws1 zip).
Proof. unfold apply_writes. apply fold_left_app. Qed.

Lemma apply_writes_agree (writes : list (jsstring * Bytes)) (zip1 zip2 : Zip) (name : jsstring) :
  zip1 !! name = zip2 !! name ->
  apply_writes writes zip1 !! name = apply_writes writes zip2 !! name.
Proof.
  revert zip1 zip2. induction writes as [|[k e] writes IH]; intros zip1 zip2 H; [done|].
  simpl. apply IH. unfold zip_file_add. simpl. rewrite !lookup_insert.
  by case_decide.
Qed.

Lemma apply_writes_untouched (writes : list (jsstring * Bytes)) (zip : Zip) (name : jsstring) :
  Forall (fun kv => fst kv <> name) writes ->
  apply_writes writes zip !! name = zip !! name.
Proof.
  revert zip. induction writes as [|[k e] writes IH]; intros zip H; [done|].
  apply Forall_cons in H as [Hk H]. simpl in *.
  rewrite IH by done. unfold zip_file_add. by rewrite lookup_insert_ne.
Qed.

Lemma apply_writes_origin (writes : list (jsstring * Bytes)) (zip : Zip) (name : jsstring) (e : Bytes) :
  apply_writes writes zip !! name = Some e ->
  zip !! name = Some e \/ In (name, e) writes.
Proof.
  revert zip. induction writes as [|[k e'] writes IH]; intros zip H; [by left|].
  simpl in H. apply IH in H as [H|H]; [|right; by right].
  unfold zip_file_add in H. simpl in H.
  apply lookup_insert_Some in H as [[-> ->]|[_ H]]; [right; by left|by left].
Qed.

Section WritesOfZipCourse.

Variable browser : Browser.

Lemma add_media_file_uniform : uniform_body media_path (add_media_file browser).
Proof.
  intros item w. unfold add_media_file.
  destruct (media_file item) as [f|].
  - by exists (Some (blob_bytes f)), w.
  - unfold bind, fetch_blob.
    destruct (object_urls w !! media_blobUrl item) as [b|];
      [by exists (Some (blob_bytes b)), w|].
    destruct (network browser (media_blobUrl item)) as [b|];
      [by exists (Some (blob_bytes b)), w|].
    by eexists None, _.
Qed.

Lemma add_mascot_file_uniform : uniform_body pose_path (add_mascot_file browser).
Proof.
  intros item w. unfold add_mascot_file. unfold bind at 1.
  destruct (mascot_content browser item w) as [[content|] w1].
  - unfold bind at 1.
    destruct (resizeImageToSquare browser content w1) as [[resized|err] w2].
    + by exists (Some (blob_bytes resized)), w2.
    + by eexists (Some (blob_bytes content)), _.
  - by exists None, w1.
Qed.

(* The archive is the document entry followed by writes under media paths and
   mascot export paths; the writes and the final world are the same whatever
   the module filter. *)
Lemma zipCourse_writes (course : Course) (w : World) :
  exists (writes : list (jsstring * Bytes)) (w' : World),
    (forall ids, exists doc,
        document course ids = Some doc
        /\ zipCourse_entries browser course ids w
           = (apply_writes writes (zip_file_add (str "curso.json") (JsonText doc) ∅), w'))
    /\ Forall (fun kv =>
                 (exists item, In item (media course) /\ media_path item = fst kv)
                 \/ (exists pose, In pose (mascot course)
                       /\ export_mascot_path (export_mascotName course) pose = fst kv))
              writes.
Proof.
  destruct (for_of_writes _ _ add_media_file_uniform (media course) w)
    as (ws1 & w1 & Hmedia & Hk1).
  destruct (for_of_writes _ _ add_mascot_file_uniform
              (mascot (courseToSave course None)) w1)
    as (ws2 & w2 & Hmascot & Hk2).
  exists (ws1 ++ ws2), w2. split.
  - intros ids. destruct (document_parses course ids) as (doc & Hdoc & _).
    exists doc. split; [done|].
    unfold zipCourse_entries. rewrite Hdoc. cbn [zip_file_add_json].
    unfold bind, ret.
    change (media (courseToSave course ids)) with (media course).
    change (mascot (courseToSave course ids)) with (mascot (courseToSave course None)).
    by rewrite Hmedia, Hmascot, apply_writes_app.
  - apply Forall_app. split.
    + eapply Forall_impl; [exact Hk1|]. intros kv H. by left.
    + eapply Forall_impl; [exact Hk2|]. intros kv (p & Hp & Hkey). right.
      rewrite courseToSave_mascot in Hp. apply in_map_iff in Hp as (pose & <- & Hin).
      by exists pose.
Qed.

End WritesOfZipCourse.

(** ** JSZip.loadAsync *)

Lemma load_entry_Some (zip : Zip) (entry : jsstring * Bytes) (r : jsstring) (d : Bytes) :
  load_entry zip entry !! r = Some d ->
  zip !! r = Some d
  \/ (is_folder_name (fst entry) = false /\ resolve_name (fst entry) = r /\ snd entry = d).
Proof.
  unfold load_entry, zip_file_add. destruct (is_folder_name (fst entry)); [by left|].
  intros H. apply lookup_insert_Some in H as [[<- <-]|[_ H]]; [by right|by left].
Qed.

Lemma fold_load_Some (l : list (jsstring * Bytes)) (zip : Zip) (r : jsstring) (d : Bytes) :
  fold_left load_entry l zip !! r = Some d ->
  zip !! r = Some d
  \/ exists name, In (name, d) l /\ is_folder_name name = false /\ resolve_name name = r.
Proof.
  revert zip. induction l as [|[name d'] l IH]; intros zip; cbn [fold_left]; [by left|].
  intros H. apply IH in H as [H|(name' & Hin & Hf & Hr)].
  - apply load_entry_Some in H as [H|(Hf & Hr & Hd)]; [by left|].
    cbn [fst snd] in *. subst d'. right. exists name. split; [by left|done].
  - right. exists name'. split; [by right|done].
Qed.

Lemma fold_load_mono (l : list (jsstring * Bytes)) (zip : Zip) (r : jsstring) :
  is_Some (zip !! r) -> is_Some (fold_left load_entry l zip !! r).
Proof.
  revert zip. induction l as [|entry l IH]; intros zip H; cbn [fold_left]; [done|].
  apply IH. unfold load_entry, zip_file_add. destruct (is_folder_name (fst entry)); [done|].
  destruct (decide (resolve_name (fst entry) = r)) as [->|Hne].
  - rewrite lookup_insert_eq. by eexists.
  - by rewrite lookup_insert_ne.
Qed.

Lemma fold_load_is_Some (l : list (jsstring * Bytes)) (zip : Zip) (name : jsstring) (d : Bytes) :
  In (name, d) l -> is_folder_name name = false ->
  is_Some (fold_left load_entry l zip !! resolve_name name).
Proof.
  revert zip. induction l as [|entry l IH]; intros zip Hin Hf; [done|].
  cbn [fold_left]. destruct Hin as [->|Hin]; [|by apply IH].
  apply fold_load_mono. unfold load_entry, zip_file_add. cbn [fst snd]. rewrite Hf.
  rewrite lookup_insert_eq. by eexists.
Qed.

Lemma fold_load_untouched (l : list (jsstring * Bytes)) (zip : Zip) (r : jsstring) :
  (forall name d, In (name, d) l -> is_folder_name name = false -> resolve_name name <> r) ->
  fold_left load_entry l zip !! r = zip !! r.
Proof.
  revert zip. induction l as [|[name d] l IH]; intros zip H; cbn [fold_left]; [done|].
  rewrite IH by (intros name' d' Hin; apply (H name' d'); by right).
  unfold load_entry, zip_file_add. cbn [fst snd].
  destruct (is_folder_name name) eqn:Hf; [done|].
  rewrite lookup_insert_ne; [done|]. by apply (H name d); [left|].
Qed.

Section LoadedArchive.

Variable browser : Browser.

Lemma In_archive_order (entries : Zip) (name : jsstring) (d : Bytes) :
  In (name, d) (archive_order browser entries) <-> entries !! name = Some d.
Proof.
  unfold archive_order. rewrite <- list_elem_of_In.
  rewrite (merge_sort_Permutation (entry_before browser)).
  apply elem_of_map_to_list.
Qed.

(* Every entry loadAsync returns is the renamed copy of a file entry of the
   archive file. *)
Lemma loaded_Some (entries : Zip) (r : jsstring) (d : Bytes) :
  load_entries browser entries !! r = Some d ->
  exists name,
    entries !! name = Some d /\ is_folder_name name = false /\ resolve_name name = r.
Proof.
  unfold load_entries. intros H.
  apply fold_load_Some in H as [H|(name & Hin & Hf & Hr)].
  - by rewrite lookup_empty in H.
  - exists name. split; [by apply In_archive_order|done].
Qed.

Lemma loaded_is_Some (entries : Zip) (name : jsstring) (d : Bytes) :
  entries !! name = Some d -> is_folder_name name = false ->
  is_Some (load_entries browser entries !! resolve_name name).
Proof.
  intros H Hf. unfold load_entries.
  apply (fold_load_is_Some _ _ name d); [by apply In_archive_order|done].
Qed.

Lemma loaded_None (entries : Zip) (r : jsstring) :
  (forall name, is_Some (entries !! name) -> is_folder_name name = false ->
     resolve_name name <> r) ->
  load_entries browser entries !! r = None.
Proof.
  intros Hno. destruct (load_entries browser entries !! r) as [d|] eqn:E; [|done].
  destruct (loaded_Some entries r d E) as (name & Hname & Hf & Hr).
  exfalso. apply (Hno name); [by eexists|done|done].
Qed.

(* An entry is found under its new name when the entries that get the same
   name hold the same bytes. *)
Lemma loaded_unique (entries : Zip) (name : jsstring) (d : Bytes) :
  entries !! name = Some d -> is_folder_name name = false ->
  (forall name' d', entries !! name' = Some d' -> is_folder_name name' = false ->
     resolve_name name' = resolve_name name -> d' = d) ->
  load_entries browser entries !! resolve_name name = Some d.
Proof.
  intros Hname Hf Hsame.
  destruct (loaded_is_Some entries name d Hname Hf) as [d' Hd'].
  destruct (loaded_Some entries _ d' Hd') as (name' & Hname' & Hf' & Hr').
  by rewrite Hd', (Hsame name' d' Hname' Hf' Hr').
Qed.

Lemma plain_name_spec (name : jsstring) :
  plain_name name = true <-> resolve_name name = name /\ is_folder_name name = false.
Proof.
  unfold plain_name. rewrite andb_true_iff, negb_true_iff.
  unfold jsstring_eqb. by rewrite bool_decide_eq_true.
Qed.

(* An archive file whose names loadAsync keeps is loaded as it is. *)
Lemma loaded_plain (entries : Zip) :
  (forall name, is_Some (entries !! name) -> plain_name name = true) ->
  load_entries browser entries = entries.
Proof.
  intros Hplain. apply map_eq. intros r.
  destruct (entries !! r) as [d|] eqn:E.
  - destruct (proj1 (plain_name_spec r)) as [Hr Hf]; [apply Hplain; by eexists|].
    rewrite <- Hr at 1. apply (loaded_unique entries r d E Hf).
    intros name' d' Hname' Hf' Hr'.
    destruct (proj1 (plain_name_spec name')) as [Hr'' _]; [apply Hplain; by eexists|].
    assert (name' = r) by congruence. subst name'. congruence.
  - apply (loaded_None entries r). intros name Hname Hf Hr.
    destruct (proj1 (plain_name_spec name) (Hplain name Hname)) as [Hr' _].
    assert (name = r) by congruence. subst name. rewrite E in Hname. by destruct Hname.
Qed.

#[local] Instance entry_before_total : Total (entry_before browser).
Proof. intros a b. unfold entry_before. lia. Qed.

#[local] Instance entry_before_trans : Transitive (entry_before browser).
Proof. intros a b c. unfold entry_before. lia. Qed.

(* Of the entries that get the same name, loadAsync keeps the one the
   archive file holds last. *)
Lemma loaded_latest (entries : Zip) (name : jsstring) (d : Bytes) :
  entries !! name = Some d -> is_folder_name name = false ->
  (forall name', is_Some (entries !! name') -> is_folder_name name' = false ->
     resolve_name name' = resolve_name name -> name' <> name ->
     entry_position browser name' < entry_position browser name) ->
  load_entries browser entries !! resolve_name name = Some d.
Proof.
  intros Hname Hf Hlast. unfold load_entries.
  assert (Hin : (name, d) ∈ archive_order browser entries).
  { apply list_elem_of_In, In_archive_order. done. }
  apply list_elem_of_split in Hin as (l1 & l2 & Hsplit).
  pose proof (StronglySorted_merge_sort (entry_before browser) (map_to_list entries)) as Hs.
  fold (archive_order browser entries) in Hs. rewrite Hsplit in Hs.
  apply StronglySorted_app_1_r, StronglySorted_cons in Hs as [Hafter _].
  assert (Hnd : NoDup (archive_order browser entries).*1).
  { unfold archive_order.
    rewrite (merge_sort_Permutation (entry_before browser) (map_to_list entries)).
    apply NoDup_fst_map_to_list. }
  rewrite Hsplit, fmap_app, fmap_cons in Hnd.
  apply NoDup_app in Hnd as (_ & _ & Hnd). apply NoDup_cons in Hnd as [Hnotin _].
  rewrite Hsplit, fold_left_app. cbn [fold_left].
  rewrite fold_load_untouched.
  - unfold load_entry, zip_file_add. cbn [fst snd]. rewrite Hf. apply lookup_insert_eq.
  - intros name' d' Hin' Hf' Hr'.
    assert (Hne : name' <> name).
    { intros ->. apply Hnotin. apply list_elem_of_fmap. exists (name, d').
      split; [done|]. by apply list_elem_of_In. }
    assert (Hlt : entry_position browser name' < entry_position browser name).
    { apply Hlast; [|done|done|done].
      exists d'. apply In_archive_order. rewrite Hsplit.
      apply in_or_app. right. by right. }
    rewrite Forall_forall in Hafter.
    specialize (Hafter (name', d') (proj2 (list_elem_of_In _ _) Hin')).
    unfold entry_before in Hafter. cbn [fst] in Hafter. lia.
Qed.

End LoadedArchive.

(** ** The names utils.resolve returns *)

Lemma split_from_snoc (part s : jsstring) (c : N) :
  c <> 47 ->
  exists init lp,
    split_from part s = init ++ [lp] /\ split_from part (s ++ [c]) = init ++ [lp ++ [c]].
Proof.
  intros Hc. revert part. induction s as [|c0 s IH]; intros part.
  - exists [], part. cbn. apply N.eqb_neq in Hc. by rewrite Hc.
  - cbn [split_from app]. destruct (c0 =? 47).
    + destruct (IH []) as (init & lp & -> & ->). by exists (part :: init), lp.
    + destruct (IH (part ++ [c0])) as (init & lp & -> & ->). by exists init, lp.
Qed.

Lemma resolve_parts_app (l1 l2 : list jsstring) (index last : nat) (result : list jsstring) :
  resolve_parts (l1 ++ l2) index last result
  = resolve_parts l2 (index + length l1) last (resolve_parts l1 index last result).
Proof.
  revert index result. induction l1 as [|p l1 IH]; intros index result; cbn [app resolve_parts length].
  - by rewrite Nat.add_0_r.
  - rewrite IH. f_equal. lia.
Qed.

Lemma join_snoc_last (sep : jsstring) (l : list jsstring) (p : jsstring) (c : N) :
  last (join sep (l ++ [p ++ [c]])) = Some c.
Proof.
  induction l as [|x l IH].
  - cbn. apply last_snoc.
  - assert (Hj : join sep ((x :: l) ++ [p ++ [c]]) = x ++ sep ++ join sep (l ++ [p ++ [c]])).
    { cbn [app join]. by destruct l. }
    rewrite Hj, !last_app, IH. done.
Qed.

(* What [utils.resolve] makes of some names: a [.] and an empty segment
   inside the name are dropped, a [..] takes the segment before it away, and
   an empty first or last segment stays. *)
Lemma resolve_name_examples :
  resolve_name (str "./a.png") = str "a.png"
  /\ resolve_name (str "mascot/x/../wave.png") = str "mascot/wave.png"
  /\ resolve_name (str "media//a.png") = str "media/a.png"
  /\ resolve_name (str "../a.png") = str "a.png"
  /\ resolve_name (str "/a.png") = str "/a.png"
  /\ resolve_name (str "media/") = str "media/"
  /\ resolve_name (str "media/a.png") = str "media/a.png"
  /\ plain_name (str "media/a.png") = true
  /\ plain_name (str "./a.png") = false
  /\ plain_name (str "media/") = false.
Proof. repeat split; by vm_compute. Qed.

(* Of two entries that get the same name, the one that comes later in the
   archive file is the one loadAsync keeps. *)
Lemma load_entries_clash :
  entry_position Sample.browser (str "a.png") < entry_position Sample.browser (str "./a.png")
  /\ resolve_name (str "./a.png") = str "a.png"
  /\ load_entries Sample.browser Sample.clashing_archive !! str "a.png" = Some (RawBytes [8])
  /\ load_entries Sample.browser Sample.clashing_archive !! str "./a.png" = None.
Proof. repeat split; by vm_compute. Qed.

(* A name that ends in a character other than a slash and a dot keeps its
   last character. *)
Lemma resolve_name_last (name : jsstring) (c : N) :
  last name = Some c -> c <> 47 -> c <> 46 -> last (resolve_name name) = Some c.
Proof.
  intros Hlast H47 H46. apply last_Some in Hlast as (s & ->).
  unfold resolve_name, split_slash. cbv zeta.
  destruct (split_from_snoc [] s c H47) as (init & lp & _ & ->).
  rewrite resolve_parts_app. cbn [resolve_parts].
  assert (H1 : jsstring_eqb (lp ++ [c]) (str ".") = false).
  { apply bool_decide_eq_false. intros H. apply (f_equal last) in H.
    rewrite last_snoc in H. vm_compute in H. by injection H. }
  assert (H2 : jsstring_eqb (lp ++ [c]) [] = false).
  { apply bool_decide_eq_false. by destruct lp. }
  assert (H3 : jsstring_eqb (lp ++ [c]) (str "..") = false).
  { apply bool_decide_eq_false. intros H. apply (f_equal last) in H.
    rewrite last_snoc in H. vm_compute in H. by injection H. }
  rewrite H1, H2, H3. cbn [orb andb]. apply join_snoc_last.
Qed.

Lemma export_mascot_path_last (name : jsstring) (pose : MascotPose) :
  last (export_mascot_path name pose) = Some 103.
Proof.
  unfold export_mascot_path. rewrite !last_app. by vm_compute.
Qed.

(* No pose is exported under a name that loadAsync takes for the document. *)
Lemma resolve_export_mascot_path_not_document (name : jsstring) (pose : MascotPose) :
  resolve_name (export_mascot_path name pose) <> str "curso.json".
Proof.
  intros H. apply (f_equal last) in H.
  rewrite (resolve_name_last _ 103) in H;
    [|apply export_mascot_path_last|done|done].
  vm_compute in H. discriminate H.
Qed.

Lemma export_mascot_path_no_folder (name : jsstring) (pose : MascotPose) :
  is_folder_name (export_mascot_path name pose) = false.
Proof. unfold is_folder_name. by rewrite export_mascot_path_last. Qed.

(** ** The callbacks of unzipCourse *)

Lemma sequence_results_Ok {A} (rs : list (Result A)) (l : list A) :
  sequence_results rs = Ok l <-> rs = map Ok l.
Proof.
  revert l. induction rs as [|[a|e] rs IH]; intros l; simpl.
  - split; [intros [= <-]; done|]. by destruct l.
  - destruct (sequence_results rs) as [l'|e] eqn:E; simpl.
    + split.
      * intros [= <-]. simpl. f_equal. by apply IH.
      * destruct l as [|a' l]; [done|]. simpl. intros [= <- H].
        apply IH in H. by injection H as ->.
    + split; [done|]. destruct l as [|a' l]; [done|]. simpl. intros [= <- H].
      by apply IH in H.
  - split; [done|]. by destruct l.
Qed.

Lemma for_of_snoc {A S} (body : A -> S -> M S) (l : list A) (x : A) (s : S) (w : World) :
  for_of body (l ++ [x]) s w = (let (s', w') := for_of body l s w in body x s' w').
Proof.
  revert s w. induction l as [|y l IH]; intros s w; cbn [for_of app].
  - unfold bind, ret. by destruct (body x s w).
  - unfold bind. destruct (body y s w) as [s1 w1]. apply IH.
Qed.

Lemma elem_of_pending_reads {A} (promises : list (Promise A)) (n i : nat) :
  i ∈ pending_reads n promises
  <-> exists j file resume, i = (n + j)%nat /\ promises !! j = Some (Reading file resume).
Proof.
  revert n. induction promises as [|[a|file resume] promises IH]; intros n;
    cbn [pending_reads].
  - split; [by intros ?%elem_of_nil|]. by intros (j & f & r & _ & ?).
  - rewrite IH. split.
    + intros (j & f & r & -> & Hj). exists (S j), f, r. split; [lia|done].
    + intros ([|j] & f & r & -> & Hj); [done|]. exists j, f, r. split; [lia|done].
  - rewrite elem_of_cons, IH. split.
    + intros [->|(j & f & r & -> & Hj)].
      * exists 0%nat, file, resume. split; [lia|done].
      * exists (S j), f, r. split; [lia|done].
    + intros ([|j] & f & r & -> & Hj); [left; lia|].
      right. exists j, f, r. split; [lia|done].
Qed.

Lemma NoDup_pending_reads {A} (promises : list (Promise A)) (n : nat) :
  NoDup (pending_reads n promises).
Proof.
  revert n. induction promises as [|[a|file resume] promises IH]; intros n;
    cbn [pending_reads]; [constructor|apply IH|].
  constructor; [|apply IH].
  rewrite elem_of_pending_reads. intros (j & f & r & Hj & _). lia.
Qed.

Lemma attach_blobUrl_cases (zip : Zip) (item : Value) :
  match entry_for zip item with
  | Throw e => attach_blobUrl zip item = Settled (Throw e)
  | Ok None => attach_blobUrl zip item = Settled (Ok item)
  | Ok (Some file) =>
      attach_blobUrl zip item
      = Reading file (fun blob =>
          let* url := createObjectURL blob in
          ret (set_prop item (str "blobUrl") (VStr url)))
  end.
Proof.
  unfold attach_blobUrl, entry_for.
  destruct (rbind (get_prop item (str "path")) ToString) as [name|e]; cbn [rbind]; [|done].
  by destruct (zip_file_get name zip).
Qed.

(* The reads of the records at the places [order] complete one after the
   other: the read of rank [k] gets the URL of serial number [next_url w + k]. *)
Lemma complete_reads (zip : Zip) (items : list Value) (order : list nat) (w : World) :
  NoDup order ->
  (forall i, i ∈ order ->
     exists item e, items !! i = Some item /\ entry_for zip item = Ok (Some e)) ->
  exists promises' w',
    for_of complete_read order (map (attach_blobUrl zip) items) w = (promises', w')
    /\ length promises' = length items
    /\ next_url w' = next_url w + N.of_nat (length order)
    /\ console w' = console w
    /\ (forall i, i ∉ order -> promises' !! i = attach_blobUrl zip <$> items !! i)
    /\ (forall k i item e,
          order !! k = Some i -> items !! i = Some item ->
          entry_for zip item = Ok (Some e) ->
          promises' !! i
          = Some (Settled (set_prop item (str "blobUrl")
                             (VStr (blob_url (next_url w + N.of_nat k)))))
          /\ object_urls w' !! blob_url (next_url w + N.of_nat k) = Some (entry_blob e))
    /\ (forall url, (forall n, next_url w <= n -> url <> blob_url n) ->
          object_urls w' !! url = object_urls w !! url).
Proof.
  induction order as [|i order IH] using rev_ind; intros Hnd Hreads.
  - exists (map (attach_blobUrl zip) items), w. cbn [for_of length].
    split; [done|]. split; [by rewrite length_map|]. split; [lia|]. split; [done|].
    split; [intros i _; change (map ?f ?l) with (f <$> l); by rewrite list_lookup_fmap|].
    split; [by intros k i item e ?|done].
  - apply NoDup_app in Hnd as (Hnd & Hdisj & _).
    assert (Hi : i ∉ order).
    { intros Hin. apply (Hdisj i Hin). by apply list_elem_of_singleton. }
    destruct IH as (promises1 & w1 & Hrun & Hlen & Hnext & Hcons & Hout & Hin & Hframe);
      [done|intros j Hj; apply Hreads; apply elem_of_app; by left|].
    destruct (Hreads i) as (item & e & Hitem & He);
      [apply elem_of_app; right; by apply list_elem_of_singleton|].
    assert (Hp : promises1 !! i
                 = Some (Reading e (fun blob =>
                      let* url := createObjectURL blob in
                      ret (set_prop item (str "blobUrl") (VStr url))))).
    { rewrite (Hout i Hi), Hitem. cbn.
      pose proof (attach_blobUrl_cases zip item) as Hc. rewrite He in Hc. by rewrite Hc. }
    rewrite for_of_snoc, Hrun. unfold complete_read. rewrite Hp.
    unfold bind, ret, createObjectURL.
    eexists _, _. split; [reflexivity|]. cbn [next_url console object_urls].
    split; [by rewrite length_insert|].
    split; [rewrite Hnext, length_app; cbn [length]; lia|].
    split; [done|].
    split.
    { intros j Hj. rewrite list_lookup_insert_ne.
      - apply Hout. intros Hj'. apply Hj. apply elem_of_app. by left.
      - intros ->. apply Hj. apply elem_of_app. right. by apply list_elem_of_singleton. }
    split.
    { intros k j item' e' Hk Hitem' He'.
      destruct (decide (k < length order)%nat) as [Hlt|Hge].
      - rewrite lookup_app_l in Hk by done.
        assert (Hji : j <> i).
        { intros ->. apply Hi. by eapply list_elem_of_lookup_2. }
        destruct (Hin k j item' e' Hk Hitem' He') as [Hpj Hstore].
        split; [by rewrite list_lookup_insert_ne|].
        rewrite lookup_insert_ne; [done|].
        intros Heq. apply blob_url_inj in Heq. lia.
      - rewrite lookup_app_r in Hk by lia.
        destruct (k - length order)%nat as [|d] eqn:Ed; [|done].
        cbn in Hk. injection Hk as <-.
        assert (k = length order) by lia. subst k.
        rewrite Hitem in Hitem'. injection Hitem' as <-.
        rewrite He in He'. injection He' as <-.
        rewrite Hnext. split; [|apply lookup_insert_eq].
        rewrite list_lookup_insert_eq; [done|].
        rewrite Hlen. by eapply lookup_lt_Some. }
    intros url Hurl. rewrite lookup_insert_ne; [by apply Hframe|].
    intros Heq. apply (Hurl (next_url w1)); [lia|done].
Qed.

Lemma await_each_Settled {A} (results : list A) (w : World) :
  await_each (map Settled results) w = (results, w).
Proof.
  induction results as [|a results IH]; [done|].
  cbn [map await_each]. unfold bind, ret. by rewrite IH.
Qed.

Lemma all_Settled {A} (promises : list (Promise A)) :
  (forall i p, promises !! i = Some p -> exists a, p = Settled a) ->
  exists results, promises = map Settled results.
Proof.
  induction promises as [|p promises IH]; intros H; [by exists []|].
  destruct (H 0%nat p eq_refl) as (a & ->).
  destruct IH as (results & ->); [intros i q Hq; by apply (H (S i))|].
  by exists (a :: results).
Qed.

Lemma StronglySorted_lookup {A} (R : relation A) (l : list A) (a b : nat) (x y : A) :
  StronglySorted R l -> l !! a = Some x -> l !! b = Some y -> (a < b)%nat -> R x y.
Proof.
  intros Hs. revert a b. induction Hs as [|z l Hs IH Hall]; intros a b Ha Hb Hab; [done|].
  destruct b as [|b]; [lia|]. cbn in Hb. destruct a as [|a].
  - injection Ha as <-. rewrite List.Forall_forall in Hall. apply Hall.
    apply list_elem_of_In. by eapply list_elem_of_lookup_2.
  - cbn in Ha. apply (IH a b); [done|done|lia].
Qed.

Section Settle.

Variable browser : Browser.

#[local] Instance completes_before_total : Total (completes_before browser).
Proof. intros i j. unfold completes_before. lia. Qed.

#[local] Instance completes_before_trans : Transitive (completes_before browser).
Proof. intros i j k. unfold completes_before. lia. Qed.

Lemma completion_order_attach (zip : Zip) (items : list Value) :
  is_completion_order browser zip items (completion_order browser (map (attach_blobUrl zip) items)).
Proof.
  unfold completion_order.
  set (pending := pending_reads 0 (map (attach_blobUrl zip) items)).
  pose proof (merge_sort_Permutation (completes_before browser) pending) as Hperm.
  split; [|split].
  - rewrite Hperm. apply NoDup_pending_reads.
  - intros i. rewrite Hperm. unfold pending. rewrite elem_of_pending_reads.
    change (map ?f ?l) with (f <$> l). split.
    + intros (j & file & resume & -> & Hj). rewrite list_lookup_fmap in Hj.
      destruct (items !! j) as [item|] eqn:Hitem; [|done].
      cbn in Hj. injection Hj as Hj.
      pose proof (attach_blobUrl_cases zip item) as Hc.
      destruct (entry_for zip item) as [[e|]|err] eqn:He; [|congruence|congruence].
      by exists item, e.
    + intros (item & e & Hitem & He). pose proof (attach_blobUrl_cases zip item) as Hc.
      rewrite He in Hc. eexists i, e, _. split; [done|].
      by rewrite list_lookup_fmap, Hitem, <- Hc.
  - intros k1 k2 i1 i2 H1 H2 Hlt.
    pose proof (StronglySorted_merge_sort (completes_before browser) pending) as Hs.
    destruct (decide (k1 < k2)%nat) as [|Hge]; [done|]. exfalso.
    destruct (decide (k1 = k2)) as [->|Hne].
    + rewrite H1 in H2. injection H2 as ->. lia.
    + assert (completes_before browser i2 i1); [|unfold completes_before in *; lia].
      apply (StronglySorted_lookup _ _ k2 k1 i2 i1 Hs H2 H1). lia.
Qed.

Lemma settle_all_attach (zip : Zip) (items : list Value) (w : World) :
  exists results w',
    settle_all browser (map (attach_blobUrl zip) items) w = (results, w')
    /\ length results = length items
    /\ next_url w'
       = next_url w
         + N.of_nat (length (completion_order browser (map (attach_blobUrl zip) items)))
    /\ console w' = console w
    /\ (forall i item,
          items !! i = Some item ->
          match entry_for zip item with
          | Throw e => results !! i = Some (Throw e)
          | Ok None => results !! i = Some (Ok item)
          | Ok (Some e) =>
              exists k,
                completion_order browser (map (attach_blobUrl zip) items) !! k = Some i
                /\ results !! i
                   = Some (set_prop item (str "blobUrl")
                             (VStr (blob_url (next_url w + N.of_nat k))))
                /\ object_urls w' !! blob_url (next_url w + N.of_nat k) = Some (entry_blob e)
          end)
    /\ (forall url, (forall n, next_url w <= n -> url <> blob_url n) ->
          object_urls w' !! url = object_urls w !! url).
Proof.
  destruct (completion_order_attach zip items) as (Hnd & Hmem & _).
  set (order := completion_order browser (map (attach_blobUrl zip) items)) in *.
  destruct (complete_reads zip items order w Hnd (fun i Hi => proj1 (Hmem i) Hi))
    as (promises' & w' & Hrun & Hlen & Hnext & Hcons & Hout & Hin & Hframe).
  assert (Hp : forall i item, items !! i = Some item ->
            promises' !! i
            = Some (Settled
                (match entry_for zip item with
                 | Throw e => Throw e
                 | Ok None => Ok item
                 | Ok (Some _) =>
                     match list_find (fun j => j = i) order with
                     | Some (k, _) =>
                         set_prop item (str "blobUrl")
                           (VStr (blob_url (next_url w + N.of_nat k)))
                     | None => Ok item
                     end
                 end))
            /\ forall e, entry_for zip item = Ok (Some e) ->
                 exists k, order !! k = Some i
                   /\ list_find (fun j => j = i) order = Some (k, i)
                   /\ object_urls w' !! blob_url (next_url w + N.of_nat k)
                      = Some (entry_blob e)).
  { intros i item Hitem. pose proof (attach_blobUrl_cases zip item) as Hc.
    destruct (entry_for zip item) as [[e|]|err] eqn:He.
    - assert (Hi : i ∈ order) by (apply Hmem; by exists item, e).
      destruct (list_find (fun j => j = i) order) as [[k j]|] eqn:Hfind.
      + apply list_find_Some in Hfind as (Hk & -> & _).
        destruct (Hin k i item e Hk Hitem He) as [Hpi Hstore].
        split; [done|]. intros e' [= <-]. by exists k.
      + apply list_find_None in Hfind. rewrite Forall_forall in Hfind.
        by specialize (Hfind i Hi).
    - split; [|done]. rewrite Hout, Hitem; [cbn; by rewrite Hc|].
      intros Hi. apply Hmem in Hi as (item' & e & Hitem' & He').
      rewrite Hitem in Hitem'. injection Hitem' as <-. congruence.
    - split; [|done]. rewrite Hout, Hitem; [cbn; by rewrite Hc|].
      intros Hi. apply Hmem in Hi as (item' & e & Hitem' & He').
      rewrite Hitem in Hitem'. injection Hitem' as <-. congruence. }
  destruct (all_Settled promises') as (results & Hres).
  { intros i p Hpi.
    destruct (items !! i) as [item|] eqn:Hitem.
    - destruct (Hp i item Hitem) as [Hpi' _]. rewrite Hpi in Hpi'. injection Hpi' as ->.
      by eexists.
    - apply lookup_lt_Some in Hpi. apply lookup_ge_None in Hitem. lia. }
  exists results, w'. unfold settle_all, bind. fold order. rewrite Hrun, Hres.
  split; [apply await_each_Settled|].
  subst promises'. rewrite length_map in Hlen.
  split; [done|]. split; [done|]. split; [done|]. split; [|done].
  intros i item Hitem. destruct (Hp i item Hitem) as [Hpi Hstore].
  change (map ?f ?l) with (f <$> l) in Hpi. rewrite list_lookup_fmap in Hpi.
  destruct (results !! i) as [r|]; [|done]. cbn in Hpi. injection Hpi as ->.
  destruct (entry_for zip item) as [[e|]|err]; [|done|done].
  destruct (Hstore e eq_refl) as (k & Hk & Hfind & Hurl). exists k.
  rewrite Hfind. done.
Qed.

End Settle.

(** ** Reading a parsed document *)

Lemma of_json_JObj (ms : list (jsstring * JSON)) :
  of_json (JObj ms) = VObj (map (fun kv => (fst kv, of_json (snd kv))) ms).
Proof.
  simpl. f_equal. induction ms as [|[k j] ms IH]; simpl; [done|]. by rewrite IH.
Qed.

Lemma lookup_prop_of_json (key : jsstring) (ms : list (jsstring * JSON)) :
  lookup_prop key (map (fun kv => (fst kv, of_json (snd kv))) ms)
  = of_json <$> lookup_member key ms.
Proof.
  induction ms as [|[k j] ms IH]; simpl; [done|].
  by destruct (jsstring_eqb k key).
Qed.

Lemma array_elems_of_json (doc : JSON) (key : jsstring) (items : list Value) :
  rbind (get_prop (of_json doc) key) array_elems = Ok items ->
  exists ms records,
    doc = JObj ms /\ json_member key doc = Some (JArr records)
    /\ items = map of_json records.
Proof.
  destruct doc as [| | | |elems|ms]; try done.
  rewrite of_json_JObj. cbn [get_prop rbind json_member].
  rewrite lookup_prop_of_json.
  destruct (lookup_member key ms) as [[| | | |records|ms']|]; try done.
  cbn. intros [= <-]. by exists ms, records.
Qed.

Lemma array_elems_of_json_records (ms : list (jsstring * JSON)) (key : jsstring)
    (records : list JSON) :
  lookup_member key ms = Some (JArr records) ->
  rbind (get_prop (of_json (JObj ms)) key) array_elems = Ok (map of_json records).
Proof.
  intros H. rewrite of_json_JObj. cbn [get_prop rbind].
  by rewrite lookup_prop_of_json, H.
Qed.

Lemma of_json_no_blob (j : JSON) (b : Blob) : of_json j <> VBlob b.
Proof. by destruct j. Qed.

Lemma urls_wf_fresh (w : World) (n : N) :
  urls_wf w -> next_url w <= n -> object_urls w !! blob_url n = None.
Proof.
  intros Hwf Hn. destruct (object_urls w !! blob_url n) eqn:E; [|done].
  assert (n < next_url w) by (apply Hwf; by rewrite E). lia.
Qed.

Lemma lookup_prop_assign_eq (key : jsstring) (v : Value) (ps : Props) :
  lookup_prop key (assign_prop key v ps) = Some v.
Proof.
  induction ps as [|[k x] ps IH]; cbn [assign_prop lookup_prop].
  - by rewrite jsstring_eqb_refl.
  - destruct (jsstring_eqb k key) eqn:Hk; cbn [lookup_prop]; by rewrite Hk.
Qed.

Lemma lookup_prop_assign_ne (key key' : jsstring) (v : Value) (ps : Props) :
  key <> key' ->
  lookup_prop key' (assign_prop key v ps) = lookup_prop key' ps.
Proof.
  intros Hne. induction ps as [|[k x] ps IH]; cbn [assign_prop lookup_prop].
  - by apply jsstring_eqb_neq in Hne as ->.
  - destruct (jsstring_eqb k key) eqn:Hk; cbn [lookup_prop].
    + apply jsstring_eqb_eq in Hk. subst k.
      by apply jsstring_eqb_neq in Hne as ->.
    + by rewrite IH.
Qed.

(* What an assignment to a property of a parsed value is read back as. *)
Lemma get_set_prop (v v' : Value) (key : jsstring) (x : Value) :
  (forall b, v <> VBlob b) ->
  set_prop v key x = Ok v' ->
  get_prop v' key = Ok x
  /\ (forall key', key' <> key -> get_prop v' key' = get_prop v key').
Proof.
  intros Hblob. destruct v as [| | | | |b|elems own|own]; try done.
  - by destruct (Hblob b).
  - intros [= <-]. cbn [get_prop]. split; [by rewrite lookup_prop_assign_eq|].
    intros key' Hne. rewrite lookup_prop_assign_ne; [done|]. by intros ->.
  - intros [= <-]. cbn [get_prop]. split; [by rewrite lookup_prop_assign_eq|].
    intros key' Hne. rewrite lookup_prop_assign_ne; [done|]. by intros ->.
Qed.

Lemma attached_of_settled (zip : Zip) (w w' : World) (order : list nat) (i : nat)
    (record : JSON) (found : option Value) :
  match entry_for zip (of_json record) with
  | Throw e => Ok <$> found = Some (Throw e)
  | Ok None => Ok <$> found = Some (Ok (of_json record))
  | Ok (Some e) =>
      exists k,
        order !! k = Some i
        /\ Ok <$> found
           = Some (set_prop (of_json record) (str "blobUrl")
                     (VStr (blob_url (next_url w + N.of_nat k))))
        /\ object_urls w' !! blob_url (next_url w + N.of_nat k) = Some (entry_blob e)
  end ->
  attached zip w w' order i (of_json record) found.
Proof.
  unfold attached. destruct (entry_for zip (of_json record)) as [[e|]|err].
  - intros (k & Hk & Hfound & Hstore). destruct found as [item'|]; [|done].
    cbn in Hfound. injection Hfound as Hset. symmetry in Hset.
    destruct (get_set_prop _ _ _ _ (of_json_no_blob record) Hset) as [Hget Hrest].
    by exists item', k.
  - destruct found as [item'|]; [|done]. cbn. by intros [= ->].
  - by destruct found.
Qed.

Section Unpacking.

Variable browser : Browser.

Lemma unzipCourse_run (zip : Zip) (doc : JSON) (w : World) :
  load_entries browser zip !! str "curso.json" = Some (JsonText doc) ->
  unzipCourse browser (ZipFile zip) w
  = match rbind (get_prop (of_json doc) (str "media")) array_elems with
    | Throw e => (Throw e, w)
    | Ok mediaItems =>
        match rbind (get_prop (of_json doc) (str "mascot")) array_elems with
        | Throw e =>
            (Throw e,
             snd (settle_all browser
                    (map (attach_blobUrl (load_entries browser zip)) mediaItems) w))
        | Ok mascotItems =>
            let (settled, w') :=
              settle_all browser
                (map (attach_blobUrl (load_entries browser zip)) (mediaItems ++ mascotItems))
                w in
            (rbind (Promise_all (take (length mediaItems) settled)) (fun media =>
             rbind (set_prop (of_json doc) (str "media") (VArr media [])) (fun course =>
             rbind (Promise_all (drop (length mediaItems) settled)) (fun mascot =>
             set_prop course (str "mascot") (VArr mascot [])))), w')
        end
    end.
Proof.
  intros Hdoc. unfold unzipCourse. cbn [JSZip_loadAsync].
  unfold zip_file_get at 1. rewrite Hdoc. cbn [JSON_parse].
  destruct (rbind (get_prop (of_json doc) (str "media")) array_elems) as [mediaItems|e];
    [|done].
  cbv zeta. unfold map_async.
  destruct (rbind (get_prop (of_json doc) (str "mascot")) array_elems) as [mascotItems|e].
  - rewrite <- map_app, length_map. unfold bind, ret.
    by destruct (settle_all browser _ w).
  - unfold bind, ret. by destruct (settle_all browser _ w).
Qed.

Lemma unzipCourse_records (zip : Zip) (doc : JSON) (w w' : World) (c : Value) :
  load_entries browser zip !! str "curso.json" = Some (JsonText doc) ->
  unzipCourse browser (ZipFile zip) w = (Ok c, w') ->
  exists props media mascot media' mascot' order,
    of_json doc = VObj props
    /\ json_member (str "media") doc = Some (JArr media)
    /\ json_member (str "mascot") doc = Some (JArr mascot)
    /\ c = VObj (assign_prop (str "mascot") (VArr mascot' [])
                   (assign_prop (str "media") (VArr media' []) props))
    /\ length media' = length media
    /\ length mascot' = length mascot
    /\ is_completion_order browser (load_entries browser zip)
         (map of_json (media ++ mascot)) order
    /\ (forall i record, media !! i = Some record ->
          attached (load_entries browser zip) w w' order i (of_json record) (media' !! i))
    /\ (forall i record, mascot !! i = Some record ->
          attached (load_entries browser zip) w w' order (length media + i)
            (of_json record) (mascot' !! i))
    /\ next_url w' = next_url w + N.of_nat (length order)
    /\ console w' = console w
    /\ (forall url, (forall n, next_url w <= n -> url <> blob_url n) ->
          object_urls w' !! url = object_urls w !! url)
    /\ (urls_wf w -> forall n, next_url w <= n -> object_urls w !! blob_url n = None).
Proof.
  intros Hdoc Hrun. rewrite (unzipCourse_run zip doc w Hdoc) in Hrun.
  destruct (rbind (get_prop (of_json doc) (str "media")) array_elems)
    as [mediaItems|] eqn:Hmedia; [|done].
  destruct (array_elems_of_json _ _ _ Hmedia) as (ms & media & -> & Hm & ->).
  destruct (rbind (get_prop (of_json (JObj ms)) (str "mascot")) array_elems)
    as [mascotItems|] eqn:Hmascot; [|done].
  destruct (array_elems_of_json _ _ _ Hmascot) as (ms' & mascot & [= <-] & Hp & ->).
  rewrite <- map_app, length_map in Hrun.
  set (loaded := load_entries browser zip) in *.
  destruct (settle_all_attach browser loaded (map of_json (media ++ mascot)) w)
    as (results & w1 & Hsettle & Hlen & Hnext & Hcons & Hres & Hframe).
  rewrite Hsettle in Hrun. injection Hrun as Hc <-.
  unfold Promise_all in Hc.
  destruct (sequence_results (take (length media) results)) as [media'|] eqn:Hmedia';
    [|done].
  destruct (sequence_results (drop (length media) results)) as [mascot'|] eqn:Hmascot';
    [|by cbn in Hc].
  cbn [rbind] in Hc. injection Hc as <-.
  apply sequence_results_Ok in Hmedia', Hmascot'.
  rewrite length_map, length_app in Hlen.
  assert (Hlen1 : length media' = length media).
  { apply (f_equal length) in Hmedia'. rewrite length_take, length_map in Hmedia'. lia. }
  assert (Hlen2 : length mascot' = length mascot).
  { apply (f_equal length) in Hmascot'. rewrite length_drop, length_map in Hmascot'. lia. }
  assert (Hresults : results = (Ok <$> media') ++ (Ok <$> mascot')).
  { rewrite <- (take_drop (length media) results). by rewrite Hmedia', Hmascot'. }
  eexists _, media, mascot, media', mascot', _.
  split; [reflexivity|]. split; [done|]. split; [done|]. split; [reflexivity|].
  split; [done|]. split; [done|].
  split; [apply completion_order_attach|].
  split.
  { intros i record Hi. apply attached_of_settled.
    assert (Hitem : map of_json (media ++ mascot) !! i = Some (of_json record)).
    { change (map ?f ?l) with (f <$> l). rewrite list_lookup_fmap, lookup_app_l, Hi; [done|].
      by eapply lookup_lt_Some. }
    specialize (Hres i (of_json record) Hitem).
    rewrite Hresults, lookup_app_l, list_lookup_fmap in Hres; [done|].
    rewrite length_fmap, Hlen1. by eapply lookup_lt_Some. }
  split.
  { intros i record Hi. apply attached_of_settled.
    assert (Hitem : map of_json (media ++ mascot) !! (length media + i)%nat
                    = Some (of_json record)).
    { change (map ?f ?l) with (f <$> l).
      by rewrite list_lookup_fmap, lookup_app_r, Nat.add_comm, Nat.add_sub, Hi by lia. }
    specialize (Hres _ (of_json record) Hitem).
    rewrite Hresults, lookup_app_r, length_fmap, Hlen1 in Hres
      by (rewrite length_fmap, Hlen1; lia).
    replace (length media + i - length media)%nat with i in Hres by lia.
    by rewrite list_lookup_fmap in Hres. }
  split; [done|]. split; [done|]. split; [done|].
  intros Hwf n Hn. by apply urls_wf_fresh.
Qed.

(** C10 (amended): when unpacking succeeds, the course it returns is the
    parsed document with its media and mascot lists replaced by lists of the
    same length and order.  A record for whose declared path [zip.file] finds
    no entry in the loaded archive is the declared record itself.  A record
    for which it finds one is the declared record with [blobUrl] set (read
    back as the URL, every other property read back as declared) to an object
    URL that was not issued before, under which the store holds a blob,
    without a type, of the entry's bytes: the URLs get the serial numbers that
    follow the store's next one in the order in which the reads of the
    entries complete, which is the browser's, so that no two records share a
    URL.  The loaded archive holds an entry under a name exactly when a file
    entry of the archive file gets that name from [utils.resolve]; of the
    entries that get the same name it holds the bytes of the one that comes
    last in the file; and it is the archive file itself when all of its
    names are plain.  Every other member of the document, the console and
    every handle issued earlier are untouched. *)
Theorem C10_unzip_preserves_records (zip : Zip) (doc : JSON) (w w' : World) (c : Value) :
  load_entries browser zip !! str "curso.json" = Some (JsonText doc) ->
  unzipCourse browser (ZipFile zip) w = (Ok c, w') ->
  exists props media mascot media' mascot' order,
    of_json doc = VObj props
    /\ json_member (str "media") doc = Some (JArr media)
    /\ json_member (str "mascot") doc = Some (JArr mascot)
    /\ c = VObj (assign_prop (str "mascot") (VArr mascot' [])
                   (assign_prop (str "media") (VArr media' []) props))
    /\ length media' = length media
    /\ length mascot' = length mascot
    /\ is_completion_order browser (load_entries browser zip)
         (map of_json (media ++ mascot)) order
    /\ (forall i record, media !! i = Some record ->
          attached (load_entries browser zip) w w' order i (of_json record) (media' !! i))
    /\ (forall i record, mascot !! i = Some record ->
          attached (load_entries browser zip) w w' order (length media + i)
            (of_json record) (mascot' !! i))
    /\ (forall name,
          is_Some (load_entries browser zip !! name)
          <-> exists raw, is_Some (zip !! raw) /\ is_folder_name raw = false
                          /\ resolve_name raw = name)
    /\ (forall raw e,
          zip !! raw = Some e -> is_folder_name raw = false ->
          (forall raw', is_Some (zip !! raw') -> is_folder_name raw' = false ->
             resolve_name raw' = resolve_name raw -> raw' <> raw ->
             entry_position browser raw' < entry_position browser raw) ->
          load_entries browser zip !! resolve_name raw = Some e)
    /\ ((forall name, is_Some (zip !! name) -> plain_name name = true) ->
        load_entries browser zip = zip)
    /\ next_url w' = next_url w + N.of_nat (length order)
    /\ console w' = console w
    /\ (forall url, (forall n, next_url w <= n -> url <> blob_url n) ->
          object_urls w' !! url = object_urls w !! url)
    /\ (urls_wf w -> forall n, next_url w <= n -> object_urls w !! blob_url n = None).
Proof.
  intros Hdoc Hrun.
  destruct (unzipCourse_records zip doc w w' c Hdoc Hrun)
    as (props & media & mascot & media' & mascot' & order & H1 & H2 & H3 & H4 & H5 & H6
        & H7 & H8 & H9 & H10 & H11 & H12 & H13).
  exists props, media, mascot, media', mascot', order.
  do 9 (split; [assumption|]).
  split.
  { intros name. split.
    - intros [d Hd]. destruct (loaded_Some browser zip name d Hd) as (raw & Hraw & Hf & Hr).
      exists raw. split; [by eexists|done].
    - intros (raw & [d Hd] & Hf & <-). by apply (loaded_is_Some browser zip raw d). }
  split; [apply loaded_latest|].
  split; [apply loaded_plain|]. done.
Qed.

End Unpacking.

(** C10 (as stated) fails for an entry whose name loadAsync does not keep:
    the document declares the media paths ./a.png and media/ and the archive
    file has a binary entry of each of these very names; JSZip loads the
    first as a.png and takes the second for a folder, [zip.file] finds no
    entry for either declared path, and both records come back without a
    blobUrl, no object URL being issued. *)
Lemma C10_counterexample_renamed_entry :
  json_member (str "media") Sample.renamed_document
  = Some (JArr [JObj [(str "id", JStr (str "a")); (str "path", JStr (str "./a.png"))];
                JObj [(str "id", JStr (str "b")); (str "path", JStr (str "media/"))]])
  /\ Sample.renamed_archive !! str "./a.png" = Some (RawBytes [7])
  /\ Sample.renamed_archive !! str "media/" = Some (RawBytes [8])
  /\ load_entries Sample.browser Sample.renamed_archive !! str "./a.png" = None
  /\ load_entries Sample.browser Sample.renamed_archive !! str "a.png" = Some (RawBytes [7])
  /\ load_entries Sample.browser Sample.renamed_archive !! str "media/" = None
  /\ exists c first second,
       unzipCourse Sample.browser (ZipFile Sample.renamed_archive) Sample.fresh_world
       = (Ok c, Sample.fresh_world)
       /\ record_at c (str "media") 0 = Some first
       /\ get_prop first (str "path") = Ok (VStr (str "./a.png"))
       /\ get_prop first (str "blobUrl") = Ok VUndefined
       /\ record_at c (str "media") 1 = Some second
       /\ get_prop second (str "path") = Ok (VStr (str "media/"))
       /\ get_prop second (str "blobUrl") = Ok VUndefined.
Proof.
  do 6 (split; [by vm_compute|]).
  eexists _, _, _. split; [vm_compute; reflexivity|].
  split; [vm_compute; reflexivity|]. split; [by vm_compute|]. split; [by vm_compute|].
  split; [vm_compute; reflexivity|]. split; by vm_compute.
Qed.

Lemma C10_unzip_preserves_records_witness :
  load_entries Sample.browser Sample.small_archive !! str "curso.json"
  = Some (JsonText Sample.small_document)
  /\ exists c w',
       unzipCourse Sample.browser (ZipFile Sample.small_archive) Sample.fresh_world
       = (Ok c, w')
       /\ exists props media mascot media' mascot',
            of_json Sample.small_document = VObj props
            /\ json_member (str "media") Sample.small_document = Some (JArr media)
            /\ json_member (str "mascot") Sample.small_document = Some (JArr mascot)
            /\ c = VObj (assign_prop (str "mascot") (VArr mascot' [])
                           (assign_prop (str "media") (VArr media' []) props))
            /\ length media' = length media
            /\ length mascot' = length mascot.
Proof.
  split; [by vm_compute|].
  eexists _, _. split; [vm_compute; reflexivity|].
  destruct (C10_unzip_preserves_records Sample.browser Sample.small_archive
              Sample.small_document Sample.fresh_world _ _
              ltac:(by vm_compute) eq_refl)
    as (props & media & mascot & media' & mascot' & order
        & H1 & H2 & H3 & H4 & H5 & H6 & _).
  by exists props, media, mascot, media', mascot'.
Defined.

(* The reads complete in the browser's order: in a browser that completes
   the second read first, the first record gets the second URL. *)
Lemma unzipCourse_out_of_order :
  exists c w' first second,
    unzipCourse Sample.late_browser (ZipFile Sample.two_reads_archive) Sample.fresh_world
    = (Ok c, w')
    /\ record_at c (str "media") 0 = Some first
    /\ record_at c (str "media") 1 = Some second
    /\ get_prop first (str "blobUrl") = Ok (VStr (blob_url 1))
    /\ get_prop second (str "blobUrl") = Ok (VStr (blob_url 0))
    /\ object_urls w' !! blob_url 1 = Some {| blob_type := []; blob_bytes := RawBytes [7] |}
    /\ object_urls w' !! blob_url 0 = Some {| blob_type := []; blob_bytes := RawBytes [8] |}.
Proof.
  eexists _, _, _, _. split; [vm_compute; reflexivity|].
  repeat split; by vm_compute.
Qed.

(** ** Failure and success of unzipCourse *)

Lemma settled_record (zip : Zip) (record : JSON) (result : Result Value) :
  is_record record = true ->
  match entry_for zip (of_json record) with
  | Throw e => result = Throw e
  | Ok None => result = Ok (of_json record)
  | Ok (Some e) => exists url, result = set_prop (of_json record) (str "blobUrl") (VStr url)
  end ->
  exists item', result = Ok item'.
Proof.
  destruct record as [| | | | |fields]; try done.
  intros H. unfold entry_for. rewrite of_json_JObj.
  cbn [get_prop rbind]. rewrite lookup_prop_of_json.
  cbn [is_record] in H.
  destruct (lookup_member (str "path") fields) as [[| | |p| |]|]; try done;
    cbn [fmap option_fmap option_map default from_option id of_json ToString rbind];
    match goal with
    | |- context [zip_file_get ?name zip] => destruct (zip_file_get name zip)
    end; try (intros (url & ->)); try (intros ->); by eexists.
Qed.

Lemma settled_records (results : list (Result Value)) :
  (forall i r, results !! i = Some r -> exists item', r = Ok item') ->
  exists items, sequence_results results = Ok items.
Proof.
  induction results as [|r results IH]; intros H; [by exists []|].
  destruct (H 0%nat r eq_refl) as (item' & ->).
  destruct IH as (items & Hitems); [intros i r' Hr'; by apply (H (S i))|].
  cbn [sequence_results]. rewrite Hitems. by eexists.
Qed.

Section UnpackingSucceeds.

Variable browser : Browser.

Lemma unzipCourse_succeeds (zip : Zip) (doc : JSON) (w : World) :
  load_entries browser zip !! str "curso.json" = Some (JsonText doc) ->
  is_course_document doc = true ->
  exists c w', unzipCourse browser (ZipFile zip) w = (Ok c, w').
Proof.
  intros Hdoc Hshape. rewrite (unzipCourse_run browser zip doc w Hdoc).
  destruct doc as [| | | | |ms]; try done.
  cbn [is_course_document json_member] in Hshape.
  apply andb_true_iff in Hshape as [Hmedia Hmascot].
  destruct (lookup_member (str "media") ms) as [[| | | |media|]|] eqn:Em; try done.
  destruct (lookup_member (str "mascot") ms) as [[| | | |mascot|]|] eqn:Ep; try done.
  cbn [is_record_list] in Hmedia, Hmascot.
  rewrite (array_elems_of_json_records ms _ media Em).
  rewrite (array_elems_of_json_records ms _ mascot Ep).
  rewrite <- map_app, length_map.
  set (loaded := load_entries browser zip).
  destruct (settle_all_attach browser loaded (map of_json (media ++ mascot)) w)
    as (results & w1 & -> & Hlen & _ & _ & Hres & _).
  assert (Hok : forall i r, results !! i = Some r -> exists item', r = Ok item').
  { intros i r Hr.
    assert (Hi : (i < length (media ++ mascot))%nat).
    { apply lookup_lt_Some in Hr. by rewrite Hlen, length_map in Hr. }
    destruct (lookup_lt_is_Some_2 _ _ Hi) as [record Hrecord].
    assert (Hrec : is_record record = true).
    { assert (Hall : forallb is_record (media ++ mascot) = true)
        by (rewrite forallb_app; by apply andb_true_iff).
      rewrite forallb_forall in Hall. apply Hall, list_elem_of_In.
      by eapply list_elem_of_lookup_2. }
    specialize (Hres i (of_json record)).
    change (map ?f ?l) with (f <$> l) in Hres.
    rewrite list_lookup_fmap, Hrecord in Hres. specialize (Hres eq_refl).
    apply (settled_record loaded record r Hrec).
    destruct (entry_for loaded (of_json record)) as [[e|]|err].
    - destruct Hres as (k & _ & Hk & _). rewrite Hr in Hk. injection Hk as ->. by eexists.
    - rewrite Hr in Hres. by injection Hres.
    - rewrite Hr in Hres. by injection Hres. }
  unfold Promise_all.
  destruct (settled_records (take (length media) results)) as (media' & ->).
  { intros i r Hr. apply lookup_take_Some in Hr as [Hr _]. by apply (Hok i). }
  destruct (settled_records (drop (length media) results)) as (mascot' & ->).
  { intros i r Hr. rewrite lookup_drop in Hr. by apply (Hok _ r Hr). }
  rewrite of_json_JObj. cbn [rbind set_prop]. by eexists _, _.
Qed.

End UnpackingSucceeds.

Lemma document_is_course_document (course : Course) (ids : option (list jsstring)) (doc : JSON) :
  document course ids = Some doc -> is_course_document doc = true.
Proof.
  intros Hdoc.
  pose proof (document_shape course ids) as Hshape. cbv zeta in Hshape.
  rewrite Hdoc in Hshape. injection Hshape as ->.
  change (forallb is_record (map media_json (media course))
          && forallb is_record (map mascot_json (mascot (courseToSave course ids))) = true).
  apply andb_true_iff. split; apply forallb_forall; intros record Hin;
    apply in_map_iff in Hin as (item & <- & _); reflexivity.
Qed.

(** C4 (as stated) fails: an archive whose curso.json is the JSON text [{}]
    has the entry and the entry parses, yet unzipCourse throws (a TypeError,
    on reading [course.media.map]). *)
Lemma C4_counterexample_shapeless_document :
  zip_file_get (str "curso.json") (load_entries Sample.browser Sample.shapeless_archive)
  = Some (JsonText (JObj []))
  /\ JSON_parse (JsonText (JObj [])) = Some (VObj [])
  /\ unzipCourse Sample.browser (ZipFile Sample.shapeless_archive) Sample.fresh_world
     = (Throw TypeError, Sample.fresh_world).
Proof. repeat split; by vm_compute. Qed.

(** C4 (amended): unzipCourse fails with one error, without touching the
    object URL store, when the loaded archive has no curso.json entry, which
    is when no file entry of the archive file gets that name from
    [utils.resolve] (for an archive file whose names are plain: when it has
    no entry of that name), and when the entry is not JSON text; it returns a
    course whenever the entry parses to an object whose media and mascot
    members are arrays of records (objects whose path, if any, is a string),
    as every document written by zipCourse is. *)
Theorem C4_unzip_failure_and_success (browser : Browser) (zip : Zip) (w : World) :
  (load_entries browser zip !! str "curso.json" = None ->
     unzipCourse browser (ZipFile zip) w
     = (Throw (Error (str "curso.json not found in zip")), w))
  /\ (forall content,
        load_entries browser zip !! str "curso.json" = Some content ->
        JSON_parse content = None ->
        unzipCourse browser (ZipFile zip) w = (Throw SyntaxError, w))
  /\ (forall doc,
        load_entries browser zip !! str "curso.json" = Some (JsonText doc) ->
        is_course_document doc = true ->
        exists c w', unzipCourse browser (ZipFile zip) w = (Ok c, w'))
  /\ (forall course ids doc,
        document course ids = Some doc -> is_course_document doc = true)
  /\ (load_entries browser zip !! str "curso.json" = None
      <-> forall name, is_Some (zip !! name) -> is_folder_name name = false ->
                       resolve_name name <> str "curso.json")
  /\ ((forall name, is_Some (zip !! name) -> plain_name name = true) ->
      load_entries browser zip = zip).
Proof.
  split; [|split; [|split; [|split; [|split]]]].
  - intros H. unfold unzipCourse. cbn [JSZip_loadAsync].
    unfold zip_file_get. by rewrite H.
  - intros content H Hparse. unfold unzipCourse. cbn [JSZip_loadAsync].
    unfold zip_file_get. by rewrite H, Hparse.
  - intros doc Hdoc Hshape. exact (unzipCourse_succeeds browser zip doc w Hdoc Hshape).
  - exact document_is_course_document.
  - split; [|apply loaded_None].
    intros Hnone name [d Hd] Hf Hr.
    destruct (loaded_is_Some browser zip name d Hd Hf) as [d' Hd'].
    rewrite Hr, Hnone in Hd'. discriminate Hd'.
  - apply loaded_plain.
Qed.

(** ** The archive written by zipCourse *)

Section ArchiveClaims.

Variable browser : Browser.

Lemma urls_wf_same_store (w w1 : World) :
  urls_wf w -> object_urls w1 = object_urls w -> next_url w1 = next_url w -> urls_wf w1.
Proof. intros Hwf Hu Hn k Hk. rewrite Hu in Hk. rewrite Hn. by apply Hwf. Qed.

Lemma urls_wf_fresh_world : urls_wf Sample.fresh_world.
Proof. intros n [b Hb]. cbn [Sample.fresh_world object_urls] in Hb. by rewrite lookup_empty in Hb. Qed.

Lemma zipCourse_entries_spec (course : Course) (ids : option (list jsstring)) (w : World) :
  urls_wf w ->
  exists doc w',
    document course ids = Some doc
    /\ zipCourse_entries browser course ids w
       = (put_entries pose_path (mascot_entry browser w) (mascot (courseToSave course ids))
            (put_entries media_path (media_entry browser w) (media course)
               (zip_file_add (str "curso.json") (JsonText doc) ∅)), w')
    /\ object_urls w' = object_urls w
    /\ urls_wf w'.
Proof.
  intros Hwf. destruct (document_parses course ids) as (doc & Hdoc & _).
  exists doc. unfold zipCourse_entries. rewrite Hdoc. cbn [zip_file_add_json].
  unfold bind, ret.
  change (media (courseToSave course ids)) with (media course).
  destruct (media_loop browser (media course)
              (zip_file_add (str "curso.json") (JsonText doc) ∅) w)
    as (w1 & -> & Hu1 & Hn1).
  destruct (mascot_loop browser (mascot (courseToSave course ids))
              (put_entries media_path (media_entry browser w) (media course)
                 (zip_file_add (str "curso.json") (JsonText doc) ∅)) w1
              (urls_wf_same_store w w1 Hwf Hu1 Hn1))
    as (w2 & -> & Hu2 & Hn2 & Hwf2).
  exists w2. split; [done|]. split; [|split; [congruence|done]].
  f_equal. f_equal.
  unfold mascot_entry, resolve. by rewrite Hu1.
Qed.

Lemma normalize_png (content resized : Blob) :
  normalize browser content = Ok resized ->
  blob_type resized = str "image/png" /\ is_png_1500 (blob_bytes resized).
Proof.
  unfold normalize, toBlob, drawImage, clearRect.
  destruct (decode browser content) as [img|]; [|done].
  destruct (negb (context2d_available browser)); [done|].
  cbn [canvas_width canvas_height canvas_bitmap].
  destruct (encoder_succeeds browser _ _ _); [|done].
  intros [= <-]. split; [done|]. by eexists.
Qed.

(** C3 (as stated) fails: for a pose whose uploaded file is not a decodable
    image the content is resolved, normalization fails, and the packer stores
    the original bytes, which are no 1500x1500 PNG, under the pose's path. *)
Lemma C3_counterexample_undecodable_upload :
  let course :=
    with_mascot Sample.empty_course [Sample.happy_pose Sample.broken_upload] in
  resolve Sample.browser Sample.fresh_world
    (pose_file (Sample.happy_pose Sample.broken_upload))
    (pose_blobUrl (Sample.happy_pose Sample.broken_upload))
  = Some Sample.broken_upload
  /\ fst (zipCourse_entries Sample.browser course None Sample.fresh_world)
       !! str "mascot/Mascote_happy.png"
     = Some (RawBytes [0; 1; 2])
  /\ ~ is_png_1500 (RawBytes [0; 1; 2]).
Proof.
  split; [reflexivity|]. split; [by vm_compute|].
  intros [pixels H]. discriminate H.
Qed.

(** C3 (amended): for every mascot pose whose content was resolved, the
    archive holds an entry under the pose's export path, and that entry is
    either a PNG of exactly 1500x1500 (the output of the normalizer) or, when
    normalization failed for a pose exported under that path, that pose's
    original content unchanged. *)
Theorem C3_mascot_entry_normalized_or_original
    (course : Course) (ids : option (list jsstring)) (w : World)
    (pose : MascotPose) (content : Blob) :
  urls_wf w ->
  In pose (mascot course) ->
  resolve browser w (pose_file pose) (pose_blobUrl pose) = Some content ->
  exists e,
    fst (zipCourse_entries browser course ids w)
      !! export_mascot_path (export_mascotName course) pose = Some e
    /\ (is_png_1500 e
        \/ exists pose' content' err,
             In pose' (mascot course)
             /\ export_mascot_path (export_mascotName course) pose'
                = export_mascot_path (export_mascotName course) pose
             /\ resolve browser w (pose_file pose') (pose_blobUrl pose') = Some content'
             /\ normalize browser content' = Throw err
             /\ e = blob_bytes content').
Proof.
  intros Hwf Hin Hres.
  destruct (zipCourse_entries_spec course ids w Hwf) as (doc & w' & _ & -> & _).
  cbn [fst]. rewrite courseToSave_mascot.
  set (rename := fun p => with_path p (export_mascot_path (export_mascotName course) p)).
  assert (Hentry : exists e0, mascot_entry browser w (rename pose) = Some e0).
  { unfold mascot_entry, rename. cbn [pose_file pose_blobUrl with_path].
    rewrite Hres. destruct (normalize browser content); by eexists. }
  destruct Hentry as (e0 & He0).
  destruct (put_entries_written pose_path (mascot_entry browser w)
              (map rename (mascot course))
              (put_entries media_path (media_entry browser w) (media course)
                 (zip_file_add (str "curso.json") (JsonText doc) ∅))
              (rename pose) e0 (in_map rename _ _ Hin) He0)
    as (item' & e' & Hin' & Hkey & He' & Hlookup).
  exists e'. split; [exact Hlookup|].
  apply in_map_iff in Hin' as (pose' & <- & Hin').
  unfold mascot_entry, rename in He'. cbn [pose_file pose_blobUrl with_path] in He'.
  destruct (resolve browser w (pose_file pose') (pose_blobUrl pose'))
    as [content'|] eqn:Hres'; [|done].
  destruct (normalize browser content') as [resized|err] eqn:Hnorm.
  - left. injection He' as <-. by apply normalize_png in Hnorm as [_ Hpng].
  - right. injection He' as <-. by exists pose', content', err.
Qed.

End ArchiveClaims.

Lemma C3_mascot_entry_normalized_or_original_witness :
  urls_wf Sample.fresh_world
  /\ exists e,
       fst (zipCourse_entries Sample.browser
              (with_mascot Sample.empty_course [Sample.happy_pose Sample.png_upload])
              None Sample.fresh_world)
         !! str "mascot/Mascote_happy.png" = Some e
       /\ is_png_1500 e.
Proof.
  split; [exact urls_wf_fresh_world|].
  destruct (C3_mascot_entry_normalized_or_original Sample.browser
              (with_mascot Sample.empty_course [Sample.happy_pose Sample.png_upload])
              None Sample.fresh_world (Sample.happy_pose Sample.png_upload)
              Sample.png_upload urls_wf_fresh_world (or_introl eq_refl) eq_refl)
    as (e & He & _).
  exists e. split.
  - exact He.
  - vm_compute in He. injection He as <-. by eexists.
Defined.

Lemma export_mascot_path_not_document (name : jsstring) (pose : MascotPose) :
  export_mascot_path name pose <> str "curso.json".
Proof.
  unfold export_mascot_path. intros H. apply (f_equal head) in H.
  vm_compute in H. discriminate H.
Qed.

(** ** Filtering and cleaning *)

Section DocumentClaims.

Variable browser : Browser.

(** C6: with a module-id filter the document lists exactly the modules of the
    course whose id is selected, in the order of the course's module list
    (for [m1, m2, m3] and the filter {m2}: exactly [m2]); the mascot records
    of the document are those written without a filter, and so is every
    entry of the archive other than curso.json.  Whatever the filter, the
    archive holds, under the export path of every pose whose content is
    resolved, the entry of a pose exported under that path: the PNG that
    normalization makes of its content or, when normalization fails, the
    content itself. *)
Theorem C6_module_filter (course : Course) (ids : list jsstring) (w : World) :
  exists doc doc_all,
    document course (Some ids) = Some doc
    /\ document course None = Some doc_all
    /\ json_member (str "modules") doc
       = Some (JArr (map (fun m => json_of (Module_object m))
                       (List.filter (fun m => includes ids (module_id m)) (modules course))))
    /\ (forall m, In m (modules (courseToSave course (Some ids)))
                  <-> In m (modules course) /\ In (module_id m) ids)
    /\ json_member (str "mascot") doc
       = Some (JArr (map (fun pose =>
                            mascot_json
                              (with_path pose
                                 (export_mascot_path (export_mascotName course) pose)))
                       (mascot course)))
    /\ json_member (str "mascot") doc = json_member (str "mascot") doc_all
    /\ (exists writes w',
          zipCourse_entries browser course (Some ids) w
          = (apply_writes writes (zip_file_add (str "curso.json") (JsonText doc) ∅), w')
          /\ zipCourse_entries browser course None w
             = (apply_writes writes (zip_file_add (str "curso.json") (JsonText doc_all) ∅), w'))
    /\ (forall name, name <> str "curso.json" ->
          fst (zipCourse_entries browser course (Some ids) w) !! name
          = fst (zipCourse_entries browser course None w) !! name)
    /\ (urls_wf w ->
        forall pose content,
          In pose (mascot course) ->
          resolve browser w (pose_file pose) (pose_blobUrl pose) = Some content ->
          exists e pose' content',
            fst (zipCourse_entries browser course (Some ids) w)
              !! export_mascot_path (export_mascotName course) pose = Some e
            /\ fst (zipCourse_entries browser course None w)
                 !! export_mascot_path (export_mascotName course) pose = Some e
            /\ In pose' (mascot course)
            /\ export_mascot_path (export_mascotName course) pose'
               = export_mascot_path (export_mascotName course) pose
            /\ resolve browser w (pose_file pose') (pose_blobUrl pose') = Some content'
            /\ e = match normalize browser content' with
                   | Ok resizedBlob => blob_bytes resizedBlob
                   | Throw _ => blob_bytes content'
                   end)
    /\ json_member (str "modules")
         (default JNull
            (document (with_modules Sample.empty_course [Sample.m1; Sample.m2; Sample.m3])
               (Some [str "m2"])))
       = Some (JArr [json_of (Module_object Sample.m2)]).
Proof.
  destruct (zipCourse_writes browser course w) as (writes & w' & Hrun & _).
  destruct (Hrun (Some ids)) as (doc & Hdoc & Hzip).
  destruct (Hrun None) as (doc_all & Hall & Hzip_all).
  exists doc, doc_all.
  split; [done|]. split; [done|].
  pose proof (document_shape course (Some ids)) as Hshape.
  pose proof (document_shape course None) as Hshape_all.
  cbv zeta in Hshape, Hshape_all.
  rewrite Hdoc in Hshape. rewrite Hall in Hshape_all.
  injection Hshape as ->. injection Hshape_all as ->.
  split; [reflexivity|].
  split.
  { intros m. cbn [modules courseToSave with_mascot with_modules].
    rewrite filter_In. unfold includes. rewrite existsb_exists.
    split; intros [Hm Hid]; (split; [done|]).
    - destruct Hid as (x & Hx & Heq). apply jsstring_eqb_eq in Heq. by subst x.
    - exists (module_id m). split; [done|apply jsstring_eqb_refl]. }
  split.
  { transitivity (Some (JArr (map mascot_json (mascot (courseToSave course (Some ids))))));
      [reflexivity|].
    by rewrite courseToSave_mascot, map_map. }
  split; [reflexivity|].
  split; [by exists writes, w'|].
  assert (Hsame : forall name, name <> str "curso.json" ->
            fst (zipCourse_entries browser course (Some ids) w) !! name
            = fst (zipCourse_entries browser course None w) !! name).
  { intros name Hname. rewrite Hzip, Hzip_all. cbn [fst].
    apply apply_writes_agree. unfold zip_file_add.
    by rewrite !lookup_insert_ne. }
  split; [exact Hsame|].
  split; [|by vm_compute].
  intros Hwf pose content Hin Hres.
  rewrite <- (Hsame _ (export_mascot_path_not_document _ pose)).
  destruct (zipCourse_entries_spec browser course (Some ids) w Hwf)
    as (doc' & w1 & _ & -> & _).
  cbn [fst]. rewrite courseToSave_mascot.
  set (rename := fun p => with_path p (export_mascot_path (export_mascotName course) p)).
  assert (Hentry : exists e0, mascot_entry browser w (rename pose) = Some e0).
  { unfold mascot_entry, rename. cbn [pose_file pose_blobUrl with_path].
    rewrite Hres. destruct (normalize browser content); by eexists. }
  destruct Hentry as (e0 & He0).
  destruct (put_entries_written pose_path (mascot_entry browser w)
              (map rename (mascot course))
              (put_entries media_path (media_entry browser w) (media course)
                 (zip_file_add (str "curso.json") (JsonText doc') ∅))
              (rename pose) e0 (in_map rename _ _ Hin) He0)
    as (item' & e' & Hin' & Hkey & He' & Hlookup).
  apply in_map_iff in Hin' as (pose' & <- & Hin').
  unfold mascot_entry, rename in He'. cbn [pose_file pose_blobUrl with_path] in He'.
  destruct (resolve browser w (pose_file pose') (pose_blobUrl pose'))
    as [content'|] eqn:Hres'; [|done].
  exists e', pose', content'.
  split; [exact Hlookup|]. split; [exact Hlookup|]. split; [done|].
  split; [exact Hkey|]. split; [done|].
  destruct (normalize browser content'); by injection He'.
Qed.

(** C7: in the document written as curso.json every media record consists of
    id, name, path and type and every mascot record of type and path, all
    strings: no record has a [file] or [blobUrl] member, and the document
    holds no content.  Contents occur only as entries of the archive, one
    under the path of a media record or under the export path of a mascot
    pose. *)
Theorem C7_document_has_no_handles (course : Course) (ids : option (list jsstring)) (w : World) :
  exists doc media_docs mascot_docs,
    document course ids = Some doc
    /\ json_member (str "media") doc = Some (JArr media_docs)
    /\ json_member (str "mascot") doc = Some (JArr mascot_docs)
    /\ media_docs = map media_json (media course)
    /\ mascot_docs = map mascot_json (mascot (courseToSave course ids))
    /\ Forall (fun record => json_member (str "file") record = None
                             /\ json_member (str "blobUrl") record = None)
              (media_docs ++ mascot_docs)
    /\ (forall name e,
          fst (zipCourse_entries browser course ids w) !! name = Some e ->
          (name = str "curso.json" /\ e = JsonText doc)
          \/ (exists item, In item (media course) /\ media_path item = name)
          \/ (exists pose, In pose (mascot course)
                /\ export_mascot_path (export_mascotName course) pose = name)).
Proof.
  destruct (zipCourse_writes browser course w) as (writes & w' & Hrun & Hkeys).
  destruct (Hrun ids) as (doc & Hdoc & Hzip).
  pose proof (document_shape course ids) as Hshape. cbv zeta in Hshape.
  rewrite Hdoc in Hshape. injection Hshape as ->.
  eexists _, _, _. split; [exact Hdoc|].
  split; [reflexivity|]. split; [reflexivity|].
  split; [reflexivity|]. split; [reflexivity|].
  split.
  { apply Forall_app. split; apply Forall_forall; intros record Hin;
      apply list_elem_of_In, in_map_iff in Hin as (item & <- & _); by split. }
  intros name e He. rewrite Hzip in He. cbn [fst] in He.
  apply apply_writes_origin in He as [He|He].
  - left. unfold zip_file_add in He.
    apply lookup_insert_Some in He as [[<- <-]|[_ He]]; [done|].
    by rewrite lookup_empty in He.
  - right. rewrite Forall_forall in Hkeys.
    apply list_elem_of_In in He. by apply Hkeys in He.
Qed.

End DocumentClaims.

Lemma C6_module_filter_witness :
  let course :=
    with_modules (with_mascot Sample.empty_course [Sample.happy_pose Sample.png_upload])
      [Sample.m1; Sample.m2; Sample.m3] in
  exists doc e,
    document course (Some [str "m2"]) = Some doc
    /\ json_member (str "modules") doc = Some (JArr [json_of (Module_object Sample.m2)])
    /\ fst (zipCourse_entries Sample.browser course (Some [str "m2"]) Sample.fresh_world)
         !! str "mascot/Mascote_happy.png" = Some e
    /\ fst (zipCourse_entries Sample.browser course None Sample.fresh_world)
         !! str "mascot/Mascote_happy.png" = Some e
    /\ is_png_1500 e.
Proof.
  intros course.
  destruct (C6_module_filter Sample.browser course [str "m2"] Sample.fresh_world)
    as (doc & doc_all & Hdoc & _ & Hmodules & _ & _ & _ & _ & _ & Hentry & _).
  destruct (Hentry urls_wf_fresh_world (Sample.happy_pose Sample.png_upload)
              Sample.png_upload (or_introl eq_refl) eq_refl)
    as (e & pose' & content' & He & Hall & Hin & _ & Hres & Hbytes).
  exists doc, e. split; [exact Hdoc|]. split; [exact Hmodules|].
  split; [exact He|]. split; [exact Hall|].
  destruct Hin as [<-|[]]. injection Hres as <-. rewrite Hbytes. by eexists.
Defined.

(** ** Packing followed by unpacking *)

Lemma resolve_name_document : resolve_name (str "curso.json") = str "curso.json".
Proof. by vm_compute. Qed.

Lemma rest_props_assign_blobUrl (v : Value) (ps : Props) :
  rest_props transient_keys (assign_prop (str "blobUrl") v ps)
  = rest_props transient_keys ps.
Proof.
  unfold rest_props. induction ps as [|[k x] ps IH]; [reflexivity|].
  cbn [assign_prop]. destruct (jsstring_eqb k (str "blobUrl")) eqn:Hk.
  - apply jsstring_eqb_eq in Hk. subst k. reflexivity.
  - cbn [List.filter]. by rewrite IH.
Qed.

(* What a record of the document looks like after unpacking, handles aside. *)
Lemma attached_record (zip : Zip) (w w' : World) (order : list nat) (i : nat)
    (ps : Props) (v : Value) :
  attached zip w w' order i (VObj ps) (Some v) ->
  without_handles v = strip_transient ps
  /\ get_prop v (str "path") = get_prop (VObj ps) (str "path")
  /\ (entry_for zip (VObj ps) = Ok None -> v = VObj ps).
Proof.
  unfold attached. destruct (entry_for zip (VObj ps)) as [[e|]|]; [| |done].
  - intros (item' & k & [= <-] & _ & Hset & _). cbn [set_prop] in Hset. injection Hset as <-.
    cbn [without_handles get_prop]. unfold strip_transient.
    rewrite rest_props_assign_blobUrl, lookup_prop_assign_ne; [done|].
    intros H. apply str_inj in H. discriminate H.
  - by intros [= ->].
Qed.

Lemma record_paths_Forall2 {A} (path : A -> jsstring) (l : list A) (vs : list Value) :
  Forall2 (fun x v => get_prop v (str "path") = Ok (VStr (path x))) l vs ->
  record_paths (Ok (VArr vs [])) = map path l.
Proof.
  cbn [record_paths]. induction 1 as [|x v l vs Hv _ IH]; [done|].
  cbn [omap list_omap]. rewrite Hv. cbn. by rewrite <- IH.
Qed.

Section RoundTrip.

Variable browser : Browser.

(* Where an entry of the archive written by zipCourse comes from. *)
Lemma zipCourse_entry_origin (course : Course) (ids : option (list jsstring))
    (w w1 : World) (entries : Zip) (name : jsstring) (d : Bytes) :
  urls_wf w ->
  zipCourse_entries browser course ids w = (entries, w1) ->
  entries !! name = Some d ->
  (name = str "curso.json" /\ exists doc, document course ids = Some doc /\ d = JsonText doc)
  \/ (exists m, In m (media course) /\ media_path m = name
                /\ media_entry browser w m = Some d)
  \/ (exists p, In p (mascot course)
                /\ export_mascot_path (export_mascotName course) p = name
                /\ mascot_entry browser w
                     (with_path p (export_mascot_path (export_mascotName course) p))
                   = Some d).
Proof.
  intros Hwf Hzip Hd.
  destruct (zipCourse_entries_spec browser course ids w Hwf) as (doc & w1' & Hdoc & Hspec & _).
  rewrite Hzip in Hspec. injection Hspec as -> _.
  apply put_entries_origin in Hd as [Hd|(p' & Hp' & Hkey & He)].
  - apply put_entries_origin in Hd as [Hd|(m & Hm & Hkey & He)].
    + unfold zip_file_add in Hd. apply lookup_insert_Some in Hd as [[<- <-]|[_ Hd]].
      * left. split; [done|by exists doc].
      * by rewrite lookup_empty in Hd.
    + right. left. by exists m.
  - right. right. apply in_map_iff in Hp' as (p & <- & Hp). by exists p.
Qed.

Lemma zipCourse_document_entry (course : Course) (ids : option (list jsstring)) (w : World) :
  (forall item, In item (media course) ->
     resolve_name (media_path item) <> str "curso.json") ->
  exists entries w1 doc,
    zipCourse_entries browser course ids w = (entries, w1)
    /\ document course ids = Some doc
    /\ entries !! str "curso.json" = Some (JsonText doc)
    /\ load_entries browser entries !! str "curso.json" = Some (JsonText doc).
Proof.
  intros Hmedia.
  destruct (zipCourse_writes browser course w) as (writes & w1 & Hrun & Hkeys).
  destruct (Hrun ids) as (doc & Hdoc & Hzip).
  eexists _, w1, doc. split; [exact Hzip|]. split; [done|].
  assert (Hentry : apply_writes writes (zip_file_add (str "curso.json") (JsonText doc) ∅)
                     !! str "curso.json" = Some (JsonText doc)).
  { rewrite apply_writes_untouched.
    - unfold zip_file_add. apply lookup_insert_eq.
    - eapply Forall_impl; [exact Hkeys|].
      intros kv [(item & Hin & <-)|(pose & Hin & <-)].
      + intros Heq. apply (Hmedia item Hin). rewrite Heq. apply resolve_name_document.
      + apply export_mascot_path_not_document. }
  split; [exact Hentry|].
  rewrite <- resolve_name_document at 1.
  apply (loaded_unique browser _ (str "curso.json") (JsonText doc) Hentry); [done|].
  intros name' d' Hd' _ Hr'. rewrite resolve_name_document in Hr'.
  apply apply_writes_origin in Hd' as [Hd'|Hd'].
  - unfold zip_file_add in Hd'. apply lookup_insert_Some in Hd' as [[_ <-]|[_ Hd']]; [done|].
    by rewrite lookup_empty in Hd'.
  - exfalso. rewrite Forall_forall in Hkeys. apply list_elem_of_In, Hkeys in Hd'.
    cbn [fst] in Hd'. destruct Hd' as [(item & Hin & <-)|(pose & Hin & <-)].
    + by apply (Hmedia item Hin).
    + by apply (resolve_export_mascot_path_not_document _ _ Hr').
Qed.

Lemma round_trip_records (course : Course) (ids : option (list jsstring)) (w : World) :
  (forall item, In item (media course) ->
     resolve_name (media_path item) <> str "curso.json") ->
  let cs := courseToSave course ids in
  exists entries w1 doc c w2 media' mascot' order,
    zipCourse_entries browser course ids w = (entries, w1)
    /\ document course ids = Some doc
    /\ entries !! str "curso.json" = Some (JsonText doc)
    /\ unzipCourse browser (ZipFile entries) w1 = (Ok c, w2)
    /\ c = VObj [(str "id", VStr (course_id course));
                 (str "settings", CourseSettings_object (settings course));
                 (str "modules", VArr (map Module_object (modules cs)) []);
                 (str "media", VArr media' []);
                 (str "mascot", VArr mascot' [])]
    /\ length media' = length (media course)
    /\ length mascot' = length (mascot cs)
    /\ (forall i item, media course !! i = Some item ->
          attached (load_entries browser entries) w1 w2 order i
            (of_json (media_json item)) (media' !! i))
    /\ (forall i pose, mascot cs !! i = Some pose ->
          attached (load_entries browser entries) w1 w2 order (length (media course) + i)
            (of_json (mascot_json pose)) (mascot' !! i))
    /\ (urls_wf w1 -> forall n, next_url w1 <= n -> object_urls w1 !! blob_url n = None).
Proof.
  intros Hmedia cs.
  destruct (zipCourse_document_entry course ids w Hmedia)
    as (entries & w1 & doc & Hzip & Hdoc & Hentry & Hloaded).
  destruct (unzipCourse_succeeds browser entries doc w1 Hloaded
              (document_is_course_document course ids doc Hdoc)) as (c & w2 & Hunzip).
  destruct (unzipCourse_records browser entries doc w1 w2 c Hloaded Hunzip)
    as (props & media0 & mascot0 & media' & mascot' & order & Hprops & Hm & Hp & Hc
        & Hlen1 & Hlen2 & _ & Hatt1 & Hatt2 & _ & _ & _ & Hfresh).
  pose proof (document_shape course ids) as Hshape. cbv zeta in Hshape.
  rewrite Hdoc in Hshape. injection Hshape as Hshape.
  destruct (document_parses course ids) as (doc' & Hdoc' & Hparse).
  rewrite Hdoc in Hdoc'. injection Hdoc' as <-.
  rewrite Hprops, cleanCourse_props in Hparse. injection Hparse as ->.
  rewrite Hshape in Hm, Hp.
  assert (Hm0 : media0 = map media_json (media course)) by (by injection Hm).
  assert (Hp0 : mascot0 = map mascot_json (mascot cs)) by (by injection Hp).
  subst media0 mascot0. rewrite length_map in Hlen1, Hlen2.
  exists entries, w1, doc, c, w2, media', mascot', order.
  split; [exact Hzip|]. split; [exact Hdoc|]. split; [exact Hentry|].
  split; [exact Hunzip|]. split; [exact Hc|].
  split; [exact Hlen1|]. split; [exact Hlen2|]. split; [|split; [|exact Hfresh]].
  - intros i item Hi. apply (Hatt1 i).
    change (map media_json (media course)) with (media_json <$> media course).
    by rewrite list_lookup_fmap, Hi.
  - intros i pose Hi. rewrite <- (length_map media_json). apply (Hatt2 i).
    change (map mascot_json (mascot cs)) with (mascot_json <$> mascot cs).
    by rewrite list_lookup_fmap, Hi.
Qed.

End RoundTrip.

Lemma unpacked_list {A} (to_json : A -> JSON) (l : list A) (vs : list Value)
    (zip : Zip) (w w' : World) (order : list nat) (place : nat -> nat) :
  (forall x, exists ps, of_json (to_json x) = VObj ps) ->
  length vs = length l ->
  (forall i x, l !! i = Some x ->
     attached zip w w' order (place i) (of_json (to_json x)) (vs !! i)) ->
  Forall2 (fun x v =>
             without_handles v = without_handles (of_json (to_json x))
             /\ get_prop v (str "path") = get_prop (of_json (to_json x)) (str "path")
             /\ (entry_for zip (of_json (to_json x)) = Ok None -> v = of_json (to_json x)))
          l vs.
Proof.
  intros Hobj Hlen Hatt. apply Forall2_same_length_lookup. split; [done|].
  intros i x v Hx Hv. pose proof (Hatt i x Hx) as Hn. rewrite Hv in Hn.
  destruct (Hobj x) as (ps & Hps). rewrite Hps in *.
  by apply attached_record in Hn.
Qed.

Section RoundTripClaims.

Variable browser : Browser.

(** C1 (amended): for every course none of whose media assets is stored under
    a name that loadAsync takes for curso.json (the name itself, or one that
    [utils.resolve] turns into it, such as ./curso.json), packing without a
    module filter and unpacking the archive returns a course with the same
    id, settings and modules, whose media records equal the original ones
    when file and blobUrl are left out, and whose mascot records equal (file
    and blobUrl left out) the original poses with their paths rewritten to
    the export paths; its asset paths are the media paths followed by the
    mascot export paths. *)
Theorem C1_round_trip (course : Course) (w : World) :
  (forall item, In item (media course) ->
     resolve_name (media_path item) <> str "curso.json") ->
  exists archive w1 c w2 media' mascot',
    zipCourse browser course None w = (archive, w1)
    /\ unzipCourse browser archive w1 = (Ok c, w2)
    /\ get_prop c (str "id") = Ok (VStr (course_id course))
    /\ get_prop c (str "settings") = Ok (CourseSettings_object (settings course))
    /\ get_prop c (str "modules") = Ok (VArr (map Module_object (modules course)) [])
    /\ get_prop c (str "media") = Ok (VArr media' [])
    /\ get_prop c (str "mascot") = Ok (VArr mascot' [])
    /\ Forall2 (fun item v =>
                  without_handles v = without_handles (VObj (MediaFile_props item)))
               (media course) media'
    /\ Forall2 (fun pose v =>
                  without_handles v
                  = without_handles
                      (VObj (MascotPose_props
                               (with_path pose
                                  (export_mascot_path (export_mascotName course) pose)))))
               (mascot course) mascot'
    /\ asset_paths c
       = map media_path (media course)
         ++ map (export_mascot_path (export_mascotName course)) (mascot course).
Proof.
  intros Hmedia.
  destruct (round_trip_records browser course None w Hmedia)
    as (entries & w1 & doc & c & w2 & media' & mascot' & order & Hzip & _ & _ & Hunzip & Hc
        & Hlen1 & Hlen2 & Hatt1 & Hatt2 & _).
  exists (ZipFile entries), w1, c, w2, media', mascot'.
  split; [unfold zipCourse, bind, ret, generateAsync; by rewrite Hzip|].
  split; [done|]. subst c.
  split; [reflexivity|]. split; [reflexivity|]. split; [reflexivity|].
  split; [reflexivity|]. split; [reflexivity|].
  pose proof (unpacked_list media_json (media course) media' _ w1 w2 order (fun i => i)
                (fun x => ex_intro _ _ eq_refl) Hlen1 Hatt1) as Hm.
  pose proof (unpacked_list mascot_json (mascot (courseToSave course None)) mascot'
                _ w1 w2 order (fun i => (length (media course) + i)%nat)
                (fun x => ex_intro _ _ eq_refl) Hlen2 Hatt2) as Hp.
  rewrite courseToSave_mascot in Hp.
  change (map ?f ?l) with (f <$> l) in Hp. apply Forall2_fmap_l in Hp.
  split; [|split].
  - eapply Forall2_impl; [exact Hm|]. intros item v (Hv & _).
    rewrite Hv. cbn [without_handles]. by rewrite strip_transient_media.
  - eapply Forall2_impl; [exact Hp|]. intros pose v (Hv & _).
    rewrite Hv. cbn [without_handles]. by rewrite strip_transient_mascot.
  - unfold asset_paths. f_equal.
    + apply (record_paths_Forall2 media_path).
      eapply Forall2_impl; [exact Hm|]. by intros item v (_ & -> & _).
    + apply (record_paths_Forall2 (export_mascot_path (export_mascotName course))).
      eapply Forall2_impl; [exact Hp|]. by intros pose v (_ & -> & _).
Qed.

End RoundTripClaims.

(** C1 (as stated) fails.  A pose added in the editor has the path
    mascot/happy.png; after packing and unpacking its path is the export path
    mascot/Mascote_happy.png, so the asset paths differ from the original
    ones.  And when a media asset is stored under the name curso.json its
    content replaces the document in the archive and unpacking throws. *)
Lemma C1_counterexample_renamed_path_and_usurped_document :
  (let course := with_mascot Sample.empty_course [Sample.happy_pose Sample.png_upload] in
   exists c w2,
     (let (archive, w1) := zipCourse Sample.browser course None Sample.fresh_world in
      unzipCourse Sample.browser archive w1) = (Ok c, w2)
     /\ asset_paths c = [str "mascot/Mascote_happy.png"]
     /\ Course_asset_paths course = [str "mascot/happy.png"]
     /\ ~ (forall p, In p (asset_paths c) <-> In p (Course_asset_paths course)))
  /\ (let course := Sample.with_media Sample.empty_course [Sample.usurping_media] in
      exists w2,
        (let (archive, w1) := zipCourse Sample.browser course None Sample.fresh_world in
         unzipCourse Sample.browser archive w1) = (Throw SyntaxError, w2)).
Proof.
  split.
  - eexists _, _. split; [vm_compute; reflexivity|].
    split; [by vm_compute|]. split; [by vm_compute|].
    intros H. specialize (H (str "mascot/happy.png")).
    vm_compute in H. destruct H as [_ H].
    destruct (H (or_introl eq_refl)) as [H'|[]]. discriminate H'.
  - eexists. vm_compute. reflexivity.
Qed.

Lemma C1_round_trip_witness :
  let course :=
    Sample.with_media
      (with_mascot Sample.empty_course [Sample.happy_pose Sample.png_upload])
      [Sample.twin_media] in
  (forall item, In item (media course) ->
     resolve_name (media_path item) <> str "curso.json")
  /\ exists archive w1 c w2,
       zipCourse Sample.browser course None Sample.fresh_world = (archive, w1)
       /\ unzipCourse Sample.browser archive w1 = (Ok c, w2)
       /\ asset_paths c = [str "media/a.png"; str "mascot/Mascote_happy.png"].
Proof.
  intros course.
  assert (H : forall item, In item (media course) ->
            resolve_name (media_path item) <> str "curso.json").
  { intros item [<-|[]]. vm_compute. discriminate. }
  split; [exact H|].
  destruct (C1_round_trip Sample.browser course Sample.fresh_world H)
    as (archive & w1 & c & w2 & media' & mascot' & Hzip & Hunzip & _ & _ & _ & _ & _ & _ & _
        & Hpaths).
  exists archive, w1, c, w2. split; [exact Hzip|]. split; [exact Hunzip|].
  rewrite Hpaths. by vm_compute.
Defined.

(** ** Assets whose content cannot be resolved *)

Section MissingAssets.

Variable browser : Browser.

(** C5 (amended): if the content of a media asset cannot be resolved (it has
    no file and fetching its blob URL fails), then, provided no media asset is
    stored under a name that loadAsync takes for curso.json and no other
    asset whose content is resolved is stored under the asset's path or under
    a name that [utils.resolve] turns into it, packing succeeds, the document
    in the archive lists the asset's record with its path, the archive file
    has no entry under that path and the loaded archive has none either, and
    unpacking the archive succeeds and returns, in the asset's place, the
    declared record without a blobUrl. *)
Theorem C5_unresolved_media_tolerated
    (course : Course) (ids : option (list jsstring)) (w : World)
    (i : nat) (item : MediaFile) :
  urls_wf w ->
  media course !! i = Some item ->
  resolve browser w (media_file item) (media_blobUrl item) = None ->
  (forall m, In m (media course) -> resolve_name (media_path m) <> str "curso.json") ->
  (forall m, In m (media course) ->
     media_path m = media_path item \/ resolve_name (media_path m) = media_path item ->
     resolve browser w (media_file m) (media_blobUrl m) = None) ->
  (forall p, In p (mascot course) ->
     export_mascot_path (export_mascotName course) p = media_path item
     \/ resolve_name (export_mascot_path (export_mascotName course) p) = media_path item ->
     resolve browser w (pose_file p) (pose_blobUrl p) = None) ->
  exists entries w1 doc records c w2,
    zipCourse browser course ids w = (ZipFile entries, w1)
    /\ entries !! str "curso.json" = Some (JsonText doc)
    /\ json_member (str "media") doc = Some (JArr records)
    /\ records !! i = Some (media_json item)
    /\ entries !! media_path item = None
    /\ load_entries browser entries !! media_path item = None
    /\ unzipCourse browser (ZipFile entries) w1 = (Ok c, w2)
    /\ record_at c (str "media") i = Some (of_json (media_json item))
    /\ get_prop (of_json (media_json item)) (str "path") = Ok (VStr (media_path item))
    /\ get_prop (of_json (media_json item)) (str "blobUrl") = Ok VUndefined.
Proof.
  intros Hwf Hi Hres Hdocname Hmedia Hmascot.
  destruct (round_trip_records browser course ids w Hdocname)
    as (entries & w1 & doc & c & w2 & media' & mascot' & order & Hzip & Hdoc & Hentry
        & Hunzip & Hc & Hlen1 & Hlen2 & Hatt1 & Hatt2 & _).
  assert (Hin : In item (media course)).
  { apply list_elem_of_In. by eapply list_elem_of_lookup_2. }
  assert (Hnot : forall name d, entries !! name = Some d ->
            name = media_path item \/ resolve_name name = media_path item -> False).
  { intros name d Hd Hname.
    destruct (zipCourse_entry_origin browser course ids w w1 entries name d Hwf Hzip Hd)
      as [[-> _]|[(m & Hm & <- & He)|(p & Hp & <- & He)]].
    - apply (Hdocname item Hin).
      destruct Hname as [<-|Hname]; [apply resolve_name_document|].
      rewrite resolve_name_document in Hname. rewrite <- Hname. apply resolve_name_document.
    - unfold media_entry in He. by rewrite (Hmedia m Hm Hname) in He.
    - unfold mascot_entry in He. cbn [with_path pose_file pose_blobUrl] in He.
      by rewrite (Hmascot p Hp Hname) in He. }
  assert (Hnone : entries !! media_path item = None).
  { destruct (entries !! media_path item) as [d|] eqn:E; [|done].
    destruct (Hnot _ d E). by left. }
  assert (Hloaded : load_entries browser entries !! media_path item = None).
  { apply loaded_None. intros name [d Hd] _ Hr. apply (Hnot name d Hd). by right. }
  pose proof (document_shape course ids) as Hshape. cbv zeta in Hshape.
  rewrite Hdoc in Hshape. injection Hshape as Hshape.
  exists entries, w1, doc, (map media_json (media course)), c, w2.
  split; [unfold zipCourse, bind, ret, generateAsync; by rewrite Hzip|].
  split; [done|]. split; [by rewrite Hshape|].
  split.
  { change (map media_json (media course)) with (media_json <$> media course).
    by rewrite list_lookup_fmap, Hi. }
  split; [done|]. split; [done|]. split; [done|].
  split; [|split; reflexivity].
  pose proof (Hatt1 i item Hi) as Hn.
  assert (Hfor : entry_for (load_entries browser entries) (of_json (media_json item))
                 = Ok None).
  { change (entry_for (load_entries browser entries) (of_json (media_json item)))
      with (@Ok (option Bytes) (load_entries browser entries !! media_path item)).
    by rewrite Hloaded. }
  unfold attached in Hn. rewrite Hfor in Hn.
  subst c. unfold record_at. exact Hn.
Qed.

End MissingAssets.

(** C5 (as stated) fails when another asset is stored under the same path:
    the first of two media assets under media/a.png cannot be resolved, the
    second has an upload; the archive then has an entry under that path, and
    unpacking attaches a blobUrl to the record of the first. *)
Lemma C5_counterexample_shared_path :
  let course :=
    Sample.with_media Sample.empty_course [Sample.lost_media; Sample.twin_media] in
  resolve Sample.browser Sample.fresh_world
    (media_file Sample.lost_media) (media_blobUrl Sample.lost_media) = None
  /\ fst (zipCourse_entries Sample.browser course None Sample.fresh_world)
       !! media_path Sample.lost_media
     = Some (blob_bytes Sample.png_upload)
  /\ exists c w2 r url,
       (let (archive, w1) := zipCourse Sample.browser course None Sample.fresh_world in
        unzipCourse Sample.browser archive w1) = (Ok c, w2)
       /\ record_at c (str "media") 0 = Some r
       /\ get_prop r (str "id") = Ok (VStr (media_id Sample.lost_media))
       /\ get_prop r (str "blobUrl") = Ok (VStr url)
       /\ object_urls w2 !! url
          = Some {| blob_type := []; blob_bytes := blob_bytes Sample.png_upload |}.
Proof.
  split; [by vm_compute|]. split; [by vm_compute|].
  eexists _, _, _, _. split; [vm_compute; reflexivity|].
  split; [by vm_compute|]. split; [by vm_compute|].
  split; [vm_compute; reflexivity|]. by vm_compute.
Qed.

Lemma C5_unresolved_media_tolerated_witness :
  let course :=
    Sample.with_media
      (with_mascot Sample.empty_course [Sample.happy_pose Sample.png_upload])
      [Sample.lost_media] in
  urls_wf Sample.fresh_world
  /\ resolve Sample.browser Sample.fresh_world
       (media_file Sample.lost_media) (media_blobUrl Sample.lost_media) = None
  /\ exists entries w1 c w2,
       zipCourse Sample.browser course None Sample.fresh_world = (ZipFile entries, w1)
       /\ entries !! media_path Sample.lost_media = None
       /\ load_entries Sample.browser entries !! media_path Sample.lost_media = None
       /\ unzipCourse Sample.browser (ZipFile entries) w1 = (Ok c, w2)
       /\ record_at c (str "media") 0 = Some (of_json (media_json Sample.lost_media)).
Proof.
  intros course.
  split; [exact urls_wf_fresh_world|]. split; [reflexivity|].
  assert (Hdocname : forall m, In m (media course) ->
            resolve_name (media_path m) <> str "curso.json").
  { intros m [<-|[]]. vm_compute. discriminate. }
  assert (Hmedia : forall m, In m (media course) ->
            media_path m = media_path Sample.lost_media
            \/ resolve_name (media_path m) = media_path Sample.lost_media ->
            resolve Sample.browser Sample.fresh_world (media_file m) (media_blobUrl m) = None).
  { intros m [<-|[]] _. reflexivity. }
  assert (Hmascot : forall p, In p (mascot course) ->
            export_mascot_path (export_mascotName course) p = media_path Sample.lost_media
            \/ resolve_name (export_mascot_path (export_mascotName course) p)
               = media_path Sample.lost_media ->
            resolve Sample.browser Sample.fresh_world (pose_file p) (pose_blobUrl p) = None).
  { intros p [<-|[]] [Hpath|Hpath]; vm_compute in Hpath; discriminate Hpath. }
  destruct (C5_unresolved_media_tolerated Sample.browser course None Sample.fresh_world
              0%nat Sample.lost_media urls_wf_fresh_world eq_refl eq_refl
              Hdocname Hmedia Hmascot)
    as (entries & w1 & doc & records & c & w2 & Hzip & _ & _ & _ & Hnone & Hloaded & Hunzip
        & Hrec & _).
  by exists entries, w1, c, w2.
Defined.

(** ** zipCourse on the heap writes to new objects only *)

Lemma heap_kept_refl (h : Heap) : heap_kept h h.
Proof. by intros l o. Qed.

Lemma heap_kept_length (h0 h : Heap) : heap_kept h0 h -> (length h0 <= length h)%nat.
Proof.
  intros H. destruct (decide (length h0 <= length h)%nat) as [|Hn]; [done|].
  assert (Hl : is_Some (h0 !! length h)) by (apply lookup_lt_is_Some; lia).
  destruct Hl as [o Ho]. apply H in Ho. apply lookup_lt_Some in Ho. lia.
Qed.

Lemma keeps_ret {A} (h0 : Heap) (a : A) (Q : A -> Prop) : Q a -> keeps h0 (hret a) Q.
Proof. intros HQ h Hh. split; [done|]. by intros a' [= <-]. Qed.

Lemma keeps_fail {A} (h0 : Heap) (Q : A -> Prop) : keeps h0 hfail Q.
Proof. intros h Hh. by split. Qed.

Lemma keeps_bind {A B} (h0 : Heap) (c : HM A) (k : A -> HM B)
    (Q : A -> Prop) (R : B -> Prop) :
  keeps h0 c Q -> (forall a, Q a -> keeps h0 (k a) R) -> keeps h0 (hbind c k) R.
Proof.
  intros Hc Hk h Hh. unfold hbind.
  destruct (Hc h Hh) as [Hkept HQ].
  destruct (c h) as [[a|] h1]; cbn [fst snd] in *; [|by split].
  by apply (Hk a (HQ a eq_refl)).
Qed.

Lemma keeps_weaken {A} (h0 : Heap) (c : HM A) (Q R : A -> Prop) :
  keeps h0 c Q -> (forall a, Q a -> R a) -> keeps h0 c R.
Proof.
  intros Hc HQR h Hh. destruct (Hc h Hh) as [Hkept HQ]. split; [done|].
  intros a Ha. by apply HQR, HQ.
Qed.

Lemma keeps_alloc (h0 : Heap) (o : HObj) :
  keeps h0 (h_alloc o) (fun v => exists l, v = HRef l /\ (length h0 <= l)%nat).
Proof.
  intros h Hh. unfold h_alloc. cbn [fst snd]. split.
  - intros l o' Hl. rewrite lookup_app_l; [by apply Hh|].
    apply Hh in Hl. by apply lookup_lt_Some in Hl.
  - intros a [= <-]. exists (length h). split; [done|]. by apply heap_kept_length.
Qed.

Lemma keeps_read {A} (h0 : Heap) (read : Heap -> option A) :
  keeps h0 (fun h => (read h, h)) (fun _ => True).
Proof. intros h Hh. by split. Qed.

Lemma keeps_get (h0 : Heap) (v : HVal) (key : jsstring) :
  keeps h0 (h_get v key) (fun _ => True).
Proof. apply keeps_read. Qed.

Lemma keeps_props (h0 : Heap) (v : HVal) : keeps h0 (h_props v) (fun _ => True).
Proof. apply keeps_read. Qed.

Lemma keeps_elems (h0 : Heap) (v : HVal) : keeps h0 (h_elems v) (fun _ => True).
Proof. apply keeps_read. Qed.

Lemma keeps_string (h0 : Heap) (v : HVal) : keeps h0 (h_string v) (fun _ => True).
Proof. destruct v; try apply keeps_fail. by apply keeps_ret. Qed.

Lemma keeps_set (h0 : Heap) (l : nat) (key : jsstring) (x : HVal) :
  (length h0 <= l)%nat -> keeps h0 (h_set (HRef l) key x) (fun _ => True).
Proof.
  intros Hl h Hh. unfold h_set.
  destruct (h !! l) as [[props|elems]|]; cbn [fst snd]; split; try done.
  intros l' o Ho. rewrite list_lookup_insert_ne; [by apply Hh|].
  apply lookup_lt_Some in Ho. lia.
Qed.

Lemma keeps_mapM {A B} (h0 : Heap) (f : A -> HM B) (l : list A) :
  (forall x, keeps h0 (f x) (fun _ => True)) ->
  keeps h0 (h_mapM f l) (fun _ => True).
Proof.
  intros Hf. induction l as [|x l IH]; cbn [h_mapM]; [by apply keeps_ret|].
  eapply keeps_bind; [apply Hf|]. intros y _.
  eapply keeps_bind; [apply IH|]. intros ys _. by apply keeps_ret.
Qed.

Lemma keeps_filterM {A} (h0 : Heap) (f : A -> HM bool) (l : list A) :
  (forall x, keeps h0 (f x) (fun _ => True)) ->
  keeps h0 (h_filterM f l) (fun _ => True).
Proof.
  intros Hf. induction l as [|x l IH]; cbn [h_filterM]; [by apply keeps_ret|].
  eapply keeps_bind; [apply Hf|]. intros y _.
  eapply keeps_bind; [apply IH|]. intros ys _. by apply keeps_ret.
Qed.

Lemma keeps_alloc_any (h0 : Heap) (o : HObj) : keeps h0 (h_alloc o) (fun _ => True).
Proof. eapply keeps_weaken; [apply keeps_alloc|done]. Qed.

Lemma keeps_strip (h0 : Heap) (items : list HVal) :
  keeps h0
    (h_mapM (fun item =>
               let+ props := h_props item in
               h_alloc (HRecord (h_rest transient_keys props))) items)
    (fun _ => True).
Proof.
  apply keeps_mapM. intros item.
  eapply keeps_bind; [apply keeps_props|]. intros props _. apply keeps_alloc_any.
Qed.

Lemma keeps_prepare (h0 : Heap) (course : HVal) (ids : option (list jsstring)) :
  keeps h0 (h_prepare course ids) (fun _ => True).
Proof.
  unfold h_prepare.
  eapply keeps_bind; [apply keeps_props|]. intros props _.
  eapply keeps_bind; [apply keeps_alloc|]. intros courseToSave (l & -> & Hl).
  eapply keeps_bind; [apply keeps_get|]. intros modules _.
  eapply keeps_bind.
  { instantiate (1 := fun _ => True). destruct ids as [ids|]; [|by apply keeps_ret].
    eapply keeps_bind; [apply keeps_elems|]. intros elems _.
    eapply keeps_bind; [|intros kept _; apply keeps_alloc_any].
    apply keeps_filterM. intros m.
    eapply keeps_bind; [apply keeps_get|]. intros id _.
    eapply keeps_bind; [apply keeps_string|]. intros id' _. by apply keeps_ret. }
  intros modules' _.
  eapply keeps_bind; [by apply keeps_set|]. intros _ _.
  eapply keeps_bind.
  { instantiate (1 := fun _ => True). unfold h_export_mascotName.
    eapply keeps_bind; [apply keeps_get|]. intros settings _.
    eapply keeps_bind; [apply keeps_get|]. intros name _.
    destruct name; try apply keeps_fail; by apply keeps_ret. }
  intros mascotName _.
  eapply keeps_bind; [apply keeps_get|]. intros mascot _.
  eapply keeps_bind; [apply keeps_elems|]. intros poses _.
  eapply keeps_bind.
  { instantiate (1 := fun _ => True). apply keeps_mapM. intros pose.
    eapply keeps_bind; [apply keeps_get|]. intros type _.
    eapply keeps_bind; [apply keeps_string|]. intros type' _.
    eapply keeps_bind; [apply keeps_props|]. intros props' _. apply keeps_alloc_any. }
  intros renamed _.
  eapply keeps_bind; [apply keeps_alloc_any|]. intros mascot' _.
  eapply keeps_bind; [by apply keeps_set|]. intros _ _.
  eapply keeps_bind; [apply keeps_get|]. intros media _.
  eapply keeps_bind; [apply keeps_elems|]. intros items _.
  eapply keeps_bind; [apply keeps_strip|]. intros cleanMedia _.
  eapply keeps_bind; [apply keeps_alloc_any|]. intros cleanMedia' _.
  eapply keeps_bind; [apply keeps_get|]. intros mascot2 _.
  eapply keeps_bind; [apply keeps_elems|]. intros poses2 _.
  eapply keeps_bind; [apply keeps_strip|]. intros cleanMascot _.
  eapply keeps_bind; [apply keeps_alloc_any|]. intros cleanMascot' _.
  eapply keeps_bind; [apply keeps_props|]. intros props2 _.
  eapply keeps_bind; [apply keeps_alloc_any|]. intros cleanCourse _.
  by apply keeps_ret.
Qed.

Lemma read_in_mono (lk lk' : nat -> option HObj) (fuel : nat) (v : HVal) (t : Value) :
  (forall l o, lk l = Some o -> lk' l = Some o) ->
  read_in lk fuel v = Some t -> read_in lk' fuel v = Some t.
Proof.
  intros Hkept. revert v t. induction fuel as [|fuel IH]; intros v t.
  - by destruct v.
  - destruct v as [| | | | | |l]; try done. cbn [read_in].
    destruct (lk l) as [o|] eqn:Hl; [|done].
    rewrite (Hkept l o Hl). destruct o as [props|elems].
    + destruct (mapM _ props) as [ps|] eqn:Hps; [|done].
      intros [= <-]. apply mapM_Some in Hps.
      replace (mapM (fun kv => pair (fst kv) <$> read_in lk' fuel (snd kv)) props)
        with (Some ps); [done|].
      symmetry. apply mapM_Some.
      eapply Forall2_impl; [exact Hps|]. intros [k x] [k' y] Hxy. cbn [fst snd] in *.
      destruct (read_in lk fuel x) as [y'|] eqn:Hx; [|done].
      by rewrite (IH x y' Hx).
    + destruct (mapM _ elems) as [xs|] eqn:Hxs; [|done].
      intros [= <-]. apply mapM_Some in Hxs.
      replace (mapM (read_in lk' fuel) elems) with (Some xs); [done|].
      symmetry. apply mapM_Some.
      eapply Forall2_impl; [exact Hxs|]. intros x y Hxy. by apply IH.
Qed.

Lemma read_value_kept (h h' : Heap) (fuel : nat) (v : HVal) (t : Value) :
  heap_kept h h' -> read_value fuel h v = Some t -> read_value fuel h' v = Some t.
Proof. intros Hkept. apply read_in_mono. exact Hkept. Qed.

(** C9: zipCourse writes to objects it has allocated itself only.  When it
    is done (or stopped), every object that existed before the call - the
    course object, its settings, its modules, media and mascot arrays, the
    module, media and mascot records - holds the same properties as before,
    so the input course reads as the same course, with the same paths and
    content handles; filtering, renaming and stripping happen on the copies. *)
Theorem C9_zipCourse_leaves_input_unchanged
    (browser : Browser) (fuel : nat) (course : HVal) (ids : option (list jsstring))
    (h h' : Heap) (w w' : World) (out : option ArchiveFile) :
  zipCourse_heap browser fuel course ids h w = (out, h', w') ->
  heap_kept h h'
  /\ (forall f v t, read_value f h v = Some t -> read_value f h' v = Some t)
  /\ (forall f c, read_value f h course = Some (VObj (Course_props c)) ->
                  read_value f h' course = Some (VObj (Course_props c))).
Proof.
  intros Hrun.
  assert (Hkept : heap_kept h h').
  { destruct (keeps_prepare h course ids h (heap_kept_refl h)) as [Hk _].
    unfold zipCourse_heap in Hrun.
    destruct (h_prepare course ids h) as [[[courseToSave cleanCourse]|] h1];
      cbn [snd] in Hk; [|by injection Hrun as _ <- _].
    destruct (read_value fuel h1 cleanCourse) as [clean|];
      [|by injection Hrun as _ <- _].
    destruct (read_value fuel h1 courseToSave) as [[| | | | | | |saved]|];
      try (by injection Hrun as _ <- _).
    destruct (as_list as_MediaFile _) as [media|];
      [|by injection Hrun as _ <- _].
    destruct (as_list as_MascotPose _) as [mascot|];
      [|by injection Hrun as _ <- _].
    destruct (for_of (add_media_file browser) media _ w) as [zip1 w1].
    destruct (for_of (add_mascot_file browser) mascot zip1 w1) as [zip2 w2].
    by injection Hrun as _ <- _. }
  split; [done|]. split.
  - intros f v t. by apply read_value_kept.
  - intros f c. by apply read_value_kept.
Qed.

Lemma C9_zipCourse_leaves_input_unchanged_witness :
  exists out h' w',
    zipCourse_heap Sample.browser 8 (fst Sample.full_course_heap) (Some [str "m2"])
      (snd Sample.full_course_heap) Sample.fresh_world = (out, h', w')
    /\ out = Some (fst (zipCourse Sample.browser Sample.full_course (Some [str "m2"])
                         Sample.fresh_world))
    /\ read_value 8 (snd Sample.full_course_heap) (fst Sample.full_course_heap)
       = Some (VObj (Course_props Sample.full_course))
    /\ read_value 8 h' (fst Sample.full_course_heap)
       = Some (VObj (Course_props Sample.full_course)).
Proof.
  eexists _, _, _. split; [vm_compute; reflexivity|].
  split; [by vm_compute|]. split; [by vm_compute|].
  refine (proj2 (proj2 (C9_zipCourse_leaves_input_unchanged Sample.browser 8
            (fst Sample.full_course_heap) (Some [str "m2"])
            (snd Sample.full_course_heap) _ Sample.fresh_world _ _ _))
          8%nat Sample.full_course _).
  - vm_compute. reflexivity.
  - by vm_compute.
Defined.

(** ** zipCourse on the heap computes what zipCourse on values does *)

Lemma mapM_fields (lk : nat -> option HObj) (fuel : nat)
    (props : list (jsstring * HVal)) (vps : Props) :
  mapM (fun kv => pair (fst kv) <$> read_in lk fuel (snd kv)) props = Some vps
  <-> fields_read lk fuel props vps.
Proof.
  rewrite mapM_Some. unfold fields_read. split; intros H.
  - eapply Forall2_impl; [exact H|]. intros [k x] [k' t] Hx. cbn [fst snd] in *.
    destruct (read_in lk fuel x); [|done]. by injection Hx as -> ->.
  - eapply Forall2_impl; [exact H|]. intros [k x] [k' t] [Hk Hx]. cbn [fst snd] in *.
    by rewrite Hx, Hk.
Qed.

Lemma read_record_inv (lk : nat -> option HObj) (fuel : nat) (v : HVal) (vps : Props) :
  read_in lk fuel v = Some (VObj vps) ->
  exists l fuel' props,
    v = HRef l /\ fuel = S fuel' /\ lk l = Some (HRecord props)
    /\ fields_read lk fuel' props vps.
Proof.
  destruct fuel as [|fuel']; destruct v as [| | | | | |l]; try done.
  cbn [read_in]. destruct (lk l) as [[props|elems]|] eqn:Hl; try done.
  - destruct (mapM _ props) as [ps|] eqn:Hps; [|done]. intros [= <-].
    exists l, fuel', props. repeat split; try done. by apply mapM_fields.
  - by destruct (mapM _ elems).
Qed.

Lemma read_record_intro (lk : nat -> option HObj) (fuel : nat) (l : nat)
    (props : list (jsstring * HVal)) (vps : Props) :
  lk l = Some (HRecord props) -> fields_read lk fuel props vps ->
  read_in lk (S fuel) (HRef l) = Some (VObj vps).
Proof.
  intros Hl Hf. cbn [read_in]. rewrite Hl.
  apply mapM_fields in Hf. by rewrite Hf.
Qed.

Lemma read_array_inv (lk : nat -> option HObj) (fuel : nat) (v : HVal)
    (ts : list Value) (own : Props) :
  read_in lk fuel v = Some (VArr ts own) ->
  exists l fuel' elems,
    v = HRef l /\ fuel = S fuel' /\ own = [] /\ lk l = Some (HArray elems)
    /\ elems_read lk fuel' elems ts.
Proof.
  destruct fuel as [|fuel']; destruct v as [| | | | | |l]; try done.
  cbn [read_in]. destruct (lk l) as [[props|elems]|] eqn:Hl; try done.
  - by destruct (mapM _ props).
  - destruct (mapM _ elems) as [xs|] eqn:Hxs; [|done]. intros [= <- <-].
    exists l, fuel', elems. repeat split; try done. by apply mapM_Some.
Qed.

Lemma read_array_intro (lk : nat -> option HObj) (fuel : nat) (l : nat)
    (elems : list HVal) (ts : list Value) :
  lk l = Some (HArray elems) -> elems_read lk fuel elems ts ->
  read_in lk (S fuel) (HRef l) = Some (VArr ts []).
Proof.
  intros Hl Hf. cbn [read_in]. rewrite Hl.
  apply mapM_Some in Hf. by rewrite Hf.
Qed.

Lemma read_str_inv (lk : nat -> option HObj) (fuel : nat) (v : HVal) (s : jsstring) :
  read_in lk fuel v = Some (VStr s) -> v = HStr s.
Proof.
  destruct fuel; destruct v as [| | | | | |l]; try done; try (by intros [= ->]).
  cbn [read_in]. destruct (lk l) as [[props|elems]|]; try done.
  - by destruct (mapM _ props).
  - by destruct (mapM _ elems).
Qed.

Lemma fields_lookup (lk : nat -> option HObj) (fuel : nat)
    (props : list (jsstring * HVal)) (vps : Props) (key : jsstring) :
  fields_read lk fuel props vps ->
  read_in lk fuel (default HUndefined (h_lookup key props))
  = Some (default VUndefined (lookup_prop key vps)).
Proof.
  induction 1 as [|[k x] [k' t] props vps [Hk Hx] _ IH]; [by destruct fuel|].
  cbn [fst snd] in *. subst k'. cbn [h_lookup lookup_prop].
  by destruct (jsstring_eqb k key).
Qed.

Lemma fields_assign (lk : nat -> option HObj) (fuel : nat)
    (props : list (jsstring * HVal)) (vps : Props) (key : jsstring) (v : HVal) (t : Value) :
  fields_read lk fuel props vps -> read_in lk fuel v = Some t ->
  fields_read lk fuel (h_assign key v props) (assign_prop key t vps).
Proof.
  intros Hf Hv. induction Hf as [|[k x] [k' t'] props vps [Hk Hx] Hf IH].
  - by constructor.
  - cbn [fst snd] in *. subst k'. cbn [h_assign assign_prop].
    destruct (jsstring_eqb k key); by constructor.
Qed.

Lemma fields_rest (lk : nat -> option HObj) (fuel : nat)
    (props : list (jsstring * HVal)) (vps : Props) (excluded : list jsstring) :
  fields_read lk fuel props vps ->
  fields_read lk fuel (h_rest excluded props) (rest_props excluded vps).
Proof.
  induction 1 as [|[k x] [k' t] props vps [Hk Hx] _ IH]; [constructor|].
  cbn [fst snd] in *. subst k'. unfold h_rest, rest_props in *. cbn [List.filter fst].
  destruct (negb (existsb (jsstring_eqb k) excluded)); [by constructor|done].
Qed.

Lemma fields_mono (lk lk' : nat -> option HObj) (fuel : nat)
    (props : list (jsstring * HVal)) (vps : Props) :
  (forall l o, lk l = Some o -> lk' l = Some o) ->
  fields_read lk fuel props vps -> fields_read lk' fuel props vps.
Proof.
  intros Hlk H. eapply Forall2_impl; [exact H|].
  intros kv kt [Hk Hx]. split; [done|]. by eapply read_in_mono.
Qed.

Lemma elems_mono (lk lk' : nat -> option HObj) (fuel : nat)
    (elems : list HVal) (ts : list Value) :
  (forall l o, lk l = Some o -> lk' l = Some o) ->
  elems_read lk fuel elems ts -> elems_read lk' fuel elems ts.
Proof.
  intros Hlk H. eapply Forall2_impl; [exact H|]. intros x t. by apply read_in_mono.
Qed.

Lemma except_Some (L : nat) (h : Heap) (l : nat) (o : HObj) :
  except L h l = Some o <-> l <> L /\ h !! l = Some o.
Proof.
  unfold except. destruct (decide (l = L)) as [->|Hne].
  - split; [done|]. by intros [? _].
  - split; [by intros ?|]. by intros [_ ?].
Qed.

Lemma except_app (L : nat) (h new : Heap) (l : nat) (o : HObj) :
  except L h l = Some o -> except L (h ++ new) l = Some o.
Proof.
  rewrite !except_Some. intros [Hl Ho]. split; [done|].
  rewrite lookup_app_l; [done|]. by apply lookup_lt_Some in Ho.
Qed.

Lemma except_insert (L : nat) (h : Heap) (o' : HObj) (l : nat) (o : HObj) :
  except L h l = Some o -> except L (<[L := o']> h) l = Some o.
Proof.
  rewrite !except_Some. intros [Hl Ho]. split; [done|].
  by rewrite list_lookup_insert_ne.
Qed.

Lemma except_whole (L : nat) (h : Heap) (l : nat) (o : HObj) :
  except L h l = Some o -> h !! l = Some o.
Proof. rewrite except_Some. tauto. Qed.

Lemma except_new (h new : Heap) (l : nat) (o : HObj) :
  h !! l = Some o -> except (length h) (h ++ new) l = Some o.
Proof.
  intros Ho. apply except_Some. pose proof (lookup_lt_Some _ _ _ Ho).
  split; [lia|]. by rewrite lookup_app_l.
Qed.

Lemma except_last (L : nat) (h : Heap) (o : HObj) :
  (L < length h)%nat -> except L (h ++ [o]) (length h) = Some o.
Proof.
  intros HL. apply except_Some. split; [lia|].
  rewrite lookup_app_r by lia. by rewrite Nat.sub_diag.
Qed.

Lemma h_get_record (h : Heap) (l : nat) (props : list (jsstring * HVal)) (key : jsstring) :
  h !! l = Some (HRecord props) ->
  h_get (HRef l) key h = (Some (default HUndefined (h_lookup key props)), h).
Proof. intros H. unfold h_get. by rewrite H. Qed.

Lemma h_props_record (h : Heap) (l : nat) (props : list (jsstring * HVal)) :
  h !! l = Some (HRecord props) -> h_props (HRef l) h = (Some props, h).
Proof. intros H. unfold h_props. by rewrite H. Qed.

Lemma h_elems_array (h : Heap) (l : nat) (elems : list HVal) :
  h !! l = Some (HArray elems) -> h_elems (HRef l) h = (Some elems, h).
Proof. intros H. unfold h_elems. by rewrite H. Qed.

Lemma h_set_record (h : Heap) (l : nat) (props : list (jsstring * HVal))
    (key : jsstring) (x : HVal) :
  h !! l = Some (HRecord props) ->
  h_set (HRef l) key x h = (Some tt, <[l := HRecord (h_assign key x props)]> h).
Proof. intros H. unfold h_set. by rewrite H. Qed.

(* Reading a record's property and its elements, given what the record reads as. *)
Lemma run_get (L : nat) (h : Heap) (fuel : nat) (v : HVal) (vps : Props) (key : jsstring) :
  read_in (except L h) fuel v = Some (VObj vps) ->
  exists x fuel',
    fuel = S fuel'
    /\ h_get v key h = (Some x, h)
    /\ read_in (except L h) fuel' x = Some (default VUndefined (lookup_prop key vps)).
Proof.
  intros H. apply read_record_inv in H as (l & fuel' & props & -> & -> & Hl & Hf).
  eexists _, fuel'. split; [done|]. split.
  - apply h_get_record. by apply except_whole in Hl.
  - by apply fields_lookup.
Qed.

Lemma run_props (L : nat) (h : Heap) (fuel : nat) (v : HVal) (vps : Props) :
  read_in (except L h) fuel v = Some (VObj vps) ->
  exists props fuel',
    fuel = S fuel'
    /\ h_props v h = (Some props, h)
    /\ fields_read (except L h) fuel' props vps.
Proof.
  intros H. apply read_record_inv in H as (l & fuel' & props & -> & -> & Hl & Hf).
  exists props, fuel'. split; [done|]. split; [|done].
  apply h_props_record. by apply except_whole in Hl.
Qed.

Lemma run_elems (L : nat) (h : Heap) (fuel : nat) (v : HVal) (ts : list Value) :
  read_in (except L h) fuel v = Some (VArr ts []) ->
  exists elems fuel',
    fuel = S fuel'
    /\ h_elems v h = (Some elems, h)
    /\ elems_read (except L h) fuel' elems ts.
Proof.
  intros H. apply read_array_inv in H as (l & fuel' & elems & -> & -> & _ & Hl & Hf).
  exists elems, fuel'. split; [done|]. split; [|done].
  apply h_elems_array. by apply except_whole in Hl.
Qed.

Lemma run_filter (L : nat) (ids : list jsstring) (h : Heap) (fuel : nat)
    (elems : list HVal) (ms : list Module) :
  elems_read (except L h) fuel elems (map Module_object ms) ->
  exists kept,
    h_filterM (fun m =>
                 let+ id := h_get m (str "id") in
                 let+ id := h_string id in
                 hret (includes ids id)) elems h = (Some kept, h)
    /\ elems_read (except L h) fuel kept
         (map Module_object (List.filter (fun m => includes ids (module_id m)) ms)).
Proof.
  revert elems. induction ms as [|m ms IH]; intros elems H.
  - apply Forall2_nil_inv_r in H as ->. exists []. split; [done|constructor].
  - apply Forall2_cons_inv_r in H as (e & elems' & He & Hrest & ->).
    destruct (IH elems' Hrest) as (kept & Hrun & Hkept).
    destruct (run_get L h fuel e _ (str "id") He) as (x & fuel' & -> & Hget & Hx).
    change (default VUndefined (lookup_prop (str "id") _))
      with (VStr (module_id m)) in Hx.
    apply read_str_inv in Hx as ->.
    exists (if includes ids (module_id m) then e :: kept else kept). split.
    + cbn [h_filterM]. unfold hbind in Hrun |- *. rewrite Hget. cbn [h_string hret].
      by rewrite Hrun.
    + cbn [List.filter]. destruct (includes ids (module_id m)); [|done].
      by constructor.
Qed.

Lemma except_app_mono (L : nat) (h new : Heap) :
  forall l o, except L h l = Some o -> except L (h ++ new) l = Some o.
Proof. intros l o. apply except_app. Qed.

Lemma except_middle (L : nat) (h new : Heap) (o : HObj) :
  (L < length h)%nat -> except L ((h ++ [o]) ++ new) (length h) = Some o.
Proof.
  intros HL. apply except_app. by apply except_last.
Qed.

Lemma run_strip (L : nat) (h : Heap) (fuel : nat) (items : list HVal) (vs : list Props) :
  (L < length h)%nat ->
  elems_read (except L h) fuel items (map VObj vs) ->
  exists refs new,
    h_mapM (fun item =>
              let+ props := h_props item in
              h_alloc (HRecord (h_rest transient_keys props))) items h
    = (Some refs, h ++ new)
    /\ elems_read (except L (h ++ new)) fuel refs (map strip_transient vs).
Proof.
  revert items h. induction vs as [|v vs IH]; intros items h HL H.
  - apply Forall2_nil_inv_r in H as ->. exists [], []. rewrite app_nil_r.
    split; [done|constructor].
  - apply Forall2_cons_inv_r in H as (e & items' & He & Hrest & ->).
    destruct (run_props L h fuel e v He) as (props & fuel' & -> & Hprops & Hf).
    set (o := HRecord (h_rest transient_keys props)).
    destruct (IH items' (h ++ [o])) as (refs & new & Hrun & Hrefs).
    { rewrite length_app. simpl. lia. }
    { eapply elems_mono; [apply except_app_mono|exact Hrest]. }
    exists (HRef (length h) :: refs), ([o] ++ new). split.
    + cbn [h_mapM]. unfold hbind in Hrun |- *. rewrite Hprops.
      unfold h_alloc at 1. fold o. rewrite Hrun. cbn [hret].
      by rewrite <- app_assoc.
    + rewrite app_assoc. constructor; [|done]. unfold strip_transient.
      eapply read_record_intro; [exact (except_middle L h new _ HL)|].
      eapply fields_mono; [|apply fields_rest, Hf].
      intros l o' Hl. by do 2 apply except_app.
Qed.

Lemma MascotPose_props_with_path (p : MascotPose) (path : jsstring) :
  assign_prop (str "path") (VStr path) (MascotPose_props p)
  = MascotPose_props (with_path p path).
Proof. destruct p as [t pa b [f|]]; reflexivity. Qed.

Lemma run_rename (L : nat) (name : jsstring) (h : Heap) (fuel : nat)
    (poses : list HVal) (ps : list MascotPose) :
  (L < length h)%nat ->
  elems_read (except L h) fuel poses (map (fun p => VObj (MascotPose_props p)) ps) ->
  exists refs new,
    h_mapM (fun pose =>
              let+ type := h_get pose (str "type") in
              let+ type := h_string type in
              let newPath := str "mascot/" ++ name ++ str "_" ++ type ++ str ".png" in
              let+ props := h_props pose in
              h_alloc (HRecord (h_assign (str "path") (HStr newPath) props))) poses h
    = (Some refs, h ++ new)
    /\ elems_read (except L (h ++ new)) fuel refs
         (map (fun p => VObj (MascotPose_props (with_path p (export_mascot_path name p)))) ps).
Proof.
  revert poses h. induction ps as [|p ps IH]; intros poses h HL H.
  - apply Forall2_nil_inv_r in H as ->. exists [], []. rewrite app_nil_r.
    split; [done|constructor].
  - apply Forall2_cons_inv_r in H as (e & poses' & He & Hrest & ->).
    destruct (run_get L h fuel e _ (str "type") He) as (x & fuel' & -> & Hget & Hx).
    change (default VUndefined (lookup_prop (str "type") _))
      with (VStr (pose_type p)) in Hx.
    apply read_str_inv in Hx as ->.
    destruct (run_props L h (S fuel') e _ He) as (props & fuel'' & [= <-] & Hprops & Hf).
    set (o := HRecord (h_assign (str "path") (HStr (export_mascot_path name p)) props)).
    destruct (IH poses' (h ++ [o])) as (refs & new & Hrun & Hrefs).
    { rewrite length_app. simpl. lia. }
    { eapply elems_mono; [apply except_app_mono|exact Hrest]. }
    exists (HRef (length h) :: refs), ([o] ++ new). split.
    + cbn [h_mapM]. unfold hbind in Hrun |- *. rewrite Hget. cbn [h_string hret].
      rewrite Hprops. unfold h_alloc at 1.
      change (HRecord (h_assign (str "path") _ props)) with o.
      rewrite Hrun. by rewrite <- app_assoc.
    + rewrite app_assoc. constructor; [|done].
      eapply read_record_intro; [exact (except_middle L h new _ HL)|].
      rewrite <- MascotPose_props_with_path.
      eapply fields_mono; [|apply fields_assign; [exact Hf|by destruct fuel']].
      intros l o' Hl. by do 2 apply except_app.
Qed.

Lemma read_undefined_inv (lk : nat -> option HObj) (fuel : nat) (v : HVal) :
  read_in lk fuel v = Some VUndefined -> v = HUndefined.
Proof.
  destruct fuel; destruct v as [| | | | | |l]; try done.
  cbn [read_in]. destruct (lk l) as [[props|elems]|]; try done.
  - by destruct (mapM _ props).
  - by destruct (mapM _ elems).
Qed.

Lemma run_mascotName (L : nat) (h : Heap) (fuel : nat) (course : HVal) (c : Course) :
  read_in (except L h) fuel course = Some (VObj (Course_props c)) ->
  h_export_mascotName course h = (Some (export_mascotName c), h).
Proof.
  intros H. unfold h_export_mascotName.
  destruct (run_get L h fuel course _ (str "settings") H) as (x & f1 & -> & Hget & Hx).
  change (default VUndefined (lookup_prop (str "settings") _))
    with (CourseSettings_object (settings c)) in Hx.
  destruct (run_get L h f1 x _ (str "mascotName") Hx) as (y & f2 & -> & Hget' & Hy).
  hstep Hget. hstep Hget'.
  unfold export_mascotName. destruct (mascotName (settings c)) as [name|].
  - change (default VUndefined _) with (VStr name) in Hy.
    by apply read_str_inv in Hy as ->.
  - change (default VUndefined _) with VUndefined in Hy.
    by apply read_undefined_inv in Hy as ->.
Qed.

Lemma run_modules (L : nat) (h : Heap) (fuel : nat) (vm : HVal) (ms : list Module)
    (ids : option (list jsstring)) :
  (L < length h)%nat ->
  read_in (except L h) fuel vm = Some (VArr (map Module_object ms) []) ->
  exists modules' new,
    match ids with
    | Some ids =>
        let+ elems := h_elems vm in
        let+ kept :=
          h_filterM (fun m =>
                       let+ id := h_get m (str "id") in
                       let+ id := h_string id in
                       hret (includes ids id)) elems in
        h_alloc (HArray kept)
    | None => hret vm
    end h = (Some modules', h ++ new)
    /\ read_in (except L (h ++ new)) fuel modules'
       = Some (VArr (map Module_object
                       match ids with
                       | Some ids => List.filter (fun m => includes ids (module_id m)) ms
                       | None => ms
                       end) []).
Proof.
  intros HL H. destruct ids as [ids|].
  - destruct (run_elems L h fuel vm _ H) as (elems & f1 & -> & Helems & He).
    destruct (run_filter L ids h f1 elems ms He) as (kept & Hrun & Hkept).
    exists (HRef (length h)), [HArray kept]. split.
    + hstep Helems. hstep Hrun. reflexivity.
    + eapply read_array_intro; [by apply except_last|].
      eapply elems_mono; [apply except_app_mono|exact Hkept].
  - exists vm, []. rewrite app_nil_r. by split.
Qed.

Lemma grows_refl (L : nat) (h : Heap) : grows L h h.
Proof. by intros l o. Qed.

Lemma grows_trans (L : nat) (h1 h2 h3 : Heap) :
  grows L h1 h2 -> grows L h2 h3 -> grows L h1 h3.
Proof. intros H12 H23 l o Hl. by apply H23, H12. Qed.

Lemma grows_app (L : nat) (h new : Heap) : grows L h (h ++ new).
Proof. intros l o. apply except_app. Qed.

Lemma grows_insert (L : nat) (h : Heap) (o : HObj) : grows L h (<[L := o]> h).
Proof. intros l o'. apply except_insert. Qed.

Lemma read_grows (L : nat) (h h' : Heap) (fuel : nat) (v : HVal) (t : Value) :
  grows L h h' -> read_in (except L h) fuel v = Some t ->
  read_in (except L h') fuel v = Some t.
Proof. intros Hg. by apply read_in_mono. Qed.

Lemma read_whole (L : nat) (h : Heap) (fuel : nat) (v : HVal) (t : Value) :
  read_in (except L h) fuel v = Some t -> read_value fuel h v = Some t.
Proof. apply read_in_mono. intros l o. apply except_whole. Qed.

Lemma lookup_app_insert (h new : Heap) (L : nat) (o : HObj) :
  (L < length h)%nat -> (<[L := o]> h ++ new) !! L = Some o.
Proof.
  intros HL. rewrite lookup_app_l by (by rewrite length_insert).
  by apply list_lookup_insert_eq.
Qed.

Lemma h_prepare_spec (c : Course) (ids : option (list jsstring)) (h : Heap)
    (fuel : nat) (course : HVal) :
  read_value fuel h course = Some (VObj (Course_props c)) ->
  exists courseToSave' cleanCourse' h',
    h_prepare course ids h = (Some (courseToSave', cleanCourse'), h')
    /\ read_value fuel h' cleanCourse' = Some (cleanCourse (courseToSave c ids))
    /\ read_value fuel h' courseToSave' = Some (VObj (Course_props (courseToSave c ids))).
Proof.
  intros Hread. unfold read_value in Hread.
  set (L := length h). set (cs := courseToSave c ids).
  (* the course object and its five properties *)
  pose proof Hread as Hcourse.
  apply read_record_inv in Hcourse as (l0 & f1 & props0 & -> & -> & Hl0 & Hf0).
  unfold fields_read, Course_props in Hf0.
  apply Forall2_cons_inv_r in Hf0 as ([k1 vid] & r1 & [Hk1 Hid] & Hf0 & ->).
  apply Forall2_cons_inv_r in Hf0 as ([k2 vs] & r2 & [Hk2 Hvs] & Hf0 & ->).
  apply Forall2_cons_inv_r in Hf0 as ([k3 vm] & r3 & [Hk3 Hvm] & Hf0 & ->).
  apply Forall2_cons_inv_r in Hf0 as ([k4 vme] & r4 & [Hk4 Hvme] & Hf0 & ->).
  apply Forall2_cons_inv_r in Hf0 as ([k5 vma] & r5 & [Hk5 Hvma] & Hf0 & ->).
  apply Forall2_nil_inv_r in Hf0 as ->.
  cbn [fst snd] in *. subst k1 k2 k3 k4 k5.
  apply read_str_inv in Hid as ->.
  set (props0 := [(str "id", HStr (course_id c)); (str "settings", vs);
                  (str "modules", vm); (str "media", vme); (str "mascot", vma)]) in *.
  (* courseToSave = { ...course } *)
  remember (h ++ [HRecord props0]) as h1 eqn:Eh1.
  assert (Hold1 : forall l o, h !! l = Some o -> except L h1 l = Some o).
  { intros l o Hl. subst h1. by apply except_new. }
  assert (HL1 : h1 !! L = Some (HRecord props0)).
  { subst h1. rewrite lookup_app_r by done. by rewrite Nat.sub_diag. }
  assert (Hlen1 : (L < length h1)%nat).
  { subst h1. rewrite length_app. simpl. unfold L. lia. }
  pose proof (read_in_mono _ _ _ _ _ Hold1 Hvs) as Hvs1.
  pose proof (read_in_mono _ _ _ _ _ Hold1 Hvm) as Hvm1.
  pose proof (read_in_mono _ _ _ _ _ Hold1 Hvme) as Hvme1.
  pose proof (read_in_mono _ _ _ _ _ Hold1 Hvma) as Hvma1.
  pose proof (read_in_mono _ _ _ _ _ Hold1 Hread) as Hcourse1.
  (* courseToSave.modules = ... *)
  destruct (run_modules L h1 f1 vm (modules c) ids Hlen1 Hvm1)
    as (modules' & new2 & Hrun2 & Hmod2).
  remember (h1 ++ new2) as h2 eqn:Eh2.
  assert (Hg12 : grows L h1 h2) by (subst h2; apply grows_app).
  assert (HL2 : h2 !! L = Some (HRecord props0)).
  { subst h2. by rewrite lookup_app_l. }
  assert (Hlen2 : (L < length h2)%nat) by (by apply lookup_lt_Some in HL2).
  set (props1 := [(str "id", HStr (course_id c)); (str "settings", vs);
                  (str "modules", modules'); (str "media", vme); (str "mascot", vma)]).
  remember (<[L := HRecord props1]> h2) as h3 eqn:Eh3.
  assert (Hg23 : grows L h2 h3) by (subst h3; apply grows_insert).
  assert (HL3 : h3 !! L = Some (HRecord props1)).
  { subst h3. by apply list_lookup_insert_eq. }
  assert (Hlen3 : (L < length h3)%nat) by (by apply lookup_lt_Some in HL3).
  pose proof (grows_trans L _ _ _ Hg12 Hg23) as Hg13.
  (* mascotName and the renamed poses *)
  pose proof (run_mascotName L h3 _ _ c (read_grows _ _ _ _ _ _ Hg13 Hcourse1)) as Hname.
  destruct (run_elems L h3 f1 vma _ (read_grows _ _ _ _ _ _ Hg13 Hvma1))
    as (poses & f2 & -> & Hposes & Hposes_read).
  destruct (run_rename L (export_mascotName c) h3 f2 poses (mascot c) Hlen3 Hposes_read)
    as (refs4 & new4 & Hrun4 & Hrefs4).
  remember (h3 ++ new4) as h4 eqn:Eh4.
  assert (Hg34 : grows L h3 h4) by (subst h4; apply grows_app).
  assert (HL4 : h4 !! L = Some (HRecord props1)).
  { subst h4. by rewrite lookup_app_l. }
  assert (Hlen4 : (L < length h4)%nat) by (by apply lookup_lt_Some in HL4).
  remember (h4 ++ [HArray refs4]) as h5 eqn:Eh5.
  assert (Hg45 : grows L h4 h5) by (subst h5; apply grows_app).
  assert (HL5 : h5 !! L = Some (HRecord props1)).
  { subst h5. by rewrite lookup_app_l. }
  assert (Hmas5 : read_in (except L h5) (S f2) (HRef (length h4))
                  = Some (VArr (map (fun p => VObj (MascotPose_props p)) (mascot cs)) [])).
  { subst h5. eapply read_array_intro; [by apply except_last|].
    eapply elems_mono; [apply except_app_mono|].
    subst cs. rewrite courseToSave_mascot, map_map. exact Hrefs4. }
  set (props2 := [(str "id", HStr (course_id c)); (str "settings", vs);
                  (str "modules", modules'); (str "media", vme);
                  (str "mascot", HRef (length h4))]).
  remember (<[L := HRecord props2]> h5) as h6 eqn:Eh6.
  assert (Hg56 : grows L h5 h6) by (subst h6; apply grows_insert).
  assert (Hlen5 : (L < length h5)%nat) by (by apply lookup_lt_Some in HL5).
  assert (HL6 : h6 !! L = Some (HRecord props2)).
  { subst h6. by apply list_lookup_insert_eq. }
  assert (Hlen6 : (L < length h6)%nat) by (by apply lookup_lt_Some in HL6).
  pose proof (grows_trans L _ _ _ Hg45 Hg56) as Hg46.
  pose proof (grows_trans L _ _ _ Hg34 Hg46) as Hg36.
  pose proof (grows_trans L _ _ _ Hg13 Hg36) as Hg16.
  (* cleanMedia *)
  destruct (run_elems L h6 (S f2) vme _ (read_grows _ _ _ _ _ _ Hg16 Hvme1))
    as (items & f2' & [= <-] & Hitems & Hitems_read).
  rewrite <- (map_map MediaFile_props VObj) in Hitems_read.
  destruct (run_strip L h6 f2 items _ Hlen6 Hitems_read)
    as (refs7 & new7 & Hrun7 & Hrefs7).
  remember (h6 ++ new7) as h7 eqn:Eh7.
  assert (Hg67 : grows L h6 h7) by (subst h7; apply grows_app).
  assert (HL7 : h7 !! L = Some (HRecord props2)).
  { subst h7. by rewrite lookup_app_l. }
  assert (Hlen7 : (L < length h7)%nat) by (by apply lookup_lt_Some in HL7).
  remember (h7 ++ [HArray refs7]) as h8 eqn:Eh8.
  assert (Hg78 : grows L h7 h8) by (subst h8; apply grows_app).
  assert (HL8 : h8 !! L = Some (HRecord props2)).
  { subst h8. by rewrite lookup_app_l. }
  assert (Hlen8 : (L < length h8)%nat) by (by apply lookup_lt_Some in HL8).
  assert (Hcm8 : read_in (except L h8) (S f2) (HRef (length h7))
                 = Some (VArr (map (fun item => strip_transient (MediaFile_props item))
                                 (media cs)) [])).
  { subst h8. eapply read_array_intro; [by apply except_last|].
    eapply elems_mono; [apply except_app_mono|].
    rewrite map_map in Hrefs7. exact Hrefs7. }
  (* cleanMascot *)
  pose proof (grows_trans L _ _ _ Hg67 Hg78) as Hg68.
  pose proof (grows_trans L _ _ _ Hg56 Hg68) as Hg58.
  destruct (run_elems L h8 (S f2) (HRef (length h4)) _ (read_grows _ _ _ _ _ _ Hg58 Hmas5))
    as (poses' & f2' & [= <-] & Hposes' & Hposes'_read).
  rewrite <- (map_map MascotPose_props VObj) in Hposes'_read.
  destruct (run_strip L h8 f2 poses' _ Hlen8 Hposes'_read)
    as (refs9 & new9 & Hrun9 & Hrefs9).
  remember (h8 ++ new9) as h9 eqn:Eh9.
  assert (Hg89 : grows L h8 h9) by (subst h9; apply grows_app).
  assert (HL9 : h9 !! L = Some (HRecord props2)).
  { subst h9. by rewrite lookup_app_l. }
  assert (Hlen9 : (L < length h9)%nat) by (by apply lookup_lt_Some in HL9).
  remember (h9 ++ [HArray refs9]) as h10 eqn:Eh10.
  assert (Hg910 : grows L h9 h10) by (subst h10; apply grows_app).
  assert (HL10 : h10 !! L = Some (HRecord props2)).
  { subst h10. by rewrite lookup_app_l. }
  assert (Hlen10 : (L < length h10)%nat) by (by apply lookup_lt_Some in HL10).
  assert (Hcp10 : read_in (except L h10) (S f2) (HRef (length h9))
                  = Some (VArr (map (fun item => strip_transient (MascotPose_props item))
                                  (mascot cs)) [])).
  { subst h10. eapply read_array_intro; [by apply except_last|].
    eapply elems_mono; [apply except_app_mono|].
    rewrite map_map in Hrefs9. exact Hrefs9. }
  (* cleanCourse *)
  set (props3 := [(str "id", HStr (course_id c)); (str "settings", vs);
                  (str "modules", modules'); (str "media", HRef (length h7));
                  (str "mascot", HRef (length h9))]).
  remember (h10 ++ [HRecord props3]) as h11 eqn:Eh11.
  assert (Hg1011 : grows L h10 h11) by (subst h11; apply grows_app).
  assert (HL11 : h11 !! L = Some (HRecord props2)).
  { subst h11. by rewrite lookup_app_l. }
  pose proof (grows_trans L _ _ _ Hg910 Hg1011) as Hg911.
  pose proof (grows_trans L _ _ _ Hg89 Hg911) as Hg811.
  pose proof (grows_trans L _ _ _ Hg58 Hg811) as Hg511.
  pose proof (grows_trans L _ _ _ Hg34 (grows_trans L _ _ _ Hg45 Hg511)) as Hg311.
  pose proof (grows_trans L _ _ _ Hg23 Hg311) as Hg211.
  pose proof (grows_trans L _ _ _ Hg12 Hg211) as Hg111.
  exists (HRef L), (HRef (length h10)), h11. split; [|split].
  - unfold h_prepare.
    hstep (h_props_record h l0 props0 Hl0).
    unfold hbind at 1. unfold h_alloc at 1. fold L. rewrite <- Eh1. cbv beta iota.
    hstep (h_get_record h1 L props0 (str "modules") HL1).
    change (default HUndefined (h_lookup (str "modules") props0)) with vm.
    hstep Hrun2.
    hstep (h_set_record h2 L props0 (str "modules") modules' HL2).
    change (h_assign (str "modules") modules' props0) with props1. rewrite <- Eh3.
    hstep Hname.
    hstep (h_get_record h3 L props1 (str "mascot") HL3).
    change (default HUndefined (h_lookup (str "mascot") props1)) with vma.
    hstep Hposes. cbv zeta in Hrun4. hstep Hrun4.
    unfold hbind at 1. unfold h_alloc at 1. rewrite <- Eh5. cbv beta iota.
    hstep (h_set_record h5 L props1 (str "mascot") (HRef (length h4)) HL5).
    change (h_assign (str "mascot") (HRef (length h4)) props1) with props2.
    rewrite <- Eh6.
    hstep (h_get_record h6 L props2 (str "media") HL6).
    change (default HUndefined (h_lookup (str "media") props2)) with vme.
    hstep Hitems. hstep Hrun7.
    unfold hbind at 1. unfold h_alloc at 1. rewrite <- Eh8. cbv beta iota.
    hstep (h_get_record h8 L props2 (str "mascot") HL8).
    change (default HUndefined (h_lookup (str "mascot") props2)) with (HRef (length h4)).
    hstep Hposes'. hstep Hrun9.
    unfold hbind at 1. unfold h_alloc at 1. rewrite <- Eh10. cbv beta iota.
    hstep (h_props_record h10 L props2 HL10).
    unfold hbind at 1. unfold h_alloc at 1.
    change (h_assign (str "mascot") (HRef (length h9))
              (h_assign (str "media") (HRef (length h7)) props2)) with props3.
    rewrite <- Eh11. reflexivity.
  - apply (read_whole L). rewrite cleanCourse_props.
    eapply read_record_intro.
    { subst h11. by apply except_last. }
    repeat (constructor; [split; [reflexivity|]|]); [| | | | |constructor]; cbn [snd].
    + by destruct f2.
    + exact (read_grows _ _ _ _ _ _ Hg111 Hvs1).
    + exact (read_grows _ _ _ _ _ _ Hg211 Hmod2).
    + exact (read_grows _ _ _ _ _ _ Hg811 Hcm8).
    + exact (read_grows _ _ _ _ _ _ Hg1011 Hcp10).
  - unfold read_value. eapply read_record_intro; [exact HL11|].
    repeat (constructor; [split; [reflexivity|]|]); [| | | | |constructor]; cbn [snd].
    + by destruct f2.
    + exact (read_whole L _ _ _ _ (read_grows _ _ _ _ _ _ Hg111 Hvs1)).
    + exact (read_whole L _ _ _ _ (read_grows _ _ _ _ _ _ Hg211 Hmod2)).
    + exact (read_whole L _ _ _ _ (read_grows _ _ _ _ _ _ Hg111 Hvme1)).
    + exact (read_whole L _ _ _ _ (read_grows _ _ _ _ _ _ Hg511 Hmas5)).
Qed.

Lemma as_MediaFile_props (m : MediaFile) : as_MediaFile (VObj (MediaFile_props m)) = Some m.
Proof. destruct m as [id name path [] url [f|]]; reflexivity. Qed.

Lemma as_MascotPose_props (p : MascotPose) : as_MascotPose (VObj (MascotPose_props p)) = Some p.
Proof. destruct p as [type path url [f|]]; reflexivity. Qed.

Lemma mapM_as_items {A} (as_item : Value -> option A) (to_value : A -> Value) (l : list A) :
  (forall x, as_item (to_value x) = Some x) ->
  mapM as_item (map to_value l) = Some l.
Proof.
  intros H. apply mapM_Some. induction l as [|x l IH]; constructor; [apply H|done].
Qed.

(* On a heap that holds a course, zipCourse on the heap returns the archive
   and leaves the world that zipCourse on the course value does. *)
Lemma zipCourse_heap_refines (browser : Browser) (c : Course)
    (ids : option (list jsstring)) (h : Heap) (fuel : nat) (course : HVal) (w : World) :
  read_value fuel h course = Some (VObj (Course_props c)) ->
  exists h',
    zipCourse_heap browser fuel course ids h w
    = (Some (fst (zipCourse browser c ids w)), h', snd (zipCourse browser c ids w)).
Proof.
  intros Hread.
  destruct (h_prepare_spec c ids h fuel course Hread)
    as (cts & clean & h' & Hrun & Hclean & Hcts).
  exists h'. unfold zipCourse_heap. rewrite Hrun, Hclean, Hcts.
  change (lookup_prop (str "media") (Course_props (courseToSave c ids)))
    with (Some (VArr (map (fun m => VObj (MediaFile_props m)) (media (courseToSave c ids))) [])).
  change (lookup_prop (str "mascot") (Course_props (courseToSave c ids)))
    with (Some (VArr (map (fun p => VObj (MascotPose_props p)) (mascot (courseToSave c ids))) [])).
  cbn [as_list].
  rewrite (mapM_as_items as_MediaFile _ _ as_MediaFile_props).
  rewrite (mapM_as_items as_MascotPose _ _ as_MascotPose_props).
  unfold zipCourse, zipCourse_entries, document, bind, ret.
  destruct (for_of (add_media_file browser) _ _ w) as [zip1 w1].
  by destruct (for_of (add_mascot_file browser) _ zip1 w1) as [zip2 w2].
Qed.

(** * Further properties of the library (lib)

    What zipCourse and resizeImageToSquare do to the object URL store and to
    the console, the contents of the entries through a round trip, and the
    courses kept in IndexedDB. *)

Section EffectsOfPackaging.

Variable browser : Browser.

(** X1: resizeImageToSquare takes one object URL number and leaves the store
    and the console as it found them, and its outcome is decided in this
    order: "Image load failed" when the content is no image the browser
    decodes, "Could not get canvas context" when the canvas gives no 2D
    context, "Canvas conversion failed" when the encoder gives no blob, else a
    blob of type image/png holding the image resampled to 1500 by 1500. *)
Theorem X1_resizeImageToSquare_outcome (content : Blob) (w : World) :
  urls_wf w ->
  exists outcome,
    resizeImageToSquare browser content w
    = (outcome, {| object_urls := object_urls w;
                   next_url := N.succ (next_url w);
                   console := console w |})
    /\ outcome
       = match blob_bytes content with
         | ImageBytes mime img =>
             if image_format_supported browser mime then
               if context2d_available browser then
                 if encoder_succeeds browser 1500 1500 (resample browser img 1500 1500) then
                   Ok {| blob_type := str "image/png";
                         blob_bytes := ImageBytes (str "image/png")
                           {| raster_width := 1500; raster_height := 1500;
                              raster_pixels := resample browser img 1500 1500 |} |}
                 else Throw (Error (str "Canvas conversion failed"))
               else Throw (Error (str "Could not get canvas context"))
             else Throw (Error (str "Image load failed"))
         | _ => Throw (Error (str "Image load failed"))
         end.
Proof.
  intros Hwf. exists (normalize browser content).
  split; [by apply resizeImageToSquare_spec|].
  unfold normalize, decode, toBlob, drawImage, clearRect.
  destruct (blob_bytes content) as [mime img| |]; try reflexivity.
  destruct (image_format_supported browser mime); [|reflexivity].
  destruct (context2d_available browser); [|reflexivity].
  cbn [negb canvas_width canvas_height canvas_bitmap].
  by destruct (encoder_succeeds browser _ _ _).
Qed.

Lemma add_media_file_log (item : MediaFile) (zip : Zip) (w : World) :
  exists zip',
    add_media_file browser item zip w
    = (zip', {| object_urls := object_urls w; next_url := next_url w;
                console := console w ++ media_messages browser w item |}).
Proof.
  unfold add_media_file, media_messages, resolve, fetch_blob, bind, ret, console_log.
  assert (Hw : w = {| object_urls := object_urls w; next_url := next_url w;
                      console := console w ++ [] |})
    by (rewrite app_nil_r; by destruct w).
  destruct (media_file item) as [f|]; [eexists; by rewrite <- Hw|].
  destruct (object_urls w !! media_blobUrl item); [eexists; by rewrite <- Hw|].
  destruct (network browser (media_blobUrl item)); [eexists; by rewrite <- Hw|].
  eexists; reflexivity.
Qed.

Lemma media_loop_log (items : list MediaFile) (zip : Zip) (w : World) :
  exists zip',
    for_of (add_media_file browser) items zip w
    = (zip', {| object_urls := object_urls w; next_url := next_url w;
                console := console w ++ concat (map (media_messages browser w) items) |}).
Proof.
  revert zip w. induction items as [|item items IH]; intros zip w.
  - exists zip. cbn. rewrite app_nil_r. by destruct w.
  - cbn [for_of]. unfold bind.
    destruct (add_media_file_log item zip w) as (zip1 & ->).
    destruct (IH zip1 {| object_urls := object_urls w; next_url := next_url w;
                         console := console w ++ media_messages browser w item |})
      as (zip2 & ->).
    exists zip2. cbn [object_urls next_url console map concat].
    rewrite <- app_assoc. do 3 f_equal.
Qed.

Lemma add_mascot_file_log (item : MascotPose) (zip : Zip) (w : World) :
  urls_wf w ->
  exists zip',
    add_mascot_file browser item zip w
    = (zip', {| object_urls := object_urls w;
                next_url := next_url w + resized browser w [item];
                console := console w ++ mascot_messages browser w item |}).
Proof.
  intros Hwf.
  unfold add_mascot_file, mascot_content, mascot_messages, resized, resolve, fetch_blob.
  cbn [List.filter].
  assert (Hrun : forall content zip0 (w0 : World),
    urls_wf w0 ->
    exists zip',
      (let* resized := resizeImageToSquare browser content in
       match resized with
       | Ok resizedBlob => ret (zip_file_add (pose_path item) (blob_bytes resizedBlob) zip0)
       | Throw _ =>
           let* _ := console_log LogError (str "Failed to resize mascot " ++ pose_type item) in
           ret (zip_file_add (pose_path item) (blob_bytes content) zip0)
       end) w0
      = (zip', {| object_urls := object_urls w0;
                  next_url := next_url w0 + 1;
                  console := console w0 ++
                    match normalize browser content with
                    | Ok _ => []
                    | Throw _ => [(LogError, str "Failed to resize mascot " ++ pose_type item)]
                    end |})).
  { intros content zip0 w0 Hwf0. unfold bind at 1.
    rewrite resizeImageToSquare_spec by done.
    rewrite N.add_1_r.
    destruct (normalize browser content); cbn; [rewrite app_nil_r|]; eexists; reflexivity. }
  destruct (pose_file item) as [f|].
  - rewrite bool_decide_eq_true_2 by (eexists; reflexivity). cbn [length].
    unfold bind at 1. unfold ret at 1. apply (Hrun f zip w Hwf).
  - unfold bind at 1. unfold bind at 1.
    destruct (object_urls w !! pose_blobUrl item) as [b|] eqn:Hurl.
    + rewrite bool_decide_eq_true_2 by (eexists; reflexivity). cbn [length].
      unfold ret at 1. apply (Hrun b zip w Hwf).
    + destruct (network browser (pose_blobUrl item)) as [b|] eqn:Hnet.
      * rewrite bool_decide_eq_true_2 by (eexists; reflexivity). cbn [length].
        unfold ret at 1. apply (Hrun b zip w Hwf).
      * rewrite bool_decide_eq_false_2 by (by intros [? ?]).
        cbn. rewrite N.add_0_r. eexists; reflexivity.
Qed.

Lemma resized_cons (w : World) (item : MascotPose) (items : list MascotPose) :
  resized browser w (item :: items) = resized browser w [item] + resized browser w items.
Proof.
  unfold resized. cbn [List.filter].
  destruct (bool_decide _); cbn [length]; lia.
Qed.

Lemma resized_with_path (w : World) (path : MascotPose -> jsstring) (items : list MascotPose) :
  resized browser w (map (fun pose => with_path pose (path pose)) items)
  = resized browser w items.
Proof.
  unfold resized. f_equal.
  induction items as [|item items IH]; [done|].
  cbn [map List.filter with_path pose_file pose_blobUrl].
  destruct (bool_decide _); cbn [length]; by rewrite IH.
Qed.

Lemma mascot_loop_log (items : list MascotPose) (zip : Zip) (w : World) :
  urls_wf w ->
  exists zip',
    for_of (add_mascot_file browser) items zip w
    = (zip', {| object_urls := object_urls w;
                next_url := next_url w + resized browser w items;
                console := console w ++ concat (map (mascot_messages browser w) items) |}).
Proof.
  revert zip w. induction items as [|item items IH]; intros zip w Hwf.
  - exists zip. cbn. rewrite app_nil_r, N.add_0_r. by destruct w.
  - cbn [for_of]. unfold bind.
    destruct (add_mascot_file_log item zip w Hwf) as (zip1 & ->).
    set (w1 := {| object_urls := object_urls w;
                  next_url := next_url w + resized browser w [item];
                  console := console w ++ mascot_messages browser w item |}).
    assert (Hwf1 : urls_wf w1) by (apply urls_wf_succ; [done|lia]).
    destruct (IH zip1 w1 Hwf1) as (zip2 & ->).
    exists zip2. f_equal.
    change (resized browser w1 items) with (resized browser w items).
    change (mascot_messages browser w1) with (mascot_messages browser w).
    cbn [object_urls next_url console map concat w1].
    by rewrite <- app_assoc, (resized_cons w item items), N.add_assoc.
Qed.

(** X2: zipCourse leaves the object URL store as it found it; it takes one
    object URL number for every pose whose content it resolves; and it writes
    to the console, after what was there, first one warning "Could not fetch
    blob for <path>" for every media asset without content, in the order of
    the assets, then for every pose, in order, either a warning "Could not
    fetch blob for mascot <export path>" when it has no content or an error
    "Failed to resize mascot <tag>" when normalization fails, and nothing
    else. *)
Theorem X2_zipCourse_store_and_console
    (course : Course) (ids : option (list jsstring)) (w : World) :
  urls_wf w ->
  exists archive,
    zipCourse browser course ids w
    = (archive,
       {| object_urls := object_urls w;
          next_url := next_url w + resized browser w (mascot course);
          console :=
            console w
            ++ concat (map (media_messages browser w) (media course))
            ++ concat (map (fun pose =>
                              mascot_messages browser w
                                (with_path pose
                                   (export_mascot_path (export_mascotName course) pose)))
                           (mascot course)) |}).
Proof.
  intros Hwf. unfold zipCourse, zipCourse_entries, bind, ret.
  change (media (courseToSave course ids)) with (media course).
  destruct (media_loop_log (media course)
              (zip_file_add_json (str "curso.json") (document course ids) ∅) w)
    as (zip1 & ->).
  set (w1 := {| object_urls := object_urls w; next_url := next_url w;
                console := console w
                           ++ concat (map (media_messages browser w) (media course)) |}).
  assert (Hwf1 : urls_wf w1) by (apply urls_wf_succ; [done|lia]).
  destruct (mascot_loop_log (mascot (courseToSave course ids)) zip1 w1 Hwf1) as (zip2 & ->).
  exists (generateAsync zip2). f_equal. rewrite courseToSave_mascot.
  change (resized browser w1) with (resized browser w).
  change (mascot_messages browser w1) with (mascot_messages browser w).
  cbn [object_urls next_url console w1].
  by rewrite <- app_assoc, map_map, resized_with_path.
Qed.


(** X4: the content of a pose survives the round trip, normalized when it can
    be.  If the pose's content is resolved at pack time, its export path is a
    name that loadAsync keeps, no media asset is stored under a name that
    loadAsync takes for curso.json, the poses have distinct tags, and every
    other asset with content whose name loadAsync takes for the export path
    is stored under the export path itself, then after unpacking the mascot
    record at the pose's position has the pose's tag, the export path
    mascot/<name>_<tag>.png and a blob URL that was not in the store before,
    under which the store holds either the PNG of 1500 by 1500 that
    normalization gave, or, when normalization failed, the original bytes. *)
Theorem X4_mascot_content_round_trip
    (course : Course) (ids : option (list jsstring)) (w : World)
    (i : nat) (pose : MascotPose) (content : Blob) :
  urls_wf w ->
  mascot course !! i = Some pose ->
  resolve browser w (pose_file pose) (pose_blobUrl pose) = Some content ->
  plain_name (export_mascot_path (export_mascotName course) pose) = true ->
  (forall m, In m (media course) -> resolve_name (media_path m) <> str "curso.json") ->
  NoDup (map pose_type (mascot course)) ->
  (forall m, In m (media course) ->
     resolve_name (media_path m) = export_mascot_path (export_mascotName course) pose ->
     media_path m = export_mascot_path (export_mascotName course) pose
     \/ resolve browser w (media_file m) (media_blobUrl m) = None) ->
  (forall p, In p (mascot course) ->
     resolve_name (export_mascot_path (export_mascotName course) p)
     = export_mascot_path (export_mascotName course) pose ->
     export_mascot_path (export_mascotName course) p
     = export_mascot_path (export_mascotName course) pose
     \/ resolve browser w (pose_file p) (pose_blobUrl p) = None) ->
  exists entries w1 c w2 record url bytes,
    zipCourse browser course ids w = (ZipFile entries, w1)
    /\ load_entries browser entries !! export_mascot_path (export_mascotName course) pose
       = Some bytes
    /\ unzipCourse browser (ZipFile entries) w1 = (Ok c, w2)
    /\ record_at c (str "mascot") i = Some record
    /\ get_prop record (str "type") = Ok (VStr (pose_type pose))
    /\ get_prop record (str "path")
       = Ok (VStr (export_mascot_path (export_mascotName course) pose))
    /\ get_prop record (str "blobUrl") = Ok (VStr url)
    /\ object_urls w2 !! url = Some {| blob_type := []; blob_bytes := bytes |}
    /\ object_urls w !! url = None
    /\ ((is_png_1500 bytes
         /\ exists resized, normalize browser content = Ok resized
                            /\ bytes = blob_bytes resized)
        \/ (bytes = blob_bytes content
            /\ exists err, normalize browser content = Throw err)).
Proof.
  intros Hwf Hi Hres Hplain Hdocname Hnd Hmedia Hmascot.
  apply plain_name_spec in Hplain as [Hself Hfolder].
  destruct (round_trip_records browser course ids w Hdocname)
    as (entries & w1 & doc & c & w2 & media' & mascot' & order & Hzip & Hdoc & Hentry
        & Hunzip & Hc & Hlen1 & Hlen2 & Hatt1 & Hatt2 & Hfresh).
  set (rename := fun p => with_path p (export_mascot_path (export_mascotName course) p)).
  set (bytes := match normalize browser content with
                | Ok resized => blob_bytes resized
                | Throw _ => blob_bytes content
                end).
  assert (Hin : In pose (mascot course)).
  { apply list_elem_of_In. by eapply list_elem_of_lookup_2. }
  assert (Hme : mascot_entry browser w (rename pose) = Some bytes).
  { unfold mascot_entry, rename, bytes. cbn [with_path pose_file pose_blobUrl].
    rewrite Hres. by destruct (normalize browser content). }
  assert (Hsome : entries !! export_mascot_path (export_mascotName course) pose = Some bytes).
  { destruct (zipCourse_entries_spec browser course ids w Hwf)
      as (doc' & w1' & Hdoc' & Hspec & _).
    rewrite Hzip in Hspec. injection Hspec as -> _.
    change (mascot (courseToSave course ids)) with (map rename (mascot course)).
    destruct (put_entries_written pose_path (mascot_entry browser w)
                (map rename (mascot course))
                (put_entries media_path (media_entry browser w) (media course)
                   (zip_file_add (str "curso.json") (JsonText doc') ∅))
                (rename pose) bytes (in_map rename _ _ Hin) Hme)
      as (p' & e & Hp' & Hkey & He & Hl).
    change (pose_path (rename pose))
      with (export_mascot_path (export_mascotName course) pose) in Hl, Hkey.
    etransitivity; [exact Hl|]. f_equal.
    apply in_map_iff in Hp' as (p & <- & Hp).
    assert (p = pose); [|subst p; congruence].
    unfold rename, export_mascot_path in Hkey. cbn [with_path pose_path] in Hkey.
    apply app_inv_head, app_inv_head, app_inv_head, app_inv_tail in Hkey.
    apply list_elem_of_In in Hp, Hin.
    apply list_elem_of_lookup in Hp as (j & Hj).
    assert (Hij : j = i).
    { eapply NoDup_lookup; [exact Hnd| |].
      - change (map pose_type (mascot course)) with (pose_type <$> mascot course).
        by rewrite list_lookup_fmap, Hj.
      - change (map pose_type (mascot course)) with (pose_type <$> mascot course).
        rewrite list_lookup_fmap, Hi. cbn. by rewrite Hkey. }
    subst j. congruence. }
  assert (Hloaded : load_entries browser entries
                      !! export_mascot_path (export_mascotName course) pose = Some bytes).
  { rewrite <- Hself at 1. apply loaded_unique; [done|done|].
    intros name' d' Hd' _ Hr'. rewrite Hself in Hr'.
    assert (Hname' : name' = export_mascot_path (export_mascotName course) pose);
      [|subst name'; congruence].
    destruct (zipCourse_entry_origin browser course ids w w1 entries name' d' Hwf Hzip Hd')
      as [[-> _]|[(m & Hm & <- & He)|(p & Hp & <- & He)]].
    - rewrite resolve_name_document in Hr'.
      by destruct (export_mascot_path_not_document (export_mascotName course) pose).
    - destruct (Hmedia m Hm Hr') as [Hsame|Hn]; [done|].
      unfold media_entry in He. by rewrite Hn in He.
    - destruct (Hmascot p Hp Hr') as [Hsame|Hn]; [done|].
      unfold mascot_entry in He. cbn [with_path pose_file pose_blobUrl] in He.
      by rewrite Hn in He. }
  set (record0 := mascot_json (rename pose)).
  assert (Hfor : entry_for (load_entries browser entries) (of_json record0)
                 = Ok (Some bytes)).
  { change (entry_for (load_entries browser entries) (of_json record0))
      with (@Ok (option Bytes)
              (load_entries browser entries
                 !! export_mascot_path (export_mascotName course) pose)).
    by rewrite Hloaded. }
  assert (Hrecord : mascot (courseToSave course ids) !! i = Some (rename pose)).
  { rewrite courseToSave_mascot. change (map rename ?l) with (rename <$> l).
    by rewrite list_lookup_fmap, Hi. }
  pose proof (Hatt2 i (rename pose) Hrecord) as Hatt.
  unfold attached in Hatt. fold record0 in Hatt. rewrite Hfor in Hatt.
  destruct Hatt as (record & k & Hrec & Hk & Hset & Hget & Hrest & Hurl).
  destruct (zipCourse_entries_spec browser course ids w Hwf)
    as (doc' & w1' & _ & Hspec & Hstore & Hwf1).
  rewrite Hzip in Hspec. injection Hspec as _ <-.
  exists entries, w1, c, w2, record, (blob_url (next_url w1 + N.of_nat k)), bytes.
  split; [unfold zipCourse, bind, ret, generateAsync; by rewrite Hzip|].
  split; [done|]. split; [done|].
  split; [subst c; unfold record_at; exact Hrec|].
  split.
  { rewrite Hrest by (intros H; apply str_inj in H; discriminate H). reflexivity. }
  split.
  { rewrite Hrest by (intros H; apply str_inj in H; discriminate H). reflexivity. }
  split; [exact Hget|]. split; [exact Hurl|].
  split; [rewrite <- Hstore; apply Hfresh; [done|lia]|].
  unfold bytes. destruct (normalize browser content) as [resized|err] eqn:Hnorm.
  - left. split; [by apply (normalize_png browser content)|by exists resized].
  - right. split; [done|by exists err].
Qed.

End EffectsOfPackaging.

Lemma X1_resizeImageToSquare_outcome_witness :
  fst (resizeImageToSquare Sample.browser Sample.broken_upload Sample.fresh_world)
  = Throw (Error (str "Image load failed"))
  /\ next_url (snd (resizeImageToSquare Sample.browser Sample.broken_upload
                      Sample.fresh_world)) = 1.
Proof.
  destruct (X1_resizeImageToSquare_outcome Sample.browser Sample.broken_upload
              Sample.fresh_world urls_wf_fresh_world) as (outcome & -> & ->).
  split; reflexivity.
Defined.

Lemma X2_zipCourse_store_and_console_witness :
  exists archive w',
    zipCourse Sample.browser Sample.full_course None Sample.fresh_world = (archive, w')
    /\ object_urls w' = object_urls Sample.fresh_world
    /\ next_url w' = 1
    /\ console w' = [(LogWarn, str "Could not fetch blob for media/a.png")].
Proof.
  destruct (X2_zipCourse_store_and_console Sample.browser Sample.full_course None
              Sample.fresh_world urls_wf_fresh_world) as (archive & ->).
  eexists _, _. split; [reflexivity|]. split; [reflexivity|]. split; by vm_compute.
Defined.


Lemma X4_mascot_content_round_trip_witness :
  exists entries w1 c w2 record url bytes,
    zipCourse Sample.browser Sample.illustrated_course None Sample.fresh_world
    = (ZipFile entries, w1)
    /\ unzipCourse Sample.browser (ZipFile entries) w1 = (Ok c, w2)
    /\ record_at c (str "mascot") 0%nat = Some record
    /\ get_prop record (str "path") = Ok (VStr (str "mascot/Mascote_happy.png"))
    /\ get_prop record (str "blobUrl") = Ok (VStr url)
    /\ object_urls w2 !! url = Some {| blob_type := []; blob_bytes := bytes |}.
Proof.
  destruct (X4_mascot_content_round_trip Sample.browser Sample.illustrated_course None
              Sample.fresh_world 0%nat (Sample.happy_pose Sample.png_upload) Sample.png_upload)
    as (entries & w1 & c & w2 & record & url & bytes
        & H1 & _ & H2 & H3 & _ & H5 & H6 & H7 & _).
  - apply urls_wf_fresh_world.
  - reflexivity.
  - reflexivity.
  - by vm_compute.
  - intros m [<-|[]]. vm_compute. discriminate.
  - apply NoDup_singleton.
  - intros m [<-|[]] H. vm_compute in H. discriminate H.
  - intros p [<-|[]] _. by left.
  - exists entries, w1, c, w2, record, url, bytes. repeat split; assumption.
Defined.

(** ** The courses kept in IndexedDB *)

Lemma pretty_N_char_digit (x : N) : is_digit (pretty_N_char x).
Proof.
  unfold is_digit, pretty_N_char.
  repeat (match goal with |- context [match ?x with _ => _ end] => destruct x end);
    vm_compute; split; discriminate.
Qed.

Lemma pretty_N_go_digits (x : N) (s : string) :
  Forall is_digit (list_ascii_of_string s) ->
  Forall is_digit (list_ascii_of_string (pretty_N_go x s)).
Proof.
  revert s. induction (N.lt_wf_0 x) as [x _ IH]; intros s Hs.
  assert (x = 0 ∨ 0 < x)%N as [->|?] by lia.
  - by rewrite pretty_N_go_0.
  - rewrite pretty_N_go_step by done. apply IH.
    { by apply N.div_lt. }
    simpl. constructor; [apply pretty_N_char_digit|done].
Qed.

Lemma decimal_digits (n : N) : Forall (fun c => 48 <= c <= 57) (decimal n).
Proof.
  unfold decimal, str, pretty, pretty_N.
  assert (H : Forall is_digit (list_ascii_of_string
                (if decide (n = 0) then "0"%string else pretty_N_go n ""))).
  { case_decide.
    - repeat constructor; vm_compute; discriminate.
    - apply pretty_N_go_digits. constructor. }
  apply Forall_fmap. eapply Forall_impl; [exact H|]. by intros c Hc.
Qed.

Lemma decimal_not_file (n : N) : jsstring_eqb (decimal n) (str "file") = false.
Proof.
  apply jsstring_eqb_neq. intros H.
  pose proof (decimal_digits n) as Hd. rewrite H in Hd.
  apply Forall_cons in Hd as [[_ Hd] _]. vm_compute in Hd. by apply Hd.
Qed.

Lemma decimal_inj (n m : N) : decimal n = decimal m -> n = m.
Proof. unfold decimal. intros H. apply str_inj in H. by apply (inj pretty) in H. Qed.

Lemma replaced_file_free (v : Value) : forall key,
  file_free v = true -> jsstring_eqb key (str "file") = false ->
  SerializeJSONProperty_replaced key v = SerializeJSONProperty v.
Proof.
  induction v as [| | | | | |elems own IHe IHo|own IHo] using Value_nested_ind;
    intros key Hfree Hkey; cbn [SerializeJSONProperty_replaced SerializeJSONProperty];
    rewrite Hkey; try reflexivity.
  - do 2 f_equal. cbn [file_free] in Hfree.
    generalize 0 as index.
    induction IHe as [|x l Hx _ IHl]; intros index; [done|].
    cbn [forallb] in Hfree. apply andb_true_iff in Hfree as [Hfx Hfl].
    cbn [map]. rewrite (Hx (decimal index) Hfx (decimal_not_file index)).
    f_equal. by apply IHl.
  - do 2 f_equal. cbn [file_free] in Hfree.
    induction IHo as [|[k x] l Hx _ IHl]; [done|].
    cbn [forallb fst snd] in Hfree, Hx.
    apply andb_true_iff in Hfree as [Hk Hfl].
    apply andb_true_iff in Hk as [Hk Hfx]. apply negb_true_iff in Hk.
    rewrite (Hx k Hfx Hk), (IHl Hfl). reflexivity.
Qed.

Lemma forallb_map_true {A B} (p : B -> bool) (f : A -> B) (l : list A) :
  (forall x, p (f x) = true) -> forallb p (map f l) = true.
Proof. intros H. induction l; simpl; [done|]. by rewrite H, IHl. Qed.

Lemma Module_object_file_free (m : Module) : file_free (Module_object m) = true.
Proof.
  destruct m as [id title payload]. unfold Module_object.
  destruct payload as [c|s u f|qs|cs|es|ss]; cbn [ModulePayload_props module_payload app].
  - by vm_compute.
  - destruct u, f; by vm_compute.
  - cbn [file_free forallb fst snd module_id module_title ModuleType_tag].
    rewrite forallb_map_true; [by vm_compute|].
    intros q. unfold QuizQuestion_object. cbn [file_free forallb fst snd].
    rewrite forallb_map_true; [by vm_compute|]. intros o. by vm_compute.
  - cbn [file_free forallb fst snd module_id module_title ModuleType_tag].
    rewrite forallb_map_true; [by vm_compute|]. intros c. by vm_compute.
  - cbn [file_free forallb fst snd module_id module_title ModuleType_tag].
    rewrite forallb_map_true; [by vm_compute|].
    intros e. unfold TimelineEvent_object. destruct (event_imagePath e); by vm_compute.
  - cbn [file_free forallb fst snd module_id module_title ModuleType_tag].
    rewrite forallb_map_true; [by vm_compute|].
    intros e. unfold ExperimentStep_object. destruct (step_imagePath e); by vm_compute.
Qed.

Lemma CourseSettings_object_file_free (s : CourseSettings) :
  file_free (CourseSettings_object s) = true.
Proof. unfold CourseSettings_object. destruct (mascotName s); by vm_compute. Qed.

Lemma replaced_array_map {A} (key : jsstring) (g : A -> Value) (f : A -> JSON)
    (l : list A) (own : Props) :
  jsstring_eqb key (str "file") = false ->
  (forall x k, jsstring_eqb k (str "file") = false ->
     SerializeJSONProperty_replaced k (g x) = Some (f x)) ->
  SerializeJSONProperty_replaced key (VArr (map g l) own) = Some (JArr (map f l)).
Proof.
  intros Hkey Hg. cbn [SerializeJSONProperty_replaced]. rewrite Hkey. do 2 f_equal.
  generalize 0 as index. induction l as [|x l IH]; intros index; [done|].
  cbn [map]. rewrite (Hg x _ (decimal_not_file index)). cbn. f_equal. apply IH.
Qed.

Lemma replaced_media (item : MediaFile) (k : jsstring) :
  jsstring_eqb k (str "file") = false ->
  SerializeJSONProperty_replaced k (VObj (MediaFile_props item))
  = Some (JObj [(str "id", JStr (media_id item));
                (str "name", JStr (media_name item));
                (str "path", JStr (media_path item));
                (str "type", JStr (MediaType_tag (media_type item)));
                (str "blobUrl", JStr (media_blobUrl item))]).
Proof.
  intros Hk. unfold MediaFile_props.
  destruct (media_file item); cbn [fmap option_fmap option_map optional_prop app
    SerializeJSONProperty_replaced]; rewrite Hk; keys; reflexivity.
Qed.

Lemma replaced_pose (item : MascotPose) (k : jsstring) :
  jsstring_eqb k (str "file") = false ->
  SerializeJSONProperty_replaced k (VObj (MascotPose_props item))
  = Some (JObj [(str "type", JStr (pose_type item));
                (str "path", JStr (pose_path item));
                (str "blobUrl", JStr (pose_blobUrl item))]).
Proof.
  intros Hk. unfold MascotPose_props.
  destruct (pose_file item); cbn [fmap option_fmap option_map optional_prop app
    SerializeJSONProperty_replaced]; rewrite Hk; keys; reflexivity.
Qed.

(* The record saveCourse stores: the course without the files of its assets. *)
Lemma saveCourse_record (course : Course) :
  exists text,
    JSON_stringify_replaced (VObj (Course_props course)) = Some text
    /\ of_json text = VObj (Course_props (without_files course)).
Proof.
  unfold JSON_stringify_replaced, Course_props.
  destruct (plain_serializes _ (CourseSettings_object_plain (settings course)))
    as (jsettings & Hsettings & Hsettings').
  assert (Hs : SerializeJSONProperty_replaced (str "settings")
                 (CourseSettings_object (settings course)) = Some jsettings).
  { rewrite replaced_file_free; [done|apply CourseSettings_object_file_free|by vm_compute]. }
  assert (Hm : SerializeJSONProperty_replaced (str "modules")
                 (VArr (map Module_object (modules course)) [])
               = Some (JArr (map (fun m => json_of (Module_object m)) (modules course)))).
  { apply replaced_array_map; [by vm_compute|]. intros m k Hk.
    rewrite replaced_file_free; [|apply Module_object_file_free|done].
    apply plain_json_of, Module_object_plain. }
  pose proof (replaced_array_map (str "media") (fun m => VObj (MediaFile_props m)) _
                (media course) [] eq_refl replaced_media) as Hmedia.
  pose proof (replaced_array_map (str "mascot") (fun p => VObj (MascotPose_props p)) _
                (mascot course) [] eq_refl replaced_pose) as Hmascot.
  set (vsettings := CourseSettings_object (settings course)) in *.
  set (vmodules := VArr (map Module_object (modules course)) []) in *.
  set (vmedia := VArr (map (fun m => VObj (MediaFile_props m)) (media course)) []) in *.
  set (vmascot := VArr (map (fun p => VObj (MascotPose_props p)) (mascot course)) []) in *.
  cbn [SerializeJSONProperty_replaced]. keys.
  rewrite Hs, Hm, Hmedia, Hmascot.
  eexists. split; [reflexivity|].
  rewrite of_json_JObj. cbn [map fst snd of_json]. rewrite Hsettings'.
  unfold without_files, vsettings. cbn [course_id settings modules media mascot].
  do 3 f_equal. f_equal.
  { do 2 f_equal. rewrite !map_map. apply map_ext. intros m.
    destruct (plain_serializes _ (Module_object_plain m)) as (j & Hj & Hj').
    unfold json_of. by rewrite Hj. }
  f_equal.
  { do 2 f_equal. rewrite !map_map. apply map_ext. intros m. reflexivity. }
  f_equal. do 2 f_equal. rewrite !map_map. apply map_ext. intros p. reflexivity.
Qed.

Lemma openDB_Ok (idb idb' : IndexedDB) (db : IDBDatabase) :
  openDB idb = (Ok db, idb') ->
  idb' !! DB_NAME = Some db /\ db_version db = DB_VERSION
  /\ (forall name, name <> DB_NAME -> idb' !! name = idb !! name).
Proof.
  unfold openDB. cbv zeta.
  destruct (idb !! DB_NAME) as [existing|] eqn:Hdb; cbn [default from_option id].
  - destruct (db_version existing <? DB_VERSION) eqn:Hlow.
    + intros [= <- <-]. split; [apply lookup_insert_eq|]. split; [done|].
      intros name Hname. by rewrite lookup_insert_ne.
    + destruct (DB_VERSION <? db_version existing) eqn:Hhigh; [done|].
      intros [= <- <-]. split; [done|]. split; [|done].
      apply N.ltb_ge in Hlow, Hhigh. lia.
  - cbn. intros [= <- <-]. split; [apply lookup_insert_eq|]. split; [done|].
    intros name Hname. by rewrite lookup_insert_ne.
Qed.

Lemma openDB_Throw (idb idb' : IndexedDB) (e : Exn) :
  openDB idb = (Throw e, idb') -> idb' = idb.
Proof.
  unfold openDB.
  destruct (db_version _ <? DB_VERSION); [done|].
  destruct (DB_VERSION <? db_version _); [|done]. by intros [= _ <-].
Qed.

Lemma openDB_opened (idb : IndexedDB) (db : IDBDatabase) :
  idb !! DB_NAME = Some db -> db_version db = DB_VERSION -> openDB idb = (Ok db, idb).
Proof.
  intros Hdb Hv. unfold openDB. rewrite Hdb. cbn [default from_option id].
  by rewrite Hv.
Qed.

Lemma openDB_ready (idb : IndexedDB) :
  db_ready idb ->
  exists db store idb',
    openDB idb = (Ok db, idb') /\ objectStores db !! STORE_NAME = Some store
    /\ idb' !! DB_NAME = Some db /\ db_version db = DB_VERSION
    /\ (idb !! DB_NAME = None -> store = ∅).
Proof.
  unfold db_ready, openDB.
  destruct (idb !! DB_NAME) as [existing|] eqn:Hdb; cbn [default from_option id].
  - intros [Hv [store Hstore]]. rewrite Hv. cbn.
    exists existing, store, idb. by repeat split.
  - intros _. cbn. eexists _, ∅, _. split; [reflexivity|].
    split; [apply lookup_insert_eq|]. split; [apply lookup_insert_eq|]. by split.
Qed.

Lemma saveCourse_run (course : Course) (idb idb1 : IndexedDB)
    (db : IDBDatabase) (store : ObjectStore) :
  openDB idb = (Ok db, idb1) ->
  objectStores db !! STORE_NAME = Some store ->
  saveCourse course idb
  = (Ok tt,
     <[DB_NAME := {| db_version := db_version db;
                     objectStores :=
                       <[STORE_NAME := <[course_id course :=
                                           VObj (Course_props (without_files course))]> store]>
                         (objectStores db) |}]> idb1).
Proof.
  intros Hopen Hstore.
  destruct (saveCourse_record course) as (text & Htext & Hparse).
  unfold saveCourse. rewrite Hopen. unfold objectStore. rewrite Hstore, Htext.
  cbn [JSON_parse]. rewrite Hparse. unfold put. cbn [get_prop Course_props lookup_prop].
  keys. reflexivity.
Qed.

Lemma getCourse_run (id : jsstring) (idb : IndexedDB) (db : IDBDatabase) (store : ObjectStore) :
  idb !! DB_NAME = Some db -> db_version db = DB_VERSION ->
  objectStores db !! STORE_NAME = Some store ->
  getCourse id idb = (Ok (default VUndefined (store !! id)), idb).
Proof.
  intros Hdb Hv Hstore. unfold getCourse.
  rewrite (openDB_opened idb db Hdb Hv). unfold objectStore. by rewrite Hstore.
Qed.

(** X5: on a database that is absent or was set up by openDB, saveCourse
    succeeds and a getCourse with the course's id then returns the course as
    an object without any [file] property: id, settings, modules and every
    media and mascot record (the blobUrl included) are those of the course
    saved, and the files of the assets are gone.  The database then exists
    and is set up, and the other databases of the origin are untouched. *)
Theorem X5_saveCourse_then_getCourse (course : Course) (idb : IndexedDB) :
  db_ready idb ->
  exists idb',
    saveCourse course idb = (Ok tt, idb')
    /\ getCourse (course_id course) idb'
       = (Ok (VObj (Course_props (without_files course))), idb')
    /\ is_Some (idb' !! DB_NAME)
    /\ db_ready idb'
    /\ (forall name, name <> DB_NAME -> idb' !! name = idb !! name).
Proof.
  intros Hready.
  destruct (openDB_ready idb Hready) as (db & store & idb1 & Hopen & Hstore & Hdb & Hv & _).
  rewrite (saveCourse_run course idb idb1 db store Hopen Hstore).
  eexists. split; [reflexivity|]. split.
  { erewrite getCourse_run;
      [|apply lookup_insert_eq|exact Hv|cbn [objectStores]; apply lookup_insert_eq].
    by rewrite lookup_insert_eq. }
  split; [rewrite lookup_insert_eq; by eexists|].
  split.
  { unfold db_ready. rewrite lookup_insert_eq. split; [done|].
    cbn [objectStores]. rewrite lookup_insert_eq. by eexists. }
  intros name Hname. rewrite lookup_insert_ne by done.
  by apply (openDB_Ok idb idb1 db Hopen).
Qed.

Lemma X5_saveCourse_then_getCourse_witness :
  exists idb',
    saveCourse Sample.full_course ∅ = (Ok tt, idb')
    /\ getCourse (str "course_1") idb'
       = (Ok (VObj (Course_props (without_files Sample.full_course))), idb').
Proof.
  destruct (X5_saveCourse_then_getCourse Sample.full_course ∅) as (idb' & H1 & H2 & _).
  - unfold db_ready. rewrite lookup_empty. exact I.
  - exists idb'. split; [exact H1|exact H2].
Defined.

(** X6: saveCourse changes what getCourse returns for no id other than the id
    of the course saved, whether it succeeds or fails: every other course in
    the store is still there, what was absent is still absent, and a
    getCourse that failed still fails in the same way. *)
Theorem X6_saveCourse_keeps_other_courses (course : Course) (idb : IndexedDB) (id : jsstring) :
  id <> course_id course ->
  fst (getCourse id (snd (saveCourse course idb))) = fst (getCourse id idb).
Proof.
  intros Hid.
  destruct (openDB idb) as [[db|e] idb1] eqn:Hopen.
  - destruct (openDB_Ok idb idb1 db Hopen) as (Hdb & Hv & _).
    assert (Hbefore : getCourse id idb
                      = match objectStore db with
                        | Throw e => (Throw e, idb1)
                        | Ok store => (Ok (default VUndefined (store !! id)), idb1)
                        end)
      by (unfold getCourse; by rewrite Hopen).
    rewrite Hbefore. unfold objectStore.
    destruct (objectStores db !! STORE_NAME) as [store|] eqn:Hstore.
    + rewrite (saveCourse_run course idb idb1 db store Hopen Hstore). cbn [snd].
      erewrite getCourse_run;
        [|apply lookup_insert_eq|exact Hv|cbn [objectStores]; apply lookup_insert_eq].
      cbn [fst]. by rewrite lookup_insert_ne.
    + unfold saveCourse. rewrite Hopen. unfold objectStore. rewrite Hstore. cbn [snd].
      unfold getCourse. rewrite (openDB_opened idb1 db Hdb Hv).
      unfold objectStore. by rewrite Hstore.
  - apply openDB_Throw in Hopen as Heq. subst idb1.
    unfold saveCourse. rewrite Hopen. reflexivity.
Qed.

Lemma X6_saveCourse_keeps_other_courses_witness :
  fst (getCourse (str "course_2") (snd (saveCourse Sample.full_course ∅)))
  = fst (getCourse (str "course_2") ∅).
Proof.
  apply (X6_saveCourse_keeps_other_courses Sample.full_course ∅ (str "course_2")).
  intros H. apply str_inj in H. discriminate H.
Defined.

(** * Properties of the editor (EditorPage.tsx) *)

(** ** The module list *)

Lemma findIndex_Some {A} (p : A -> bool) (l : list A) (i : nat) :
  findIndex p l = Some i ->
  exists pre x post,
    l = pre ++ x :: post /\ length pre = i /\ p x = true
    /\ forallb (fun y => negb (p y)) pre = true.
Proof.
  revert i. induction l as [|y l IH]; intros i; cbn [findIndex]; [done|].
  destruct (p y) eqn:Hy.
  - intros [= <-]. by exists [], y, l.
  - destruct (findIndex p l) as [j|]; [|done]. cbn. intros [= <-].
    destruct (IH j eq_refl) as (pre & x & post & -> & Hlen & Hx & Hpre).
    exists (y :: pre), x, post. cbn [length forallb]. rewrite Hy, Hpre.
    repeat split; [by rewrite Hlen|done].
Qed.

Lemma findIndex_app {A} (p : A -> bool) (pre : list A) (x : A) (post : list A) :
  forallb (fun y => negb (p y)) pre = true -> p x = true ->
  findIndex p (pre ++ x :: post) = Some (length pre).
Proof.
  intros Hpre Hx. induction pre as [|y pre IH]; cbn [findIndex app length].
  - by rewrite Hx.
  - cbn [forallb] in Hpre. apply andb_true_iff in Hpre as [Hy Hpre].
    apply negb_true_iff in Hy. rewrite Hy, (IH Hpre). reflexivity.
Qed.

Lemma findIndex_None {A} (p : A -> bool) (l : list A) :
  findIndex p l = None <-> forallb (fun y => negb (p y)) l = true.
Proof.
  induction l as [|y l IH]; cbn [findIndex forallb]; [done|].
  destruct (p y); cbn; [done|]. rewrite <- IH.
  destruct (findIndex p l); by cbn.
Qed.

Lemma find_findIndex {A} (p : A -> bool) (l : list A) :
  List.find p l = (findIndex p l ≫= fun i => l !! i).
Proof.
  induction l as [|x l IH]; cbn [List.find findIndex]; [done|].
  destruct (p x); [done|]. rewrite IH. by destruct (findIndex p l).
Qed.

Lemma splice_delete_app {A} (pre : list A) (x : A) (post : list A) :
  splice_delete (length pre) (pre ++ x :: post) = pre ++ post.
Proof.
  unfold splice_delete. rewrite take_app_length. f_equal.
  induction pre as [|y pre IH]; [done|exact IH].
Qed.

Lemma splice_insert_app {A} (pre : list A) (x : A) (post : list A) :
  splice_insert (length pre) x (pre ++ post) = pre ++ x :: post.
Proof. unfold splice_insert. by rewrite take_app_length, drop_app_length. Qed.

Lemma lookup_middle {A} (pre : list A) (x : A) (post : list A) :
  (pre ++ x :: post) !! length pre = Some x.
Proof. by rewrite list_lookup_middle. Qed.

Lemma with_modules_same (c : Course) : with_modules c (modules c) = c.
Proof. by destruct c. Qed.

Lemma with_modules_twice (c : Course) (l l' : list Module) :
  with_modules (with_modules c l) l' = with_modules c l'.
Proof. reflexivity. Qed.

(* What moveModule does, by the place of the first module with the id. *)
Lemma moveModule_up_run (moduleId : jsstring) (course : Course)
    (pre : list Module) (y x : Module) (post : list Module) :
  modules course = pre ++ y :: x :: post ->
  forallb (fun m => negb (has_id moduleId m)) (pre ++ [y]) = true ->
  has_id moduleId x = true ->
  moveModule moduleId up course = Some (with_modules course (pre ++ x :: y :: post)).
Proof.
  intros Hl Hpre Hx. unfold moveModule. rewrite Hl.
  replace (pre ++ y :: x :: post) with ((pre ++ [y]) ++ x :: post)
    by (by rewrite <- app_assoc).
  rewrite (findIndex_app _ _ _ _ Hpre Hx).
  rewrite length_app. cbn [length]. rewrite Nat.add_1_r. cbn [Nat.eqb].
  replace (S (length pre)) with (length (pre ++ [y])) by (rewrite length_app; cbn; lia).
  rewrite lookup_middle, splice_delete_app.
  rewrite length_app. cbn [length]. rewrite Nat.add_1_r. cbn [Nat.sub]. rewrite Nat.sub_0_r.
  rewrite <- app_assoc. cbn [app].
  by rewrite (splice_insert_app pre x (y :: post)).
Qed.

Lemma moveModule_down_run (moduleId : jsstring) (course : Course)
    (pre : list Module) (x y : Module) (post : list Module) :
  modules course = pre ++ x :: y :: post ->
  forallb (fun m => negb (has_id moduleId m)) pre = true ->
  has_id moduleId x = true ->
  moveModule moduleId down course = Some (with_modules course (pre ++ y :: x :: post)).
Proof.
  intros Hl Hpre Hx. unfold moveModule. rewrite Hl.
  rewrite (findIndex_app _ _ _ _ Hpre Hx).
  rewrite length_app. cbn [length].
  replace (length pre =? length pre + S (S (length post)) - 1)%nat with false
    by (symmetry; apply Nat.eqb_neq; lia).
  rewrite lookup_middle, splice_delete_app.
  replace (length pre + 1)%nat with (length (pre ++ [y])) by (rewrite length_app; cbn; lia).
  replace (pre ++ y :: post) with ((pre ++ [y]) ++ post) by (by rewrite <- app_assoc).
  rewrite splice_insert_app. by rewrite <- app_assoc.
Qed.

(* The outcomes of moveModule. *)
Lemma moveModule_cases (moduleId : jsstring) (direction : Direction) (course : Course) :
  match moveModule moduleId direction course with
  | Some moved =>
      exists pre x y post,
        has_id moduleId x = true
        /\ forallb (fun m => negb (has_id moduleId m)) pre = true
        /\ match direction with
           | up =>
               has_id moduleId y = false
               /\ modules course = pre ++ y :: x :: post
               /\ modules moved = pre ++ x :: y :: post
           | down =>
               modules course = pre ++ x :: y :: post
               /\ modules moved = pre ++ y :: x :: post
           end
        /\ moved = with_modules course (modules moved)
  | None =>
      forallb (fun m => negb (has_id moduleId m)) (modules course) = true
      \/ match direction with
         | up => exists x post, modules course = x :: post /\ has_id moduleId x = true
         | down =>
             exists pre x,
               modules course = pre ++ [x] /\ has_id moduleId x = true
               /\ forallb (fun m => negb (has_id moduleId m)) pre = true
         end
  end.
Proof.
  destruct (findIndex (has_id moduleId) (modules course)) as [index|] eqn:Hidx.
  - destruct (findIndex_Some _ _ _ Hidx) as (pre & x & post & Hl & Hlen & Hx & Hpre).
    destruct direction.
    + destruct pre as [|y' pre _] using rev_ind.
      * assert (Hnone : moveModule moduleId up course = None).
        { unfold moveModule. rewrite Hidx. cbn in Hlen. by subst index. }
        rewrite Hnone. right. by exists x, post.
      * rewrite <- app_assoc in Hl. cbn [app] in Hl.
        rewrite (moveModule_up_run moduleId course pre y' x post Hl Hpre Hx).
        exists pre, x, y', post.
        rewrite forallb_app in Hpre. apply andb_true_iff in Hpre as [Hpre Hy].
        cbn in Hy. rewrite andb_true_r in Hy. apply negb_true_iff in Hy.
        by repeat split.
    + destruct post as [|y post].
      * assert (Hnone : moveModule moduleId down course = None).
        { unfold moveModule. rewrite Hidx, Hl, length_app. cbn [length].
          replace (index =? length pre + 1 - 1)%nat with true; [done|].
          symmetry. apply Nat.eqb_eq. lia. }
        rewrite Hnone. right. by exists pre, x.
      * rewrite (moveModule_down_run moduleId course pre x y post Hl Hpre Hx).
        exists pre, x, y, post. by repeat split.
  - assert (Hnone : moveModule moduleId direction course = None).
    { unfold moveModule. by rewrite Hidx. }
    rewrite Hnone. left. by apply findIndex_None.
Qed.

(** X7: moveModule swaps the first module with the given id with its
    neighbour, the one before it for up and the one after it for down, and
    changes nothing else: the other modules keep their places, the result is
    a permutation of the modules, and the rest of the course is as it was.  It
    does nothing (no setCourse) exactly when no module has the id, or the
    first module with the id is the first (up) or the last (down) of the
    list. *)
Theorem X7_moveModule_swaps_neighbours
    (moduleId : jsstring) (direction : Direction) (course : Course) :
  match moveModule moduleId direction course with
  | Some moved =>
      exists pre x y post,
        has_id moduleId x = true
        /\ forallb (fun m => negb (has_id moduleId m)) pre = true
        /\ match direction with
           | up =>
               has_id moduleId y = false
               /\ modules course = pre ++ y :: x :: post
               /\ modules moved = pre ++ x :: y :: post
           | down =>
               modules course = pre ++ x :: y :: post
               /\ modules moved = pre ++ y :: x :: post
           end
        /\ moved = with_modules course (modules moved)
        /\ Permutation (modules moved) (modules course)
  | None =>
      forallb (fun m => negb (has_id moduleId m)) (modules course) = true
      \/ match direction with
         | up => exists x post, modules course = x :: post /\ has_id moduleId x = true
         | down =>
             exists pre x,
               modules course = pre ++ [x] /\ has_id moduleId x = true
               /\ forallb (fun m => negb (has_id moduleId m)) pre = true
         end
  end.
Proof.
  pose proof (moveModule_cases moduleId direction course) as H.
  destruct (moveModule moduleId direction course) as [moved|]; [|exact H].
  destruct H as (pre & x & y & post & Hx & Hpre & Hdir & Hmoved).
  exists pre, x, y, post.
  split; [done|]. split; [done|]. split; [done|]. split; [done|].
  destruct direction.
  - destruct Hdir as (_ & -> & ->). apply Permutation_app_head, perm_swap.
  - destruct Hdir as (-> & ->). apply Permutation_app_head, perm_swap.
Qed.

Lemma forallb_no_id_NoDup (moduleId : jsstring)
    (pre : list Module) (x : Module) (post : list Module) :
  NoDup (map module_id (pre ++ x :: post)) ->
  has_id moduleId x = true ->
  forallb (fun m => negb (has_id moduleId m)) post = true.
Proof.
  intros Hnd Hx. apply jsstring_eqb_eq in Hx.
  rewrite map_app in Hnd. apply NoDup_app in Hnd as (_ & _ & Hnd).
  cbn [map] in Hnd. apply NoDup_cons in Hnd as [Hnotin _].
  apply forallb_forall. intros m Hm. apply negb_true_iff, jsstring_eqb_neq.
  intros Heq. apply Hnotin. rewrite Hx, <- Heq.
  apply list_elem_of_In, in_map, Hm.
Qed.

(** X8: a move is undone by the opposite move.  If moveModule moves a module
    up, moving the same id down in the result gives the course back; if it
    moves a module down, moving the same id up gives the course back provided
    the module ids of the course are distinct. *)
Theorem X8_moveModule_back
    (moduleId : jsstring) (direction : Direction) (course moved : Course) :
  (direction = down -> NoDup (map module_id (modules course))) ->
  moveModule moduleId direction course = Some moved ->
  moveModule moduleId (opposite direction) moved = Some course.
Proof.
  intros Hnd Hmove.
  pose proof (moveModule_cases moduleId direction course) as H.
  rewrite Hmove in H.
  destruct H as (pre & x & y & post & Hx & Hpre & Hdir & Hmoved).
  destruct direction; cbn [opposite].
  - destruct Hdir as (Hy & Hl & Hl').
    rewrite (moveModule_down_run moduleId moved pre x y post Hl' Hpre Hx).
    rewrite Hmoved, with_modules_twice, <- Hl. apply f_equal, with_modules_same.
  - destruct Hdir as (Hl & Hl').
    assert (Hy : has_id moduleId y = false).
    { specialize (Hnd eq_refl). rewrite Hl in Hnd.
      pose proof (forallb_no_id_NoDup moduleId pre x (y :: post) Hnd Hx) as Hpost.
      cbn [forallb] in Hpost. apply andb_true_iff in Hpost as [Hy _].
      by apply negb_true_iff in Hy. }
    rewrite (moveModule_up_run moduleId moved pre y x post Hl').
    + rewrite Hmoved, with_modules_twice, <- Hl. apply f_equal, with_modules_same.
    + rewrite forallb_app, Hpre. cbn. by rewrite Hy.
    + done.
Qed.

Lemma X8_moveModule_back_witness :
  moveModule (str "m1") up
    (with_modules Sample.empty_course [Sample.m2; Sample.m1; Sample.m3])
  = Some (with_modules Sample.empty_course [Sample.m1; Sample.m2; Sample.m3]).
Proof.
  apply (X8_moveModule_back (str "m1") down
           (with_modules Sample.empty_course [Sample.m1; Sample.m2; Sample.m3])
           (with_modules Sample.empty_course [Sample.m2; Sample.m1; Sample.m3])).
  - intros _. apply (bool_decide_unpack _). by vm_compute.
  - reflexivity.
Defined.

(** X9: duplicateModule does nothing, and does not read the clock, when no
    module has the given id; otherwise it reads the clock once and inserts,
    right after the first module with the id, a copy of it whose id is mod_
    followed by the reading and whose title has " (Copia)" (with its accent)
    appended, leaving every other module in its place. *)
Theorem X9_duplicateModule_inserts_copy
    (moduleId : jsstring) (course : Course) (clock : Clock) :
  match List.find (has_id moduleId) (modules course) with
  | None => duplicateModule moduleId course clock = (None, clock)
  | Some original =>
      exists pre post,
        modules course = pre ++ original :: post
        /\ forallb (fun m => negb (has_id moduleId m)) pre = true
        /\ duplicateModule moduleId course clock
           = (Some (with_modules course
                      (pre ++ original
                         :: {| module_id := str "mod_" ++ decimal (readings clock (taken clock));
                               module_title :=
                                 module_title original ++ str " (C" ++ [0xF3] ++ str "pia)";
                               module_payload := module_payload original |}
                         :: post)),
              {| readings := readings clock; taken := S (taken clock) |})
  end.
Proof.
  unfold duplicateModule. rewrite find_findIndex.
  destruct (findIndex (has_id moduleId) (modules course)) as [index|] eqn:Hidx; [|done].
  destruct (findIndex_Some _ _ _ Hidx) as (pre & x & post & Hl & Hlen & Hx & Hpre).
  assert (Hlook : modules course !! index = Some x)
    by (rewrite Hl, <- Hlen; apply lookup_middle).
  cbn [mbind option_bind]. rewrite Hlook.
  exists pre, post. split; [done|]. split; [done|].
  unfold cbind, Date_now, cret. do 3 f_equal.
  rewrite Hl, <- Hlen.
  replace (length pre + 1)%nat with (length (pre ++ [x])) by (rewrite length_app; cbn; lia).
  replace (pre ++ x :: post) with ((pre ++ [x]) ++ post) at 1 by (by rewrite <- app_assoc).
  rewrite splice_insert_app. by rewrite <- app_assoc.
Qed.

(** X10: updateModule puts the updated module in the place of every module
    that has its id and touches nothing else: the sequence of module ids, the
    modules with another id, and the id, settings, media and mascot of the
    course are unchanged; when no module has the id, the course is
    unchanged. *)
Theorem X10_updateModule_replaces_by_id (updatedModule : Module) (prev : Course) :
  exists next,
    updateModule updatedModule (Some prev) = Some next
    /\ map module_id (modules next) = map module_id (modules prev)
    /\ (forall i m, modules prev !! i = Some m ->
          modules next !! i
          = Some (if jsstring_eqb (module_id m) (module_id updatedModule)
                  then updatedModule else m))
    /\ ((forall m, In m (modules prev) -> module_id m <> module_id updatedModule) ->
        next = prev)
    /\ course_id next = course_id prev /\ settings next = settings prev
    /\ media next = media prev /\ mascot next = mascot prev.
Proof.
  eexists. split; [reflexivity|]. cbn [modules with_modules].
  split.
  { rewrite map_map. apply map_ext. intros m.
    destruct (jsstring_eqb _ _) eqn:E; [|done]. by apply jsstring_eqb_eq in E. }
  split.
  { intros i m Hm. change (map ?f ?l) with (f <$> l). by rewrite list_lookup_fmap, Hm. }
  split; [|done].
  intros Hnone. rewrite <- (with_modules_same prev) at 3. f_equal.
  rewrite <- (map_id (modules prev)) at 2. apply map_ext_in. intros m Hm.
  destruct (jsstring_eqb _ _) eqn:E; [|done].
  apply jsstring_eqb_eq in E. by destruct (Hnone m Hm).
Qed.

Lemma NoDup_snoc_iff {A} (l : list A) (x : A) : NoDup (l ++ [x]) <-> ~ In x l /\ NoDup l.
Proof.
  rewrite <- (Permutation_cons_append l x), NoDup_cons, <- list_elem_of_In. tauto.
Qed.

Lemma NoDup_middle_iff {A} (l k : list A) (x : A) :
  NoDup (l ++ x :: k) <-> ~ In x (l ++ k) /\ NoDup (l ++ k).
Proof.
  rewrite <- (Permutation_middle l k x), NoDup_cons, <- list_elem_of_In. tauto.
Qed.

Lemma duplicateModule_Some (moduleId : jsstring) (course next : Course) (clock clock' : Clock) :
  duplicateModule moduleId course clock = (Some next, clock') ->
  exists pre original copy post,
    modules course = pre ++ original :: post
    /\ modules next = pre ++ original :: copy :: post
    /\ module_id copy = str "mod_" ++ decimal (readings clock (taken clock)).
Proof.
  unfold duplicateModule. rewrite find_findIndex.
  destruct (findIndex (has_id moduleId) (modules course)) as [index|] eqn:Hidx; [|done].
  destruct (findIndex_Some _ _ _ Hidx) as (pre & x & post & Hl & Hlen & Hx & Hpre).
  assert (Hlook : modules course !! index = Some x)
    by (rewrite Hl, <- Hlen; apply lookup_middle).
  cbn [mbind option_bind]. rewrite Hlook.
  unfold cbind, Date_now, cret. intros [= <- _].
  eexists pre, x, _, post. split; [done|]. split.
  - cbn [modules with_modules]. rewrite Hl, <- Hlen.
    replace (length pre + 1)%nat with (length (pre ++ [x])) by (rewrite length_app; cbn; lia).
    replace (pre ++ x :: post) with ((pre ++ [x]) ++ post) at 1 by (by rewrite <- app_assoc).
    rewrite splice_insert_app. by rewrite <- app_assoc.
  - reflexivity.
Qed.

(** X11: the handlers of the module list keep the module ids distinct as
    far as the clock allows.  On a course with distinct module ids, moveModule
    and updateModule always give a course with distinct module ids, and
    addModule and duplicateModule give one exactly when no module of the
    course already has the id mod_ followed by the reading of the clock (two
    modules made within the same millisecond share their id). *)
Theorem X11_module_ids_stay_distinct (course : Course) (clock : Clock) :
  NoDup (map module_id (modules course)) ->
  (forall type next clock',
     addModule type course clock = (Some next, clock') ->
     NoDup (map module_id (modules next))
     <-> ~ In (str "mod_" ++ decimal (readings clock (taken clock)))
              (map module_id (modules course)))
  /\ (forall moduleId next clock',
        duplicateModule moduleId course clock = (Some next, clock') ->
        NoDup (map module_id (modules next))
        <-> ~ In (str "mod_" ++ decimal (readings clock (taken clock)))
                 (map module_id (modules course)))
  /\ (forall moduleId direction next,
        moveModule moduleId direction course = Some next ->
        NoDup (map module_id (modules next)))
  /\ (forall updatedModule next,
        updateModule updatedModule (Some course) = Some next ->
        NoDup (map module_id (modules next))).
Proof.
  intros Hnd. split; [|split; [|split]].
  - intros type next clock' Hadd.
    assert (Hnext : map module_id (modules next)
                    = map module_id (modules course)
                      ++ [str "mod_" ++ decimal (readings clock (taken clock))]).
    { unfold addModule, cbind, Date_now, cret in Hadd.
      destruct type; try discriminate Hadd; injection Hadd as <- _;
        cbn [modules with_modules]; by rewrite map_app. }
    rewrite Hnext, NoDup_snoc_iff. tauto.
  - intros moduleId next clock' Hdup.
    destruct (duplicateModule_Some _ _ _ _ _ Hdup)
      as (pre & x & copy & post & Hl & -> & Hcopy).
    rewrite Hl in *.
    replace (pre ++ x :: copy :: post) with ((pre ++ [x]) ++ copy :: post)
      by (by rewrite <- app_assoc).
    rewrite map_app. cbn [map]. rewrite NoDup_middle_iff, <- map_app, <- app_assoc, Hcopy.
    cbn [app]. tauto.
  - intros moduleId direction next Hmove.
    pose proof (moveModule_cases moduleId direction course) as H. rewrite Hmove in H.
    destruct H as (pre & x & y & post & _ & _ & Hdir & _).
    assert (Hperm : Permutation (modules next) (modules course)).
    { destruct direction.
      - destruct Hdir as (_ & -> & ->). apply Permutation_app_head, perm_swap.
      - destruct Hdir as (-> & ->). apply Permutation_app_head, perm_swap. }
    by rewrite Hperm.
  - intros updatedModule next [= <-]. cbn [modules with_modules].
    replace (map module_id (map _ (modules course))) with (map module_id (modules course));
      [done|].
    rewrite map_map. apply map_ext. intros m.
    destruct (jsstring_eqb _ _) eqn:E; [|done]. by apply jsstring_eqb_eq in E.
Qed.

Lemma X11_module_ids_stay_distinct_witness :
  let course := with_modules Sample.empty_course [Sample.m1; Sample.m2; Sample.m3] in
  exists next clock',
    duplicateModule (str "m2") course Sample.clock = (Some next, clock')
    /\ NoDup (map module_id (modules next)).
Proof.
  intros course. eexists _, _. split; [reflexivity|].
  assert (Hnd : NoDup (map module_id (modules course)))
    by (apply (bool_decide_unpack _); by vm_compute).
  eapply (proj1 (proj2 (X11_module_ids_stay_distinct course Sample.clock Hnd))
            (str "m2")); [reflexivity|].
  intros Hin. vm_compute in Hin. by repeat destruct Hin as [Hin|Hin].
Defined.

(** ** The quiz editor *)

(** X12: addQuestion reads the clock four times and appends one question
    with two options; the id of the question and of the options carry the
    first three readings and correctOptionId carries the fourth.  The new
    question's correctOptionId is the id of one of its options exactly when
    the second and the fourth reading are the same millisecond. *)
Theorem X12_addQuestion_correct_option (questions : list QuizQuestion) (clock : Clock) :
  exists q,
    addQuestion questions clock
    = (questions ++ [q], {| readings := readings clock; taken := 4 + taken clock |})
    /\ question_id q = str "q_" ++ decimal (readings clock (taken clock))
    /\ map option_id (question_options q)
       = [str "opt_" ++ decimal (readings clock (1 + taken clock)) ++ str "_1";
          str "opt_" ++ decimal (readings clock (2 + taken clock)) ++ str "_2"]
    /\ question_correctOptionId q
       = str "opt_" ++ decimal (readings clock (3 + taken clock)) ++ str "_1"
    /\ ((exists o, In o (question_options q) /\ option_id o = question_correctOptionId q)
        <-> readings clock (1 + taken clock) = readings clock (3 + taken clock)).
Proof.
  eexists. split; [reflexivity|].
  cbn [question_id question_options question_correctOptionId map option_id readings taken].
  split; [reflexivity|]. split; [reflexivity|]. split; [reflexivity|].
  split.
  - intros (o & [<-|[<-|[]]] & Ho); cbn [option_id] in Ho.
    + apply app_inv_head, app_inv_tail in Ho. by apply decimal_inj in Ho.
    + exfalso. apply (f_equal (@rev N)) in Ho.
      rewrite !rev_app_distr in Ho. vm_compute in Ho. discriminate Ho.
  - intros Heq. eexists. split; [left; reflexivity|]. cbn [option_id].
    change (1 + taken clock)%nat with (S (taken clock)) in Heq.
    change (3 + taken clock)%nat with (S (S (S (taken clock)))) in Heq.
    by rewrite Heq.
Qed.

Lemma length_filter_NoDup_ids (optId : jsstring) (options : list QuizOption) :
  NoDup (map option_id options) ->
  (length options
   <= S (length (List.filter (fun o => negb (jsstring_eqb (option_id o) optId)) options)))%nat.
Proof.
  induction options as [|o options IH]; cbn [map List.filter length]; [lia|].
  intros Hnd. apply NoDup_cons in Hnd as [Hnotin Hnd].
  destruct (jsstring_eqb (option_id o) optId) eqn:Ho; cbn [negb length].
  - apply jsstring_eqb_eq in Ho.
    assert (Hall : List.filter (fun o => negb (jsstring_eqb (option_id o) optId)) options
                   = options).
    { apply forallb_filter_id. apply forallb_forall. intros o' Ho'.
      apply negb_true_iff, jsstring_eqb_neq. intros Heq. apply Hnotin.
      rewrite Ho, <- Heq. apply list_elem_of_In, in_map, Ho'. }
    rewrite Hall. lia.
  - specialize (IH Hnd). lia.
Qed.

(** X13: when the option ids of every question are distinct, removeOption
    keeps the questions and their order, changes at most the options of the
    questions with the given id, removes at most one option from a question
    and adds none, and never brings a question with two or more options below
    two options. *)
Theorem X13_removeOption_keeps_two_options
    (qId optId : jsstring) (questions : list QuizQuestion) :
  Forall (fun q => NoDup (map option_id (question_options q))) questions ->
  length (removeOption qId optId questions) = length questions
  /\ forall i q, questions !! i = Some q ->
       exists q',
         removeOption qId optId questions !! i = Some q'
         /\ question_id q' = question_id q
         /\ question_question q' = question_question q
         /\ question_correctOptionId q' = question_correctOptionId q
         /\ question_explanation q' = question_explanation q
         /\ (2 <= length (question_options q) -> 2 <= length (question_options q'))%nat
         /\ (length (question_options q) <= S (length (question_options q')))%nat
         /\ (forall o, In o (question_options q') -> In o (question_options q))
         /\ (question_id q <> qId -> q' = q).
Proof.
  intros Hnd. unfold removeOption. split; [apply length_map|].
  intros i q Hq. change (map ?f ?l) with (f <$> l). rewrite list_lookup_fmap, Hq.
  eexists. split; [reflexivity|].
  rewrite Forall_forall in Hnd. specialize (Hnd q (list_elem_of_lookup_2 _ _ _ Hq)).
  destruct (jsstring_eqb (question_id q) qId) eqn:Hid.
  - destruct (length (question_options q) <=? 2)%nat eqn:Hlen.
    + repeat split; try done; lia.
    + apply Nat.leb_gt in Hlen. cbn [with_options question_id question_question
        question_options question_correctOptionId question_explanation].
      pose proof (length_filter_NoDup_ids optId (question_options q) Hnd) as Hf.
      repeat split; try done; try lia.
      * intros o Ho. by apply filter_In in Ho as [Ho _].
      * intros Hne. by apply jsstring_eqb_eq in Hid.
  - repeat split; try done; lia.
Qed.

Lemma X13_removeOption_keeps_two_options_witness :
  length (removeOption (str "q2") (str "b") [Sample.three_options]) = 1%nat
  /\ exists q',
       removeOption (str "q2") (str "b") [Sample.three_options] !! 0%nat = Some q'
       /\ (2 <= length (question_options q'))%nat.
Proof.
  destruct (X13_removeOption_keeps_two_options (str "q2") (str "b") [Sample.three_options])
    as [Hlen Hq].
  - constructor; [|constructor]. apply (bool_decide_unpack _). by vm_compute.
  - split; [exact Hlen|].
    destruct (Hq 0%nat Sample.three_options eq_refl) as (q' & Hq' & _ & _ & _ & _ & H2 & _).
    exists q'. split; [exact Hq'|]. apply H2. cbn. lia.
Defined.

Lemma filter_none_left (optId : jsstring) (options : list QuizOption) :
  Forall (fun o => option_id o <> optId)
    (List.filter (fun o => negb (jsstring_eqb (option_id o) optId)) options).
Proof.
  apply Forall_forall. intros o Ho. apply list_elem_of_In, filter_In in Ho as [_ Ho].
  by apply negb_true_iff, jsstring_eqb_neq in Ho.
Qed.

(** X14: removeOption does not repair correctOptionId.  Removing the correct
    option of a question that has more than two options leaves the question
    with the same correctOptionId, which is then the id of none of its
    options. *)
Theorem X14_removeOption_of_correct_option
    (questions : list QuizQuestion) (i : nat) (q : QuizQuestion) :
  questions !! i = Some q ->
  (2 < length (question_options q))%nat ->
  exists q',
    removeOption (question_id q) (question_correctOptionId q) questions !! i = Some q'
    /\ question_correctOptionId q' = question_correctOptionId q
    /\ Forall (fun o => option_id o <> question_correctOptionId q') (question_options q').
Proof.
  intros Hq Hlen. unfold removeOption.
  change (map ?f ?l) with (f <$> l). rewrite list_lookup_fmap, Hq.
  eexists. split; [reflexivity|].
  rewrite jsstring_eqb_refl.
  replace (length (question_options q) <=? 2)%nat with false
    by (symmetry; apply Nat.leb_gt; lia).
  split; [reflexivity|]. apply filter_none_left.
Qed.

Lemma X14_removeOption_of_correct_option_witness :
  exists q',
    removeOption (str "q2") (str "a") [Sample.three_options] !! 0%nat = Some q'
    /\ question_correctOptionId q' = str "a"
    /\ Forall (fun o => option_id o <> question_correctOptionId q') (question_options q').
Proof.
  destruct (X14_removeOption_of_correct_option [Sample.three_options] 0%nat
              Sample.three_options)
    as (q' & H1 & H2 & H3).
  - reflexivity.
  - cbn. lia.
  - exists q'. split; [exact H1|]. split; [exact H2|exact H3].
Defined.

(* The reading of the clock that addOption uses for the question at [i]. *)
Lemma addOption_run (qId : jsstring) (questions : list QuizQuestion) (clock : Clock) :
  let matching := fun q => jsstring_eqb (question_id q) qId in
  exists edited,
    addOption qId questions clock
    = (edited, {| readings := readings clock;
                  taken := taken clock + length (List.filter matching questions) |})
    /\ length edited = length questions
    /\ forall i q, questions !! i = Some q ->
         edited !! i
         = Some (if matching q then
                   with_options q
                     (question_options q
                      ++ [{| option_id :=
                               str "opt_"
                               ++ decimal (readings clock
                                             (taken clock
                                              + length (List.filter matching (take i questions))));
                             option_text :=
                               Opcao ++ str " "
                               ++ decimal (N.of_nat (length (question_options q) + 1)) |}])
                 else q).
Proof.
  intros matching. revert clock.
  induction questions as [|q0 questions IH]; intros clock.
  - exists []. split; [|split; [done|intros i q Hq; by rewrite lookup_nil in Hq]].
    cbn. rewrite Nat.add_0_r. destruct clock; reflexivity.
  - unfold addOption. cbn [map_clocked]. fold (addOption qId questions).
    cbn [List.filter]. fold (matching q0).
    destruct (matching q0) eqn:Hq0.
    + unfold cbind at 1. unfold cbind at 1. unfold Date_now, cret at 1.
      destruct (IH {| readings := readings clock; taken := S (taken clock) |})
        as (edited & Hrun & Hlen & Hat).
      unfold cbind at 1. rewrite Hrun. unfold cret. cbn [readings taken] in *.
      eexists. split.
      { cbn [length]. f_equal. f_equal. lia. }
      split; [cbn [length]; by rewrite Hlen|].
      intros [|i] q Hq.
      * injection Hq as <-. cbn [lookup list_lookup take List.filter length].
        by rewrite Hq0, Nat.add_0_r.
      * cbn [lookup list_lookup] in Hq. cbn [lookup list_lookup].
        etransitivity; [exact (Hat i q Hq)|].
        cbn [take List.filter]. rewrite Hq0. cbn [length].
        replace (S (taken clock) + length (List.filter matching (take i questions)))%nat
          with (taken clock + S (length (List.filter matching (take i questions))))%nat by lia.
        reflexivity.
    + unfold cbind at 1. unfold cret at 1.
      destruct (IH clock) as (edited & Hrun & Hlen & Hat).
      unfold cbind at 1. rewrite Hrun. unfold cret.
      eexists. split; [reflexivity|].
      split; [cbn [length]; by rewrite Hlen|].
      intros [|i] q Hq.
      * injection Hq as <-. cbn [lookup list_lookup]. by rewrite Hq0.
      * cbn [lookup list_lookup] in Hq. cbn [lookup list_lookup].
        etransitivity; [exact (Hat i q Hq)|].
        cbn [take List.filter]. by rewrite Hq0.
Qed.

Lemma map_by_lookup {A B C} (f : A -> C) (g : B -> C) (l' : list A) (l : list B) :
  length l' = length l ->
  (forall i x, l !! i = Some x -> exists y, l' !! i = Some y /\ f y = g x) ->
  map f l' = map g l.
Proof.
  intros Hlen H. apply list_eq. intros i.
  change (map f l') with (f <$> l'). change (map g l) with (g <$> l).
  rewrite !list_lookup_fmap.
  destruct (l !! i) as [x|] eqn:Hx.
  - destruct (H i x Hx) as (y & -> & Hy). cbn. by rewrite Hy.
  - apply lookup_ge_None in Hx. rewrite <- Hlen in Hx. apply lookup_ge_None in Hx.
    by rewrite Hx.
Qed.

(** X15: an edit of one question leaves the other questions alone.
    updateQuestion, updateOption and addOption keep the questions, their
    order and their ids; a question with another id is unchanged.
    updateQuestion keeps the options of every question; updateOption keeps
    the option ids and the correctOptionId of every question.  addOption
    reads the clock once for every question with the given id, in order, and
    appends to each of them one option whose id is opt_ followed by that
    reading and whose text is the default word followed by the new number of
    options. *)
Theorem X15_quiz_edits_are_local (qId : jsstring) (questions : list QuizQuestion) :
  (forall field value,
     map question_id (updateQuestion qId field value questions) = map question_id questions
     /\ map question_options (updateQuestion qId field value questions)
        = map question_options questions
     /\ forall i q, questions !! i = Some q -> question_id q <> qId ->
          updateQuestion qId field value questions !! i = Some q)
  /\ (forall optId text,
        map question_id (updateOption qId optId text questions) = map question_id questions
        /\ map (fun q => map option_id (question_options q))
             (updateOption qId optId text questions)
           = map (fun q => map option_id (question_options q)) questions
        /\ map question_correctOptionId (updateOption qId optId text questions)
           = map question_correctOptionId questions
        /\ forall i q, questions !! i = Some q -> question_id q <> qId ->
             updateOption qId optId text questions !! i = Some q)
  /\ (forall clock,
        let matching := fun q => jsstring_eqb (question_id q) qId in
        map question_id (fst (addOption qId questions clock)) = map question_id questions
        /\ snd (addOption qId questions clock)
           = {| readings := readings clock;
                taken := taken clock + length (List.filter matching questions) |}
        /\ forall i q, questions !! i = Some q ->
             fst (addOption qId questions clock) !! i
             = Some (if matching q then
                       with_options q
                         (question_options q
                          ++ [{| option_id :=
                                   str "opt_"
                                   ++ decimal
                                        (readings clock
                                           (taken clock
                                            + length (List.filter matching
                                                        (take i questions))));
                                 option_text :=
                                   Opcao ++ str " "
                                   ++ decimal
                                        (N.of_nat (length (question_options q) + 1)) |}])
                     else q)).
Proof.
  split; [|split].
  - intros field value. unfold updateQuestion. split; [|split].
    + rewrite map_map. apply map_ext. intros q. by destruct (jsstring_eqb _ _).
    + rewrite map_map. apply map_ext. intros q. by destruct (jsstring_eqb _ _).
    + intros i q Hq Hne. change (map ?f ?l) with (f <$> l).
      rewrite list_lookup_fmap, Hq. cbn.
      destruct (jsstring_eqb _ _) eqn:E; [|done]. by apply jsstring_eqb_eq in E.
  - intros optId text. unfold updateOption. split; [|split; [|split]].
    + rewrite map_map. apply map_ext. intros q. by destruct (jsstring_eqb _ _).
    + rewrite map_map. apply map_ext. intros q.
      destruct (jsstring_eqb _ _); [|done]. cbn [with_options question_options].
      rewrite map_map. apply map_ext. intros o. by destruct (jsstring_eqb _ _).
    + rewrite map_map. apply map_ext. intros q. by destruct (jsstring_eqb _ _).
    + intros i q Hq Hne. change (map ?f ?l) with (f <$> l) at 1.
      rewrite list_lookup_fmap, Hq. cbn.
      destruct (jsstring_eqb _ _) eqn:E; [|done]. by apply jsstring_eqb_eq in E.
  - intros clock matching.
    destruct (addOption_run qId questions clock) as (edited & Hrun & Hlen & Hat).
    rewrite Hrun. cbn [fst snd]. split; [|split; [reflexivity|exact Hat]].
    apply map_by_lookup; [done|]. intros i q Hq. eexists. split; [exact (Hat i q Hq)|].
    by destruct (jsstring_eqb _ _).
Qed.

Lemma filter_all {A} (p : A -> bool) (l : list A) :
  (forall x, In x l -> p x = true) -> List.filter p l = l.
Proof.
  induction l as [|x l IH]; intros H; cbn [List.filter]; [done|].
  rewrite (H x (or_introl eq_refl)), IH; [done|]. intros y Hy. apply H. by right.
Qed.

Lemma filter_fixed {A} (p : A -> bool) (l : list A) :
  List.filter p l = l <-> forall x, In x l -> p x = true.
Proof.
  split.
  - intros H x Hx. rewrite <- H in Hx. by apply filter_In in Hx as [_ Hx].
  - apply filter_all.
Qed.

(** X16: removing what was just added.  addCard appends one card with the
    id c_ followed by the reading of the clock and empty faces; removing that
    id afterwards removes the new card and every older card with the same id,
    so it gives the cards back exactly when no card had that id before.  The
    same holds for addQuestion and removeQuestion with the id q_ followed by
    the first reading. *)
Theorem X16_remove_undoes_add
    (cards : list Card) (questions : list QuizQuestion) (clock : Clock) :
  let now := readings clock (taken clock) in
  (fst (addCard cards clock)
   = cards ++ [{| card_id := str "c_" ++ decimal now; card_front := []; card_back := [] |}]
   /\ removeCard (str "c_" ++ decimal now) (fst (addCard cards clock))
      = removeCard (str "c_" ++ decimal now) cards
   /\ (removeCard (str "c_" ++ decimal now) (fst (addCard cards clock)) = cards
       <-> forall c, In c cards -> card_id c <> str "c_" ++ decimal now))
  /\ (removeQuestion (str "q_" ++ decimal now) (fst (addQuestion questions clock))
      = removeQuestion (str "q_" ++ decimal now) questions
      /\ (removeQuestion (str "q_" ++ decimal now) (fst (addQuestion questions clock))
          = questions
          <-> forall q, In q questions -> question_id q <> str "q_" ++ decimal now)).
Proof.
  intros now. split.
  - assert (Hrm : removeCard (str "c_" ++ decimal now) (fst (addCard cards clock))
                  = removeCard (str "c_" ++ decimal now) cards).
    { unfold addCard, cbind, Date_now, cret, removeCard. cbn [fst].
      rewrite List.filter_app. cbn [List.filter card_id]. fold now.
      by rewrite jsstring_eqb_refl, app_nil_r. }
    split; [reflexivity|]. split; [exact Hrm|].
    rewrite Hrm. unfold removeCard. rewrite filter_fixed.
    split; intros H c Hc.
    + by apply jsstring_eqb_neq, negb_true_iff, H.
    + by apply negb_true_iff, jsstring_eqb_neq, H.
  - assert (Hrm : removeQuestion (str "q_" ++ decimal now) (fst (addQuestion questions clock))
                  = removeQuestion (str "q_" ++ decimal now) questions).
    { unfold addQuestion, cbind, Date_now, cret, removeQuestion. cbn [fst].
      rewrite List.filter_app. cbn [List.filter question_id readings taken]. fold now.
      by rewrite jsstring_eqb_refl, app_nil_r. }
    split; [exact Hrm|].
    rewrite Hrm. unfold removeQuestion. rewrite filter_fixed.
    split; intros H q Hq.
    + by apply jsstring_eqb_neq, negb_true_iff, H.
    + by apply negb_true_iff, jsstring_eqb_neq, H.
Qed.

(** * Properties of the export dialogue (ExportSelectionModal.tsx, App) *)

Lemma Set_has_add (x y : jsstring) (s : StringSet) :
  Set_has (Set_add x s) y = jsstring_eqb y x || Set_has s y.
Proof.
  unfold Set_add. destruct (Set_has s x) eqn:Hx.
  - destruct (jsstring_eqb y x) eqn:Hy; [|done].
    apply jsstring_eqb_eq in Hy. by subst y.
  - unfold Set_has. rewrite existsb_app. cbn. rewrite orb_false_r. apply orb_comm.
Qed.

Lemma Set_has_delete (x y : jsstring) (s : StringSet) :
  Set_has (Set_delete x s) y = negb (jsstring_eqb y x) && Set_has s y.
Proof.
  unfold Set_has, Set_delete. induction s as [|z s IH]; cbn [List.filter existsb].
  - by rewrite andb_false_r.
  - destruct (jsstring_eqb z x) eqn:Hz; cbn [negb existsb]; rewrite IH.
    + apply jsstring_eqb_eq in Hz. subst z.
      destruct (jsstring_eqb y x) eqn:Hy; cbn; [done|done].
    + destruct (jsstring_eqb y z) eqn:Hy; cbn; [|done].
      apply jsstring_eqb_eq in Hy. subst z.
      by rewrite Hz.
Qed.

Lemma Set_has_elem_of (s : StringSet) (x : jsstring) : Set_has s x = true <-> x ∈ s.
Proof.
  unfold Set_has. rewrite existsb_exists. split.
  - intros (y & Hy & Heq). apply jsstring_eqb_eq in Heq. subst y. by apply list_elem_of_In.
  - intros Hx. exists x. split; [by apply list_elem_of_In|apply jsstring_eqb_refl].
Qed.

Lemma NoDup_Set_add (x : jsstring) (s : StringSet) : NoDup s -> NoDup (Set_add x s).
Proof.
  intros Hs. unfold Set_add. destruct (Set_has s x) eqn:Hx; [done|].
  apply NoDup_app. split; [done|]. split; [|apply NoDup_singleton].
  intros y Hy Hy'. apply list_elem_of_singleton in Hy'. subst y.
  assert (Set_has s x = true); [|congruence]. by apply Set_has_elem_of.
Qed.

Lemma NoDup_Set_delete (x : jsstring) (s : StringSet) : NoDup s -> NoDup (Set_delete x s).
Proof.
  intros Hs. unfold Set_delete. induction Hs as [|y s Hy Hs IH]; cbn [List.filter].
  - constructor.
  - destruct (negb _); [|done]. constructor; [|done].
    intros Hin. apply Hy. apply list_elem_of_In, filter_In in Hin as [Hin _].
    by apply list_elem_of_In.
Qed.

Lemma new_Set_spec (l : list jsstring) :
  NoDup (new_Set l) /\ forall y, Set_has (new_Set l) y = Set_has l y.
Proof.
  unfold new_Set.
  assert (H : forall acc, NoDup acc ->
            NoDup (fold_left (fun s x => Set_add x s) l acc)
            /\ forall y, Set_has (fold_left (fun s x => Set_add x s) l acc) y
                         = Set_has acc y || Set_has l y).
  { induction l as [|x l IH]; intros acc Hacc; cbn [fold_left].
    - split; [done|]. intros y. cbn. by rewrite orb_false_r.
    - destruct (IH (Set_add x acc) (NoDup_Set_add x acc Hacc)) as [Hnd Hhas].
      split; [done|]. intros y. rewrite Hhas, Set_has_add. cbn [Set_has existsb].
      destruct (jsstring_eqb y x), (Set_has acc y); by cbn. }
  destruct (H [] NoDup_nil_2) as [Hnd Hhas]. split; [done|].
  intros y. by rewrite Hhas.
Qed.

Lemma new_Set_NoDup (s : StringSet) : NoDup s -> new_Set s = s.
Proof.
  unfold new_Set.
  assert (H : forall acc, NoDup (acc ++ s) ->
            fold_left (fun s x => Set_add x s) s acc = acc ++ s).
  { induction s as [|x s IH]; intros acc Hnd; cbn [fold_left]; [by rewrite app_nil_r|].
    assert (Hx : Set_has acc x = false).
    { apply not_true_iff_false. intros Hx. apply Set_has_elem_of in Hx.
      apply NoDup_app in Hnd as (_ & Hdis & _). apply (Hdis x); [done|]. by left. }
    unfold Set_add at 2. rewrite Hx.
    rewrite IH; [by rewrite <- app_assoc|]. by rewrite <- app_assoc. }
  intros Hs. by apply (H []).
Qed.

Lemma courseToSave_same_selection (course : Course) (ids ids' : list jsstring) :
  (forall m, In m (modules course) ->
     includes ids (module_id m) = includes ids' (module_id m)) ->
  courseToSave course (Some ids) = courseToSave course (Some ids').
Proof.
  intros H. unfold courseToSave. cbv zeta. do 2 f_equal.
  cbn [modules with_modules].
  induction (modules course) as [|m l IH]; cbn [List.filter]; [done|].
  rewrite (H m (or_introl eq_refl)), IH; [done|]. intros m' Hm'. apply H. by right.
Qed.

Lemma courseToSave_all_selected (course : Course) (ids : list jsstring) :
  (forall m, In m (modules course) -> includes ids (module_id m) = true) ->
  courseToSave course (Some ids) = courseToSave course None.
Proof.
  intros H. unfold courseToSave. cbv zeta. do 2 f_equal.
  cbn [modules with_modules]. by apply filter_all.
Qed.

Lemma replace_whitespace_clean (s : jsstring) :
  Forall (fun c => isWhiteSpace c = false) (replace_whitespace s).
Proof.
  unfold replace_whitespace. apply Forall_forall. intros c Hc.
  apply list_elem_of_In, in_map_iff in Hc as (c0 & <- & _).
  destruct (isWhiteSpace c0) eqn:E; [by vm_compute|done].
Qed.

(** X17: for a selection without repetitions that holds module ids only,
    over modules with distinct ids, allSelected (a comparison of sizes) is
    true exactly when every module is selected; toggleAll selects every
    module when not all were selected and no module when all were; and
    someSelected is true exactly when the selection is neither empty nor
    all. *)
Theorem X17_allSelected_means_all (selectedIds : StringSet) (courseModules : list Module) :
  NoDup (map module_id courseModules) ->
  NoDup selectedIds ->
  (forall x, Set_has selectedIds x = true -> In x (map module_id courseModules)) ->
  (allSelected selectedIds courseModules = true
   <-> forall m, In m courseModules -> Set_has selectedIds (module_id m) = true)
  /\ (forall m, In m courseModules ->
        Set_has (toggleAll selectedIds courseModules) (module_id m)
        = negb (allSelected selectedIds courseModules))
  /\ (someSelected selectedIds courseModules = true
      <-> selectedIds <> [] /\ allSelected selectedIds courseModules = false).
Proof.
  intros Hids Hsel Hsub.
  assert (Hincl : selectedIds ⊆+ map module_id courseModules).
  { apply NoDup_submseteq; [done|]. intros x Hx.
    apply list_elem_of_In, Hsub. by apply Set_has_elem_of. }
  assert (Hiff : allSelected selectedIds courseModules = true
                 <-> forall m, In m courseModules -> Set_has selectedIds (module_id m) = true).
  { unfold allSelected, Set_size. rewrite Nat.eqb_eq. split.
    - intros Hlen m Hm. apply Set_has_elem_of.
      assert (Hperm : selectedIds ≡ₚ map module_id courseModules).
      { apply submseteq_length_Permutation; [done|]. rewrite length_map. lia. }
      rewrite Hperm. by apply list_elem_of_In, in_map.
    - intros Hall. apply Nat.le_antisymm.
      + rewrite <- (length_map module_id). by apply submseteq_length.
      + rewrite <- (length_map module_id courseModules). apply submseteq_length.
        apply NoDup_submseteq; [done|]. intros x Hx.
        apply list_elem_of_In, in_map_iff in Hx as (m & <- & Hm).
        by apply Set_has_elem_of, Hall. }
  split; [exact Hiff|]. split.
  - intros m Hm. unfold toggleAll. destruct (allSelected selectedIds courseModules); [done|].
    cbn [negb]. destruct (new_Set_spec (map module_id courseModules)) as [_ Hnew].
    rewrite Hnew. apply Set_has_elem_of. by apply list_elem_of_In, in_map.
  - apply submseteq_length in Hincl. rewrite length_map in Hincl.
    unfold someSelected, allSelected, Set_size.
    rewrite andb_true_iff, !Nat.ltb_lt, Nat.eqb_neq.
    destruct selectedIds as [|x l]; cbn [length] in *.
    + split; [lia|]. by intros [H _].
    + split; [intros [_ H]; split; [done|lia]|]. intros [_ H]. lia.
Qed.

Lemma X17_allSelected_means_all_witness :
  allSelected [str "m1"] [Sample.m1; Sample.m2] = false
  /\ forall m, In m [Sample.m1; Sample.m2] ->
       Set_has (toggleAll [str "m1"] [Sample.m1; Sample.m2]) (module_id m) = true.
Proof.
  split; [reflexivity|].
  apply (X17_allSelected_means_all [str "m1"] [Sample.m1; Sample.m2]).
  - apply (bool_decide_unpack _). by vm_compute.
  - apply NoDup_singleton.
  - intros x Hx. unfold Set_has in Hx. cbn [existsb] in Hx. rewrite orb_false_r in Hx.
    apply jsstring_eqb_eq in Hx. subst x. left. reflexivity.
Defined.

Section ExportFromTheApp.

Variable browser : Browser.

Lemma zipCourse_courseToSave (course : Course) (ids ids' : option (list jsstring)) (w : World) :
  courseToSave course ids = courseToSave course ids' ->
  zipCourse browser course ids w = zipCourse browser course ids' w.
Proof.
  intros H. unfold zipCourse, zipCourse_entries, document. cbv zeta. by rewrite H.
Qed.

(** X18: the export dialogue opens with every module selected, without
    repetitions, and confirming that selection unchanged exports exactly what
    zipCourse gives without a module filter: the same archive and the same
    effects. *)
Theorem X18_export_of_default_selection (course : Course) (w : World) :
  exists selectedIds,
    openExportSelectionModal (Some course) = Some selectedIds
    /\ NoDup selectedIds
    /\ (forall m, In m (modules course) -> Set_has selectedIds (module_id m) = true)
    /\ zipCourse browser course (Some (handleConfirm (opened_with selectedIds))) w
       = zipCourse browser course None w.
Proof.
  eexists. split; [reflexivity|].
  destruct (new_Set_spec (map module_id (modules course))) as [Hnd Hhas].
  assert (Hall : forall m, In m (modules course) ->
            Set_has (new_Set (map module_id (modules course))) (module_id m) = true).
  { intros m Hm. rewrite Hhas. apply Set_has_elem_of. by apply list_elem_of_In, in_map. }
  split; [done|]. split; [done|].
  apply zipCourse_courseToSave, courseToSave_all_selected.
  intros m Hm. unfold handleConfirm, Array_from, opened_with. rewrite (new_Set_NoDup _ Hnd).
  by apply Hall.
Qed.

(** X19: toggleSelection gives a selection without repetitions in which the
    given id has changed sides and every other id is where it was; toggling
    the same id twice gives a selection that exports the same archive, with
    the same effects, as the selection before. *)
Theorem X19_toggleSelection_flips_one (id : jsstring) (selectedIds : StringSet)
    (course : Course) (w : World) :
  NoDup (toggleSelection id selectedIds)
  /\ (forall x, Set_has (toggleSelection id selectedIds) x
                = if jsstring_eqb x id then negb (Set_has selectedIds x)
                  else Set_has selectedIds x)
  /\ zipCourse browser course
       (Some (handleConfirm (toggleSelection id (toggleSelection id selectedIds)))) w
     = zipCourse browser course (Some (handleConfirm selectedIds)) w.
Proof.
  assert (Hflip : forall s x, Set_has (toggleSelection id s) x
                    = if jsstring_eqb x id then negb (Set_has s x) else Set_has s x).
  { intros s x. unfold toggleSelection. cbv zeta.
    destruct (new_Set_spec s) as [Hnd Hhas].
    destruct (Set_has (new_Set s) id) eqn:Hid.
    - rewrite Set_has_delete, Hhas.
      destruct (jsstring_eqb x id) eqn:Hx; cbn; [|done].
      apply jsstring_eqb_eq in Hx. subst x. by rewrite <- Hhas, Hid.
    - rewrite Set_has_add, Hhas.
      destruct (jsstring_eqb x id) eqn:Hx; cbn; [|done].
      apply jsstring_eqb_eq in Hx. subst x. by rewrite <- Hhas, Hid. }
  split; [|split; [apply Hflip|]].
  - unfold toggleSelection. cbv zeta. destruct (new_Set_spec selectedIds) as [Hnd _].
    destruct (Set_has _ id); [by apply NoDup_Set_delete|by apply NoDup_Set_add].
  - apply zipCourse_courseToSave, courseToSave_same_selection.
    intros m Hm. unfold handleConfirm, Array_from.
    change (includes ?s ?x) with (Set_has s x). rewrite !Hflip.
    destruct (jsstring_eqb (module_id m) id); [apply negb_involutive|done].
Qed.

(** X20: handleConfirmExport offers for download the archive zipCourse gives
    for the selection, under the course name with every white space character
    replaced by an underscore and .zip appended, or curso.zip when the course
    name is empty; the file name holds no white space and is as long as the
    course name plus four; the object URL made for the download is revoked,
    so the store is left as it was, and the console holds what zipCourse
    wrote and nothing more. *)
Theorem X20_handleConfirmExport_downloads
    (selectedIds : list jsstring) (course : Course) (w : World) :
  urls_wf w ->
  exists name w',
    handleConfirmExport browser selectedIds (Some course) w
    = (Some {| download := name;
               href := fst (zipCourse browser course (Some selectedIds) w) |}, w')
    /\ name = match courseName (settings course) with
              | [] => str "curso.zip"
              | _ => replace_whitespace (courseName (settings course)) ++ str ".zip"
              end
    /\ length name = (match courseName (settings course) with
                      | [] => 5
                      | _ => length (courseName (settings course))
                      end + 4)%nat
    /\ Forall (fun c => isWhiteSpace c = false) name
    /\ object_urls w' = object_urls w
    /\ console w' = console (snd (zipCourse browser course (Some selectedIds) w)).
Proof.
  intros Hwf.
  destruct (zipCourse_entries_spec browser course (Some selectedIds) w Hwf)
    as (doc & w1 & _ & Hspec & Hstore & Hwf1).
  unfold handleConfirmExport, with_revoked_url, zipCourse, bind, ret. rewrite Hspec.
  cbn [object_urls next_url console fst snd].
  eexists _, _. split; [reflexivity|].
  split.
  { unfold replace_whitespace. by destruct (courseName (settings course)). }
  split.
  { unfold replace_whitespace.
    destruct (courseName (settings course)) as [|c s]; [done|].
    cbn [or_default map]. rewrite length_app. cbn [length]. rewrite length_map.
    reflexivity. }
  split.
  { apply Forall_app. split; [|repeat constructor].
    pose proof (replace_whitespace_clean (courseName (settings course))) as Hclean.
    unfold or_default. destruct (replace_whitespace _) eqn:E; [|done].
    repeat constructor. }
  split; [|reflexivity].
  rewrite <- Hstore. apply delete_id.
  apply urls_wf_fresh; [done|]. lia.
Qed.

End ExportFromTheApp.

Lemma X20_handleConfirmExport_downloads_witness :
  exists w',
    handleConfirmExport Sample.browser [str "m1"] (Some Sample.full_course) Sample.fresh_world
    = (Some {| download := str "Novo_Curso_Sem_T" ++ [0xED] ++ str "tulo.zip";
               href := fst (zipCourse Sample.browser Sample.full_course (Some [str "m1"])
                              Sample.fresh_world) |}, w')
    /\ object_urls w' = ∅.
Proof.
  destruct (X20_handleConfirmExport_downloads Sample.browser [str "m1"] Sample.full_course
              Sample.fresh_world urls_wf_fresh_world)
    as (name & w' & Hrun & -> & _ & _ & Hstore & _).
  exists w'. split; [exact Hrun|exact Hstore].
Defined.

(** ** Saving while editing *)

Lemma debouncedSave_timers (courseToSave : Course) (now : N) (app : App) :
  debounce_inv app ->
  timers (debouncedSave courseToSave now app)
  = {[ next_timer app := {| due := now + 1000; timer_course := courseToSave |} ]}.
Proof.
  intros (Hpos & Href & Hset). unfold debouncedSave. cbn [timers].
  apply map_eq. intros id. destruct (decide (id = next_timer app)) as [->|Hne].
  - by rewrite lookup_insert_eq, lookup_singleton_eq.
  - rewrite lookup_insert_ne, lookup_singleton_ne by done.
    destruct (debounceTimeoutRef app) as [ref|] eqn:Eref.
    + destruct (Href ref eq_refl) as [Hlow _].
      replace (ref =? 0) with false by (symmetry; apply N.eqb_neq; lia).
      unfold clearTimeout. destruct (decide (id = ref)) as [->|Hne'].
      * apply lookup_delete_eq.
      * rewrite lookup_delete_ne by done.
        destruct (timers app !! id) eqn:E; [|done].
        assert (Some ref = Some id) by (apply Hset; by eexists). congruence.
    + destruct (timers app !! id) eqn:E; [|done].
      assert (@None N = Some id) by (apply Hset; by eexists). congruence.
Qed.

Lemma debouncedSave_inv (courseToSave : Course) (now : N) (app : App) :
  debounce_inv app -> debounce_inv (debouncedSave courseToSave now app).
Proof.
  intros Hinv. pose proof (debouncedSave_timers courseToSave now app Hinv) as Ht.
  destruct Hinv as (Hpos & Href & Hset). split; [|split].
  - cbn. lia.
  - cbn. intros id [= <-]. lia.
  - intros id [t Hid]. rewrite Ht in Hid.
    apply lookup_singleton_Some in Hid as [<- _]. reflexivity.
Qed.

Lemma timeout_inv (id now : N) (app app' : App) :
  debounce_inv app -> timeout id now app = Some app' -> debounce_inv app'.
Proof.
  intros (Hpos & Href & Hset). unfold timeout.
  destruct (timers app !! id) as [t|]; [|done].
  destruct (due t <=? now); [|done].
  destruct (saveCourse _ _) as [saved idb]. intros [= <-].
  split; [done|]. split; [done|]. cbn. intros id' [t' Hid'].
  apply lookup_delete_Some in Hid' as [_ Hid']. apply Hset. by eexists.
Qed.

(** X21: the App never has more than one save pending, and it is for the
    latest course.  On a page whose only timers are those of debouncedSave,
    handleSetCourse with a state that resolves to a course sets the course,
    saves nothing itself and leaves exactly one timer set, the one it made,
    due 1000 ms later, for that course: a save scheduled by an earlier call is
    cancelled.  The callback of that timer runs no earlier than when it is
    due; when it runs it calls saveCourse on that course, writing an error to
    the console when the save fails, and leaves no timer set; on a database
    that is absent or set up, getCourse then returns the course without its
    files. *)
Theorem X21_debounced_save_keeps_the_last
    (newCourseState : SetStateAction) (resolvedCourse : Course) (now : N) (app : App) :
  debounce_inv app ->
  resolved newCourseState (app_course app) = Some resolvedCourse ->
  let app1 := handleSetCourse newCourseState now app in
  debounce_inv app1
  /\ app_course app1 = Some resolvedCourse
  /\ app_idb app1 = app_idb app
  /\ timers app1
     = {[ next_timer app := {| due := now + 1000; timer_course := resolvedCourse |} ]}
  /\ (forall id later,
        timeout id later app1
        = if decide (id = next_timer app /\ now + 1000 <= later) then
            Some {| app_course := Some resolvedCourse;
                    debounceTimeoutRef := Some (next_timer app);
                    timers := ∅;
                    next_timer := N.succ (next_timer app);
                    app_idb := snd (saveCourse resolvedCourse (app_idb app));
                    app_console :=
                      match fst (saveCourse resolvedCourse (app_idb app)) with
                      | Ok _ => app_console app
                      | Throw _ =>
                          app_console app ++ [(LogError, str "Failed to save course to DB")]
                      end |}
          else None)
  /\ (forall id later app2, timeout id later app1 = Some app2 -> debounce_inv app2)
  /\ (db_ready (app_idb app) ->
      fst (getCourse (course_id resolvedCourse)
             (snd (saveCourse resolvedCourse (app_idb app))))
      = Ok (VObj (Course_props (without_files resolvedCourse)))).
Proof.
  intros Hinv Hresolved app1.
  set (app0 := {| app_course := Some resolvedCourse;
                  debounceTimeoutRef := debounceTimeoutRef app;
                  timers := timers app;
                  next_timer := next_timer app;
                  app_idb := app_idb app;
                  app_console := app_console app |}).
  assert (Happ1 : app1 = debouncedSave resolvedCourse now app0).
  { unfold app1, handleSetCourse. cbv zeta. by rewrite Hresolved. }
  assert (Hinv0 : debounce_inv app0) by exact Hinv.
  pose proof (debouncedSave_timers resolvedCourse now app0 Hinv0) as Ht.
  rewrite <- Happ1 in Ht. change (next_timer app0) with (next_timer app) in Ht.
  split; [rewrite Happ1; by apply debouncedSave_inv|].
  split; [by rewrite Happ1|]. split; [by rewrite Happ1|]. split; [exact Ht|].
  split; [|split].
  - intros id later. unfold timeout. rewrite Ht.
    destruct (decide (id = next_timer app)) as [->|Hne].
    + rewrite lookup_singleton_eq. cbn [due timer_course].
      destruct (N.leb_spec (now + 1000) later) as [Hle|Hlt].
      * rewrite decide_True by done.
        replace (app_idb app1) with (app_idb app) by (by rewrite Happ1).
        destruct (saveCourse resolvedCourse (app_idb app)) as [saved idb].
        cbn [fst snd]. rewrite delete_singleton_eq. by rewrite Happ1.
      * rewrite decide_False; [done|]. intros [_ H]. lia.
    + rewrite lookup_singleton_ne by done. rewrite decide_False; [done|]. by intros [H _].
  - intros id later app2. apply timeout_inv. rewrite Happ1. by apply debouncedSave_inv.
  - intros Hready.
    destruct (openDB_ready _ Hready) as (db & store & idb1 & Hopen & Hstore & Hdb & Hv & _).
    rewrite (saveCourse_run resolvedCourse _ idb1 db store Hopen Hstore). cbn [snd].
    erewrite getCourse_run;
      [|apply lookup_insert_eq|exact Hv|cbn [objectStores]; apply lookup_insert_eq].
    cbn [fst]. by rewrite lookup_insert_eq.
Qed.

Lemma X21_debounced_save_keeps_the_last_witness :
  let first := handleSetCourse (NewState (Some Sample.empty_course)) 0 Sample.starting_app in
  let second := handleSetCourse (NewState (Some Sample.full_course)) 900 first in
  timers second = {[ 2 := {| due := 1900; timer_course := Sample.full_course |} ]}
  /\ timeout 1 1000 second = None
  /\ app_idb second = ∅.
Proof.
  intros first second.
  assert (Hinv : debounce_inv Sample.starting_app).
  { split; [done|]. split; [done|]. intros id [t Ht].
    unfold Sample.starting_app in Ht. cbn [timers] in Ht. by rewrite lookup_empty in Ht. }
  destruct (X21_debounced_save_keeps_the_last (NewState (Some Sample.empty_course))
              Sample.empty_course 0 Sample.starting_app Hinv eq_refl) as (Hinv1 & _).
  destruct (X21_debounced_save_keeps_the_last (NewState (Some Sample.full_course))
              Sample.full_course 900 first Hinv1 eq_refl) as (_ & _ & Hidb & Ht & Hfire & _).
  split; [exact Ht|]. split; [|exact Hidb].
  unfold second. rewrite (Hfire 1 1000). apply decide_False. intros [H _]. discriminate H.
Defined.

(** * Properties of the student page (StudentPage.tsx) *)

Lemma count_loop (answers : Answers) (questions : list QuizQuestion) (n : N) :
  fold_left (fun newScore q => if answered_correctly answers q then newScore + 1 else newScore)
    questions n
  = n + N.of_nat (length (List.filter (answered_correctly answers) questions)).
Proof.
  revert n. induction questions as [|q questions IH]; intros n; cbn [fold_left List.filter].
  - cbn. lia.
  - rewrite IH. destruct (answered_correctly answers q); cbn [length]; lia.
Qed.

Lemma score_count (course : Course) (answers : Answers) :
  score course answers
  = N.of_nat (length (List.filter (answered_correctly answers) (quiz_questions course))).
Proof.
  unfold score, quiz_questions.
  assert (H : forall n,
    fold_left
      (fun newScore mod_ =>
         match module_payload mod_ with
         | QuizModule questions =>
             fold_left
               (fun newScore q =>
                  if answered_correctly answers q then newScore + 1 else newScore)
               questions newScore
         | _ => newScore
         end) (modules course) n
    = n + N.of_nat (length (List.filter (answered_correctly answers)
                              (concat (map (fun mod_ => match module_payload mod_ with
                                                       | QuizModule questions => questions
                                                       | _ => []
                                                       end) (modules course)))))).
  { induction (modules course) as [|m l IH]; intros n; cbn [fold_left map concat].
    - cbn. lia.
    - rewrite IH, List.filter_app, length_app.
      destruct (module_payload m); cbn [List.filter length]; try lia.
      rewrite count_loop. lia. }
  rewrite H. lia.
Qed.

(** X22: the score is the number of questions of the quiz modules, counted
    with their repetitions, for which the answers object has an own property
    under the question's id whose value is the question's correctOptionId; it
    never exceeds the number of those questions and is 0 while nothing is
    answered.  Properties inherited from Object.prototype never count. *)
Theorem X22_score_counts_correct_answers (course : Course) (answers : Answers) :
  score course answers
  = N.of_nat (length (List.filter
                        (fun q => bool_decide (answers !! question_id q
                                               = Some (question_correctOptionId q)))
                        (quiz_questions course)))
  /\ score course answers <= N.of_nat (length (quiz_questions course))
  /\ score course ∅ = 0.
Proof.
  assert (Hc : forall a q, answered_correctly a q
                 = bool_decide (a !! question_id q = Some (question_correctOptionId q))).
  { intros a q. unfold answered_correctly, read_answer.
    destruct (a !! question_id q) as [v|] eqn:E.
    - unfold jsstring_eqb. apply bool_decide_ext. split; [by intros ->|by intros [= ->]].
    - rewrite bool_decide_eq_false_2 by done. by destruct (includes _ _). }
  rewrite !score_count. split; [|split].
  - do 2 f_equal. apply filter_ext. intros q. apply Hc.
  - pose proof (filter_length_le (answered_correctly answers) (quiz_questions course)). lia.
  - rewrite (filter_ext _ (fun _ => false)).
    + by induction (quiz_questions course).
    + intros q. rewrite Hc. rewrite lookup_empty. by apply bool_decide_eq_false_2.
Qed.

Lemma filter_length_mono {A} (p p' : A -> bool) (l : list A) :
  (forall x, In x l -> p x = true -> p' x = true) ->
  (length (List.filter p l) <= length (List.filter p' l))%nat.
Proof.
  induction l as [|x l IH]; intros H; cbn [List.filter]; [done|].
  assert (IH' : (length (List.filter p l) <= length (List.filter p' l))%nat).
  { apply IH. intros y Hy. apply H. by right. }
  destruct (p x) eqn:Hp.
  - rewrite (H x (or_introl eq_refl) Hp). cbn [length]. lia.
  - destruct (p' x); cbn [length]; lia.
Qed.

(** X23: an answer is final.  Provided the answer recorded for the question,
    if any, is not the empty string, a click on an option of a question that
    already has an answer changes nothing; a click never changes the answer
    of another question and never removes or replaces a recorded answer; and
    the score never goes down. *)
Theorem X23_selectOption_is_final
    (course : Course) (q : QuizQuestion) (opt : QuizOption) (answers : Answers) :
  answers !! question_id q <> Some [] ->
  (forall value, answers !! question_id q = Some value ->
     selectOption q opt answers = answers)
  /\ (forall id, id <> question_id q ->
        selectOption q opt answers !! id = answers !! id)
  /\ (forall id value, answers !! id = Some value ->
        selectOption q opt answers !! id = Some value)
  /\ score course answers <= score course (selectOption q opt answers).
Proof.
  intros Hne.
  assert (Hfinal : forall value, answers !! question_id q = Some value ->
                     selectOption q opt answers = answers).
  { intros value Hv. unfold selectOption, isAnswered, read_answer. rewrite Hv.
    destruct value; [by rewrite Hv in Hne|done]. }
  assert (Hother : forall id, id <> question_id q ->
                     selectOption q opt answers !! id = answers !! id).
  { intros id Hid. unfold selectOption. destruct (isAnswered answers q); [done|].
    by rewrite lookup_insert_ne. }
  assert (Hkept : forall id value, answers !! id = Some value ->
                    selectOption q opt answers !! id = Some value).
  { intros id value Hv. destruct (decide (id = question_id q)) as [->|Hid].
    - by rewrite (Hfinal value Hv).
    - by rewrite Hother. }
  split; [exact Hfinal|]. split; [exact Hother|]. split; [exact Hkept|].
  rewrite !score_count.
  assert (Hle : (length (List.filter (answered_correctly answers) (quiz_questions course))
                 <= length (List.filter (answered_correctly (selectOption q opt answers))
                              (quiz_questions course)))%nat); [|lia].
  apply filter_length_mono. intros q' _.
  unfold answered_correctly, read_answer.
  destruct (answers !! question_id q') as [v|] eqn:Hv; [|by destruct (includes _ _)].
  by rewrite (Hkept _ _ Hv).
Qed.

Lemma X23_selectOption_is_final_witness :
  let first := {| option_id := str "a"; option_text := str "4" |} in
  let second := {| option_id := str "b"; option_text := str "5" |} in
  selectOption Sample.three_options second (selectOption Sample.three_options first ∅)
  = selectOption Sample.three_options first ∅.
Proof.
  intros first second.
  apply (X23_selectOption_is_final Sample.empty_course Sample.three_options second
           (selectOption Sample.three_options first ∅))
    with (value := str "a").
  - by vm_compute.
  - reflexivity.
Defined.

(** X24: while the current index is within the modules, handleNext and
    handlePrev keep it there; handleNext shows the results exactly when they
    were shown already or the current module is the last one, in which case
    the index stays; handlePrev never changes whether the results are shown;
    and going back and then forward from any module but the first returns to
    the same place. *)
Theorem X24_navigation_stays_in_range (course : Course) (p : Position) :
  (currentModuleIndex p < length (modules course))%nat ->
  (currentModuleIndex (handleNext course p) < length (modules course))%nat
  /\ (currentModuleIndex (handlePrev p) < length (modules course))%nat
  /\ (showResults (handleNext course p) = true
      <-> showResults p = true \/ S (currentModuleIndex p) = length (modules course))
  /\ showResults (handlePrev p) = showResults p
  /\ (currentModuleIndex p <> 0%nat ->
      handleNext course (handlePrev p)
      = {| currentModuleIndex := currentModuleIndex p; showResults := showResults p |}).
Proof.
  intros Hlt. split; [|split; [|split; [|split]]].
  - unfold handleNext, isLast.
    destruct (Z.eqb_spec (Z.of_nat (currentModuleIndex p))
                (Z.of_nat (length (modules course)) - 1)); cbn [currentModuleIndex]; lia.
  - unfold handlePrev, isFirst.
    destruct (Nat.eqb_spec (currentModuleIndex p) 0); cbn [negb currentModuleIndex]; lia.
  - unfold handleNext, isLast.
    destruct (Z.eqb_spec (Z.of_nat (currentModuleIndex p))
                (Z.of_nat (length (modules course)) - 1)); cbn [showResults].
    + split; [intros _; right; lia|done].
    + split; [by left|]. intros [H|H]; [done|lia].
  - unfold handlePrev. by destruct (negb (isFirst p)).
  - intros Hfirst. unfold handlePrev, isFirst.
    destruct (Nat.eqb_spec (currentModuleIndex p) 0); [done|]. cbn [negb].
    unfold handleNext, isLast. cbn [currentModuleIndex showResults].
    destruct (Z.eqb_spec (Z.of_nat (currentModuleIndex p - 1))
                (Z.of_nat (length (modules course)) - 1)); [lia|].
    f_equal. lia.
Qed.

Lemma X24_navigation_stays_in_range_witness :
  (currentModuleIndex (handleNext Sample.full_course Sample.first_position)
   < length (modules Sample.full_course))%nat
  /\ showResults (handlePrev Sample.first_position) = false.
Proof.
  destruct (X24_navigation_stays_in_range Sample.full_course Sample.first_position)
    as (H1 & _ & _ & H4 & _).
  - cbn. lia.
  - split; [exact H1|exact H4].
Defined.

Lemma find_filter_other {A} (p q : A -> bool) (l : list A) :
  (forall x, p x = true -> q x = true) ->
  List.find p (List.filter q l) = List.find p l.
Proof.
  intros H. induction l as [|x l IH]; cbn [List.filter List.find]; [done|].
  destruct (q x) eqn:Hq; cbn [List.find].
  - by rewrite IH.
  - destruct (p x) eqn:Hp; [|done]. rewrite (H x Hp) in Hq. discriminate Hq.
Qed.

Lemma find_filter_none {A} (p q : A -> bool) (l : list A) :
  (forall x, q x = true -> p x = false) ->
  List.find p (List.filter q l) = None.
Proof.
  intros H. induction l as [|x l IH]; cbn [List.filter List.find]; [done|].
  destruct (q x) eqn:Hq; cbn [List.find]; [|done]. by rewrite (H x Hq).
Qed.

Lemma find_app {A} (p : A -> bool) (l k : list A) :
  List.find p (l ++ k)
  = match List.find p l with Some x => Some x | None => List.find p k end.
Proof.
  induction l as [|x l IH]; cbn [app List.find]; [done|]. by destruct (p x).
Qed.

Lemma Pose_tag_inj (a b : Pose) : Pose_tag a = Pose_tag b -> a = b.
Proof. destruct a, b; intros H; try reflexivity; apply str_inj in H; discriminate H. Qed.

(** X25: the student page shows what the mascot editor set.  After the
    editor's handleFileChange accepts a PNG file for a pose, MascotDisplay
    shows for that pose the object URL made for the file, under which the
    store holds the file, and for every other pose what it showed before;
    after removePose for that pose, MascotDisplay falls back to the built-in
    image of the pose and the other poses are again unaffected. *)
Theorem X25_MascotDisplay_follows_the_editor
    (file : Blob) (pose : Pose) (prev : Course) (w : World) :
  blob_type file = str "image/png" ->
  exists next w' removed,
    handleFileChange (Some file) (Pose_tag pose) (Some prev) w = (Some next, w')
    /\ MascotDisplay next pose = blob_url (next_url w)
    /\ object_urls w' !! MascotDisplay next pose = Some file
    /\ (forall other, other <> pose -> MascotDisplay next other = MascotDisplay prev other)
    /\ removePose (Pose_tag pose) (Some next) = Some removed
    /\ MascotDisplay removed pose = FALLBACK_MASCOTS pose
    /\ (forall other, other <> pose -> MascotDisplay removed other = MascotDisplay prev other).
Proof.
  intros Htype. unfold handleFileChange. rewrite Htype, jsstring_eqb_refl. cbn [negb].
  unfold bind, createObjectURL, ret, add_pose_update, removePose, remove_pose_update.
  eexists _, _, _. split; [reflexivity|].
  assert (Hother : forall other l, other <> pose ->
            List.find (fun m => jsstring_eqb (pose_type m) (Pose_tag other))
              (List.filter (fun m => negb (jsstring_eqb (pose_type m) (Pose_tag pose))) l)
            = List.find (fun m => jsstring_eqb (pose_type m) (Pose_tag other)) l).
  { intros other l Hne. apply find_filter_other. intros m Hm.
    apply jsstring_eqb_eq in Hm. apply negb_true_iff, jsstring_eqb_neq.
    rewrite Hm. intros Heq. by apply Pose_tag_inj in Heq. }
  assert (Hnew : forall other, other <> pose ->
            jsstring_eqb (Pose_tag pose) (Pose_tag other) = false).
  { intros other Hne. apply jsstring_eqb_neq. intros Heq. by apply Pose_tag_inj in Heq. }
  unfold MascotDisplay. cbn [mascot with_mascot object_urls].
  assert (Hnone : forall l,
            List.find (fun m => jsstring_eqb (pose_type m) (Pose_tag pose))
              (List.filter (fun m => negb (jsstring_eqb (pose_type m) (Pose_tag pose))) l)
            = None).
  { intros l. apply find_filter_none. intros m Hm. by apply negb_true_iff in Hm. }
  rewrite !find_app, Hnone.
  cbn [List.find pose_type pose_blobUrl].
  rewrite jsstring_eqb_refl.
  split; [reflexivity|]. split; [apply lookup_insert_eq|].
  split.
  { intros other Hne. rewrite find_app, Hother by done.
    cbn [List.find pose_type]. rewrite (Hnew other Hne).
    by destruct (List.find _ (mascot prev)). }
  split; [reflexivity|].
  rewrite List.filter_app, filter_idem.
  match goal with
  | |- context [List.filter ?q [?x]] =>
      replace (List.filter q [x]) with (@nil MascotPose)
        by (cbn [List.filter pose_type]; by rewrite jsstring_eqb_refl)
  end.
  rewrite app_nil_r. cbn [mascot with_mascot]. rewrite Hnone.
  split; [reflexivity|].
  intros other Hne. by rewrite Hother.
Qed.

Lemma X25_MascotDisplay_follows_the_editor_witness :
  exists next w' removed,
    handleFileChange (Some Sample.png_upload) (str "happy") (Some Sample.empty_course)
      Sample.fresh_world = (Some next, w')
    /\ MascotDisplay next pose_happy = blob_url 0
    /\ removePose (str "happy") (Some next) = Some removed
    /\ MascotDisplay removed pose_happy = str "https://i.imgur.com/oaZ8vKr.png".
Proof.
  destruct (X25_MascotDisplay_follows_the_editor Sample.png_upload pose_happy
              Sample.empty_course Sample.fresh_world)
    as (next & w' & removed & H1 & H2 & _ & _ & H5 & H6 & _).
  - reflexivity.
  - exists next, w', removed. split; [exact H1|]. split; [exact H2|].
    split; [exact H5|exact H6].
Defined.

(** ** The embedded video *)

Lemma startsWith_spec (p s : jsstring) :
  startsWith p s = true <-> exists post, s = p ++ post.
Proof.
  revert s. induction p as [|a p IH]; intros s; cbn [startsWith].
  - split; [intros _; by exists s|done].
  - destruct s as [|b s].
    + split; [done|]. by intros (post & H).
    + rewrite andb_true_iff, N.eqb_eq, IH. split.
      * intros (-> & post & ->). by exists post.
      * intros (post & [= -> ->]). split; [done|]. by exists post.
Qed.

Lemma String_replace_none (p r s : jsstring) :
  (forall pre post, s <> pre ++ p ++ post) -> String_replace p r s = s.
Proof.
  induction s as [|c s IH]; intros Hnone.
  - cbn [String_replace]. destruct (startsWith p []) eqn:E; [|done].
    apply startsWith_spec in E as (post & E). by destruct (Hnone [] post).
  - cbn [String_replace]. destruct (startsWith p (c :: s)) eqn:E.
    + apply startsWith_spec in E as (post & E). by destruct (Hnone [] post).
    + f_equal. apply IH. intros pre post ->. by apply (Hnone (c :: pre) post).
Qed.

Lemma String_replace_unfold (p r s : jsstring) :
  String_replace p r s
  = if startsWith p s then r ++ drop (length p) s
    else match s with
         | [] => []
         | c :: rest => c :: String_replace p r rest
         end.
Proof. by destruct s. Qed.

Lemma String_replace_first (p r pre post : jsstring) :
  (forall pre' post', pre ++ p ++ post = pre' ++ p ++ post' ->
     (length pre <= length pre')%nat) ->
  String_replace p r (pre ++ p ++ post) = pre ++ r ++ post.
Proof.
  induction pre as [|c pre IH]; intros Hfirst.
  - cbn [app]. rewrite String_replace_unfold.
    replace (startsWith p (p ++ post)) with true
      by (symmetry; apply startsWith_spec; by exists post).
    by rewrite drop_app_length.
  - cbn [app]. rewrite String_replace_unfold.
    destruct (startsWith p (c :: pre ++ p ++ post)) eqn:E.
    + apply startsWith_spec in E as (post' & E).
      specialize (Hfirst [] post' E). cbn in Hfirst. lia.
    + f_equal. apply IH. intros pre' post' E'.
      specialize (Hfirst (c :: pre') post'). cbn [app length] in Hfirst.
      rewrite E' in Hfirst. specialize (Hfirst eq_refl). lia.
Qed.

(** X26: the student page renders no iframe for a module that is not a video
    module with source url and a non-empty url; otherwise the src of the
    iframe is the url with its first occurrence of watch?v= replaced by
    embed/ (what comes before and after it is kept, later occurrences
    included), and a url without watch?v= is the src unchanged. *)
Theorem X26_video_src_embeds_first_watch (mod_ : Module) :
  match module_payload mod_ with
  | VideoModule SourceUrl (Some url) _ =>
      match url with
      | [] => video_src mod_ = None
      | _ =>
          exists src,
            video_src mod_ = Some src
            /\ ((forall pre post, url <> pre ++ str "watch?v=" ++ post) -> src = url)
            /\ (forall pre post,
                  url = pre ++ str "watch?v=" ++ post ->
                  (forall pre' post', url = pre' ++ str "watch?v=" ++ post' ->
                     (length pre <= length pre')%nat) ->
                  src = pre ++ str "embed/" ++ post)
      end
  | _ => video_src mod_ = None
  end.
Proof.
  unfold video_src. destruct (module_payload mod_) as [c|s u f|qs|cs|es|ss]; try reflexivity.
  destruct s; [|reflexivity]. destruct u as [[|c url]|]; try reflexivity.
  eexists. split; [reflexivity|]. split.
  - intros Hnone. by apply String_replace_none.
  - intros pre post Hurl Hfirst. rewrite Hurl. apply String_replace_first.
    intros pre' post' E. apply (Hfirst pre' post'). by rewrite Hurl.
Qed.
